(* ===== verification/_CoqProject ===== *)
-Q . S2P
Prelude.v
L4Math.v
Addr.v
Bits.v
AddrTrans.v
Gbits.v
Cap.v
AsLookup.v
AsBuild.v
AsPath.v
AsInsert.v
AsBuildOk.v
Zalloc.v
Reserve.v
Quadratic.v
Ihash.v
BitArray.v
Ring.v
KList.v
WaitQueue.v
Futex.v
Claim.v
Inherit.v
Reclaim.v
Folio.v
Objects.v
Accounts.v
ObjectsOk.v
Pool.v
Revoke.v
SmallKernel.v
PtQueue.v
PtSched.v
PtRwlock.v
PtBarrier.v
PtCond.v
PtMutex.v
PtSem.v
