(* ===== verification/Prelude.v ===== *)
(** * Viengoos and its libraries: a verification library

    The repository is the Hurd on L4: the kernel Viengoos ([src/viengoos]), a
    user-level server above the L4 microkernel that owns all memory, and the
    libraries that programs above it use.  The library models the parts that
    hold the system's own logic and proves what each of them promises.  The
    target is ia32: words have 32 bits, pages 4096 bytes; the builds have
    assertions enabled (no NDEBUG, no NCHECK), so an assertion that fails is an
    outcome of the model ([Crash assertion_failed]).

    ** How the parts fit together

    A program names an object by an address, a string of at most 63 bits
    ([Addr]), which the page tables of its address space translate slot by slot
    ([AsLookup]); each slot is a capability ([Cap]) whose descriptor says how
    many bits it translates ([AddrTrans]).  Programs make room for new objects
    by inserting page tables ([AsBuild]); where they are put is computed by
    [Gbits].  [L4Math] and [Bits] are the bit operations all of them
    use.  The kernel hands out physical frames by a buddy allocator ([Zalloc])
    and finds objects in memory by a hash table ([Ihash]).  Everything that is
    allocated is kept in bit arrays ([BitArray]), everything that waits or may
    be evicted on linked lists ([KList]).  Who pays for a frame, and on which
    list it is, is decided when an activity claims an object ([Claim]), when an
    activity is destroyed ([Inherit]) and when the pager takes frames back
    ([Reclaim]).  Objects are
    stored in folios, whose header ([Folio]) says what each one is; finding an
    object, making room for it, allocating and destroying it, and revoking what
    its capabilities map are functions that call each other ([Objects]), on top
    of the accounting and the frames, which they know by interfaces only
    ([Accounts], [Pool]).  Threads wait for an object on its wait queue ([WaitQueue]),
    and futexes ([Futex]) are built from these; user-space threads wait on the
    queues of libpthread ([PtQueue]), of which mutexes ([PtMutex]), semaphores
    ([PtSem]), and, with the blocking and waking that they share ([PtSched]),
    reader-writer locks ([PtRwlock]), barriers ([PtBarrier]) and condition
    variables ([PtCond]) are made.

    ** Files, sources, definitions

    - [Prelude]: notation, machine integers ([u32], [i32], [wrap], [swrap]), the
      monad [exec] of code that can crash ([Ret], [Crash]), function update, and
      the tactics and hints all files share.
    - [L4Math]: [libl4/l4/math.h]; [Bits]: [libhurd-mm/bits.h];
      [Addr]: [hurd/addr.h]; [AddrTrans]: [hurd/addr-trans.h];
      [Gbits]: [libhurd-mm/as-compute-gbits.h].  Pure functions, one definition
      per function or macro, under its own name.
    - [Cap]: [hurd/cap.h].  [cap_copy_x] for the kernel and for user space; the
      call of [cap_shootdown] and the RPC are arguments.
    - [AsLookup]: [libhurd-mm/as-lookup.c], [as_lookup_rel]; the address space
      is a heap of arrays of capabilities.  [resolves] is the specification.
    - [AsBuild]: [libhurd-mm/as-build.c], [as_build] with the default indexing,
      on the same address spaces.  Whether the kernel's capabilities agree with
      the shadows and the callback that allocates page tables are arguments
      ([AsInsert.allocates] is what is asked of the callback).  [AsPath] has the
      paths from slot to slot and what a page table put in between does to them,
      [AsInsert] and [AsBuildOk] the theorems.
    - [Zalloc]: [viengoos/zalloc.c]; the heap holds the links of the free blocks.
    - [Reserve]: [viengoos/memory.c]: reservations of memory, and what of the
      machine's memory the pool gets.  The tree of reservations is its nodes in order;
      the search in it, which depends on the tree's shape, is an argument.
    - [Quadratic], [Ihash]: [libhurd-ihash]; the first is the number theory of
      its probe sequence.
    - [BitArray]: [libbitarray/bit-array.h].
    - [Ring], [KList]: [viengoos/list.h]; the first is shared by all the doubly
      linked structures.
    - [WaitQueue]: [viengoos/object.c] (the object_wait_queue functions) and the loop of
      folio_object_alloc that wakes the waiters of a dying object.
    - [Futex]: the request RM_futex of [viengoos/server.c] and [hurd/futex.h].
    - [Claim]: [viengoos/object.c] (object_desc_claim) and [viengoos/activity.h].
    - [Inherit]: the part of [viengoos/activity.c] (activity_destroy) that gives
      the frames of a dead activity to its parent.
    - [Reclaim]: [viengoos/pager.c] (reclaim_from).
    - [Folio]: the accessors of [hurd/folio.h]; [slot_of] is what a header says
      about an object.
    - [Objects]: [viengoos/object.c] (finding, allocating and destroying objects,
      folio_object_alloc), [viengoos/memory.c] (frames) and [viengoos/cap.c].
      The recursion of object_find and cap_shootdown through each other has the
      depth of the calls as fuel.  The state is [ostate]: descriptors, hash table,
      contents of the pages, pool and accounting.
    - [Accounts]: the laws that objects need of the accounting, proved of [Claim];
      [Pool]: those of the frames, proved of [Zalloc].
    - [ObjectsOk]: the invariant [ok] of objects in memory and what every function
      of [Objects] does to it; [Revoke]: the theorems about capabilities that
      follow; [SmallKernel]: the interfaces filled in for 16 frames, witnesses,
      and runs that go wrong.
    - [PtQueue]: [libpthread/pthread/pt-internal.h]; an interface (class
      [WaitQueues] with laws [WaitQueueLaws]) and its implementation by pointers.
    - [PtSched]: what a thread does between a critical section and its wakeups, for
      any object with queues: the steps ([wake_step]), the invariant ([sched]) and
      that every wakeup that is owed happens.
    - [PtMutex], [PtSem], [PtRwlock], [PtBarrier], [PtCond]:
      [libpthread/sysdeps/generic] (the pt-mutex, sem, pt-rwlock, pt-barrier and
      pt-cond files); a step relation interleaves the critical sections of any
      number of threads.  The last three are proved against [PtSched].

    ** What is proved

    - Round trips and bounds of addresses, guards and policies; where an
      encoding loses information this is stated and proved as well.
    - Capabilities: a copy never gives more authority than its source has.
    - Kernel: as long as what may be evicted is flat, a capability resolves exactly
      if it is valid, to an object of a compatible type (or an assertion on types
      fails); allocating an object revokes all capabilities to the one it replaces
      and no others, until the 20 bits of the version wrap.
    - Address lookup: it returns what the tables resolve the address to, never
      more than the rights on the path, in at most as many steps as the address
      has bits.
    - Address-space construction, with and without leave to overwrite: a slot that
      is returned is found by a lookup, and every other object keeps its address;
      the lookups by which the code checks itself fail only at an object of a
      folio that may be overwritten.
    - Allocators and containers refine their abstract state: the buddy allocator
      a set of pages, the hash a finite map, bit arrays sets of numbers, kernel
      lists and wait queues families of lists.
    - Physical memory: the pool gets exactly the pages no reservation touches, at
      boot and when reservations end.
    - Accounting: claiming, inheriting and reclaiming keep the counters of all
      activities exact.
    - Synchronisation: mutual exclusion, of writers from readers too, no lost
      wakeups, conservation of a semaphore's value, complete rounds of a barrier
      and the atomicity of waiting for a condition, over all interleavings without
      time limits; waiting and waking by futex.
    - Flaws: each one that modelling found is stated as a theorem where it is a
      matter of the model, with a concrete state in which it shows.

    ** Fuel and bounds

    Loops whose termination depends on the data take fuel and crash with
    [out_of_fuel] without it; the theorems say that the code returns for every
    fuel above an explicit bound (the bits of the address, the length of the list
    walked, the size of the table, the pages of the pool).  Counters and
    bit-fields wrap as the C types do; theorems about sums of counters assume
    that the frames fit in a word ([Claim.fits]).

    What is assumed of code that is an argument: the pager makes only flat
    objects available (no folios, and pages of capabilities that lead to no
    further ones) and leaves what is in memory there, and waking threads changes
    nothing but the accounting ([ObjectsOk.environment_laws]); what happens
    without the first is shown in [SmallKernel].  In [Objects] the memory of a
    dead descriptor is cleared at once instead of filled with a pattern.

    ** Not modelled

    Input and output, booting and the architecture's start code, the L4 bindings
    other than bit positions, generated stubs of RPCs, vendored code (malloc, the
    ELF headers, libc and newlib ports), test programs and the debugging output
    of the modelled functions.  Of the system's own logic: the kernel's dispatch
    of requests other than futexes, the allocation of folios, threads, the ager, the balanced trees of
    libhurd-btree (where they are used, the tree is the set of its nodes, or a list
    in its order), the pager's choice of a victim, the slab allocator, and the rest of
    libhurd-mm (the allocation of capability slots and storage, mappings and pagers)
    and libpthread. *)

From Stdlib Require Export ZArith Lia Bool.
From stdpp Require Export base option gmap numbers.
From stdpp Require Export functions.
From stdpp Require Export list sorting.

(** ** Notation scope and automation *)

Declare Scope hurd_scope.
Delimit Scope hurd_scope with hurd.
#[global] Open Scope Z_scope.

Create HintDb hurd.
Create Rewrite HintDb hurd_rw.

(** Equalities and inequalities of [Z] hidden in boolean tests. *)
Ltac zbool :=
  repeat match goal with
  | H : (_ && _)%bool = true |- _ => apply andb_true_iff in H as [? ?]
  | H : (_ || _)%bool = false |- _ => apply orb_false_iff in H as [? ?]
  | H : negb _ = true |- _ => apply negb_true_iff in H
  | H : negb _ = false |- _ => apply negb_false_iff in H
  | H : (_ =? _) = true |- _ => apply Z.eqb_eq in H
  | H : (_ =? _) = false |- _ => apply Z.eqb_neq in H
  | H : (_ <=? _) = true |- _ => apply Z.leb_le in H
  | H : (_ <=? _) = false |- _ => apply Z.leb_gt in H
  | H : (_ <? _) = true |- _ => apply Z.ltb_lt in H
  | H : (_ <? _) = false |- _ => apply Z.ltb_ge in H
  end.

(** Split on the first boolean test of the goal, keeping its equation in
    propositional form. *)
Ltac case_if :=
  match goal with
  | |- context [if ?b then _ else _] =>
      lazymatch type of b with
      | bool => let E := fresh "E" in destruct b eqn:E; zbool
      end
  end.

(** The same for a test in hypothesis [H]. *)
Ltac case_if_in H :=
  match type of H with
  | context [if ?b then _ else _] =>
      lazymatch type of b with
      | bool => let E := fresh "E" in destruct b eqn:E; zbool
      end
  end.

(** ** Assertions

    An [assert] of a build without [NDEBUG] that does not hold ends the
    program, so a definition that contains one returns [option]: [None] is
    "an assertion failed or the program panicked", never an error code. *)

Definition assertb (b : bool) : option unit := if b then Some tt else None.

Lemma assertb_Some b : assertb b = Some tt <-> b = true.
Proof. destruct b; cbn; split; congruence. Qed.

Lemma assertb_bind {A} (b : bool) (k : option A) (x : A) :
  (_ ← assertb b; k) = Some x <-> b = true /\ k = Some x.
Proof. destruct b; cbn; intuition congruence. Qed.

Lemma assertb_true {A} (b : bool) (k : option A) :
  b = true -> (_ ← assertb b; k) = k.
Proof. by intros ->. Qed.

Lemma assertb_false {A} (b : bool) (k : option A) :
  b = false -> (_ ← assertb b; k) = None.
Proof. by intros ->. Qed.

#[export] Hint Rewrite @assertb_true using (zbool; lia) : hurd_rw.

(** ** Machine integers

    Unsigned values are kept reduced, signed ones in two's complement. *)

Definition wrap (w z : Z) : Z := z mod 2 ^ w.
Definition u8 (z : Z) : Z := wrap 8 z.
Definition u32 (z : Z) : Z := wrap 32 z.
Definition u64 (z : Z) : Z := wrap 64 z.

(** Conversion to a [w]-bit signed integer. *)
Definition swrap (w z : Z) : Z := (z + 2 ^ (w - 1)) mod 2 ^ w - 2 ^ (w - 1).
Definition i32 (z : Z) : Z := swrap 32 z.

Lemma wrap_range w z : 0 <= w -> 0 <= wrap w z < 2 ^ w.
Proof. intros. unfold wrap. apply Z.mod_pos_bound. lia. Qed.

Lemma wrap_small w z : 0 <= z < 2 ^ w -> wrap w z = z.
Proof. intros. unfold wrap. by apply Z.mod_small. Qed.

Lemma wrap_wrap w z : 0 <= w -> wrap w (wrap w z) = wrap w z.
Proof. intros. apply wrap_small. by apply wrap_range. Qed.

Lemma swrap_small w z : 0 < w -> - 2 ^ (w - 1) <= z < 2 ^ (w - 1) -> swrap w z = z.
Proof.
  intros Hw Hz. unfold swrap.
  assert (2 ^ w = 2 * 2 ^ (w - 1)) as E by (rewrite <- Z.pow_succ_r by lia; f_equal; lia).
  rewrite Z.mod_small by lia. lia.
Qed.

Lemma i32_small z : - 2 ^ 31 <= z < 2 ^ 31 -> i32 z = z.
Proof. intros. unfold i32. apply swrap_small; lia. Qed.

Lemma u32_small z : 0 <= z < 2 ^ 32 -> u32 z = z.
Proof. apply wrap_small. Qed.

Lemma u64_small z : 0 <= z < 2 ^ 64 -> u64 z = z.
Proof. apply wrap_small. Qed.

Lemma u64_range z : 0 <= u64 z < 2 ^ 64.
Proof. apply (wrap_range 64); lia. Qed.

Lemma u32_range z : 0 <= u32 z < 2 ^ 32.
Proof. apply (wrap_range 32); lia. Qed.

#[export] Hint Resolve u64_range u32_range : hurd.

(** ** Bit-level lemmas *)

Lemma pow2_pos n : 0 <= n -> 0 < 2 ^ n.
Proof. intros. apply Z.pow_pos_nonneg; lia. Qed.

Lemma pow2_le a b : 0 <= a <= b -> 2 ^ a <= 2 ^ b.
Proof. intros. apply Z.pow_le_mono_r; lia. Qed.

Lemma pow2_split a b : 0 <= a -> 0 <= b -> 2 ^ (a + b) = 2 ^ a * 2 ^ b.
Proof. intros. apply Z.pow_add_r; lia. Qed.

(** A power of two written as a product at a lower exponent. *)
Lemma pow2_at a n : 0 <= a <= n -> 2 ^ n = 2 ^ (n - a) * 2 ^ a.
Proof. intros. rewrite <- pow2_split by lia. f_equal. lia. Qed.

#[export] Hint Resolve pow2_pos : hurd.

Lemma mask_ones n : 0 <= n -> 2 ^ n - 1 = Z.ones n.
Proof. intros. rewrite Z.ones_equiv. lia. Qed.

(** [x & ((1 << n) - 1)] *)
Lemma land_mask x n : 0 <= n -> Z.land x (2 ^ n - 1) = x mod 2 ^ n.
Proof. intros. rewrite mask_ones by done. by apply Z.land_ones. Qed.

(** [x & ~((1 << n) - 1)] *)
Lemma land_notmask x n : 0 <= n -> Z.land x (Z.lnot (2 ^ n - 1)) = x / 2 ^ n * 2 ^ n.
Proof.
  intros. rewrite mask_ones by done. rewrite <- Z.ldiff_land.
  rewrite Z.ldiff_ones_r by done.
  by rewrite Z.shiftl_mul_pow2, Z.shiftr_div_pow2.
Qed.

(** Bits that do not overlap: [|] is [+]. *)
Lemma land_low_high hi lo n :
  0 <= n -> 0 <= lo < 2 ^ n -> Z.land (hi * 2 ^ n) lo = 0.
Proof.
  intros Hn Hlo. apply Z.bits_inj'. intros i Hi. rewrite Z.land_spec, Z.bits_0.
  destruct (Z.ltb_spec i n).
  - by rewrite Z.mul_pow2_bits_low by lia.
  - replace lo with (lo mod 2 ^ n) by (apply Z.mod_small; lia).
    rewrite (Z.mod_pow2_bits_high lo n i) by lia. by rewrite andb_false_r.
Qed.

Lemma lor_low_high hi lo n :
  0 <= n -> 0 <= lo < 2 ^ n -> Z.lor (hi * 2 ^ n) lo = hi * 2 ^ n + lo.
Proof. intros. symmetry. apply Z.add_nocarry_lor. by apply land_low_high. Qed.

Lemma div_pow2_range x a b : 0 <= a -> 0 <= b -> 0 <= x < 2 ^ (a + b) -> 0 <= x / 2 ^ a < 2 ^ b.
Proof.
  intros Ha Hb Hx. rewrite pow2_split in Hx by done.
  pose proof (pow2_pos a Ha). split.
  - apply Z.div_pos; lia.
  - apply Z.div_lt_upper_bound; lia.
Qed.

Lemma mod_pow2_div x a : 0 <= a -> x = x / 2 ^ a * 2 ^ a + x mod 2 ^ a.
Proof. intros. pose proof (pow2_pos a). rewrite Z.mul_comm. apply Z.div_mod. lia. Qed.

(** ** Execution

    The result of running a function of the source that uses memory and may
    loop: a value, or how it goes wrong. *)

Inductive failure := assertion_failed | panicked | invalid_access | out_of_fuel.

Inductive exec (A : Type) := Ret (a : A) | Crash (f : failure).
Arguments Ret {A} _.
Arguments Crash {A} _.

#[export] Instance exec_ret : MRet exec := fun A a => Ret a.
#[export] Instance exec_bind : MBind exec := fun A B k m =>
  match m with Ret a => k a | Crash f => Crash f end.

Definition check (b : bool) (f : failure) : exec unit := if b then Ret tt else Crash f.

(** An access that the object it is made in allows. *)
Definition access {A} (o : option A) : exec A :=
  match o with Some a => Ret a | None => Crash invalid_access end.

Lemma exec_bind_Ret {A B} (m : exec A) (k : A -> exec B) (b : B) :
  (m ≫= k) = Ret b <-> exists a, m = Ret a /\ k a = Ret b.
Proof.
  destruct m as [a|f]; cbn; split; try done.
  - intros H. by exists a.
  - by intros (? & [= <-] & ?).
  - by intros (? & ? & ?).
Qed.

Lemma check_true {A} b f (k : exec A) : b = true -> (_ ← check b f; k) = k.
Proof. by intros ->. Qed.

Lemma access_Some {A B} (o : option A) a (k : A -> exec B) : o = Some a -> (x ← access o; k x) = k a.
Proof. by intros ->. Qed.

(** ** Functions updated at a point *)

Lemma fn_at `{EqDecision K} {A} (f : K -> A) a b c :
  (<[a := b]> f) c = if decide (c = a) then b else f c.
Proof.
  destruct (decide (c = a)) as [->|]; [apply fn_lookup_insert|].
  now apply fn_lookup_insert_ne.
Qed.

(** Case analysis on the updates in the goal and the hypotheses. *)
Ltac upd :=
  repeat (rewrite fn_at in *); repeat case_decide; simplify_eq/=.

(** ** Sums over lists *)

Definition zsum (l : list Z) : Z := foldr Z.add 0 l.

Lemma zsum_app l1 l2 : zsum (l1 ++ l2) = zsum l1 + zsum l2.
Proof. unfold zsum. induction l1 as [|x l1 IH]; cbn [foldr app]; lia. Qed.

(** Replacing one element changes the sum by the difference. *)
Lemma zsum_insert l i x y : l !! i = Some x -> zsum (<[i := y]> l) = zsum l - x + y.
Proof.
  intros H. rewrite (insert_take_drop l i y) by (by eapply lookup_lt_Some).
  rewrite <- (take_drop_middle l i x H) at 3. rewrite !zsum_app. cbn. lia.
Qed.

(** Distinct numbers below [n]. *)
Lemma range_length l n : NoDup l -> (forall x, x ∈ l -> 0 <= x < n) -> Z.of_nat (length l) <= Z.max 0 n.
Proof.
  intros Hnd Hr. assert (Hs : l ⊆+ seqZ 0 n).
  { apply NoDup_submseteq; [done|]. intros x Hx. apply elem_of_seqZ. specialize (Hr x Hx). lia. }
  apply submseteq_length in Hs. rewrite length_seqZ in Hs. lia.
Qed.
