(* ===== verification/L4Math.v ===== *)
(** * Bit positions: [libl4/l4/math.h] and [libl4/ia32/l4/bits/math.h]

    The position of the most and of the least significant set bit of a word,
    counted from 1, and 0 for a word with no bit set.  The target is ia32, so
    a machine word is 32 bits wide and the 64-bit variants work on its two
    halves.  The header has two implementations of each function, one for
    compile-time constants (a chain of comparisons) and one for run-time
    values (the [bsr] and [bsf] instructions); both are modelled, and they
    agree on the most significant bit but not on the least significant one. *)

From S2P Require Import Prelude.

(** ** The [bsr] and [bsf] instructions, on a nonzero operand *)

Definition bsr (data : Z) : Z := Z.log2 data.

Fixpoint pos_bsf (p : positive) : Z :=
  match p with
  | (q~0)%positive => 1 + pos_bsf q
  | _ => 0
  end.

Definition bsf (data : Z) : Z := match data with Z.pos p => pos_bsf p | _ => 0 end.

(** ** [__L4_msb], [__L4_lsb] *)

Definition __L4_msb (data : Z) : Z := bsr data + 1.
Definition __L4_lsb (data : Z) : Z := bsf data + 1.

(** ** [_L4_msb]: the constant chain and the run-time path *)

(** [__L4_MSB_TRY (b)] for [b], [b + 1], ..., 31 and then [__L4_MSB_IS (32)]. *)
Fixpoint msb_try (fuel : nat) (b data : Z) : Z :=
  match fuel with
  | O => 32
  | S f => if data <? 2 ^ b then b else msb_try f (b + 1) data
  end.

Definition L4_msb_const (data : Z) : Z :=
  if data =? 0 then 0 else msb_try 31 1 data.

Definition L4_msb (data : Z) : Z :=
  if negb (data =? 0) then __L4_msb data else 0.

Definition L4_msb64 (data : Z) : Z :=
  let d := L4_msb (u32 (Z.shiftr data 32)) in
  if negb (d =? 0) then d + 32 else L4_msb (u32 data).

(** ** [_L4_lsb]: the constant chain and the run-time path *)

(** [__L4_LSB_TRY (b)] for [b], [b - 1], ..., 2 and then [__L4_LSB_IS (1)]. *)
Fixpoint lsb_try (fuel : nat) (b data : Z) : Z :=
  match fuel with
  | O => 1
  | S f => if 2 ^ (b - 1) <=? data then b else lsb_try f (b - 1) data
  end.

Definition L4_lsb_const (data : Z) : Z :=
  if data =? 0 then 0 else lsb_try 31 32 data.

Definition L4_lsb (data : Z) : Z :=
  if negb (data =? 0) then __L4_lsb data else 0.

Definition L4_lsb64 (data : Z) : Z :=
  let d := L4_lsb (u32 data) in
  if negb (d =? 0) then d
  else let d := L4_lsb (u32 (Z.shiftr data 32)) in
       if negb (d =? 0) then d + 32 else 0.

(** ** Lemmas *)

Lemma bsf_nonneg data : 0 <= bsf data.
Proof.
  destruct data as [|p|p]; cbn; try lia.
  induction p; cbn; lia.
Qed.

(** [bsf] finds the exponent of 2 in its operand. *)
Lemma bsf_odd_pow2 k n : 0 <= k -> 0 <= n -> bsf ((2 * k + 1) * 2 ^ n) = n.
Proof.
  intros Hk Hn. revert n Hn. apply (Wf_Z.natlike_ind (fun n => bsf ((2 * k + 1) * 2 ^ n) = n)).
  - rewrite Z.pow_0_r, Z.mul_1_r. destruct k as [|k|]; [done|done|lia].
  - intros n Hn IH. rewrite Z.pow_succ_r by done.
    replace ((2 * k + 1) * (2 * 2 ^ n)) with (2 * ((2 * k + 1) * 2 ^ n)) by lia.
    assert (0 < (2 * k + 1) * 2 ^ n) by (pose proof (pow2_pos n Hn); nia).
    destruct ((2 * k + 1) * 2 ^ n) as [|p|p] eqn:E; try lia.
    change (2 * Z.pos p) with (Z.pos p~0). cbn in *. lia.
Qed.

(** Every positive number is an odd multiple of a power of two. *)
Lemma odd_pow2_decompose x : 0 < x -> exists k, 0 <= k /\ x = (2 * k + 1) * 2 ^ bsf x.
Proof.
  intros Hx. destruct x as [|p|p]; try lia. cbn [bsf]. clear Hx.
  induction p as [q IH|q IH|].
  - exists (Z.pos q). cbn [pos_bsf]. rewrite Z.pow_0_r. lia.
  - destruct IH as (k & Hk & E). exists k. split; [done|]. cbn [pos_bsf].
    assert (0 <= pos_bsf q) by apply (bsf_nonneg (Z.pos q)).
    rewrite Z.pow_add_r by lia. lia.
  - exists 0. done.
Qed.

Lemma L4_msb_log2 x : 0 < x -> L4_msb x = Z.log2 x + 1.
Proof. intros. unfold L4_msb. case_if; [done|lia]. Qed.

Lemma L4_msb_zero : L4_msb 0 = 0.
Proof. done. Qed.

Lemma L4_msb_nonneg x : 0 <= L4_msb x.
Proof.
  unfold L4_msb, __L4_msb, bsr. case_if; [|lia]. pose proof (Z.log2_nonneg x). lia.
Qed.

(** [msb x <= n] says that [x] fits in [n] bits. *)
Lemma L4_msb_le x n : 0 <= x -> 0 <= n -> L4_msb x <= n <-> x < 2 ^ n.
Proof.
  intros Hx Hn. destruct (Z.eq_dec x 0) as [->|].
  - rewrite L4_msb_zero. pose proof (pow2_pos n). lia.
  - rewrite L4_msb_log2 by lia. rewrite (Z.log2_lt_pow2 x n) by lia. lia.
Qed.

Lemma L4_lsb_decomposed k n :
  0 <= k -> 0 <= n -> L4_lsb ((2 * k + 1) * 2 ^ n) = n + 1.
Proof.
  intros Hk Hn. unfold L4_lsb. pose proof (pow2_pos n Hn).
  case_if; [|nia]. unfold __L4_lsb. by rewrite bsf_odd_pow2.
Qed.

Lemma L4_lsb_zero_iff x : 0 <= x -> L4_lsb x = 0 <-> x = 0.
Proof.
  intros. unfold L4_lsb, __L4_lsb. pose proof (bsf_nonneg x). case_if; lia.
Qed.

(** The 64-bit functions agree with the 32-bit definitions read on 64 bits. *)
Lemma L4_msb64_eq x : 0 <= x < 2 ^ 64 -> L4_msb64 x = L4_msb x.
Proof.
  intros Hx. unfold L4_msb64. rewrite Z.shiftr_div_pow2 by lia.
  assert (0 <= x / 2 ^ 32 < 2 ^ 32) as Hq by (apply (div_pow2_range x 32 32); lia).
  rewrite (u32_small (x / 2 ^ 32)) by done.
  destruct (Z.eq_dec (x / 2 ^ 32) 0) as [E|E].
  - rewrite E, L4_msb_zero. cbn [Z.eqb negb].
    rewrite u32_small; [done|].
    pose proof (mod_pow2_div x 32). pose proof (Z.mod_pos_bound x (2 ^ 32)). lia.
  - assert (2 ^ 32 <= x).
    { destruct (Z.lt_ge_cases x (2 ^ 32)); [|done]. rewrite Z.div_small in E by lia. lia. }
    rewrite (L4_msb_log2 (x / 2 ^ 32)) by lia.
    pose proof (Z.log2_nonneg (x / 2 ^ 32)).
    case_if; [|lia].
    rewrite L4_msb_log2 by lia.
    rewrite <- Z.shiftr_div_pow2, Z.log2_shiftr by lia.
    assert (32 <= Z.log2 x); [|lia].
    apply Z.log2_le_pow2; lia.
Qed.

Lemma L4_lsb64_decomposed k n :
  0 <= k -> 0 <= n -> (2 * k + 1) * 2 ^ n < 2 ^ 64 ->
  L4_lsb64 ((2 * k + 1) * 2 ^ n) = n + 1.
Proof.
  intros Hk Hn Hlt. unfold L4_lsb64.
  pose proof (pow2_pos n Hn) as Hp.
  assert (n < 64) by (apply (Z.pow_lt_mono_r_iff 2); nia).
  unfold u32, wrap. rewrite Z.shiftr_div_pow2 by lia.
  destruct (Z.lt_ge_cases n 32) as [Hn32|Hn32].
  - (* the bit is in the low word *)
    rewrite (pow2_at n 32), Z.mul_mod_distr_r by (pose proof (pow2_pos (32 - n)); lia).
    pose proof (Z.mod_pos_bound (2 * k + 1) (2 ^ (32 - n))) as Hb.
    assert (((2 * k + 1) mod 2 ^ (32 - n)) mod 2 = 1) as Hodd.
    { replace (32 - n) with (1 + (31 - n)) by lia. rewrite pow2_split by lia.
      rewrite Z.rem_mul_r by (pose proof (pow2_pos (31 - n)); lia).
      rewrite Z.pow_1_r.
      replace ((2 * k + 1) mod 2) with 1
        by (rewrite (Z.add_comm (2 * k)), (Z.mul_comm 2 k), Z.mod_add by lia; done).
      rewrite (Z.mul_comm 2), Z.mod_add by lia. done. }
    specialize (Hb ltac:(pose proof (pow2_pos (32 - n)); lia)).
    set (r := (2 * k + 1) mod 2 ^ (32 - n)) in *.
    replace r with (2 * (r / 2) + 1) by (pose proof (Z.div_mod r 2); lia).
    assert (0 <= r / 2) by (apply Z.div_pos; lia).
    rewrite L4_lsb_decomposed by lia. case_if; lia.
  - (* the low word is zero *)
    replace (2 ^ n) with (2 ^ (n - 32) * 2 ^ 32) by (symmetry; apply pow2_at; lia).
    rewrite Z.mul_assoc, Z.mod_mul, Z.div_mul by lia.
    cbn [L4_lsb Z.eqb negb]. replace (L4_lsb 0) with 0 by done. cbn [Z.eqb negb].
    rewrite Z.mod_small.
    2:{ pose proof (pow2_pos (n - 32)). rewrite (pow2_at 32 n) in Hlt by lia. nia. }
    rewrite L4_lsb_decomposed by lia. case_if; lia.
Qed.

Lemma L4_msb64_le x n : 0 <= x < 2 ^ 64 -> 0 <= n -> L4_msb64 x <= n <-> x < 2 ^ n.
Proof. intros. rewrite L4_msb64_eq by done. apply L4_msb_le; lia. Qed.

Lemma L4_msb64_nonneg x : 0 <= x < 2 ^ 64 -> 0 <= L4_msb64 x.
Proof. intros. rewrite L4_msb64_eq by done. apply L4_msb_nonneg. Qed.

(** The two chains compared with the run-time paths. *)

Lemma msb_try_spec fuel b x :
  0 < b -> Z.of_nat fuel + b = 32 -> 2 ^ (b - 1) <= x < 2 ^ 32 ->
  msb_try fuel b x = Z.log2 x + 1.
Proof.
  revert b. induction fuel as [|f IH]; intros b Hb Hf Hx; cbn [msb_try].
  - assert (Z.log2 x = 31); [|lia]. apply Z.log2_unique; [lia|].
    replace (b - 1) with 31 in Hx by lia. lia.
  - case_if.
    + assert (Z.log2 x = b - 1); [|lia]. apply Z.log2_unique; [lia|].
      replace (Z.succ (b - 1)) with b by lia. lia.
    + apply IH; [lia|lia|]. replace (b + 1 - 1) with b by lia. lia.
Qed.

Lemma lsb_try_spec fuel b x :
  Z.of_nat fuel + 1 = b -> 0 < x < 2 ^ b -> lsb_try fuel b x = Z.log2 x + 1.
Proof.
  revert b. induction fuel as [|f IH]; intros b Hb Hx; cbn [lsb_try].
  - replace b with 1 in Hx by lia. replace x with 1 by lia. done.
  - case_if.
    + assert (Z.log2 x = b - 1); [|lia]. apply Z.log2_unique; [lia|].
      replace (Z.succ (b - 1)) with b by lia. lia.
    + apply IH; lia.
Qed.

(** ** Properties *)

(** On a compile-time constant, [_L4_msb] returns what its run-time path
    returns, the position of the most significant set bit. *)
Theorem L4_msb_const_runtime x : 0 <= x < 2 ^ 32 -> L4_msb_const x = L4_msb x.
Proof.
  intros Hx. unfold L4_msb_const. destruct (Z.eqb_spec x 0) as [->|]; [done|].
  rewrite L4_msb_log2 by lia. apply msb_try_spec; lia.
Qed.

Theorem L4_msb_const_runtime_witness : L4_msb_const 4096 = 13.
Proof. rewrite (L4_msb_const_runtime 4096); [reflexivity|lia]. Defined.

(** on a compile-time constant, [_L4_lsb] returns the position of the most
    significant set bit; it is the run-time value exactly for powers of two. *)
Theorem L4_lsb_const_is_msb x :
  0 < x < 2 ^ 32 ->
  L4_lsb_const x = L4_msb x /\ (L4_lsb_const x = L4_lsb x <-> x = 2 ^ Z.log2 x).
Proof.
  intros Hx. assert (L4_lsb_const x = Z.log2 x + 1) as E.
  { unfold L4_lsb_const. destruct (Z.eqb_spec x 0) as [->|]; [lia|]. apply lsb_try_spec; lia. }
  rewrite E, L4_msb_log2 by lia. split; [done|].
  destruct (odd_pow2_decompose x) as (k & Hk & Ex); [lia|].
  pose proof (bsf_nonneg x) as Hb.
  assert (L4_lsb x = bsf x + 1) as -> by (rewrite Ex at 1; by apply L4_lsb_decomposed).
  split.
  - intros Heq. replace (Z.log2 x) with (bsf x) by lia.
    pose proof (pow2_pos (bsf x) Hb).
    destruct (Z.eq_dec k 0) as [->|Hne]; [lia|].
    assert (2 ^ (Z.log2 x + 1) <= x); [|pose proof (Z.log2_spec x ltac:(lia)); lia].
    rewrite Ex at 2. replace (Z.log2 x) with (bsf x) by lia.
    rewrite pow2_split by lia. nia.
  - intros Hp. f_equal. pose proof (Z.log2_nonneg x) as Hl.
    assert (bsf x = bsf ((2 * 0 + 1) * 2 ^ Z.log2 x)) as ->
      by (rewrite Hp at 1; f_equal; lia).
    rewrite bsf_odd_pow2 by lia. done.
Qed.

Theorem L4_lsb_const_is_msb_witness : L4_lsb_const 12 = 4 /\ L4_lsb 12 = 3.
Proof. split; [exact (proj1 (L4_lsb_const_is_msb 12 ltac:(lia)))|reflexivity]. Defined.
