(* ===== verification/Addr.v ===== *)
(** * Address-space addresses: [hurd/addr.h]

    A 64-bit word packs a prefix and a depth: the prefix in the upper bits,
    a boundary bit that is set, and zeros below it, so that the position of
    the lowest set bit gives the depth (0 to 63).  [addr_ok] is the intended
    relation between a prefix and a depth; the codec is a bijection between
    such pairs and the nonzero words.

    Shifts by a count outside the width of the shifted type are undefined in
    C; the ia32 instructions the compiler emits for a variable count mask it,
    and that is what [shl1_int] and [shl1_ull] do. *)

From S2P Require Import Prelude L4Math.

Record addr := mk_addr { raw : Z }.

Definition ADDR_BITS : Z := 63.

(** [1 << n] at type [int], and [1ULL << n]. *)
Definition shl1_int (n : Z) : Z := i32 (2 ^ (n mod 32)).
Definition shl1_ull (n : Z) : Z := 2 ^ (n mod 64).

(** [ADDR (prefix_, depth_)] with its three assertions. *)
Definition ADDR (prefix_ depth_ : Z) : option addr :=
  let p_ := u64 prefix_ in
  let d_ := u64 depth_ in
  _ ← assertb ((0 <=? d_) && (d_ <=? ADDR_BITS));
  _ ← assertb (Z.land p_ (u64 (i32 (shl1_int (ADDR_BITS - d_) - 1))) =? 0);
  _ ← assertb (p_ <? shl1_ull ADDR_BITS);
  Some (mk_addr (Z.lor (u64 (Z.shiftl p_ 1)) (shl1_ull (ADDR_BITS - d_)))).

Definition ADDR_INIT (prefix_ depth_ : Z) : addr :=
  mk_addr (u64 (Z.shiftl (Z.lor (Z.shiftl prefix_ 1) 1) (ADDR_BITS - depth_))).

Definition ADDR_VOID : addr := mk_addr 0.
Definition ADDR_EQ (a b : addr) : bool := raw a =? raw b.
Definition ADDR_IS_VOID (a : addr) : bool := ADDR_EQ a ADDR_VOID.

Definition addr_depth (a : addr) : Z := i32 (ADDR_BITS - (L4_lsb64 (raw a) - 1)).

Definition addr_prefix (a : addr) : Z :=
  Z.shiftr (Z.land (raw a) (u64 (Z.lnot (shl1_ull (ADDR_BITS - addr_depth a))))) 1.

Definition addr_extend (addr_ : addr) (prefix_ depth_ : Z) : option addr :=
  let a__ := addr_ in
  let p__ := u64 prefix_ in
  let d__ := depth_ in
  _ ← assertb (0 <=? d__);
  _ ← assertb (addr_depth a__ + d__ <=? ADDR_BITS);
  _ ← assertb (p__ <? shl1_ull d__);
  ADDR (Z.lor (addr_prefix a__)
              (u64 (Z.shiftl p__ (ADDR_BITS - addr_depth a__ - d__))))
       (addr_depth a__ + d__).

Definition addr_chop (a : addr) (depth : Z) : option addr :=
  let d := addr_depth a - depth in
  _ ← assertb (0 <=? d);
  ADDR (Z.land (addr_prefix a) (u64 (Z.lnot (shl1_ull (ADDR_BITS - d) - 1)))) d.

Definition addr_extract (a : addr) (width : Z) : option Z :=
  _ ← assertb (width <=? addr_depth a);
  Some (Z.land (Z.shiftr (addr_prefix a) (ADDR_BITS - addr_depth a))
               (shl1_ull width - 1)).

(** [uintptr_t] is 32 bits wide on ia32. *)
Definition ADDR_TO_PTR (addr_ : addr) : option Z :=
  _ ← assertb (addr_prefix addr_ <? u32 (-1));
  _ ← assertb (addr_depth addr_ =? ADDR_BITS);
  Some (u32 (addr_prefix addr_)).

Definition PTR_TO_ADDR (ptr_ : Z) : option addr := ADDR (u32 ptr_) ADDR_BITS.

Definition addr_add (a : addr) (count : Z) : option addr :=
  let w := ADDR_BITS - addr_depth a in
  ADDR (u64 (addr_prefix a + u64 (Z.shiftl count w))) (addr_depth a).

Definition addr_sub (a : addr) (count : Z) : option addr := addr_add a (u64 (- count)).

(** ** The relation between words, prefixes and depths *)

(** [p] is a prefix of [d] bits, kept in the upper bits of 63. *)
Definition addr_ok (p d : Z) : Prop :=
  0 <= d <= 63 /\ 0 <= p < 2 ^ 63 /\ p mod 2 ^ (63 - d) = 0.

#[export] Instance addr_ok_dec p d : Decision (addr_ok p d).
Proof. unfold addr_ok. apply _. Defined.

(** [encode p d] is the word of prefix [p] and depth [d]. *)
Definition encode (p d : Z) : Z := 2 * p + 2 ^ (63 - d).

(** [a] is a nonvoid address: any nonzero 64-bit word. *)
Definition addr_wf (a : addr) : Prop := 0 < raw a < 2 ^ 64.

(** ** Lemmas *)

Lemma addr_ok_high p d :
  addr_ok p d <-> exists q, 0 <= d <= 63 /\ 0 <= q < 2 ^ d /\ p = q * 2 ^ (63 - d).
Proof.
  unfold addr_ok. split.
  - intros (Hd & Hp & Hm). exists (p / 2 ^ (63 - d)).
    split; [done|]. split.
    + replace 63 with (63 - d + d) in Hp by lia. by apply div_pow2_range; lia.
    + pose proof (mod_pow2_div p (63 - d)). lia.
  - intros (q & Hd & Hq & ->). pose proof (pow2_pos (63 - d)).
    rewrite Z.mod_mul by lia. split; [done|]. split; [|done].
    replace (2 ^ 63) with (2 ^ d * 2 ^ (63 - d)) by (rewrite <- pow2_split by lia; f_equal; lia).
    nia.
Qed.

Lemma encode_odd q d : 0 <= d <= 63 -> encode (q * 2 ^ (63 - d)) d = (2 * q + 1) * 2 ^ (63 - d).
Proof. unfold encode. lia. Qed.

Lemma encode_range p d : addr_ok p d -> 0 < encode p d < 2 ^ 64.
Proof.
  intros (q & Hd & Hq & ->)%addr_ok_high. rewrite encode_odd by done.
  pose proof (pow2_pos (63 - d)). split; [nia|].
  replace (2 ^ 64) with ((2 * 2 ^ d) * 2 ^ (63 - d)).
  - nia.
  - rewrite <- Z.mul_assoc, <- pow2_split by lia. replace (d + (63 - d)) with 63 by lia. done.
Qed.

(** Every nonzero word is the code of one pair. *)
Lemma addr_wf_encode a : addr_wf a -> exists p d, addr_ok p d /\ raw a = encode p d.
Proof.
  intros [H0 H64]. destruct (odd_pow2_decompose (raw a) H0) as (k & Hk & E).
  pose proof (bsf_nonneg (raw a)) as Hb. set (n := bsf (raw a)) in *.
  pose proof (pow2_pos n Hb).
  assert (n < 64) by (apply (Z.pow_lt_mono_r_iff 2); nia).
  exists (k * 2 ^ n), (63 - n). split.
  - apply addr_ok_high. exists k. replace (63 - (63 - n)) with n by lia.
    repeat split; try lia.
    assert (2 * k < 2 * 2 ^ (63 - n)); [|lia].
    rewrite <- Z.pow_succ_r by lia. replace (Z.succ (63 - n)) with (64 - n) by lia.
    replace (2 ^ 64) with (2 ^ (64 - n) * 2 ^ n) in H64 by (rewrite <- pow2_split by lia; f_equal; lia).
    nia.
  - unfold encode. replace (63 - (63 - n)) with n by lia. lia.
Qed.

Lemma shl1_ull_small n : 0 <= n < 64 -> shl1_ull n = 2 ^ n.
Proof. intros. unfold shl1_ull. by rewrite Z.mod_small by lia. Qed.

Lemma land_u64_r a b : 0 <= a < 2 ^ 64 -> Z.land a (u64 b) = Z.land a b.
Proof.
  intros. unfold u64, wrap. rewrite <- Z.land_ones by lia.
  rewrite (Z.land_comm b), Z.land_assoc, Z.land_ones by lia.
  by rewrite Z.mod_small by lia.
Qed.

(** Clearing the boundary bit. *)
Lemma clear_boundary q n : 0 <= n -> Z.land ((2 * q + 1) * 2 ^ n) (Z.lnot (2 ^ n)) = 2 * q * 2 ^ n.
Proof.
  intros. rewrite <- Z.ldiff_land.
  replace (2 ^ n) with (Z.shiftl 1 n) at 2 by (rewrite Z.shiftl_mul_pow2 by done; lia).
  rewrite <- (Z.shiftl_mul_pow2 (2 * q + 1)), <- Z.shiftl_ldiff by done.
  change (Z.ldiff (2 * q + 1) 1) with (Z.ldiff (2 * q + 1) (Z.ones 1)).
  rewrite Z.ldiff_ones_r by lia.
  rewrite Z.shiftr_div_pow2, !Z.shiftl_mul_pow2, Z.pow_1_r by lia.
  rewrite (Z.mul_comm 2 q), Z.div_add_l by lia. change (1 / 2) with 0. lia.
Qed.

Lemma addr_depth_encode p d : addr_ok p d -> addr_depth (mk_addr (encode p d)) = d.
Proof.
  intros Hok. pose proof (encode_range p d Hok) as Hr.
  apply addr_ok_high in Hok as (q & Hd & Hq & ->).
  unfold addr_depth; cbn [raw]. rewrite encode_odd in * by done.
  rewrite L4_lsb64_decomposed by lia. unfold ADDR_BITS.
  replace (63 - (63 - d + 1 - 1)) with d by lia. apply i32_small. lia.
Qed.

Lemma addr_prefix_encode p d : addr_ok p d -> addr_prefix (mk_addr (encode p d)) = p.
Proof.
  intros Hok. pose proof (encode_range p d Hok) as Hr.
  unfold addr_prefix. rewrite addr_depth_encode by done. cbn [raw].
  rewrite land_u64_r by lia.
  apply addr_ok_high in Hok as (q & Hd & Hq & ->).
  unfold ADDR_BITS. rewrite shl1_ull_small by lia.
  rewrite encode_odd, clear_boundary by lia.
  rewrite Z.shiftr_div_pow2, Z.pow_1_r by lia.
  replace (2 * q * 2 ^ (63 - d)) with (q * 2 ^ (63 - d) * 2) by lia. by rewrite Z.div_mul by lia.
Qed.

(** The middle assertion of [ADDR] holds of every intended pair. *)
Lemma ADDR_mask_ok p d :
  addr_ok p d -> Z.land p (u64 (i32 (shl1_int (63 - d) - 1))) = 0.
Proof.
  intros (q & Hd & Hq & ->)%addr_ok_high.
  assert (exists m, 0 <= m <= 63 - d /\ i32 (shl1_int (63 - d) - 1) = 2 ^ m - 1) as (m & Hm & ->).
  { exists ((63 - d) mod 32). pose proof (Z.mod_pos_bound (63 - d) 32).
    pose proof (Z.mod_le (63 - d) 32). split; [lia|].
    unfold shl1_int. set (m := (63 - d) mod 32) in *.
    destruct (Z.eq_dec m 31) as [->|]; [reflexivity|].
    pose proof (pow2_le m 30). pose proof (pow2_pos m).
    rewrite (i32_small (2 ^ m)) by lia. apply i32_small. lia. }
  pose proof (pow2_pos m). pose proof (pow2_le m 63).
  rewrite u64_small by lia.
  apply land_low_high; [lia|]. pose proof (pow2_le m (63 - d)). lia.
Qed.

Lemma ADDR_ok p d : addr_ok p d -> ADDR p d = Some (mk_addr (encode p d)).
Proof.
  intros Hok. pose proof (ADDR_mask_ok p d Hok) as Hmask.
  destruct Hok as (Hd & Hp & Hm) eqn:E. unfold ADDR.
  rewrite (u64_small p), (u64_small d) by lia.
  unfold ADDR_BITS in *. rewrite !shl1_ull_small by lia.
  rewrite Hmask. rewrite !assertb_true by lia. do 2 f_equal.
  rewrite Z.shiftl_mul_pow2, Z.pow_1_r by lia. rewrite u64_small by lia.
  clear E. assert (addr_ok p d) as (q & _ & Hq & ->)%addr_ok_high by done.
  replace (q * 2 ^ (63 - d) * 2) with (q * 2 ^ (64 - d))
    by (replace (64 - d) with (63 - d + 1) by lia; rewrite pow2_split by lia; lia).
  rewrite lor_low_high; unfold encode.
  - replace (64 - d) with (63 - d + 1) by lia. rewrite pow2_split by lia. lia.
  - lia.
  - pose proof (pow2_pos (63 - d)). split; [lia|]. apply Z.pow_lt_mono_r; lia.
Qed.

(** ** Addresses as bit strings

    The operations are easiest to read on the bit string that an address
    denotes: [q] on [d] bits.  Extending appends bits on the right, chopping
    drops them, extracting returns them and adding counts siblings. *)

Definition bits_ok (q d : Z) : Prop := 0 <= d <= 63 /\ 0 <= q < 2 ^ d.

Definition of_bits (q d : Z) : addr := mk_addr ((2 * q + 1) * 2 ^ (63 - d)).

Lemma bits_ok_addr_ok q d : bits_ok q d -> addr_ok (q * 2 ^ (63 - d)) d.
Proof. intros [Hd Hq]. apply addr_ok_high. by exists q. Qed.

Lemma of_bits_encode q d : bits_ok q d -> of_bits q d = mk_addr (encode (q * 2 ^ (63 - d)) d).
Proof. intros [Hd Hq]. unfold of_bits. by rewrite encode_odd. Qed.

Lemma addr_wf_bits a : addr_wf a <-> exists q d, bits_ok q d /\ a = of_bits q d.
Proof.
  split.
  - intros (p & d & (q & Hd & Hq & ->)%addr_ok_high & E)%addr_wf_encode.
    exists q, d. split; [by split|]. destruct a as [r]; cbn in *. unfold of_bits.
    by rewrite E, encode_odd.
  - intros (q & d & Hok & ->). unfold addr_wf. rewrite of_bits_encode by done.
    by apply encode_range, bits_ok_addr_ok.
Qed.

Lemma addr_depth_bits q d : bits_ok q d -> addr_depth (of_bits q d) = d.
Proof.
  intros Hok. rewrite of_bits_encode by done. by apply addr_depth_encode, bits_ok_addr_ok.
Qed.

Lemma addr_prefix_bits q d : bits_ok q d -> addr_prefix (of_bits q d) = q * 2 ^ (63 - d).
Proof.
  intros Hok. rewrite of_bits_encode by done. by apply addr_prefix_encode, bits_ok_addr_ok.
Qed.

Lemma ADDR_bits q d : bits_ok q d -> ADDR (q * 2 ^ (63 - d)) d = Some (of_bits q d).
Proof.
  intros Hok. rewrite of_bits_encode by done. by apply ADDR_ok, bits_ok_addr_ok.
Qed.

Lemma of_bits_inj q d q' d' :
  bits_ok q d -> bits_ok q' d' -> of_bits q d = of_bits q' d' -> q = q' /\ d = d'.
Proof.
  intros H H' E.
  assert (d = d') as <- by (rewrite <- (addr_depth_bits q d), E, addr_depth_bits; done).
  split; [|done]. pose proof (pow2_pos (63 - d)) as Hp. destruct H as [Hd _].
  injection E. intros. nia.
Qed.

(** [q << k] keeps a [d]-bit string a word. *)
Lemma bits_word q d k : bits_ok q d -> 0 <= k <= 63 - d -> 0 <= q * 2 ^ k < 2 ^ 63.
Proof.
  intros [Hd Hq] Hk. pose proof (pow2_pos k). split; [nia|].
  apply Z.lt_le_trans with (2 ^ d * 2 ^ k); [nia|].
  rewrite <- pow2_split by lia. apply pow2_le. lia.
Qed.

Lemma bits_ok_append q d x w :
  bits_ok q d -> 0 <= w -> d + w <= 63 -> 0 <= x < 2 ^ w -> bits_ok (q * 2 ^ w + x) (d + w).
Proof.
  intros [Hd Hq] Hw Hdw Hx. split; [lia|]. rewrite pow2_split by lia. nia.
Qed.

Lemma bits_ok_drop q d w : bits_ok q d -> 0 <= w <= d -> bits_ok (q / 2 ^ w) (d - w).
Proof.
  intros [Hd Hq] Hw. split; [lia|]. replace d with (w + (d - w)) in Hq by lia.
  apply div_pow2_range; lia.
Qed.

Lemma append_div q x w : 0 <= w -> 0 <= x < 2 ^ w -> (q * 2 ^ w + x) / 2 ^ w = q.
Proof. intros. rewrite Z.div_add_l, Z.div_small by lia. lia. Qed.

Lemma append_mod q x w : 0 <= w -> 0 <= x < 2 ^ w -> (q * 2 ^ w + x) mod 2 ^ w = x.
Proof. intros. rewrite Z.add_comm, Z.mod_add, Z.mod_small by lia. done. Qed.

Lemma addr_extend_bits q d x w :
  bits_ok q d -> 0 <= w -> d + w <= 63 -> 0 <= x < 2 ^ w ->
  addr_extend (of_bits q d) x w = Some (of_bits (q * 2 ^ w + x) (d + w)).
Proof.
  intros Hok Hw Hdw Hx. destruct (id Hok) as [Hd Hq]. unfold addr_extend.
  rewrite addr_depth_bits, addr_prefix_bits by done.
  pose proof (pow2_le w 63). rewrite (u64_small x) by lia.
  rewrite shl1_ull_small by lia. unfold ADDR_BITS.
  rewrite !assertb_true by lia.
  rewrite <- ADDR_bits by (by apply bits_ok_append).
  f_equal. rewrite Z.shiftl_mul_pow2 by lia.
  replace (63 - d - w) with (63 - (d + w)) by lia. set (k := 63 - (d + w)).
  assert (0 <= x * 2 ^ k < 2 ^ (63 - d)).
  { pose proof (pow2_pos k). split; [nia|].
    replace (2 ^ (63 - d)) with (2 ^ w * 2 ^ k) by (rewrite <- pow2_split by lia; f_equal; lia). nia. }
  pose proof (pow2_le (63 - d) 63).
  rewrite u64_small by lia. rewrite lor_low_high by lia.
  replace (2 ^ (63 - d)) with (2 ^ w * 2 ^ k) by (rewrite <- pow2_split by lia; f_equal; lia). lia.
Qed.

Lemma addr_chop_bits q d w :
  bits_ok q d -> 0 <= w <= d ->
  addr_chop (of_bits q d) w = Some (of_bits (q / 2 ^ w) (d - w)).
Proof.
  intros Hok Hw. destruct (id Hok) as [Hd Hq]. unfold addr_chop.
  rewrite addr_depth_bits, addr_prefix_bits by done.
  rewrite assertb_true by lia.
  rewrite <- ADDR_bits by (by apply bits_ok_drop).
  f_equal. unfold ADDR_BITS. rewrite shl1_ull_small by lia.
  pose proof (bits_word q d (63 - d) Hok ltac:(lia)).
  rewrite land_u64_r by lia. rewrite land_notmask by lia. f_equal.
  replace (63 - (d - w)) with (w + (63 - d)) by lia. rewrite pow2_split by lia.
  pose proof (pow2_pos w). pose proof (pow2_pos (63 - d)).
  by rewrite Z.div_mul_cancel_r by lia.
Qed.

Lemma addr_extract_bits q d w :
  bits_ok q d -> 0 <= w <= d -> addr_extract (of_bits q d) w = Some (q mod 2 ^ w).
Proof.
  intros Hok Hw. destruct (id Hok) as [Hd Hq]. unfold addr_extract.
  rewrite addr_depth_bits, addr_prefix_bits by done.
  rewrite assertb_true by lia. unfold ADDR_BITS.
  pose proof (pow2_pos (63 - d)).
  rewrite Z.shiftr_div_pow2, Z.div_mul, shl1_ull_small, land_mask by lia. done.
Qed.

(** The addition is modulo 2^64, so subtraction is addition of the negated
    count; the result is an address when the bit string does not overflow. *)
Lemma addr_add_bits q d c :
  bits_ok q d -> 0 <= c < 2 ^ 64 -> bits_ok (wrap (d + 1) (q + c)) d ->
  addr_add (of_bits q d) c = Some (of_bits (wrap (d + 1) (q + c)) d).
Proof.
  intros Hok Hc Hok'. destruct (id Hok) as [Hd Hq]. unfold addr_add.
  rewrite addr_depth_bits, addr_prefix_bits by done. unfold ADDR_BITS.
  rewrite <- ADDR_bits by done. f_equal. rewrite Z.shiftl_mul_pow2 by lia.
  unfold u64, wrap. rewrite Z.add_mod_idemp_r by lia.
  rewrite <- Z.mul_add_distr_r.
  replace (2 ^ 64) with (2 ^ (d + 1) * 2 ^ (63 - d))
    by (rewrite <- pow2_split by lia; f_equal; lia).
  pose proof (pow2_pos (63 - d)). pose proof (pow2_pos (d + 1)).
  by rewrite Z.mul_mod_distr_r by lia.
Qed.

(** ** Properties *)

(** C40: [ADDR] and the accessors are inverse to each other: a prefix and a
    depth that fit are recovered from the address, and every nonvoid address
    is rebuilt from its own prefix and depth. *)
Theorem addr_codec p d a :
  addr_ok p d -> addr_wf a ->
  (exists b, ADDR p d = Some b /\ addr_wf b /\ addr_prefix b = p /\ addr_depth b = d) /\
  addr_ok (addr_prefix a) (addr_depth a) /\
  ADDR (addr_prefix a) (addr_depth a) = Some a.
Proof.
  intros Hok Hwf. split.
  - exists (mk_addr (encode p d)). rewrite ADDR_ok by done.
    repeat split; [apply encode_range; done|apply encode_range; done| |].
    + by apply addr_prefix_encode.
    + by apply addr_depth_encode.
  - apply addr_wf_bits in Hwf as (q & e & Hq & ->).
    rewrite addr_prefix_bits, addr_depth_bits by done.
    split; [by apply bits_ok_addr_ok|by apply ADDR_bits].
Qed.

Theorem addr_codec_witness :
  (exists b, ADDR 0x1000 63 = Some b /\ addr_wf b /\ addr_prefix b = 0x1000 /\ addr_depth b = 63) /\
  addr_ok (addr_prefix (mk_addr 0x5800)) (addr_depth (mk_addr 0x5800)) /\
  ADDR (addr_prefix (mk_addr 0x5800)) (addr_depth (mk_addr 0x5800)) = Some (mk_addr 0x5800).
Proof.
  apply (addr_codec 0x1000 63 (mk_addr 0x5800)); vm_compute; repeat split; congruence.
Defined.

(** extending an address by [x] on [w] bits is undone by chopping [w]
    bits, which [addr_extract] returns; none of the assertions fails. *)
Theorem addr_extend_chop a x w :
  addr_wf a -> 0 <= w -> addr_depth a + w <= 63 -> 0 <= x < 2 ^ w ->
  exists b, addr_extend a x w = Some b /\ addr_wf b /\
    addr_depth b = addr_depth a + w /\
    addr_chop b w = Some a /\ addr_extract b w = Some x.
Proof.
  intros (q & d & Hok & ->)%addr_wf_bits Hw Hd Hx.
  rewrite addr_depth_bits in * by done.
  exists (of_bits (q * 2 ^ w + x) (d + w)).
  pose proof (bits_ok_append q d x w Hok Hw Hd Hx) as Hb. destruct (id Hok) as [Hd0 _].
  rewrite addr_extend_bits, addr_depth_bits, addr_chop_bits, addr_extract_bits by (done || lia).
  rewrite append_div, append_mod by lia. replace (d + w - w) with d by lia.
  assert (addr_wf (of_bits (q * 2 ^ w + x) (d + w))) by (apply addr_wf_bits; eauto).
  done.
Qed.

Theorem addr_extend_chop_witness :
  exists b, addr_extend (of_bits 5 3) 2 8 = Some b /\ addr_wf b /\
    addr_depth b = 11 /\ addr_chop b 8 = Some (of_bits 5 3) /\ addr_extract b 8 = Some 2.
Proof.
  apply (addr_extend_chop (of_bits 5 3) 2 8); vm_compute; repeat split; congruence.
Defined.

(** [addr_sub] undoes [addr_add] as long as the sum stays inside the
    siblings of the address, although both work modulo 2^64. *)
Theorem addr_add_sub a c :
  addr_wf a -> 0 <= c -> addr_prefix a + c * 2 ^ (63 - addr_depth a) < 2 ^ 63 ->
  exists b, addr_add a c = Some b /\ addr_depth b = addr_depth a /\
    addr_prefix b = addr_prefix a + c * 2 ^ (63 - addr_depth a) /\ addr_sub b c = Some a.
Proof.
  intros (q & d & Hok & ->)%addr_wf_bits Hc Hlt.
  rewrite addr_depth_bits, addr_prefix_bits in * by done. destruct (id Hok) as [Hd Hq].
  pose proof (pow2_pos (63 - d)) as Hp. rewrite <- Z.mul_add_distr_r in Hlt.
  replace (2 ^ 63) with (2 ^ d * 2 ^ (63 - d)) in Hlt by (rewrite <- pow2_split by lia; f_equal; lia).
  assert (bits_ok (q + c) d) as Hb by (split; [lia|nia]).
  pose proof (pow2_le d 63) as Hle. destruct (id Hb) as [_ Hqc].
  assert (2 ^ (d + 1) = 2 * 2 ^ d) as Hs by (rewrite pow2_split by lia; lia).
  exists (of_bits (q + c) d).
  assert (wrap (d + 1) (q + c) = q + c) as E1 by (apply wrap_small; lia).
  assert (wrap (d + 1) (q + c + u64 (- c)) = q) as E2.
  { unfold u64, wrap. replace (2 ^ 64) with (2 ^ (d + 1) * 2 ^ (63 - d))
      by (rewrite <- pow2_split by lia; f_equal; lia).
    rewrite Z.rem_mul_r by lia.
    rewrite Z.add_assoc, (Z.mul_comm (2 ^ (d + 1))), Z.mod_add, Z.add_mod_idemp_r by lia.
    replace (q + c + - c) with q by lia. apply Z.mod_small. lia. }
  rewrite addr_depth_bits, addr_prefix_bits by done.
  unfold addr_sub. rewrite (addr_add_bits q d c), E1 by (rewrite ?E1; done || lia).
  rewrite addr_add_bits, E2 by (rewrite ?E2; done || apply u64_range).
  repeat split; lia.
Qed.

Theorem addr_add_sub_witness :
  exists b, addr_add (of_bits 5 44) 3 = Some b /\ addr_depth b = 44 /\
    addr_prefix b = 8 * 2 ^ 19 /\ addr_sub b 3 = Some (of_bits 5 44).
Proof.
  apply (addr_add_sub (of_bits 5 44) 3); vm_compute; repeat split; congruence.
Defined.

(** The assertion of [ADDR] on the low bits of the prefix computes its
    mask at type [int], so for small depths it is too narrow: at every depth
    below 32 a prefix with a stray bit outside the mask is accepted, and the
    address built has lost either the prefix or the depth it was given. *)
Theorem ADDR_mask_too_narrow d :
  0 <= d <= 31 ->
  let p := 2 ^ (62 - d) in
  ~ addr_ok p d /\
  exists a, ADDR p d = Some a /\ ~ (addr_prefix a = p /\ addr_depth a = d).
Proof.
  intros Hd p.
  assert (forallb (fun n => let d := Z.of_nat n in
            match ADDR (2 ^ (62 - d)) d with
            | Some a => negb ((addr_prefix a =? 2 ^ (62 - d)) && (addr_depth a =? d))
                        && negb (2 ^ (62 - d) mod 2 ^ (63 - d) =? 0)
            | None => false
            end) (seq 0 32) = true) as Hall by (vm_compute; reflexivity).
  rewrite forallb_forall in Hall. specialize (Hall (Z.to_nat d)).
  rewrite Z2Nat.id in Hall by lia.
  specialize (Hall ltac:(apply in_seq; lia)). subst p. cbv zeta in Hall.
  destruct (ADDR (2 ^ (62 - d)) d) as [a|]; [|done].
  apply andb_true_iff in Hall as [Ha Hm]. zbool. split.
  - by intros (_ & _ & ?).
  - exists a. split; [done|]. intros [E1 E2]. by rewrite E1, E2, !Z.eqb_refl in Ha.
Qed.

Theorem ADDR_mask_too_narrow_witness :
  ~ addr_ok (2 ^ 42) 20 /\
  exists a, ADDR (2 ^ 42) 20 = Some a /\ ~ (addr_prefix a = 2 ^ 42 /\ addr_depth a = 20).
Proof. apply (ADDR_mask_too_narrow 20). lia. Defined.
