(* ===== verification/Bits.v ===== *)
(** * Bit fields of words: [libhurd-mm/bits.h]

    The four extraction functions and, in terms of division and remainder,
    what they return when their assertions hold. *)

From S2P Require Import Prelude.

(** [C] bits of the 32-bit word [W] starting at bit [S]. *)
Definition extract_bits (w s c : Z) : option Z :=
  _ ← assertb ((0 <=? s) && (s <? 32));
  _ ← assertb ((0 <=? c) && (s + c <=? 32));
  if c =? 32
  then _ ← assertb (s =? 0); Some w
  else Some (u32 (Z.land (Z.shiftr w s) (2 ^ c - 1))).

Definition extract_bits64 (w s c : Z) : option Z :=
  _ ← assertb ((0 <=? s) && (s <? 64));
  _ ← assertb ((0 <=? c) && (s + c <=? 64));
  if c =? 64
  then _ ← assertb (s =? 0); Some w
  else Some (Z.land (Z.shiftr w s) (2 ^ c - 1)).

(** [C] bits of the word [W] ending at bit [E]. *)
Definition extract_bits_inv (w e c : Z) : option Z :=
  if c =? 0 then Some 0 else extract_bits w (e - c + 1) c.

Definition extract_bits64_inv (w e c : Z) : option Z :=
  if c =? 0 then Some 0 else extract_bits64 w (e - c + 1) c.

(** ** Lemmas *)

Lemma extract_bits_eq w s c :
  0 <= w < 2 ^ 32 -> 0 <= s < 32 -> 0 <= c -> s + c <= 32 ->
  extract_bits w s c = Some ((w / 2 ^ s) mod 2 ^ c).
Proof.
  intros Hw Hs Hc Hsc. unfold extract_bits. rewrite !assertb_true by lia.
  case_if.
  - subst c. replace s with 0 by lia. cbn [Z.eqb assertb mbind option_bind].
    by rewrite Z.div_1_r, Z.mod_small by lia.
  - rewrite land_mask, Z.shiftr_div_pow2 by lia. f_equal. apply u32_small.
    pose proof (Z.mod_pos_bound (w / 2 ^ s) (2 ^ c) ltac:(by apply pow2_pos)).
    pose proof (pow2_le c 32). lia.
Qed.

Lemma extract_bits64_eq w s c :
  0 <= w < 2 ^ 64 -> 0 <= s < 64 -> 0 <= c -> s + c <= 64 ->
  extract_bits64 w s c = Some ((w / 2 ^ s) mod 2 ^ c).
Proof.
  intros Hw Hs Hc Hsc. unfold extract_bits64. rewrite !assertb_true by lia.
  case_if.
  - subst c. replace s with 0 by lia. cbn [Z.eqb assertb mbind option_bind].
    by rewrite Z.div_1_r, Z.mod_small by lia.
  - by rewrite land_mask, Z.shiftr_div_pow2 by lia.
Qed.

(** The [c] most significant of the [n] low bits of [w]. *)
Lemma extract_bits64_inv_eq w n c :
  0 <= w < 2 ^ 64 -> 0 <= c <= n -> n <= 64 ->
  extract_bits64_inv w (n - 1) c = Some ((w / 2 ^ (n - c)) mod 2 ^ c).
Proof.
  intros Hw Hc Hn. unfold extract_bits64_inv. case_if.
  - subst. by rewrite Z.mod_1_r.
  - replace (n - 1 - c + 1) with (n - c) by lia. apply extract_bits64_eq; lia.
Qed.

Lemma extract_bits_inv_eq w n c :
  0 <= w < 2 ^ 32 -> 0 <= c <= n -> n <= 32 ->
  extract_bits_inv w (n - 1) c = Some ((w / 2 ^ (n - c)) mod 2 ^ c).
Proof.
  intros Hw Hc Hn. unfold extract_bits_inv. case_if.
  - subst. by rewrite Z.mod_1_r.
  - replace (n - 1 - c + 1) with (n - c) by lia. apply extract_bits_eq; lia.
Qed.
