(* ===== verification/AddrTrans.v ===== *)
(** * How a capability translates address bits: [hurd/addr-trans.h]

    A translation descriptor holds a guard (up to 22 significant bits shared
    with the subpage index), the number of subpages its page is split into and
    the number of guard bits.  The fields of the record are the bit fields of
    [struct cap_addr_trans]; a store to a bit field keeps its low bits. *)

From S2P Require Import Prelude L4Math.

Definition CAP_ADDR_TRANS_GUARD_SUBPAGE_BITS : Z := 22.
Definition CAP_ADDR_TRANS_SUBPAGES_BITS : Z := 4.
Definition CAP_ADDR_TRANS_GDEPTH_BITS : Z := 6.

Record cap_addr_trans := mk_cat {
  guard_subpage : Z;
  subpages_log2 : Z;
  gdepth : Z
}.

#[export] Instance cap_addr_trans_eq_dec : EqDecision cap_addr_trans.
Proof. solve_decision. Defined.

(** The values the bit fields can hold. *)
Definition cat_wf (t : cap_addr_trans) : Prop :=
  0 <= guard_subpage t < 2 ^ 22 /\ 0 <= subpages_log2 t < 2 ^ 4 /\ 0 <= gdepth t < 2 ^ 6.

Definition CAP_ADDR_TRANS_VOID : cap_addr_trans := mk_cat 0 0 0.

Definition CAP_ADDR_TRANS_SUBPAGES_LOG2 (t : cap_addr_trans) : Z := subpages_log2 t.

Definition CAP_ADDR_TRANS_SUBPAGES (t : cap_addr_trans) : Z :=
  Z.shiftl 1 (CAP_ADDR_TRANS_SUBPAGES_LOG2 t).

Definition CAP_ADDR_TRANS_SUBPAGE (t : cap_addr_trans) : Z :=
  Z.land (guard_subpage t) (CAP_ADDR_TRANS_SUBPAGES t - 1).

Definition CAP_ADDR_TRANS_SUBPAGE_SIZE_LOG2 (t : cap_addr_trans) : Z := 8 - subpages_log2 t.

Definition CAP_ADDR_TRANS_SUBPAGE_SIZE (t : cap_addr_trans) : Z :=
  Z.shiftl 1 (CAP_ADDR_TRANS_SUBPAGE_SIZE_LOG2 t).

Definition CAP_ADDR_TRANS_SUBPAGE_OFFSET (t : cap_addr_trans) : Z :=
  CAP_ADDR_TRANS_SUBPAGE t * CAP_ADDR_TRANS_SUBPAGE_SIZE t.

Definition CAP_ADDR_TRANS_GUARD_BITS (t : cap_addr_trans) : Z := gdepth t.

Definition CAP_ADDR_TRANS_GUARD (t : cap_addr_trans) : Z :=
  Z.shiftr (guard_subpage t) (subpages_log2 t).

(** The six tests of [CAP_ADDR_TRANS_SET_GUARD_SUBPAGE]: each one that fails
    clears [r_], and none of them returns early. *)
Definition set_guard_subpage_valid (guard_ gdepth_ subpage_ subpages_ : Z) : bool :=
  let subpages_log2_ := L4_msb (u32 subpages_) - 1 in
  let gbits_ := L4_msb64 (u64 guard_) in
  (0 <? subpages_) && (Z.land subpages_ (subpages_ - 1) =? 0)
  && (subpages_log2_ <=? 8)
  && ((0 <=? subpage_) && (subpage_ <? subpages_))
  && (gbits_ <=? gdepth_)
  && (gbits_ + subpages_log2_ <=? CAP_ADDR_TRANS_GUARD_SUBPAGE_BITS).

(** The new descriptor and the value of the statement expression. *)
Definition CAP_ADDR_TRANS_SET_GUARD_SUBPAGE
    (t : cap_addr_trans) (guard_ gdepth_ subpage_ subpages_ : Z) : bool * cap_addr_trans :=
  if set_guard_subpage_valid guard_ gdepth_ subpage_ subpages_ then
    let subpages_log2_ := L4_msb (u32 subpages_) - 1 in
    (true, {| subpages_log2 := wrap CAP_ADDR_TRANS_SUBPAGES_BITS subpages_log2_;
              gdepth := wrap CAP_ADDR_TRANS_GDEPTH_BITS gdepth_;
              guard_subpage :=
                wrap CAP_ADDR_TRANS_GUARD_SUBPAGE_BITS
                     (Z.lor (Z.shiftl guard_ subpages_log2_) subpage_) |})
  else (false, t).

Definition CAP_ADDR_TRANS_SET_GUARD (t : cap_addr_trans) (guard_ gdepth_ : Z)
    : bool * cap_addr_trans :=
  CAP_ADDR_TRANS_SET_GUARD_SUBPAGE t guard_ gdepth_
    (CAP_ADDR_TRANS_SUBPAGE t) (CAP_ADDR_TRANS_SUBPAGES t).

Definition CAP_ADDR_TRANS_SET_SUBPAGE (t : cap_addr_trans) (subpage_ subpages_ : Z)
    : bool * cap_addr_trans :=
  CAP_ADDR_TRANS_SET_GUARD_SUBPAGE t
    (CAP_ADDR_TRANS_GUARD t) (CAP_ADDR_TRANS_GUARD_BITS t) subpage_ subpages_.

Definition CAP_ADDR_TRANS_VALID (t : cap_addr_trans) : bool :=
  (CAP_ADDR_TRANS_GUARD_BITS t <=? 32)
  && (CAP_ADDR_TRANS_SUBPAGES_LOG2 t <=? 8)
  && (L4_msb (u32 (CAP_ADDR_TRANS_GUARD t)) <=? CAP_ADDR_TRANS_GUARD_BITS t).

(** ** Lemmas *)

Lemma cat_subpages_pow2 t : 0 <= subpages_log2 t -> CAP_ADDR_TRANS_SUBPAGES t = 2 ^ subpages_log2 t.
Proof. intros. unfold CAP_ADDR_TRANS_SUBPAGES. by rewrite Z.shiftl_1_l. Qed.

Lemma cat_subpage_mod t :
  0 <= subpages_log2 t -> CAP_ADDR_TRANS_SUBPAGE t = guard_subpage t mod 2 ^ subpages_log2 t.
Proof.
  intros. unfold CAP_ADDR_TRANS_SUBPAGE. by rewrite cat_subpages_pow2, land_mask.
Qed.

Lemma cat_guard_div t :
  0 <= subpages_log2 t -> CAP_ADDR_TRANS_GUARD t = guard_subpage t / 2 ^ subpages_log2 t.
Proof. intros. unfold CAP_ADDR_TRANS_GUARD. by rewrite Z.shiftr_div_pow2. Qed.

Lemma cat_subpage_size_pow2 t :
  subpages_log2 t <= 8 -> CAP_ADDR_TRANS_SUBPAGE_SIZE t = 2 ^ (8 - subpages_log2 t).
Proof.
  intros. unfold CAP_ADDR_TRANS_SUBPAGE_SIZE, CAP_ADDR_TRANS_SUBPAGE_SIZE_LOG2.
  by rewrite Z.shiftl_1_l by lia.
Qed.

Lemma cat_subpage_range t :
  0 <= subpages_log2 t -> 0 <= CAP_ADDR_TRANS_SUBPAGE t < CAP_ADDR_TRANS_SUBPAGES t.
Proof.
  intros. rewrite cat_subpage_mod, cat_subpages_pow2 by done.
  apply Z.mod_pos_bound. by apply pow2_pos.
Qed.

Lemma cat_guard_range t : cat_wf t -> 0 <= CAP_ADDR_TRANS_GUARD t < 2 ^ 22.
Proof.
  intros (Hg & Hs & _). rewrite cat_guard_div by lia. pose proof (pow2_pos (subpages_log2 t)).
  split; [apply Z.div_pos; lia|].
  eapply Z.le_lt_trans; [apply Z.div_le_upper_bound with (q := guard_subpage t)|]; nia.
Qed.

(** The subpage named by a descriptor lies inside the 256 slots of a page. *)
Lemma cat_offset_bound t i :
  0 <= subpages_log2 t <= 8 -> 0 <= i < CAP_ADDR_TRANS_SUBPAGE_SIZE t ->
  0 <= CAP_ADDR_TRANS_SUBPAGE_OFFSET t + i < 256.
Proof.
  intros Hs Hi. pose proof (cat_subpage_range t ltac:(lia)) as Hr.
  unfold CAP_ADDR_TRANS_SUBPAGE_OFFSET.
  rewrite cat_subpages_pow2, cat_subpage_size_pow2 in * by lia.
  change 256 with (2 ^ 8). rewrite (pow2_at (8 - subpages_log2 t) 8) by lia.
  replace (8 - (8 - subpages_log2 t)) with (subpages_log2 t) by lia.
  pose proof (pow2_pos (8 - subpages_log2 t)). nia.
Qed.

(** A power of two is recognised by [x & (x - 1) == 0]. *)
Lemma pow2_test x : 0 < x -> Z.land x (x - 1) = 0 <-> x = 2 ^ Z.log2 x.
Proof.
  intros Hx. split.
  - intros Hz. pose proof (Z.log2_spec x Hx) as [Hlo Hhi].
    destruct (Z.eq_dec x (2 ^ Z.log2 x)) as [|Hne]; [done|].
    exfalso. pose proof (Z.log2_nonneg x) as Hn.
    assert (Z.testbit (Z.land x (x - 1)) (Z.log2 x) = true) as Hb.
    { rewrite Z.land_spec, Z.bit_log2 by done.
      assert (Z.log2 (x - 1) = Z.log2 x) as E by (apply Z.log2_unique; lia).
      pose proof (pow2_pos (Z.log2 x)). rewrite <- E. by rewrite Z.bit_log2 by lia. }
    by rewrite Hz, Z.bits_0 in Hb.
  - intros E. pose proof (Z.log2_nonneg x) as Hn. generalize dependent (Z.log2 x).
    intros k -> Hk. rewrite land_mask by done. apply Z.mod_same. pose proof (pow2_pos k Hk). lia.
Qed.

(** What the six tests amount to. *)
Lemma set_guard_subpage_valid_iff g gd s n :
  0 <= g < 2 ^ 64 -> 0 <= n < 2 ^ 32 ->
  set_guard_subpage_valid g gd s n = true <->
  exists k, 0 <= k <= 8 /\ n = 2 ^ k /\ 0 <= s < n /\ L4_msb g <= gd /\ L4_msb g + k <= 22.
Proof.
  intros Hg Hn. unfold set_guard_subpage_valid, CAP_ADDR_TRANS_GUARD_SUBPAGE_BITS.
  rewrite (u32_small n), (u64_small g), L4_msb64_eq by done.
  rewrite !andb_true_iff, !Z.ltb_lt, !Z.leb_le, Z.eqb_eq. split.
  - intros (((((H0 & Hp) & H8) & Hs1 & Hs2) & Hgd) & Hb).
    rewrite (L4_msb_log2 n) in * by lia. apply pow2_test in Hp; [|done].
    pose proof (Z.log2_nonneg n). exists (Z.log2 n). repeat split; try done; lia.
  - intros (k & Hk & -> & Hs & Hgd & Hb). pose proof (pow2_pos k).
    rewrite L4_msb_log2, Z.log2_pow2 by lia.
    repeat split; try lia. rewrite land_mask by lia. apply Z.mod_same. lia.
Qed.

Lemma cat_eta t t' :
  guard_subpage t = guard_subpage t' -> subpages_log2 t = subpages_log2 t' -> gdepth t = gdepth t' -> t = t'.
Proof. destruct t, t'; cbn; congruence. Qed.

(** Storing what a descriptor holds gives back the descriptor. *)
Lemma set_guard_subpage_same t t' :
  cat_wf t -> subpages_log2 t <= 8 ->
  CAP_ADDR_TRANS_GUARD t < 2 ^ CAP_ADDR_TRANS_GUARD_BITS t ->
  CAP_ADDR_TRANS_SET_GUARD_SUBPAGE t' (CAP_ADDR_TRANS_GUARD t) (CAP_ADDR_TRANS_GUARD_BITS t)
    (CAP_ADDR_TRANS_SUBPAGE t) (CAP_ADDR_TRANS_SUBPAGES t) = (true, t).
Proof.
  intros Hwf H8 Hg. pose proof (cat_guard_range t Hwf) as Hr. destruct Hwf as (Hgs & Hl & Hd).
  pose proof (cat_subpage_range t ltac:(lia)) as Hs. pose proof (pow2_pos (subpages_log2 t)) as Hp.
  pose proof (pow2_le (subpages_log2 t) 8) as Hp8.
  rewrite cat_subpages_pow2 in * by lia.
  unfold CAP_ADDR_TRANS_SET_GUARD_SUBPAGE.
  assert (set_guard_subpage_valid (CAP_ADDR_TRANS_GUARD t) (CAP_ADDR_TRANS_GUARD_BITS t)
            (CAP_ADDR_TRANS_SUBPAGE t) (2 ^ subpages_log2 t) = true) as ->.
  { apply set_guard_subpage_valid_iff; [lia|lia|]. exists (subpages_log2 t).
    repeat split; try lia.
    - apply L4_msb_le; [lia| |done]. unfold CAP_ADDR_TRANS_GUARD_BITS. lia.
    - assert (L4_msb (CAP_ADDR_TRANS_GUARD t) <= 22 - subpages_log2 t); [|lia].
      apply L4_msb_le; [lia|lia|]. rewrite cat_guard_div by lia.
      apply Z.div_lt_upper_bound; [lia|].
      rewrite <- pow2_split by lia. replace (subpages_log2 t + (22 - subpages_log2 t)) with 22 by lia.
      lia. }
  f_equal. rewrite u32_small, L4_msb_log2, Z.log2_pow2 by lia.
  replace (subpages_log2 t + 1 - 1) with (subpages_log2 t) by lia.
  rewrite Z.shiftl_mul_pow2, lor_low_high by lia.
  rewrite cat_guard_div, cat_subpage_mod, <- mod_pow2_div by lia.
  apply cat_eta; cbn; apply wrap_small; done.
Qed.

(** ** Properties *)

(** when [CAP_ADDR_TRANS_SET_GUARD_SUBPAGE] accepts its arguments, the
    descriptor it stores reads back as them (for a guard depth that fits its
    6-bit field), and otherwise the descriptor is unchanged. *)
Theorem set_guard_subpage_readback t g gd s n r t' :
  0 <= g < 2 ^ 64 -> 0 <= gd < 64 -> 0 <= n < 2 ^ 32 ->
  CAP_ADDR_TRANS_SET_GUARD_SUBPAGE t g gd s n = (r, t') ->
  if r then
    cat_wf t' /\ subpages_log2 t' <= 8 /\
    CAP_ADDR_TRANS_GUARD t' = g /\ CAP_ADDR_TRANS_GUARD_BITS t' = gd /\
    CAP_ADDR_TRANS_SUBPAGE t' = s /\ CAP_ADDR_TRANS_SUBPAGES t' = n /\ g < 2 ^ gd
  else t' = t.
Proof.
  intros Hg Hgd Hn. unfold CAP_ADDR_TRANS_SET_GUARD_SUBPAGE.
  destruct (set_guard_subpage_valid g gd s n) eqn:V; intros [= <- <-]; [|done].
  apply set_guard_subpage_valid_iff in V as (k & Hk & -> & Hs & Hgb & Hgk); try done.
  rewrite u32_small, L4_msb_log2, Z.log2_pow2 by (try pose proof (pow2_pos k); lia).
  replace (k + 1 - 1) with k by lia.
  pose proof (pow2_pos k ltac:(lia)) as Hp. pose proof (L4_msb_nonneg g) as Hm.
  assert (g < 2 ^ (22 - k)) as Hg22 by (apply L4_msb_le; lia).
  assert (g < 2 ^ gd) by (apply L4_msb_le; lia).
  rewrite Z.shiftl_mul_pow2, lor_low_high by lia.
  assert (0 <= g * 2 ^ k + s < 2 ^ 22) as Hr.
  { replace (2 ^ 22) with (2 ^ (22 - k) * 2 ^ k) by (rewrite <- pow2_split by lia; f_equal; lia). nia. }
  unfold CAP_ADDR_TRANS_SUBPAGES_BITS, CAP_ADDR_TRANS_GDEPTH_BITS,
    CAP_ADDR_TRANS_GUARD_SUBPAGE_BITS.
  rewrite (wrap_small 4), (wrap_small 6), (wrap_small 22) by lia.
  unfold cat_wf. rewrite cat_guard_div, cat_subpage_mod, cat_subpages_pow2 by (cbn; lia).
  unfold CAP_ADDR_TRANS_GUARD_BITS. cbn [guard_subpage subpages_log2 gdepth].
  rewrite Z.div_add_l, Z.div_small by lia.
  rewrite Z.add_comm, Z.mod_add, Z.mod_small by lia.
  repeat split; lia.
Qed.

Theorem set_guard_subpage_readback_witness :
  cat_wf (mk_cat (5 * 16 + 3) 4 10) /\ subpages_log2 (mk_cat (5 * 16 + 3) 4 10) <= 8 /\
  CAP_ADDR_TRANS_GUARD (mk_cat (5 * 16 + 3) 4 10) = 5 /\
  CAP_ADDR_TRANS_GUARD_BITS (mk_cat (5 * 16 + 3) 4 10) = 10 /\
  CAP_ADDR_TRANS_SUBPAGE (mk_cat (5 * 16 + 3) 4 10) = 3 /\
  CAP_ADDR_TRANS_SUBPAGES (mk_cat (5 * 16 + 3) 4 10) = 16 /\ 5 < 2 ^ 10.
Proof.
  apply (set_guard_subpage_readback CAP_ADDR_TRANS_VOID 5 10 3 16 true
           (mk_cat (5 * 16 + 3) 4 10)); [lia|lia|lia|vm_compute; reflexivity].
Defined.
