(* ===== verification/Gbits.v ===== *)
(** * The guard length of a new page table: [libhurd-mm/as-compute-gbits.h]

    Where address-space construction puts the page table it inserts: the
    guard that leads to it and the number of bits it translates. *)

From S2P Require Import Prelude.

Definition PAGESIZE : Z := 0x1000.
Definition PAGESIZE_LOG2 : Z := 12.
Definition CAPPAGE_SLOTS : Z := PAGESIZE / 16.
Definition CAPPAGE_SLOTS_LOG2 : Z := PAGESIZE_LOG2 - 4.
Definition FOLIO_OBJECTS : Z := 128.
Definition FOLIO_OBJECTS_LOG2 : Z := 7.

Record as_guard_cappage := mk_gc { gc_gbits : Z; gc_cappage_width : Z }.

Definition as_compute_gbits_cappage (untranslated_bits to_translate gbits : Z)
    : option as_guard_cappage :=
  _ ← assertb ((0 <? untranslated_bits) && (0 <? to_translate) && (0 <=? gbits)
               && (to_translate <=? untranslated_bits)
               && (gbits <=? untranslated_bits)
               && (gbits <=? to_translate));
  let gbits :=
    if untranslated_bits <=? PAGESIZE_LOG2 then gbits
    else if untranslated_bits - gbits <=? PAGESIZE_LOG2 then
      untranslated_bits - PAGESIZE_LOG2
    else if untranslated_bits - gbits <=? FOLIO_OBJECTS_LOG2 + PAGESIZE_LOG2 then
      untranslated_bits - FOLIO_OBJECTS_LOG2 - PAGESIZE_LOG2
    else
      let remainder := untranslated_bits - gbits - FOLIO_OBJECTS_LOG2 - PAGESIZE_LOG2 in
      let to_remove := CAPPAGE_SLOTS_LOG2 - Z.rem remainder CAPPAGE_SLOTS_LOG2 in
      if to_remove <? gbits then gbits - to_remove else 0 in
  _ ← assertb (0 <=? gbits);
  let width :=
    if untranslated_bits - gbits =? FOLIO_OBJECTS_LOG2 + PAGESIZE_LOG2
    then FOLIO_OBJECTS_LOG2 else CAPPAGE_SLOTS_LOG2 in
  let width :=
    if to_translate <? gbits + width then to_translate - gbits else width in
  Some {| gc_gbits := gbits; gc_cappage_width := width |}.

(** The arguments that [as_build] passes: the asserted relations, and a guard
    strictly shorter than what is to be translated. *)
Definition gbits_pre (u t g : Z) : Prop := 0 < u /\ 0 <= g < t /\ t <= u.

(** Fewer bits than a folio and a page are left, and more than a page. *)
Definition gbits_gap (u g : Z) : Prop :=
  PAGESIZE_LOG2 < u < FOLIO_OBJECTS_LOG2 + PAGESIZE_LOG2 /\ PAGESIZE_LOG2 < u - g.

Ltac gbits_crush :=
  unfold as_compute_gbits_cappage, gbits_pre, gbits_gap,
    PAGESIZE_LOG2, FOLIO_OBJECTS_LOG2, CAPPAGE_SLOTS_LOG2, PAGESIZE_LOG2 in *.

(** The guard and the width that are computed satisfy what [as_build]
    asserts of them: the guard is not longer than the common prefix and the
    page table translates at least one bit, at most 8, and no more bits than
    there are before the object; the only arguments for which an assertion of
    the function itself fails are those in the gap between a page and a folio. *)
Theorem as_compute_gbits_fits u t g :
  gbits_pre u t g ->
  match as_compute_gbits_cappage u t g with
  | Some gc => ~ gbits_gap u g /\ 0 <= gc_gbits gc <= g /\ 0 < gc_cappage_width gc <= 8 /\
               gc_gbits gc + gc_cappage_width gc <= t
  | None => gbits_gap u g
  end.
Proof.
  intros Hpre. gbits_crush. change (12 - 4) with 8.
  rewrite assertb_true by lia.
  pose proof (Z.rem_bound_pos (u - g - 7 - 12) 8) as Hr.
  repeat case_if; cbn -[Z.rem]; try (repeat split; lia).
  all: destruct (0 <=? u - 7 - 12) eqn:E'; zbool; cbn;
  repeat case_if; cbn -[Z.rem].
  all: try match goal with |- context [assertb ?b] => destruct b eqn:?; zbool; cbn -[Z.rem] end.
  all: repeat match goal with H : context [if ?b then _ else _] |- _ => case_if_in H end.
  all: repeat split; lia.
Qed.

Theorem as_compute_gbits_fits_witness :
  ~ gbits_gap 63 30 /\ 0 <= 28 <= 30 /\ 0 < 8 <= 8 /\ 28 + 8 <= 40.
Proof. exact (as_compute_gbits_fits 63 40 30 ltac:(unfold gbits_pre; lia)). Defined.

(** page tables land where the design asks for: with more than a folio of
    untranslated bits left, the bits below the new guard are a folio and a
    page plus a multiple of a whole cappage, or there is no guard at all; and
    the table is a whole cappage whenever that many bits are there. *)
Theorem as_compute_gbits_aligned u t g gc :
  gbits_pre u t g -> 19 < u - g ->
  as_compute_gbits_cappage u t g = Some gc ->
  (gc_gbits gc = 0 \/ (u - gc_gbits gc - 19) mod 8 = 0) /\
  (gc_gbits gc + 8 <= t -> gc_cappage_width gc = 8).
Proof.
  intros Hpre Hu. gbits_crush. change (12 - 4) with 8.
  rewrite assertb_true by lia.
  rewrite Z.rem_mod_nonneg by lia.
  pose proof (Z.mod_pos_bound (u - g - 7 - 12) 8) as Hr.
  pose proof (Z.div_mod (u - g - 7 - 12) 8) as Hd.
  assert (forall r, r = (u - g - 7 - 12) mod 8 -> (u - (g - (8 - r)) - 19) mod 8 = 0) as Hm.
  { intros r ->. replace (u - (g - (8 - (u - g - 7 - 12) mod 8)) - 19)
      with (((u - g - 7 - 12) / 8 + 1) * 8) by lia. by rewrite Z.mod_mul. }
  specialize (Hm _ eq_refl). set (r := (u - g - 7 - 12) mod 8) in *. clearbody r.
  repeat case_if; cbn -[Z.modulo].
  all: try match goal with |- context [assertb ?b] => destruct b eqn:?; zbool; cbn -[Z.modulo] end.
  all: intros [= <-]; cbn -[Z.modulo].
  all: repeat match goal with H : context [if ?b then _ else _] |- _ => case_if_in H end.
  all: split; [first [left; lia | right; assumption]|lia].
Qed.

Theorem as_compute_gbits_aligned_witness :
  (12 = 0 \/ (63 - 12 - 19) mod 8 = 0) /\ (12 + 8 <= 40 -> 8 = 8).
Proof.
  apply (as_compute_gbits_aligned 63 40 18 (mk_gc 12 8));
    [unfold gbits_pre; lia|lia|vm_compute; reflexivity].
Defined.
