(* ===== verification/Cap.v ===== *)
(** * Capabilities: [hurd/cap.h]

    The types of capabilities and their order, policies and properties, the
    capability record and [cap_copy_x].  The header is compiled twice, for the
    kernel ([RM_INTERN]) and for user space; the record has the fields of
    both, and [cap_copy_x] takes the configuration as its first argument where
    the source has an [#ifdef]. *)

From S2P Require Import Prelude L4Math Addr AddrTrans.

(** ** Types *)

Inductive cap_type :=
  | cap_void
  | cap_page
  | cap_rpage
  | cap_cappage
  | cap_rcappage
  | cap_folio
  | cap_activity
  | cap_activity_control
  | cap_thread.

#[export] Instance cap_type_eq_dec : EqDecision cap_type.
Proof. solve_decision. Defined.

Definition cap_type_eqb (a b : cap_type) : bool := bool_decide (a = b).

Definition cap_types_compatible (a b : cap_type) : bool :=
  if cap_type_eqb a b then true
  else match a, b with
       | cap_page, cap_rpage | cap_rpage, cap_page => true
       | cap_cappage, cap_rcappage | cap_rcappage, cap_cappage => true
       | cap_activity, cap_activity_control | cap_activity_control, cap_activity => true
       | _, _ => false
       end.

Definition cap_type_weak_p (type : cap_type) : bool :=
  match type with
  | cap_rpage | cap_rcappage | cap_activity => true
  | _ => false
  end.

Definition cap_type_weaken (type : cap_type) : cap_type :=
  match type with
  | cap_page | cap_rpage => cap_rpage
  | cap_cappage | cap_rcappage => cap_rcappage
  | cap_activity_control | cap_activity => cap_activity
  | _ => cap_void
  end.

Definition cap_type_strengthen (type : cap_type) : cap_type :=
  match type with
  | cap_page | cap_rpage => cap_page
  | cap_cappage | cap_rcappage => cap_cappage
  | cap_activity_control | cap_activity => cap_activity_control
  | _ => type
  end.

(** ** Policies and properties *)

Definition OBJECT_PRIORITY_BITS : Z := 10.
Definition OBJECT_PRIORITY_MIN : Z := - Z.shiftl 1 (OBJECT_PRIORITY_BITS - 1).
Definition OBJECT_PRIORITY_LRU : Z := 0.
Definition OBJECT_PRIORITY_MAX : Z := Z.shiftl 1 (OBJECT_PRIORITY_BITS - 1) - 1.

(** Both bit fields are signed, so the flag is 0 or -1. *)
Record object_policy := mk_policy { op_discardable : Z; op_priority : Z }.

Definition OBJECT_POLICY (d p : Z) : object_policy :=
  mk_policy (swrap 1 d) (swrap OBJECT_PRIORITY_BITS p).

Definition OBJECT_POLICY_DEFAULT : object_policy := OBJECT_POLICY 0 OBJECT_PRIORITY_LRU.

Record cap_properties := CAP_PROPERTIES {
  policy : object_policy;
  p_addr_trans : cap_addr_trans
}.

Definition CAP_PROPERTIES_VOID : cap_properties :=
  CAP_PROPERTIES (OBJECT_POLICY 0 0) CAP_ADDR_TRANS_VOID.

(** ** The capability record *)

Definition CAP_VERSION_BITS : Z := 20.

Record cap := mk_cap {
  c_version : Z;                   (* kernel *)
  c_weak_p : bool;                 (* kernel *)
  c_oid : Z;                       (* kernel *)
  c_shadow : Z;                    (* user space: the shadow object, 0 if none *)
  c_discardable : Z;               (* unsigned, 1 bit *)
  c_priority : Z;                  (* unsigned, 10 bits *)
  c_type : cap_type;
  c_addr_trans : cap_addr_trans
}.

Definition cap_set_type (c : cap) (t : cap_type) : cap :=
  mk_cap (c_version c) (c_weak_p c) (c_oid c) (c_shadow c)
         (c_discardable c) (c_priority c) t (c_addr_trans c).

Definition cap_set_addr_trans (c : cap) (a : cap_addr_trans) : cap :=
  mk_cap (c_version c) (c_weak_p c) (c_oid c) (c_shadow c)
         (c_discardable c) (c_priority c) (c_type c) a.

Definition cap_set_discardable (c : cap) (d : Z) : cap :=
  mk_cap (c_version c) (c_weak_p c) (c_oid c) (c_shadow c)
         (wrap 1 d) (c_priority c) (c_type c) (c_addr_trans c).

Definition cap_set_priority (c : cap) (p : Z) : cap :=
  mk_cap (c_version c) (c_weak_p c) (c_oid c) (c_shadow c)
         (c_discardable c) (wrap OBJECT_PRIORITY_BITS p) (c_type c) (c_addr_trans c).

Definition cap_get_shadow (c : cap) : Z := c_shadow c.

Definition cap_set_shadow (c : cap) (s : Z) : cap :=
  mk_cap (c_version c) (c_weak_p c) (c_oid c) s
         (c_discardable c) (c_priority c) (c_type c) (c_addr_trans c).

Definition CAP_POLICY_GET (c : cap) : object_policy :=
  OBJECT_POLICY (c_discardable c) (c_priority c).

Definition CAP_POLICY_SET (c : cap) (p : object_policy) : cap :=
  cap_set_priority (cap_set_discardable c (op_discardable p)) (op_priority p).

Definition CAP_PROPERTIES_GET (c : cap) : cap_properties :=
  CAP_PROPERTIES (CAP_POLICY_GET c) (c_addr_trans c).

Definition CAP_PROPERTIES_SET (c : cap) (p : cap_properties) : cap :=
  cap_set_addr_trans (CAP_POLICY_SET c (policy p)) (p_addr_trans p).

Definition CAP_SUBPAGES (c : cap) : Z := CAP_ADDR_TRANS_SUBPAGES (c_addr_trans c).
Definition CAP_SUBPAGE (c : cap) : Z := CAP_ADDR_TRANS_SUBPAGE (c_addr_trans c).
Definition CAP_SUBPAGE_SIZE_LOG2 (c : cap) : Z := CAP_ADDR_TRANS_SUBPAGE_SIZE_LOG2 (c_addr_trans c).
Definition CAP_SUBPAGE_SIZE (c : cap) : Z := CAP_ADDR_TRANS_SUBPAGE_SIZE (c_addr_trans c).
Definition CAP_SUBPAGE_OFFSET (c : cap) : Z := CAP_ADDR_TRANS_SUBPAGE_OFFSET (c_addr_trans c).
Definition CAP_GUARD_BITS (c : cap) : Z := CAP_ADDR_TRANS_GUARD_BITS (c_addr_trans c).
Definition CAP_GUARD (c : cap) : Z := CAP_ADDR_TRANS_GUARD (c_addr_trans c).

Definition is_cappage (t : cap_type) : bool :=
  cap_type_eqb t cap_cappage || cap_type_eqb t cap_rcappage.

Definition CAP_SET_GUARD_SUBPAGE (c : cap) (guard_ gdepth_ subpage_ subpages_ : Z) : bool * cap :=
  if negb (subpages_ =? 1) && negb (is_cappage (c_type c)) then (false, c)
  else let '(r_, a) := CAP_ADDR_TRANS_SET_GUARD_SUBPAGE (c_addr_trans c)
                         guard_ gdepth_ subpage_ subpages_ in
       (r_, cap_set_addr_trans c a).

Definition CAP_SET_GUARD (c : cap) (guard_ gdepth_ : Z) : bool * cap :=
  CAP_SET_GUARD_SUBPAGE c guard_ gdepth_ (CAP_SUBPAGE c) (CAP_SUBPAGES c).

Definition CAP_SET_SUBPAGE (c : cap) (subpage_ subpages_ : Z) : bool * cap :=
  CAP_SET_GUARD_SUBPAGE c (CAP_GUARD c) (CAP_GUARD_BITS c) subpage_ subpages_.

(** ** [cap_copy_x] *)

Definition CAP_COPY_COPY_ADDR_TRANS_SUBPAGE : Z := Z.shiftl 1 0.
Definition CAP_COPY_COPY_ADDR_TRANS_GUARD : Z := Z.shiftl 1 1.
Definition CAP_COPY_COPY_SOURCE_GUARD : Z := Z.shiftl 1 2.
Definition CAP_COPY_WEAKEN : Z := Z.shiftl 1 3.
Definition CAP_COPY_DISCARDABLE_SET : Z := Z.shiftl 1 4.
Definition CAP_COPY_PRIORITY_SET : Z := Z.shiftl 1 5.

Definition flag (flags f : Z) : bool := negb (Z.land flags f =? 0).

(** Does the subpage [s'] of [n'] lie inside the subpage [s] of [n]? *)
Definition subpage_subset (s n s' n' : Z) : bool :=
  (s * (256 ÷ n) <=? s' * (256 ÷ n')) && ((s' + 1) * (256 ÷ n') <=? (s + 1) * (256 ÷ n)).

(** The subpage and the number of subpages of the copy; [None] when the
    function returns false. *)
Definition copy_subpage (source : cap) (flags : Z) (properties : cap_properties)
    : option (Z * Z) :=
  if flag flags CAP_COPY_COPY_ADDR_TRANS_SUBPAGE then
    let a := p_addr_trans properties in
    if negb (CAP_ADDR_TRANS_SUBPAGES a =? 1) && negb (is_cappage (c_type source)) then None
    else if negb (subpage_subset (CAP_SUBPAGE source) (CAP_SUBPAGES source)
                    (CAP_ADDR_TRANS_SUBPAGE a) (CAP_ADDR_TRANS_SUBPAGES a)) then None
    else Some (CAP_ADDR_TRANS_SUBPAGE a, CAP_ADDR_TRANS_SUBPAGES a)
  else Some (CAP_SUBPAGE source, CAP_SUBPAGES source).

(** The guard and the number of guard bits of the copy. *)
Definition copy_guard (target source : cap) (flags : Z) (properties : cap_properties) : Z * Z :=
  if flag flags CAP_COPY_COPY_ADDR_TRANS_GUARD then
    (i32 (CAP_ADDR_TRANS_GUARD (p_addr_trans properties)),
     CAP_ADDR_TRANS_GUARD_BITS (p_addr_trans properties))
  else if flag flags CAP_COPY_COPY_SOURCE_GUARD then
    (i32 (CAP_GUARD source), CAP_GUARD_BITS source)
  else (i32 (CAP_GUARD target), CAP_GUARD_BITS target).

(** The kernel's test of whether cached translations through [target] must be
    revoked. *)
Definition changes_translation (target source : cap) (flags subpage subpages guard gbits : Z) : bool :=
  negb (c_oid target =? c_oid source)
  || negb (c_version target =? c_version source)
  || (negb (subpage =? CAP_SUBPAGE target) || negb (subpages =? CAP_SUBPAGES target))
  || (negb (guard =? CAP_GUARD target) || negb (gbits =? CAP_GUARD_BITS target))
  || (negb (cap_type_eqb (c_type target) (c_type source))
      && negb (flag flags CAP_COPY_WEAKEN
               && cap_type_eqb (cap_type_weaken (c_type source)) (c_type target))).

(** The final assignments to [*target]. *)
Definition copy_result (source : cap) (flags : Z) (properties : cap_properties)
    (a : cap_addr_trans) : cap :=
  let t := cap_set_addr_trans source a in
  let t := if flag flags CAP_COPY_WEAKEN then cap_set_type t (cap_type_weaken (c_type t)) else t in
  let t := if flag flags CAP_COPY_DISCARDABLE_SET
           then cap_set_discardable t (op_discardable (policy properties)) else t in
  if flag flags CAP_COPY_PRIORITY_SET
  then cap_set_priority t (op_priority (policy properties)) else t.

(** What a call does: its value, whether [cap_shootdown] was called on the old
    target, and the target after it. *)
Record copy_outcome := mk_outcome { co_ok : bool; co_shootdown : bool; co_target : cap }.

Section cap_copy.
(** What [cap_shootdown] leaves in the capability it is called on (it may
    find the capability stale and void it), and the result of the RPC by
    which user space has the kernel make the same copy. *)
Context (shootdown : cap -> cap) (rm_cap_copy : Z).

Definition cap_copy_x (RM_INTERN : bool) (target_addr source_addr : addr)
    (target source : cap) (flags : Z) (properties : cap_properties) : option copy_outcome :=
  match copy_subpage source flags properties with
  | None => Some (mk_outcome false false target)
  | Some (subpage, subpages) =>
      let '(guard, gbits) := copy_guard target source flags properties in
      let shot := RM_INTERN
                  && changes_translation target source flags subpage subpages guard gbits in
      let target := if shot then shootdown target else target in
      let '(r, a) := CAP_ADDR_TRANS_SET_GUARD_SUBPAGE (p_addr_trans properties)
                       guard gbits subpage subpages in
      if negb r then Some (mk_outcome false shot target)
      else
        _ ← (if RM_INTERN then Some tt
             else _ ← assertb (negb (ADDR_IS_VOID target_addr));
                  _ ← assertb (negb (ADDR_IS_VOID source_addr));
                  assertb (rm_cap_copy =? 0));
        Some (mk_outcome true shot (copy_result source flags properties a))
  end.

Definition cap_copy (RM_INTERN : bool) (target_addr source_addr : addr)
    (target source : cap) : option copy_outcome :=
  cap_copy_x RM_INTERN target_addr source_addr target source
    (Z.lor CAP_COPY_DISCARDABLE_SET CAP_COPY_PRIORITY_SET) (CAP_PROPERTIES_GET source).
End cap_copy.

(** ** Lemmas *)

(** A capability whose bit fields hold values they can hold and whose subpage
    is one of its page. *)
Definition cap_wf (c : cap) : Prop :=
  cat_wf (c_addr_trans c) /\ subpages_log2 (c_addr_trans c) <= 8 /\
  0 <= c_discardable c < 2 /\ 0 <= c_priority c < 2 ^ 10.

Definition policy_wf (p : object_policy) : Prop :=
  -1 <= op_discardable p <= 0 /\ OBJECT_PRIORITY_MIN <= op_priority p <= OBJECT_PRIORITY_MAX.

(** The slots of its page a cappage capability gives access to. *)
Definition cap_slot_p (c : cap) (i : Z) : Prop :=
  CAP_SUBPAGE_OFFSET c <= i < CAP_SUBPAGE_OFFSET c + CAP_SUBPAGE_SIZE c.

Lemma swrap_wrap w z : 0 < w -> - 2 ^ (w - 1) <= z < 2 ^ (w - 1) -> swrap w (wrap w z) = z.
Proof.
  intros Hw Hz. unfold swrap, wrap. rewrite Z.add_mod_idemp_l by (pose proof (pow2_pos w); lia).
  fold (swrap w z). by apply swrap_small.
Qed.

Lemma wrap_swrap w z : 0 < w -> 0 <= z < 2 ^ w -> wrap w (swrap w z) = z.
Proof.
  intros Hw Hz. unfold swrap, wrap. pose proof (pow2_pos w).
  rewrite Zminus_mod_idemp_l. replace (z + 2 ^ (w - 1) - 2 ^ (w - 1)) with z by lia.
  apply Z.mod_small. lia.
Qed.

Lemma cap_set_fields c t a d p :
  c_type (cap_set_type c t) = t /\ c_addr_trans (cap_set_addr_trans c a) = a /\
  c_discardable (cap_set_discardable c d) = wrap 1 d /\
  c_priority (cap_set_priority c p) = wrap 10 p.
Proof. done. Qed.

Lemma copy_result_fields source flags pr a :
  let t := copy_result source flags pr a in
  c_oid t = c_oid source /\ c_version t = c_version source /\
  c_shadow t = c_shadow source /\ c_addr_trans t = a /\
  c_type t = (if flag flags CAP_COPY_WEAKEN then cap_type_weaken (c_type source)
              else c_type source) /\
  c_discardable t = (if flag flags CAP_COPY_DISCARDABLE_SET
                     then wrap 1 (op_discardable (policy pr)) else c_discardable source) /\
  c_priority t = (if flag flags CAP_COPY_PRIORITY_SET
                  then wrap 10 (op_priority (policy pr)) else c_priority source).
Proof.
  unfold copy_result. repeat case_if; cbn; repeat split; reflexivity.
Qed.

(** The subpage chosen for a copy lies inside the source's. *)
Lemma copy_subpage_slots source flags pr t i :
  cap_wf source -> 0 <= subpages_log2 (c_addr_trans t) <= 8 ->
  copy_subpage source flags pr = Some (CAP_SUBPAGE t, CAP_SUBPAGES t) ->
  cap_slot_p t i -> cap_slot_p source i.
Proof.
  intros (Hs & Hs8 & _) Ht8. destruct Hs as (_ & Hs0 & _).
  unfold copy_subpage, cap_slot_p, CAP_SUBPAGE_OFFSET, CAP_SUBPAGE_SIZE,
    CAP_ADDR_TRANS_SUBPAGE_OFFSET, subpage_subset, CAP_SUBPAGE, CAP_SUBPAGES.
  assert (forall a, 0 <= subpages_log2 a <= 8 ->
            256 ÷ CAP_ADDR_TRANS_SUBPAGES a = CAP_ADDR_TRANS_SUBPAGE_SIZE a) as Hq.
  { intros a Ha. rewrite cat_subpages_pow2, cat_subpage_size_pow2 by lia.
    pose proof (pow2_pos (subpages_log2 a)). rewrite Z.quot_div_nonneg by lia.
    change 256 with (2 ^ 8). rewrite <- Z.pow_sub_r by lia. done. }
  intros Es Hi. repeat case_if_in Es; try done; injection Es as E1 E2.
  - rewrite E1, E2, !Hq in * by lia. zbool. lia.
  - assert (subpages_log2 (c_addr_trans t) = subpages_log2 (c_addr_trans source)) as Elog.
    { rewrite !cat_subpages_pow2 in E2 by lia. apply Z.pow_inj_r in E2; lia. }
    rewrite !cat_subpage_size_pow2 in * by lia. by rewrite Elog, <- E1 in *.
Qed.

(** The guard a copy is given fits the descriptor. *)
Lemma copy_guard_range target source flags pr g gb :
  cat_wf (c_addr_trans target) -> cat_wf (c_addr_trans source) -> cat_wf (p_addr_trans pr) ->
  copy_guard target source flags pr = (g, gb) -> 0 <= g < 2 ^ 22 /\ 0 <= gb < 64.
Proof.
  intros Ht Hs Hp. unfold copy_guard, CAP_GUARD, CAP_GUARD_BITS, CAP_ADDR_TRANS_GUARD_BITS.
  pose proof (cat_guard_range _ Ht). pose proof (cat_guard_range _ Hs).
  pose proof (cat_guard_range _ Hp).
  destruct Ht as (_ & _ & ?), Hs as (_ & _ & ?), Hp as (_ & _ & ?).
  rewrite !i32_small by lia. repeat case_if; intros [= <- <-]; lia.
Qed.

(** The guard is the one the flags select. *)
Lemma copy_guard_eq target source flags pr :
  cat_wf (c_addr_trans target) -> cat_wf (c_addr_trans source) -> cat_wf (p_addr_trans pr) ->
  copy_guard target source flags pr =
    let a := if flag flags CAP_COPY_COPY_ADDR_TRANS_GUARD then p_addr_trans pr
             else if flag flags CAP_COPY_COPY_SOURCE_GUARD then c_addr_trans source
             else c_addr_trans target in
    (CAP_ADDR_TRANS_GUARD a, CAP_ADDR_TRANS_GUARD_BITS a).
Proof.
  intros Ht%cat_guard_range Hs%cat_guard_range Hp%cat_guard_range.
  unfold copy_guard, CAP_GUARD, CAP_GUARD_BITS. rewrite !i32_small by lia.
  repeat case_if; reflexivity.
Qed.

(** What a successful call has computed. *)
Lemma cap_copy_x_inv sd rm intern ta sa target source flags pr o :
  cat_wf (c_addr_trans target) -> cat_wf (c_addr_trans source) -> cat_wf (p_addr_trans pr) ->
  cap_copy_x sd rm intern ta sa target source flags pr = Some o -> co_ok o = true ->
  exists s n g gb a,
    copy_subpage source flags pr = Some (s, n) /\ copy_guard target source flags pr = (g, gb) /\
    co_target o = copy_result source flags pr a /\
    co_shootdown o = intern && changes_translation target source flags s n g gb /\
    cat_wf a /\ subpages_log2 a <= 8 /\ CAP_ADDR_TRANS_GUARD a = g /\
    CAP_ADDR_TRANS_GUARD_BITS a = gb /\ CAP_ADDR_TRANS_SUBPAGE a = s /\
    CAP_ADDR_TRANS_SUBPAGES a = n.
Proof.
  intros Ht Hs Hp. unfold cap_copy_x.
  destruct (copy_subpage source flags pr) as [[s n]|] eqn:Es; [|by intros [= <-]].
  destruct (copy_guard target source flags pr) as [g gb] eqn:Eg.
  pose proof (copy_guard_range _ _ _ _ _ _ Ht Hs Hp Eg) as [Hg Hgb].
  destruct (CAP_ADDR_TRANS_SET_GUARD_SUBPAGE _ g gb s n) as [r a] eqn:Ea.
  destruct r; cbn [negb]; [|by intros [= <-]].
  assert (0 <= n < 2 ^ 32) as Hn.
  { unfold copy_subpage in Es. repeat case_if_in Es; try done; injection Es as _ <-.
    all: unfold CAP_SUBPAGES; rewrite cat_subpages_pow2 by (destruct Hs as (_&?&_), Hp as (_&?&_); lia).
    all: destruct Hs as (_&?&_), Hp as (_&?&_); split;
      [apply Z.pow_nonneg; lia|apply Z.pow_lt_mono_r; lia]. }
  pose proof (set_guard_subpage_readback _ g gb s n true a ltac:(lia) ltac:(lia) Hn Ea)
    as (? & ? & ? & ? & ? & ? & ?).
  intros Ho Hok.
  assert (o = mk_outcome true (intern && changes_translation target source flags s n g gb)
                (copy_result source flags pr a)) as ->.
  { destruct intern; cbn in Ho |- *; [congruence|].
    destruct (negb (ADDR_IS_VOID ta)), (negb (ADDR_IS_VOID sa)), (rm =? 0); cbn in Ho; congruence. }
  by exists s, n, g, gb, a.
Qed.

(** ** Properties *)

(** two capability types may designate the same object exactly when they
    have the same strong type, so compatibility is an equivalence relation;
    weakening a type that can be weakened gives the weak type compatible with
    it, and any other type gives the void type. *)
Theorem cap_types_compatible_strong a b :
  (cap_types_compatible a b = true <-> cap_type_strengthen a = cap_type_strengthen b) /\
  cap_type_strengthen (cap_type_strengthen a) = cap_type_strengthen a /\
  cap_type_weak_p (cap_type_strengthen a) = false /\
  (if cap_types_compatible a (cap_type_weaken a)
   then cap_type_weaken (cap_type_weaken a) = cap_type_weaken a /\
        (a = cap_void \/ cap_type_weak_p (cap_type_weaken a) = true)
   else cap_type_weaken a = cap_void).
Proof. destruct a, b; vm_compute; repeat split; intuition congruence. Qed.

(** the policy and the properties of a capability read back as they were
    set, although the policy's fields are signed and the capability's are
    not. *)
Theorem cap_properties_roundtrip c p :
  (policy_wf (policy p) -> CAP_PROPERTIES_GET (CAP_PROPERTIES_SET c p) = p) /\
  (cap_wf c -> CAP_PROPERTIES_SET c (CAP_PROPERTIES_GET c) = c).
Proof.
  destruct c as [v w o s d pr ty a], p as [[pd pp] pa].
  unfold CAP_PROPERTIES_GET, CAP_PROPERTIES_SET, CAP_POLICY_GET, CAP_POLICY_SET, OBJECT_POLICY,
    cap_set_addr_trans, cap_set_priority, cap_set_discardable, policy_wf, cap_wf; cbn.
  unfold OBJECT_PRIORITY_MIN, OBJECT_PRIORITY_MAX, OBJECT_PRIORITY_BITS; cbn. split.
  - change (Z.shiftl 1 (10 - 1)) with 512. intros [Hd Hp].
    by rewrite (swrap_wrap 1), (swrap_wrap 10) by (cbn; lia).
  - intros (_ & _ & Hd & Hp). by rewrite (wrap_swrap 1), (wrap_swrap 10) by (cbn; lia).
Qed.

Theorem cap_properties_roundtrip_witness :
  CAP_PROPERTIES_GET (CAP_PROPERTIES_SET
      (mk_cap 0 false 0 0 1 1000 cap_page CAP_ADDR_TRANS_VOID)
      (CAP_PROPERTIES (mk_policy (-1) (-512)) (mk_cat 5 0 3)))
    = CAP_PROPERTIES (mk_policy (-1) (-512)) (mk_cat 5 0 3).
Proof.
  apply (proj1 (cap_properties_roundtrip (mk_cap 0 false 0 0 1 1000 cap_page CAP_ADDR_TRANS_VOID)
    (CAP_PROPERTIES (mk_policy (-1) (-512)) (mk_cat 5 0 3)))).
  unfold policy_wf; vm_compute; repeat split; congruence.
Defined.

(** C3: copying a capability never amplifies authority: the copy designates
    the same object and version, its type is the source's or its weakened
    form, and it gives access to no slot of the page that the source does not
    give access to, whatever the flags and properties the caller passes. *)
Theorem cap_copy_x_no_amplification sd rm intern ta sa target source flags pr o :
  cap_wf target -> cap_wf source -> cat_wf (p_addr_trans pr) ->
  cap_copy_x sd rm intern ta sa target source flags pr = Some o -> co_ok o = true ->
  let t := co_target o in
  c_oid t = c_oid source /\ c_version t = c_version source /\ c_shadow t = c_shadow source /\
  (c_type t = c_type source \/ c_type t = cap_type_weaken (c_type source)) /\
  (forall i, cap_slot_p t i -> cap_slot_p source i) /\ subpages_log2 (c_addr_trans t) <= 8.
Proof.
  intros Ht Hs Hp Ho Hok. cbv zeta.
  destruct (id Ht) as (Htc & _). destruct (id Hs) as (Hsc & Hs8 & _).
  destruct (cap_copy_x_inv _ _ _ _ _ _ _ _ _ _ Htc Hsc Hp Ho Hok)
    as (s & n & g & gb & a & Es & _ & -> & _ & Ha & Ha8 & _ & _ & Has & Han).
  destruct (copy_result_fields source flags pr a) as (-> & -> & -> & E4 & -> & _).
  split; [done|]. split; [done|]. split; [done|].
  split; [case_if; auto|]. split; [|by rewrite E4].
  intros i. apply (copy_subpage_slots source flags pr (copy_result source flags pr a) i); [done| |].
  - rewrite E4. destruct Ha as (_ & ? & _). lia.
  - unfold CAP_SUBPAGE, CAP_SUBPAGES. by rewrite E4, Has, Han.
Qed.

Theorem cap_copy_x_no_amplification_witness :
  let source := mk_cap 7 false 130 0 0 0 cap_cappage (mk_cat 1 1 0) in
  let target := mk_cap 0 false 0 0 0 0 cap_void (mk_cat 5 0 4) in
  let pr := CAP_PROPERTIES OBJECT_POLICY_DEFAULT (mk_cat 3 2 0) in
  let t := mk_cap 7 false 130 0 0 0 cap_rcappage (mk_cat 23 2 4) in
  c_oid t = 130 /\ c_version t = 7 /\ c_shadow t = 0 /\
  (c_type t = cap_cappage \/ c_type t = cap_rcappage) /\
  (forall i, cap_slot_p t i -> cap_slot_p source i) /\ 2 <= 8.
Proof.
  intros source target pr t.
  apply (cap_copy_x_no_amplification id 0 true ADDR_VOID ADDR_VOID target source
           (Z.lor CAP_COPY_COPY_ADDR_TRANS_SUBPAGE CAP_COPY_WEAKEN) pr (mk_outcome true true t)).
  all: vm_compute; repeat split; congruence.
Defined.

(** a successful copy has the guard that the flags select (the
    properties', the source's or, by default, the target's), the subpage of
    the properties or of the source, the weakened type when asked for, and the
    policy of the source unless the caller sets it. *)
Theorem cap_copy_x_functional sd rm intern ta sa target source flags pr o :
  cap_wf target -> cap_wf source -> cat_wf (p_addr_trans pr) ->
  cap_copy_x sd rm intern ta sa target source flags pr = Some o -> co_ok o = true ->
  let t := co_target o in
  let guard_of := if flag flags CAP_COPY_COPY_ADDR_TRANS_GUARD then p_addr_trans pr
                  else if flag flags CAP_COPY_COPY_SOURCE_GUARD then c_addr_trans source
                  else c_addr_trans target in
  let subpage_of := if flag flags CAP_COPY_COPY_ADDR_TRANS_SUBPAGE then p_addr_trans pr
                    else c_addr_trans source in
  CAP_GUARD t = CAP_ADDR_TRANS_GUARD guard_of /\
  CAP_GUARD_BITS t = CAP_ADDR_TRANS_GUARD_BITS guard_of /\
  CAP_SUBPAGE t = CAP_ADDR_TRANS_SUBPAGE subpage_of /\
  CAP_SUBPAGES t = CAP_ADDR_TRANS_SUBPAGES subpage_of /\
  c_type t = (if flag flags CAP_COPY_WEAKEN then cap_type_weaken (c_type source)
              else c_type source) /\
  c_discardable t = (if flag flags CAP_COPY_DISCARDABLE_SET
                     then wrap 1 (op_discardable (policy pr)) else c_discardable source) /\
  c_priority t = (if flag flags CAP_COPY_PRIORITY_SET
                  then wrap 10 (op_priority (policy pr)) else c_priority source).
Proof.
  intros (Ht & _) (Hs & _) Hp Ho Hok. cbv zeta.
  destruct (cap_copy_x_inv _ _ _ _ _ _ _ _ _ _ Ht Hs Hp Ho Hok)
    as (s & n & g & gb & a & Es & Eg & -> & _ & _ & _ & Hag & Hagb & Has & Han).
  destruct (copy_result_fields source flags pr a) as (_ & _ & _ & E4 & E5 & E6 & E7).
  rewrite copy_guard_eq in Eg by done. injection Eg as Eg1 Eg2.
  cbv zeta. unfold CAP_GUARD, CAP_GUARD_BITS, CAP_SUBPAGE at 1, CAP_SUBPAGES at 1.
  rewrite E4, Hag, Hagb, Has, Han, E5, E6, E7.
  split; [done|]. split; [done|].
  unfold copy_subpage in Es.
  repeat case_if_in Es; try discriminate; injection Es as <- <-; by repeat split.
Qed.

Theorem cap_copy_x_functional_witness :
  let source := mk_cap 7 false 130 0 1 9 cap_page (mk_cat 1 0 1) in
  let target := mk_cap 0 false 0 0 0 0 cap_void (mk_cat 5 0 4) in
  let t := mk_cap 7 false 130 0 1 9 cap_page (mk_cat 5 0 4) in
  CAP_GUARD t = 5 /\ CAP_GUARD_BITS t = 4 /\ CAP_SUBPAGE t = 0 /\ CAP_SUBPAGES t = 1 /\
  c_type t = cap_page /\ c_discardable t = 1 /\ c_priority t = 9.
Proof.
  intros source target t.
  apply (cap_copy_x_functional id 0 true ADDR_VOID ADDR_VOID target source 0
           CAP_PROPERTIES_VOID (mk_outcome true true t)).
  all: vm_compute; repeat split; congruence.
Defined.

(** The kernel's test for a changed translation compares the types of
    the two capabilities and not the type the copy will have: weakening a
    writable page, a writable cappage or a controlling activity capability in
    place changes its type without revoking the translations through it. *)
Theorem cap_copy_weaken_no_shootdown sd rm ta sa c pr :
  cap_wf c -> cat_wf (p_addr_trans pr) -> CAP_GUARD c < 2 ^ CAP_GUARD_BITS c ->
  c_type c ∈ [cap_page; cap_cappage; cap_activity_control] ->
  exists t, cap_copy_x sd rm true ta sa c c CAP_COPY_WEAKEN pr = Some (mk_outcome true false t) /\
    c_type t = cap_type_weaken (c_type c) /\ c_type t <> c_type c /\
    c_oid t = c_oid c /\ c_version t = c_version c.
Proof.
  intros (Hc & Hc8 & _) Hp Hg Hty. unfold cap_copy_x, copy_subpage.
  rewrite copy_guard_eq by done. cbn [flag Z.land negb Z.eqb].
  replace (flag CAP_COPY_WEAKEN CAP_COPY_COPY_ADDR_TRANS_SUBPAGE) with false by done.
  replace (flag CAP_COPY_WEAKEN CAP_COPY_COPY_ADDR_TRANS_GUARD) with false by done.
  replace (flag CAP_COPY_WEAKEN CAP_COPY_COPY_SOURCE_GUARD) with false by done.
  cbv zeta iota beta. unfold changes_translation, cap_type_eqb, CAP_GUARD, CAP_GUARD_BITS in *.
  rewrite !Z.eqb_refl, (bool_decide_eq_true_2 (c_type c = c_type c)) by done. cbn [negb orb andb].
  rewrite set_guard_subpage_same by done. cbn [negb mbind option_bind].
  eexists. split; [done|].
  destruct (copy_result_fields c CAP_COPY_WEAKEN pr (c_addr_trans c)) as (E1 & E2 & _ & _ & E5 & _).
  replace (flag CAP_COPY_WEAKEN CAP_COPY_WEAKEN) with true in E5 by done.
  repeat split; try done. rewrite E5.
  repeat (apply elem_of_cons in Hty as [->|Hty]; [done|]). by apply elem_of_nil in Hty.
Qed.

Theorem cap_copy_weaken_no_shootdown_witness :
  exists t, cap_copy_x id 0 true ADDR_VOID ADDR_VOID
      (mk_cap 3 false 130 0 0 0 cap_page (mk_cat 5 0 4))
      (mk_cap 3 false 130 0 0 0 cap_page (mk_cat 5 0 4)) CAP_COPY_WEAKEN CAP_PROPERTIES_VOID
      = Some (mk_outcome true false t) /\
    c_type t = cap_rpage /\ c_type t <> cap_page /\ c_oid t = 130 /\ c_version t = 3.
Proof.
  apply (cap_copy_weaken_no_shootdown id 0 ADDR_VOID ADDR_VOID
           (mk_cap 3 false 130 0 0 0 cap_page (mk_cat 5 0 4)) CAP_PROPERTIES_VOID).
  all: first [set_solver | vm_compute; repeat split; congruence].
Defined.
