(* ===== verification/AsLookup.v ===== *)
(** * Looking up an address: [libhurd-mm/as-lookup.c]

    [as_lookup_rel] walks the page tables of an address space from its root
    capability.  The model is the user-space build: an address space is a
    root capability and a heap of shadow objects, each an array of capability
    slots, and a capability leads to the object its shadow pointer names.
    Debug output is left out, and with it the assertions that are evaluated in its
    arguments only, but the restart that [DUMP_OR_RET] makes to print the path is
    there.  [resolves] is the specification: what it is for
    an address, a string of bits, to designate a slot. *)

From S2P Require Import Prelude L4Math Addr Bits AddrTrans Gbits Cap.

(** ** The address space *)

(** A pointer to a capability slot: the root, or a slot of an object. *)
Inductive slot := root_slot | obj_slot (p i : Z).

(** The array of capabilities at each shadow object, which is also where the
    user-space [struct folio] has its [objects]. *)
Record addr_space := mk_as { as_root : cap; as_objects : gmap Z (list cap) }.

Definition slot_cap (st : addr_space) (l : slot) : option cap :=
  match l with
  | root_slot => Some (as_root st)
  | obj_slot p i => o ← as_objects st !! p; o !! Z.to_nat i
  end.

(** ** The code *)

Inductive as_lookup_mode := as_lookup_want_cap | as_lookup_want_slot | as_lookup_want_object.

#[export] Instance as_lookup_mode_eq_dec : EqDecision as_lookup_mode.
Proof. solve_decision. Defined.

(** How the loop is left: the slot it ended at with the flag [w], [return
    false], [DUMP_OR_RET (false)], an assertion that failed, an access outside
    of every object, or no more fuel. *)
Inductive walk_outcome :=
  | WK_found (l : slot) (w : bool)
  | WK_false
  | WK_dump
  | WK_abort
  | WK_fault
  | WK_fuel.

(** The value of the call, with [*rt] and [*writable]. *)
Inductive lookup_ret :=
  | LK_slot (l : slot) (w : bool)
  | LK_cap (c : cap) (w : bool)
  | LK_false
  | LK_abort
  | LK_fault
  | LK_fuel.

(** The check of the guard: the bits that remain, or how the call returns. *)
Definition check_guard (root : cap) (addr remaining : Z) : Z + walk_outcome :=
  let gdepth := CAP_GUARD_BITS root in
  if gdepth =? 0 then inl remaining
  else if remaining <? gdepth then inr WK_dump
  else match extract_bits64_inv addr (remaining - 1) gdepth with
       | None => inr WK_abort
       | Some b =>
           let guard := i32 b in
           if negb (CAP_GUARD root =? u64 guard) then inr WK_false
           else inl (remaining - gdepth)
       end.

(** The slot that the next bits select and the bits that remain after it. *)
Definition index_object (root : cap) (addr remaining : Z) : slot * Z + walk_outcome :=
  match c_type root with
  | cap_cappage | cap_rcappage =>
      let bits := CAP_SUBPAGE_SIZE_LOG2 root in
      if remaining <? bits then inr WK_dump
      else if c_shadow root =? 0 then inr WK_false
      else match extract_bits64_inv addr (remaining - 1) bits with
           | None => inr WK_abort
           | Some b =>
               let offset := CAP_SUBPAGE_OFFSET root + b in
               if negb ((0 <=? offset) && (offset <? CAPPAGE_SLOTS)) then inr WK_abort
               else inl (obj_slot (c_shadow root) offset, remaining - bits)
           end
  | cap_folio =>
      if remaining <? FOLIO_OBJECTS_LOG2 then inr WK_dump
      else if c_shadow root =? 0 then inr WK_dump
      else match extract_bits64_inv addr (remaining - 1) FOLIO_OBJECTS_LOG2 with
           | None => inr WK_abort
           | Some i => inl (obj_slot (c_shadow root) i, remaining - FOLIO_OBJECTS_LOG2)
           end
  | _ => inr WK_false
  end.

(** [type != -1 && ! cap_type_weak_p (type)] *)
Definition wants_strong (type : option cap_type) : bool :=
  match type with Some t => negb (cap_type_weak_p t) | None => false end.

(** The [while] loop. *)
Fixpoint walk (fuel : nat) (st : addr_space) (type : option cap_type) (mode : as_lookup_mode)
    (addr : Z) (root : slot) (remaining : Z) (w : bool) : walk_outcome :=
  match fuel with
  | O => WK_fuel
  | S fuel =>
      if remaining =? 0 then WK_found root w
      else match slot_cap st root with
      | None => WK_fault
      | Some c =>
          if cap_type_eqb (c_type c) cap_rcappage && wants_strong type then WK_dump
          else
            let w := if cap_type_eqb (c_type c) cap_rcappage then false else w in
            match check_guard c addr remaining with
            | inr r => r
            | inl remaining =>
                if remaining =? 0 then WK_found root w
                else match index_object c addr remaining with
                | inr r => r
                | inl (root, remaining) =>
                    if (remaining =? 0) && bool_decide (mode = as_lookup_want_object) then
                      match slot_cap st root with
                      | None => WK_fault
                      | Some c =>
                          if negb (CAP_GUARD_BITS c =? 0) then WK_false else WK_found root w
                      end
                    else walk fuel st type mode addr root remaining w
                end
            end
      end
  end.

(** The checks after the loop and the stores to [*writable] and [*rt]. *)
Definition lookup_finish (st : addr_space) (type : option cap_type) (mode : as_lookup_mode)
    (root : slot) (w : bool) : lookup_ret :=
  match slot_cap st root with
  | None => LK_fault
  | Some c =>
      let mismatch :=
        match type with
        | Some t => negb (cap_type_eqb t (c_type c))
                    && negb (cap_type_eqb (cap_type_strengthen t) (c_type c))
        | None => false
        end in
      if mismatch then LK_false
      else
        let w := if bool_decide (mode = as_lookup_want_object) && cap_type_weak_p (c_type c)
                 then false else w in
        if bool_decide (mode = as_lookup_want_slot) then LK_slot root w else LK_cap c w
  end.

Definition as_lookup_rel_internal (fuel : nat) (st : addr_space) (root : slot) (address : addr)
    (type : option cap_type) (mode : as_lookup_mode) (dump : bool) : lookup_ret :=
  let remaining := u32 (addr_depth address) in
  let addr := Z.shiftr (addr_prefix address) (u32 (ADDR_BITS - remaining) mod 64) in
  let pass := walk fuel st type mode addr root remaining true in
  let ret r := match r with
               | WK_found l w => lookup_finish st type mode l w
               | WK_false | WK_dump => LK_false
               | WK_abort => LK_abort
               | WK_fault => LK_fault
               | WK_fuel => LK_fuel
               end in
  match pass with
  | WK_dump => if dump then LK_false
               else ret (walk fuel st type mode addr root remaining true)
  | r => ret r
  end.

Definition as_lookup_rel (fuel : nat) (st : addr_space) (root : slot) (address : addr)
    (type : option cap_type) (mode : as_lookup_mode) : lookup_ret :=
  as_lookup_rel_internal fuel st root address type mode false.

(** Iterations enough for [as_lookup_rel]: each one consumes a bit. *)
Definition lookup_fuel (address : addr) : nat := S (Z.to_nat (addr_depth address)).

(** ** Specification *)

(** The number of bits a table translates, and where its slots start. *)
Definition table_width (c : cap) : option Z :=
  match c_type c with
  | cap_cappage | cap_rcappage => Some (8 - subpages_log2 (c_addr_trans c))
  | cap_folio => Some 7
  | _ => None
  end.

Definition table_base (c : cap) : Z :=
  match c_type c with cap_folio => 0 | _ => CAP_SUBPAGE_OFFSET c end.

Definition read_only (c : cap) : bool := cap_type_eqb (c_type c) cap_rcappage.

(** [resolves st obj l q d l' w]: from slot [l], the [d]-bit string [q]
    designates slot [l'], and [w] tells whether no read-only table was
    crossed.  The string is the guard of the capability in [l], an index into
    its table and the rest; it may stop after the guard, which designates the
    object and hence the slot that points to it.  When an object is wanted,
    the last slot may have no guard left to translate. *)
Inductive resolves (st : addr_space) (obj : bool) : slot -> Z -> Z -> slot -> bool -> Prop :=
  | res_here l : resolves st obj l 0 0 l true
  | res_guard l c d :
      slot_cap st l = Some c -> CAP_GUARD_BITS c = d -> 0 < d ->
      resolves st obj l (CAP_GUARD c) d l (negb (read_only c))
  | res_index l c wd idx q r l' w :
      slot_cap st l = Some c -> table_width c = Some wd -> c_shadow c <> 0 ->
      0 <= idx < 2 ^ wd -> 0 <= r -> 0 <= q < 2 ^ r -> 0 < wd + r ->
      (obj = true -> r = 0 ->
       forall c', slot_cap st (obj_slot (c_shadow c) (table_base c + idx)) = Some c' ->
                  CAP_GUARD_BITS c' = 0) ->
      resolves st obj (obj_slot (c_shadow c) (table_base c + idx)) q r l' w ->
      resolves st obj l ((CAP_GUARD c * 2 ^ wd + idx) * 2 ^ r + q) (CAP_GUARD_BITS c + wd + r)
        l' (negb (read_only c) && w).

(** A capability as address-space construction leaves it: its guard fits its
    depth, which is at most a word, and its table, if any, has a valid
    subpage and translates at least one bit together with its guard. *)
Definition cap_regular (c : cap) : Prop :=
  cat_wf (c_addr_trans c) /\ subpages_log2 (c_addr_trans c) <= 8 /\
  CAP_GUARD_BITS c <= 32 /\ CAP_GUARD c < 2 ^ CAP_GUARD_BITS c.

(** Some bit is translated by every table. *)
Definition cap_progress (c : cap) : Prop :=
  forall wd, table_width c = Some wd -> 0 < CAP_GUARD_BITS c + wd.

Record as_wf (st : addr_space) : Prop := {
  as_caps : forall l c, slot_cap st l = Some c -> cap_regular c /\ cap_progress c;
  as_tables : forall l c, slot_cap st l = Some c -> table_width c <> None -> c_shadow c <> 0 ->
    exists o, as_objects st !! c_shadow c = Some o /\ length o = 256%nat
}.

(** The requested type is the found one or its strong version. *)
Definition type_granted (type : option cap_type) (c : cap) : bool :=
  match type with
  | Some t => cap_type_eqb t (c_type c) || cap_type_eqb (cap_type_strengthen t) (c_type c)
  | None => true
  end.

(** ** Lemmas *)

Lemma cap_type_eqb_eq a b : cap_type_eqb a b = true <-> a = b.
Proof. apply bool_decide_eq_true. Qed.

(** Below 33 bits the guard that [check_guard] reads is not truncated in a
    way that could match. *)
Lemma guard_int_eq g b :
  0 <= g < 2 ^ 22 -> 0 <= b < 2 ^ 32 -> (g =? u64 (i32 b)) = (g =? b).
Proof.
  intros Hg Hb. destruct (Z.ltb_spec b (2 ^ 31)).
  - by rewrite i32_small, u64_small by lia.
  - replace (g =? b) with false by (symmetry; apply Z.eqb_neq; lia).
    apply Z.eqb_neq. unfold i32, swrap. change (32 - 1) with 31.
    rewrite (Z.mod_eq (b + 2 ^ 31)) by lia.
    replace ((b + 2 ^ 31) / 2 ^ 32) with 1 by (apply Z.div_unique with (b - 2 ^ 31); lia).
    unfold u64, wrap.
    rewrite <- (Z.mod_unique (b + 2 ^ 31 - 2 ^ 32 * 1 - 2 ^ 31) (2 ^ 64) (-1) (b - 2 ^ 32 + 2 ^ 64)); lia.
Qed.

(** The top [w] bits of the low [r] bits of a word. *)
Lemma extract_top A r w :
  0 <= A < 2 ^ 64 -> 0 <= w <= r -> r <= 64 ->
  extract_bits64_inv A (r - 1) w = Some (A mod 2 ^ r / 2 ^ (r - w)).
Proof.
  intros HA Hw Hr. rewrite extract_bits64_inv_eq by lia. f_equal.
  replace (2 ^ r) with (2 ^ (r - w) * 2 ^ w) by (rewrite <- pow2_split by lia; f_equal; lia).
  pose proof (pow2_pos (r - w) ltac:(lia)) as Hp. pose proof (pow2_pos w ltac:(lia)).
  rewrite Z.rem_mul_r by lia.
  pose proof (Z.mod_pos_bound A (2 ^ (r - w)) ltac:(lia)).
  rewrite (Z.add_comm (A mod _)), Z.mul_comm, Z.div_add_l by lia.
  rewrite (Z.div_small (A mod 2 ^ (r - w))) by lia. lia.
Qed.

Lemma mod_mod_pow2 A r k : 0 <= k <= r -> (A mod 2 ^ r) mod 2 ^ k = A mod 2 ^ k.
Proof.
  intros H. apply Z.mod_mod_divide. exists (2 ^ (r - k)). by apply pow2_at.
Qed.

Lemma table_width_range c wd : cap_regular c -> table_width c = Some wd -> 0 <= wd <= 8.
Proof.
  intros ((_ & Hl & _) & Hl8 & _). unfold table_width. destruct (c_type c); intros [= <-]; lia.
Qed.

(** The slots of a table are slots of its object. *)
Lemma table_slot_range c wd i :
  cap_regular c -> table_width c = Some wd -> 0 <= i < 2 ^ wd -> 0 <= table_base c + i < 256.
Proof.
  intros ((_ & Hl & _) & Hl8 & _) Hwd Hi.
  pose proof (cat_offset_bound (c_addr_trans c) i ltac:(lia)) as Ho.
  rewrite cat_subpage_size_pow2 in Ho by done.
  unfold table_width, table_base, CAP_SUBPAGE_OFFSET in *.
  destruct (c_type c); try discriminate; injection Hwd as <-; lia.
Qed.

Lemma slot_cap_table st l c wd i :
  as_wf st -> slot_cap st l = Some c -> table_width c = Some wd -> c_shadow c <> 0 ->
  0 <= i < 2 ^ wd -> is_Some (slot_cap st (obj_slot (c_shadow c) (table_base c + i))).
Proof.
  intros [Hc Ht] Hl Hwd Hs Hi. destruct (Hc l c Hl) as [Hreg _].
  destruct (Ht l c Hl ltac:(congruence) Hs) as (o & Ho & Hlen). cbn. rewrite Ho. cbn.
  apply lookup_lt_is_Some_2. pose proof (table_slot_range c wd i Hreg Hwd Hi). lia.
Qed.

(** Quotients and remainders of a word's low bits. *)
Lemma low_div A r k : 0 <= k <= r -> 0 <= A mod 2 ^ r / 2 ^ k < 2 ^ (r - k).
Proof.
  intros H. pose proof (pow2_pos r ltac:(lia)). pose proof (Z.mod_pos_bound A (2 ^ r) ltac:(lia)).
  apply div_pow2_range; [lia..|]. by replace (k + (r - k)) with r by lia.
Qed.

Lemma check_guard_spec c A r :
  cap_regular c -> 0 <= A < 2 ^ 64 -> 0 < r <= 63 ->
  match check_guard c A r with
  | inl r' => r' = r - CAP_GUARD_BITS c /\ 0 <= r' /\ A mod 2 ^ r / 2 ^ r' = CAP_GUARD c
  | inr o => (o = WK_dump \/ o = WK_false) /\
      ~ (CAP_GUARD_BITS c <= r /\ A mod 2 ^ r / 2 ^ (r - CAP_GUARD_BITS c) = CAP_GUARD c)
  end.
Proof.
  intros (Hwf & _ & Hgd & Hg) HA Hr. pose proof (cat_guard_range _ Hwf) as HG.
  destruct Hwf as (_ & _ & Hd). fold (CAP_GUARD c) in HG.
  assert (0 <= CAP_GUARD_BITS c) as Hd0 by (unfold CAP_GUARD_BITS, CAP_ADDR_TRANS_GUARD_BITS; lia).
  unfold check_guard. case_if.
  - pose proof (low_div A r r ltac:(lia)) as H. rewrite Z.sub_diag in H.
    rewrite E in *. repeat split; lia.
  - case_if; [split; [by left|lia]|].
    rewrite extract_top by lia.
    pose proof (low_div A r (r - CAP_GUARD_BITS c) ltac:(lia)) as H.
    replace (r - (r - CAP_GUARD_BITS c)) with (CAP_GUARD_BITS c) in H by lia.
    pose proof (pow2_le (CAP_GUARD_BITS c) 32).
    rewrite guard_int_eq by lia. case_if.
    + split; [by right|]. intros [_ ?]. congruence.
    + repeat split; lia.
Qed.

Lemma index_object_spec c A r :
  cap_regular c -> 0 <= A < 2 ^ 64 -> 0 < r <= 63 ->
  match index_object c A r with
  | inl (l', r') => exists wd, table_width c = Some wd /\ c_shadow c <> 0 /\ r' = r - wd /\ 0 <= r' /\
      l' = obj_slot (c_shadow c) (table_base c + A mod 2 ^ r / 2 ^ r')
  | inr o => (o = WK_dump \/ o = WK_false) /\
      forall wd, table_width c = Some wd -> c_shadow c <> 0 -> r < wd
  end.
Proof.
  intros Hreg HA Hr.
  assert (forall wd, 0 <= wd <= r -> 0 <= A mod 2 ^ r / 2 ^ (r - wd) < 2 ^ wd) as Hlow.
  { intros wd Hwd. pose proof (low_div A r (r - wd) ltac:(lia)) as H.
    by replace (r - (r - wd)) with wd in H by lia. }
  pose proof (table_width_range c) as Hw. pose proof (table_slot_range c) as Hs.
  unfold index_object, table_width, table_base, CAP_SUBPAGE_SIZE_LOG2,
    CAP_ADDR_TRANS_SUBPAGE_SIZE_LOG2, FOLIO_OBJECTS_LOG2, CAPPAGE_SLOTS, PAGESIZE in *.
  change (0x1000 / 16) with 256.
  destruct (c_type c); try (split; [by right|by intros]).
  all: specialize (Hw _ Hreg eq_refl); specialize (fun i => Hs _ i Hreg eq_refl);
    case_if; [split; [by left|intros ? [= <-]; lia]|];
    case_if; [split; [tauto|done]|]; rewrite extract_top by lia.
  all: specialize (Hs _ (Hlow _ ltac:(split; [apply Hw|eassumption]))); cbn [negb].
  1,2: rewrite (proj2 (andb_true_iff _ _)) by (split; [apply Z.leb_le|apply Z.ltb_lt]; lia).
  all: eexists; repeat split; try done; lia.
Qed.

(** The parts of the string that the last rule builds. *)
Lemma index_string g wd idx r q :
  0 <= wd -> 0 <= r -> 0 <= idx < 2 ^ wd -> 0 <= q < 2 ^ r ->
  let s := (g * 2 ^ wd + idx) * 2 ^ r + q in
  s / 2 ^ (wd + r) = g /\ s mod 2 ^ (wd + r) / 2 ^ r = idx /\ s mod 2 ^ r = q.
Proof.
  intros Hwd Hr Hi Hq s. subst s. pose proof (pow2_pos wd Hwd). pose proof (pow2_pos r Hr).
  assert (0 <= idx * 2 ^ r + q < 2 ^ (wd + r)) as Hlow by (rewrite pow2_split by lia; nia).
  rewrite (append_mod _ q r) by lia.
  replace ((g * 2 ^ wd + idx) * 2 ^ r + q) with (g * 2 ^ (wd + r) + (idx * 2 ^ r + q))
    by (rewrite pow2_split by lia; ring).
  by rewrite append_div, append_mod, append_div by lia.
Qed.

Lemma pow2_nonempty i n : 0 <= i < 2 ^ n -> 0 <= n.
Proof. intros H. destruct (Z.ltb_spec n 0); [rewrite Z.pow_neg_r in H; lia|done]. Qed.

(** [resolves] by quotients and remainders: what a nonempty string designates
    from a slot, ... *)
Lemma resolves_inv st obj l q d l' w :
  resolves st obj l q d l' w -> 0 < d ->
  exists c, slot_cap st l = Some c /\
    CAP_GUARD_BITS c <= d /\ q / 2 ^ (d - CAP_GUARD_BITS c) = CAP_GUARD c /\
    ((d = CAP_GUARD_BITS c /\ l' = l /\ w = negb (read_only c)) \/
     exists wd r w2, table_width c = Some wd /\ c_shadow c <> 0 /\ 0 <= wd /\ 0 <= r /\ 0 < wd + r /\
       d = CAP_GUARD_BITS c + wd + r /\
       let t := obj_slot (c_shadow c) (table_base c + (q mod 2 ^ (d - CAP_GUARD_BITS c)) / 2 ^ r) in
       (obj = true -> r = 0 -> forall c', slot_cap st t = Some c' -> CAP_GUARD_BITS c' = 0) /\
       resolves st obj t (q mod 2 ^ r) r l' w2 /\ w = negb (read_only c) && w2).
Proof.
  intros H Hd. inversion H as [l0|l0 c d0 Hl Hc _|l0 c wd idx q0 r l1 w2 Hl Hw Hs Hi Hr Hq Hwr Ho Hres];
    subst; [lia|exists c|exists c].
  - rewrite Z.sub_diag, Z.pow_0_r, Z.div_1_r. split; [done|]. split; [lia|]. split; [done|by left].
  - pose proof (pow2_nonempty _ _ Hi) as Hwd.
    destruct (index_string (CAP_GUARD c) wd idx r q0 Hwd Hr Hi Hq) as (E1 & E2 & E3).
    replace (CAP_GUARD_BITS c + wd + r - CAP_GUARD_BITS c) with (wd + r) by lia.
    split; [done|]. split; [lia|]. split; [done|]. right. exists wd, r, w2. cbv zeta.
    rewrite E2, E3. by repeat split.
Qed.

(** ... and the last rule in the same terms. *)
Lemma resolves_table st obj l c q d wd r l' w :
  slot_cap st l = Some c -> table_width c = Some wd -> c_shadow c <> 0 ->
  0 <= wd -> 0 <= r -> 0 < wd + r -> d = CAP_GUARD_BITS c + wd + r ->
  q / 2 ^ (wd + r) = CAP_GUARD c ->
  let t := obj_slot (c_shadow c) (table_base c + (q mod 2 ^ (wd + r)) / 2 ^ r) in
  (obj = true -> r = 0 -> forall c', slot_cap st t = Some c' -> CAP_GUARD_BITS c' = 0) ->
  resolves st obj t (q mod 2 ^ r) r l' w ->
  resolves st obj l q d l' (negb (read_only c) && w).
Proof.
  intros Hl Hw Hs Hwd Hr Hwr -> Hq t Ho Hres.
  replace q with ((CAP_GUARD c * 2 ^ wd + (q mod 2 ^ (wd + r)) / 2 ^ r) * 2 ^ r + q mod 2 ^ r).
  - apply res_index; try done.
    + pose proof (low_div q (wd + r) r ltac:(lia)) as H. by replace (wd + r - r) with wd in H by lia.
    + apply Z.mod_pos_bound. by apply pow2_pos.
  - pose proof (mod_pow2_div q (wd + r) ltac:(lia)) as E1. rewrite Hq, pow2_split in E1 by lia.
    rewrite pow2_split by lia. pose proof (mod_pow2_div (q mod (2 ^ wd * 2 ^ r)) r Hr) as E2.
    rewrite <- (pow2_split wd r), mod_mod_pow2, pow2_split in E2 by lia.
    rewrite E2 in E1.
    symmetry. etransitivity; [exact E1|ring].
Qed.

(** One table of the walk, on the low bits of the word being translated. *)
Lemma resolves_table_iff st obj l c A r wd r2 l' w' :
  slot_cap st l = Some c -> table_width c = Some wd -> c_shadow c <> 0 -> 0 <= CAP_GUARD_BITS c ->
  0 <= wd -> 0 <= r2 -> 0 < wd + r2 -> r = CAP_GUARD_BITS c + wd + r2 ->
  A mod 2 ^ r / 2 ^ (wd + r2) = CAP_GUARD c ->
  let t := obj_slot (c_shadow c) (table_base c + A mod 2 ^ (wd + r2) / 2 ^ r2) in
  resolves st obj l (A mod 2 ^ r) r l' w' <->
  (obj = true -> r2 = 0 -> forall c', slot_cap st t = Some c' -> CAP_GUARD_BITS c' = 0) /\
  exists w2, resolves st obj t (A mod 2 ^ r2) r2 l' w2 /\ w' = negb (read_only c) && w2.
Proof.
  intros Hl Hw Hs Hd Hwd Hr2 Hwr Hr HG t. subst t.
  rewrite <- (mod_mod_pow2 A r (wd + r2)), <- (mod_mod_pow2 A r r2) by lia. split.
  - intros (c' & Hl' & _ & _ & H)%resolves_inv; [|lia].
    assert (c' = c) as -> by congruence.
    destruct H as [(? & _)|(wd' & r' & w2 & Hw' & _ & _ & _ & _ & Hr' & Ho & Hres & ->)]; [lia|].
    assert (wd' = wd) as -> by congruence.
    assert (r' = r2) as -> by lia. replace (r - CAP_GUARD_BITS c) with (wd + r2) in * by lia.
    split; [done|]. by exists w2.
  - intros (Ho & w2 & Hres & ->). by apply (resolves_table st obj l c _ r wd r2).
Qed.

(** From a slot a string designates at most one slot. *)
Lemma resolves_det st obj l q d l1 w1 l2 w2 :
  as_wf st -> resolves st obj l q d l1 w1 -> resolves st obj l q d l2 w2 -> l1 = l2 /\ w1 = w2.
Proof.
  intros Hst H. revert l2 w2.
  assert (forall l c, slot_cap st l = Some c -> 0 <= CAP_GUARD_BITS c) as Hgd.
  { intros l0 c Hl. destruct (as_caps st Hst l0 c Hl) as [((_ & _ & ?) & _) _].
    unfold CAP_GUARD_BITS, CAP_ADDR_TRANS_GUARD_BITS. lia. }
  induction H as [l|l c d Hl Hc Hd|l c wd idx q r l1 w1 Hl Hw Hs Hi Hr Hq Hwr Ho Hres IH]; intros l2 w2 H2.
  - inversion H2 as [|? c ? ? ? ?|? c wd ? q r ? ? Hl]; subst; [done|lia|].
    pose proof (Hgd _ _ Hl). lia.
  - apply resolves_inv in H2 as (c' & Hl' & _ & _ & H2); [|done].
    assert (c' = c) as -> by congruence.
    destruct H2 as [(_ & -> & ->)|(wd & r & w3 & _ & _ & _ & _ & ? & ? & _)]; [done|lia].
  - pose proof (pow2_nonempty _ _ Hi) as Hwd. pose proof (Hgd _ _ Hl).
    destruct (index_string (CAP_GUARD c) wd idx r q Hwd Hr Hi Hq) as (_ & E2 & E3).
    apply resolves_inv in H2 as (c' & Hl' & _ & _ & H2); [|lia].
    assert (c' = c) as -> by congruence.
    destruct H2 as [(? & _)|(wd' & r' & w3 & Hw' & _ & _ & _ & _ & ? & _ & H2 & ->)]; [lia|].
    assert (wd' = wd) as -> by congruence. assert (r' = r) as -> by lia.
    replace (CAP_GUARD_BITS c + wd + r - CAP_GUARD_BITS c) with (wd + r) in H2 by lia.
    rewrite E2, E3 in H2. by destruct (IH _ _ H2) as [-> ->].
Qed.

(** Strings that designate nothing: the guard does not match, or the next
    object is not a table or translates more bits than there are. *)
Lemma resolves_none_guard st obj l c q r l' w' :
  slot_cap st l = Some c -> 0 < r ->
  ~ (CAP_GUARD_BITS c <= r /\ q / 2 ^ (r - CAP_GUARD_BITS c) = CAP_GUARD c) ->
  ~ resolves st obj l q r l' w'.
Proof.
  intros Hl Hr Hno (c' & Hl' & Hd & Hq & _)%resolves_inv; [|lia].
  assert (c' = c) as -> by congruence. by apply Hno.
Qed.

Lemma resolves_none_table st obj l c q r l' w' :
  slot_cap st l = Some c -> 0 < r -> r <> CAP_GUARD_BITS c ->
  (forall wd, table_width c = Some wd -> c_shadow c <> 0 -> r - CAP_GUARD_BITS c < wd) ->
  ~ resolves st obj l q r l' w'.
Proof.
  intros Hl Hr Hne Hno (c' & Hl' & _ & _ & H)%resolves_inv; [|lia].
  assert (c' = c) as -> by congruence.
  destruct H as [(? & _)|(wd & r' & w2 & Hw & Hs & ? & ? & _ & ? & _)]; [lia|].
  specialize (Hno _ Hw Hs). lia.
Qed.

Lemma resolves_read_only st obj l c q r l' w' :
  slot_cap st l = Some c -> 0 < r -> read_only c = true -> resolves st obj l q r l' w' -> w' = false.
Proof.
  intros Hl Hr Hro (c' & Hl' & _ & _ & H)%resolves_inv; [|lia].
  assert (c' = c) as -> by congruence. rewrite Hro in H.
  by destruct H as [(_ & _ & ->)|(?&?&?&?&?&?&?&?&?&?&?&->)].
Qed.

(** The loop agrees with the specification from any point of it, and there is
    fuel enough when there is more of it than bits. *)
Definition walk_agrees (st : addr_space) (type : option cap_type) (mode : as_lookup_mode)
    (l : slot) (q r : Z) (w : bool) (o : walk_outcome) : Prop :=
  let obj := bool_decide (mode = as_lookup_want_object) in
  match o with
  | WK_found l' w1 => is_Some (slot_cap st l') /\ exists w', resolves st obj l q r l' w' /\
      w1 = w && w' /\ (wants_strong type = true -> w' = true)
  | WK_false | WK_dump =>
      forall l' w', resolves st obj l q r l' w' -> wants_strong type = true /\ w' = false
  | _ => False
  end.

Lemma walk_agrees_none st type mode l q r w o :
  (o = WK_dump \/ o = WK_false) ->
  (forall l' w', ~ resolves st (bool_decide (mode = as_lookup_want_object)) l q r l' w') ->
  walk_agrees st type mode l q r w o.
Proof. intros [-> | ->] Hno l' w' H; by apply Hno in H. Qed.

Section walk.
Context (st : addr_space) (type : option cap_type) (mode : as_lookup_mode) (A : Z).
Context (Hst : as_wf st) (HA : 0 <= A < 2 ^ 64).

(** The part of an iteration after the index: the check of the last slot or
    the next iteration. *)
Definition walk_next (fuel : nat) (t : slot) (r : Z) (w : bool) : walk_outcome :=
  if (r =? 0) && bool_decide (mode = as_lookup_want_object) then
    match slot_cap st t with
    | None => WK_fault
    | Some c => if negb (CAP_GUARD_BITS c =? 0) then WK_false else WK_found t w
    end
  else walk fuel st type mode A t r w.

Lemma walk_next_spec fuel l c r wd r2 w :
  (forall t r w, 0 <= r <= 63 -> r < Z.of_nat fuel -> is_Some (slot_cap st t) ->
     walk_agrees st type mode t (A mod 2 ^ r) r w (walk fuel st type mode A t r w)) ->
  slot_cap st l = Some c -> table_width c = Some wd -> c_shadow c <> 0 -> 0 <= CAP_GUARD_BITS c ->
  0 <= wd -> 0 < CAP_GUARD_BITS c + wd -> 0 <= r2 -> 0 < wd + r2 ->
  r = CAP_GUARD_BITS c + wd + r2 -> r <= 63 -> r < Z.of_nat (S fuel) ->
  A mod 2 ^ r / 2 ^ (wd + r2) = CAP_GUARD c ->
  (wants_strong type = true -> negb (read_only c) = true) ->
  walk_agrees st type mode l (A mod 2 ^ r) r w
    (walk_next fuel (obj_slot (c_shadow c) (table_base c + A mod 2 ^ (wd + r2) / 2 ^ r2)) r2
       (w && negb (read_only c))).
Proof.
  intros IH Hl Hw Hs Hd Hwd Hp Hr2 Hwr Hr H63 Hf HG Hstr.
  pose proof (fun l' w' => resolves_table_iff st (bool_decide (mode = as_lookup_want_object)) l c A r wd r2 l' w' Hl Hw Hs Hd Hwd Hr2 Hwr Hr HG) as Hiff.
  cbv zeta in Hiff. set (t := obj_slot _ _) in *. unfold walk_next.
  set (obj := bool_decide (mode = as_lookup_want_object)) in *.
  assert (is_Some (slot_cap st t)) as [ct Ht].
  { apply (slot_cap_table st l c wd); try done.
    pose proof (low_div A (wd + r2) r2 ltac:(lia)) as H. by replace (wd + r2 - r2) with wd in H by lia. }
  case_if.
  - subst r2. rewrite Ht. case_if.
    + apply walk_agrees_none; [by right|]. intros l' w' [Ho _]%Hiff. by specialize (Ho H0 eq_refl _ Ht).
    + split; [by eexists|]. exists (negb (read_only c)). rewrite andb_comm. repeat split; [|done].
      apply Hiff. split; [congruence|]. exists true. rewrite Z.mod_1_r, andb_true_r.
      split; [constructor|done].
  - specialize (IH t r2 (w && negb (read_only c)) ltac:(lia) ltac:(lia) ltac:(by eexists)).
    assert (obj = true -> r2 = 0 -> forall c', slot_cap st t = Some c' -> CAP_GUARD_BITS c' = 0) as Ho.
    { intros Ho ->. rewrite Ho in E. by cbn in E. }
    destruct (walk fuel st type mode A t r2 _) as [l' w1| | | | |]; try done.
    + destruct IH as (? & w' & Hres & -> & Hw'). split; [done|].
      exists (negb (read_only c) && w'). split; [apply Hiff; by eauto|].
      split; [by rewrite andb_assoc|]. intros Hws. by rewrite Hstr, Hw'.
    + intros l' w' [_ (w2 & [? ->]%IH & ->)]%Hiff. by rewrite andb_false_r.
    + intros l' w' [_ (w2 & [? ->]%IH & ->)]%Hiff. by rewrite andb_false_r.
Qed.

Lemma walk_spec fuel l r w :
  0 <= r <= 63 -> r < Z.of_nat fuel -> is_Some (slot_cap st l) ->
  walk_agrees st type mode l (A mod 2 ^ r) r w (walk fuel st type mode A l r w).
Proof.
  revert l r w. induction fuel as [|fuel IH]; intros l r w Hr Hf Hl; [lia|].
  cbn [walk]. case_if.
  { subst r. split; [done|]. exists true. rewrite Z.mod_1_r. repeat split; [constructor|by destruct w]. }
  destruct Hl as [c Hl]. rewrite Hl.
  destruct (as_caps st Hst l c Hl) as [Hreg Hprog].
  pose proof (check_guard_spec c A r Hreg HA ltac:(lia)) as HG.
  fold (read_only c). destruct (read_only c && wants_strong type) eqn:Ero.
  { apply andb_true_iff in Ero as [Ero Estr]. intros l' w' Hres. split; [done|].
    eapply resolves_read_only; [exact Hl| |done|exact Hres]. lia. }
  assert (wants_strong type = true -> negb (read_only c) = true) as Hstr
    by (intros Hws; rewrite Hws, andb_true_r in Ero; by rewrite Ero).
  replace (if read_only c then false else w) with (w && negb (read_only c))
    by (by destruct w, (read_only c)).
  destruct (check_guard c A r) as [r'|o].
  2: { destruct HG as [Ho HG]. apply walk_agrees_none; [done|]. intros l' w'.
       apply (resolves_none_guard _ _ _ c); [done|lia|done]. }
  destruct HG as (-> & Hr' & HG). case_if.
  { split; [by eexists|]. exists (negb (read_only c)). split; [|done].
    rewrite E0, Z.pow_0_r, Z.div_1_r in HG. rewrite HG. apply (res_guard _ _ _ c); [done|lia|lia]. }
  assert (0 <= CAP_GUARD_BITS c) as Hd
    by (unfold CAP_GUARD_BITS, CAP_ADDR_TRANS_GUARD_BITS; destruct Hreg as ((_ & _ & ?) & _); lia).
  pose proof (index_object_spec c A (r - CAP_GUARD_BITS c) Hreg HA ltac:(lia)) as HI.
  destruct (index_object c A (r - CAP_GUARD_BITS c)) as [[l2 r2]|o].
  2: { destruct HI as [Ho HI]. apply walk_agrees_none; [done|]. intros l' w'.
       apply (resolves_none_table _ _ _ c); [done|lia|lia|done]. }
  destruct HI as (wd & Hw & Hs & -> & Hr2 & ->).
  pose proof (table_width_range c wd Hreg Hw) as Hwd. specialize (Hprog _ Hw).
  fold (walk_next fuel (obj_slot (c_shadow c) (table_base c + A mod 2 ^ (r - CAP_GUARD_BITS c)
          / 2 ^ (r - CAP_GUARD_BITS c - wd))) (r - CAP_GUARD_BITS c - wd) (w && negb (read_only c))).
  set (r2 := r - CAP_GUARD_BITS c - wd) in *.
  replace (r - CAP_GUARD_BITS c) with (wd + r2) in * by lia.
  apply walk_next_spec; try done; lia.
Qed.
End walk.

(** The word that is translated is the string of the address. *)
Lemma lookup_word q d :
  bits_ok q d ->
  u32 (addr_depth (of_bits q d)) = d /\
  Z.shiftr (addr_prefix (of_bits q d)) (u32 (ADDR_BITS - d) mod 64) = q.
Proof.
  intros Hok. destruct (id Hok) as [Hd Hq].
  rewrite addr_depth_bits, addr_prefix_bits by done. unfold ADDR_BITS.
  rewrite !u32_small, Z.mod_small, Z.shiftr_div_pow2 by lia. split; [done|].
  apply Z.div_mul. pose proof (pow2_pos (63 - d)). lia.
Qed.

Definition lookup_of_walk (st : addr_space) (type : option cap_type) (mode : as_lookup_mode)
    (r : walk_outcome) : lookup_ret :=
  match r with
  | WK_found l w => lookup_finish st type mode l w
  | WK_false | WK_dump => LK_false
  | WK_abort => LK_abort
  | WK_fault => LK_fault
  | WK_fuel => LK_fuel
  end.

(** The second pass that [DUMP_OR_RET] makes ends as the first did. *)
Lemma as_lookup_rel_walk fuel st root q d type mode :
  bits_ok q d ->
  as_lookup_rel fuel st root (of_bits q d) type mode
  = lookup_of_walk st type mode (walk fuel st type mode q root d true).
Proof.
  intros Hok. destruct (lookup_word q d Hok) as [E1 E2].
  unfold as_lookup_rel, as_lookup_rel_internal. rewrite E1, E2.
  destruct (walk _ _ _ _ _ _ _ _) eqn:E; cbn; by rewrite ?E.
Qed.

Lemma lookup_finish_spec st type mode l w c :
  slot_cap st l = Some c ->
  lookup_finish st type mode l w =
  if type_granted type c then
    let w := w && negb (bool_decide (mode = as_lookup_want_object) && cap_type_weak_p (c_type c)) in
    if bool_decide (mode = as_lookup_want_slot) then LK_slot l w else LK_cap c w
  else LK_false.
Proof.
  intros Hl. unfold lookup_finish, type_granted. rewrite Hl.
  destruct type as [t|].
  - rewrite <- negb_orb. destruct (_ || _); [|done]. cbn [negb].
    by destruct (bool_decide _ && _), w.
  - by destruct (bool_decide _ && _), w.
Qed.

(** What a lookup promises: address [a] designates slot [l] from [root], the
    capability there has the requested type, no read-only table was crossed
    if that type is strong, and [w] is the writability reported. *)
Definition designates (st : addr_space) (root : slot) (a : addr) (type : option cap_type)
    (mode : as_lookup_mode) (l : slot) (w : bool) : Prop :=
  exists q d w0 c, bits_ok q d /\ a = of_bits q d /\
    resolves st (bool_decide (mode = as_lookup_want_object)) root q d l w0 /\
    (wants_strong type = true -> w0 = true) /\
    slot_cap st l = Some c /\ type_granted type c = true /\
    w = w0 && negb (bool_decide (mode = as_lookup_want_object) && cap_type_weak_p (c_type c)).

(** ** Properties *)


(** An address space with one page table: a root with a two-bit guard over a
    whole cappage, whose slot 3 holds a page. *)
Definition sample_as : addr_space :=
  mk_as (mk_cap 0 false 0 4096 0 0 cap_cappage (mk_cat 2 0 2))
        {[ 4096 := <[3%nat := mk_cap 0 false 0 0 0 0 cap_page CAP_ADDR_TRANS_VOID]>
                     (replicate 256 (mk_cap 0 false 0 0 0 0 cap_void CAP_ADDR_TRANS_VOID)) ]}.

Definition sample_caps : list cap :=
  [mk_cap 0 false 0 4096 0 0 cap_cappage (mk_cat 2 0 2);
   mk_cap 0 false 0 0 0 0 cap_page CAP_ADDR_TRANS_VOID;
   mk_cap 0 false 0 0 0 0 cap_void CAP_ADDR_TRANS_VOID].

Lemma sample_as_caps l c : slot_cap sample_as l = Some c -> c ∈ sample_caps.
Proof.
  destruct l as [|p i]; cbn [slot_cap]; [intros [= <-]; by left|].
  unfold sample_as; cbn [as_objects]. destruct (decide (p = 4096)) as [->|Hp].
  - rewrite lookup_singleton_eq. cbn -[replicate]. destruct (decide (Z.to_nat i = 3%nat)) as [->|Hi].
    + rewrite list_lookup_insert_eq by (rewrite length_replicate; lia). intros [= <-]. right. by left.
    + rewrite list_lookup_insert_ne by done. intros [-> _]%lookup_replicate. do 2 right. by left.
  - by rewrite lookup_singleton_ne.
Qed.

Lemma sample_as_wf : as_wf sample_as.
Proof.
  assert (forall c : cap, c ∈ sample_caps -> (cap_regular c /\ cap_progress c) /\
            (table_width c <> None -> c_shadow c <> 0 -> c_shadow c = 4096)) as H.
  { intros c Hc. repeat (apply elem_of_cons in Hc as [->|Hc];
      [unfold cap_regular, cat_wf, cap_progress, table_width; cbn; repeat split; try lia;
       intros ? [= <-]; lia|]). by apply elem_of_nil in Hc. }
  split; intros l c Hl%sample_as_caps; [by apply H|].
  intros Hw Hs. rewrite (proj2 (H c Hl) Hw Hs). eexists. split; [apply lookup_singleton_eq|].
  by rewrite length_insert, length_replicate.
Qed.


Lemma walk_strong st type mode fuel A l r w l' w' :
  wants_strong type = true -> walk fuel st type mode A l r w = WK_found l' w' -> w' = w.
Proof.
  intros Hs. revert l r w. induction fuel as [|fuel IH]; intros l r w; [done|]. cbn [walk].
  case_if; [congruence|]. destruct (slot_cap st l) as [c|]; [|done]. rewrite Hs, andb_true_r.
  destruct (cap_type_eqb _ _); [done|].
  destruct (check_guard c A r) as [r1|o] eqn:Eg; [|intros ->].
  2: { unfold check_guard in Eg. repeat case_if_in Eg; try discriminate.
       destruct (extract_bits64_inv _ _ _); [case_if_in Eg|]; discriminate. }
  case_if; [congruence|].
  destruct (index_object c A r1) as [[l2 r2]|o] eqn:Ei; [|intros ->].
  2: { unfold index_object in Ei. destruct (c_type c); try discriminate;
       repeat case_if_in Ei; try discriminate;
       destruct (extract_bits64_inv _ _ _); try case_if_in Ei; discriminate. }
  case_if; [|apply IH]. destruct (slot_cap st l2); [|done]. case_if; congruence.
Qed.

(** whatever the address space holds, a lookup that asks for a strong
    type and succeeds with a capability returns one of that very type (never
    a weak one) and reports it writable. *)
Theorem as_lookup_rel_strong fuel st root a t mode c w :
  cap_type_weak_p t = false ->
  as_lookup_rel fuel st root a (Some t) mode = LK_cap c w ->
  w = true /\ c_type c = t.
Proof.
  intros Ht. unfold as_lookup_rel, as_lookup_rel_internal.
  set (A := Z.shiftr _ _). set (r := u32 _).
  assert (wants_strong (Some t) = true) as Hs by (cbn; by rewrite Ht).
  destruct (walk fuel st (Some t) mode A root r true) as [l w'| | | | |] eqn:E; try done.
  apply walk_strong in E as ->; [|done].
  unfold lookup_finish. destruct (slot_cap st l) as [c0|]; [|done].
  destruct (cap_type_eqb t (c_type c0)) eqn:E1; [|destruct (cap_type_eqb (cap_type_strengthen t) (c_type c0)) eqn:E2];
    cbn; [|..|done].
  - apply cap_type_eqb_eq in E1. rewrite <- E1, Ht, andb_false_r.
    case_if; intros [= <- <-]. done.
  - apply cap_type_eqb_eq in E2. rewrite <- E2.
    assert (cap_type_weak_p (cap_type_strengthen t) = false) as -> by (by destruct t).
    rewrite andb_false_r. case_if; intros [= <- <-]. rewrite <- E2. by destruct t.
Qed.

Theorem as_lookup_rel_strong_witness :
  true = true /\ cap_page = cap_page.
Proof.
  apply (as_lookup_rel_strong 11 sample_as root_slot (of_bits (2 * 256 + 3) 10) cap_page
           as_lookup_want_object (mk_cap 0 false 0 0 0 0 cap_page CAP_ADDR_TRANS_VOID) true);
    vm_compute; reflexivity.
Defined.

(** a guard longer than a word is compared through an [int]: all the
    addresses that agree with the guard in their low 32 bits designate the
    object, whatever their other bits are. *)
Theorem as_lookup_guard_truncated st k :
  let c := as_root st in
  cat_wf (c_addr_trans c) -> 32 < CAP_GUARD_BITS c < 64 ->
  0 <= k < 2 ^ (CAP_GUARD_BITS c - 32) ->
  as_lookup_rel 2 st root_slot (of_bits (CAP_GUARD c + k * 2 ^ 32) (CAP_GUARD_BITS c)) None
    as_lookup_want_slot = LK_slot root_slot (negb (read_only c)).
Proof.
  intros c Hwf Hd Hk. pose proof (cat_guard_range _ Hwf) as HG. fold (CAP_GUARD c) in HG.
  set (q := CAP_GUARD c + k * 2 ^ 32).
  assert (0 <= q < 2 ^ CAP_GUARD_BITS c) as Hq.
  { subst q. replace (2 ^ CAP_GUARD_BITS c) with (2 ^ (CAP_GUARD_BITS c - 32) * 2 ^ 32)
      by (rewrite <- pow2_split by lia; f_equal; lia). nia. }
  pose proof (pow2_le (CAP_GUARD_BITS c) 63 ltac:(lia)).
  rewrite as_lookup_rel_walk by (split; lia). cbn [walk slot_cap].
  replace (CAP_GUARD_BITS c =? 0) with false by (symmetry; apply Z.eqb_neq; lia).
  fold c. rewrite andb_false_r. fold (read_only c).
  assert (check_guard c q (CAP_GUARD_BITS c) = inl 0) as ->.
  { unfold check_guard. replace (CAP_GUARD_BITS c =? 0) with false by (symmetry; apply Z.eqb_neq; lia).
    rewrite Z.ltb_irrefl, extract_top, Z.sub_diag, Z.pow_0_r, Z.div_1_r, Z.mod_small by lia.
    assert (i32 q = CAP_GUARD c) as ->.
    { unfold i32, swrap, q. change (32 - 1) with 31.
      replace (CAP_GUARD c + k * 2 ^ 32 + 2 ^ 31) with (CAP_GUARD c + 2 ^ 31 + k * 2 ^ 32) by lia.
      rewrite Z.mod_add, Z.mod_small by lia. lia. }
    rewrite u64_small, Z.eqb_refl by lia. done. }
  cbn. unfold lookup_finish, slot_cap. by destruct (read_only c).
Qed.

Theorem as_lookup_guard_truncated_witness :
  as_lookup_rel 2 (mk_as (mk_cap 0 false 0 0 0 0 cap_page (mk_cat 5 0 40)) ∅) root_slot
    (of_bits (5 + 7 * 2 ^ 32) 40) None as_lookup_want_slot = LK_slot root_slot true.
Proof.
  apply (as_lookup_guard_truncated (mk_as (mk_cap 0 false 0 0 0 0 cap_page (mk_cat 5 0 40)) ∅) 7);
    vm_compute; repeat split; congruence.
Defined.

(** a cappage capability without guard whose subpage is a single slot
    translates no bits; when that slot leads back to the table (the descriptor
    and the capability are ones the setters accept), the lookup of any
    nonempty address does not end. *)
Theorem as_lookup_zero_width_diverges fuel st l c a mode :
  slot_cap st l = Some c -> c_type c = cap_cappage -> c_shadow c <> 0 ->
  CAP_GUARD_BITS c = 0 -> 0 <= CAP_SUBPAGE c < 256 -> subpages_log2 (c_addr_trans c) = 8 ->
  slot_cap st (obj_slot (c_shadow c) (CAP_SUBPAGE c)) = Some c ->
  addr_wf a -> addr_depth a <> 0 ->
  as_lookup_rel fuel st l a None mode = LK_fuel.
Proof.
  intros Hl Hty Hs Hg Hsub Hlog Hself (q & d & Hok & ->)%addr_wf_bits Hd.
  rewrite addr_depth_bits in Hd by done. rewrite as_lookup_rel_walk by done.
  destruct (id Hok) as [Hd63 _].
  enough (forall l w, slot_cap st l = Some c -> walk fuel st None mode q l d w = WK_fuel) as Hw
    by (by rewrite Hw).
  assert (check_guard c q d = inl d) as Ec by (unfold check_guard; by rewrite Hg).
  assert (index_object c q d = inl (obj_slot (c_shadow c) (CAP_SUBPAGE c), d)) as Ei.
  { unfold index_object, CAP_SUBPAGE_SIZE_LOG2, CAP_ADDR_TRANS_SUBPAGE_SIZE_LOG2, CAP_SUBPAGE_OFFSET,
      CAP_ADDR_TRANS_SUBPAGE_OFFSET, CAP_ADDR_TRANS_SUBPAGE_SIZE, CAP_ADDR_TRANS_SUBPAGE_SIZE_LOG2.
    rewrite Hty, Hlog. fold (CAP_SUBPAGE c). change (8 - 8) with 0. change (Z.shiftl 1 0) with 1.
    rewrite (proj2 (Z.ltb_ge d 0)), (proj2 (Z.eqb_neq _ _) Hs) by lia.
    change (extract_bits64_inv q (d - 1) 0) with (Some 0). cbv beta iota zeta.
    replace (CAP_SUBPAGE c * 1 + 0) with (CAP_SUBPAGE c) by lia. rewrite Z.sub_0_r.
    change CAPPAGE_SLOTS with 256.
    by rewrite (proj2 (Z.leb_le 0 _)), (proj2 (Z.ltb_lt _ 256)) by lia. }
  assert ((d =? 0) = false) as Ed by by apply Z.eqb_neq.
  clear l Hl. induction fuel as [|fuel IH]; intros l w Hl; [done|]. cbn [walk].
  rewrite Ed, Hl, Hty, andb_false_r, Ec, Ed, Ei, Ed. cbn [andb]. by apply IH.
Qed.

Theorem as_lookup_zero_width_diverges_witness :
  as_lookup_rel 1000
    (mk_as (mk_cap 0 false 0 4096 0 0 cap_cappage (mk_cat 0 8 0))
           {[ 4096 := [mk_cap 0 false 0 4096 0 0 cap_cappage (mk_cat 0 8 0)] ]})
    root_slot (of_bits 1 1) None as_lookup_want_slot = LK_fuel.
Proof.
  apply (as_lookup_zero_width_diverges 1000 _ _ (mk_cap 0 false 0 4096 0 0 cap_cappage (mk_cat 0 8 0)));
    vm_compute; repeat split; congruence.
Defined.
