(* ===== verification/AsBuild.v ===== *)
(** * Building an address space: [libhurd-mm/as-build.c]

    [as_build] makes sure that an address has a capability slot: it walks the
    page tables like [as_lookup_rel] and, where an object is in the way or its
    guard is not a prefix of the address, shortens the guard, puts a new page
    table there and moves the object below it.  The model is the user-space
    build with the default indexing, on the address spaces of [AsLookup].  Debug
    output is left out, and with it the assertions that are evaluated in its
    arguments only. *)

From S2P Require Import Prelude L4Math Addr Bits AddrTrans Gbits Cap AsLookup.

Module AsBuild.

(** ** The code *)

(** A value that an assertion of the callee may keep from being returned. *)
Definition asserted {A} (o : option A) : exec A :=
  match o with Some a => Ret a | None => Crash assertion_failed end.

(** What [pte] points to: a capability slot, or the local [fake_slot], which
    holds the capability to an object of a folio. *)
Inductive pte := in_slot (l : slot) | fake_slot (c : cap).

Definition is_fake (p : pte) : bool := match p with fake_slot _ => true | in_slot _ => false end.

#[export] Instance slot_eq_dec : EqDecision slot.
Proof. solve_decision. Defined.

Definition pte_cap (st : addr_space) (p : pte) : exec cap :=
  match p with
  | in_slot l => access (slot_cap st l)
  | fake_slot c => Ret c
  end.

Definition slot_set (st : addr_space) (l : slot) (c : cap) : addr_space :=
  match l with
  | root_slot => mk_as c (as_objects st)
  | obj_slot p i => mk_as (as_root st) (alter (<[Z.to_nat i := c]>) p (as_objects st))
  end.

Definition pte_set (st : addr_space) (p : pte) (c : cap) : addr_space * pte :=
  match p with
  | in_slot l => (slot_set st l c, p)
  | fake_slot _ => (st, fake_slot c)
  end.

Definition is_table (c : cap) : bool :=
  match c_type c with cap_cappage | cap_rcappage | cap_folio => true | _ => false end.

(** [do_index]; for user space [cap_to_object] is the shadow pointer. *)
Definition do_index (st : addr_space) (c : cap) (idx : Z) : exec pte :=
  _ ← check (is_table c) assertion_failed;
  _ ← check (negb (c_shadow c =? 0)) assertion_failed;
  match c_type c with
  | cap_folio =>
      _ ← check ((0 <=? idx) && (idx <? FOLIO_OBJECTS)) assertion_failed;
      o ← access (slot_cap st (obj_slot (c_shadow c) idx));
      if cap_type_eqb (c_type o) cap_void then Crash panicked else Ret (fake_slot o)
  | _ => Ret (in_slot (obj_slot (c_shadow c) (CAP_SUBPAGE_OFFSET c + idx)))
  end.

(** How many bits of the address's [remaining] low bits agree with the guard of
    the capability in the way. *)
Definition common_guard (prefix remaining : Z) (c : cap) : exec Z :=
  let gb := CAP_GUARD_BITS c in
  let max := if remaining <? gb then remaining else gb in
  b ← asserted (extract_bits64_inv prefix (remaining - 1) max);
  let a := if remaining <? gb then Z.shiftr (CAP_GUARD c) (gb - remaining) else CAP_GUARD c in
  Ret (max - L4_msb64 (Z.lxor a b)).

(** The guard and the width of the new page table. *)
Definition table_shape (prefix remaining depth tilobject gbits : Z) : exec as_guard_cappage :=
  first ← asserted (extract_bits64_inv prefix (remaining - 1) gbits);
  let firstset := L4_msb64 first in
  let gbits := if CAP_ADDR_TRANS_GUARD_SUBPAGE_BITS <? firstset
               then gbits - (firstset - CAP_ADDR_TRANS_GUARD_SUBPAGE_BITS) else gbits in
  let untranslated_bits := remaining + ADDR_BITS - depth in
  _ ← check ((0 <? untranslated_bits) && (0 <? tilobject) && (0 <=? gbits)
             && (tilobject <=? untranslated_bits) && (gbits <=? untranslated_bits)
             && (gbits <=? tilobject)) panicked;
  gc ← asserted (as_compute_gbits_cappage untranslated_bits tilobject gbits);
  _ ← check (gc_gbits gc <=? gbits) assertion_failed;
  _ ← check (gc_gbits gc + gc_cappage_width gc <=? tilobject) assertion_failed;
  _ ← check ((0 <? gc_cappage_width gc) && (gc_cappage_width gc <=? CAPPAGE_SLOTS_LOG2)) panicked;
  Ret gc.

Section build.
(** The result of the RPC behind [cap_copy_x]; whether the kernel's capability
    agrees with its shadow ([AS_CHECK_SHADOW]); and the callback
    [allocate_page_table], which also makes the shadow of the page table it
    returns. *)
Context (rm_cap_copy : Z) (as_check_shadow : addr -> cap -> bool).
Context (allocate_page_table : addr_space -> addr -> addr_space * (cap * addr)).
(** Whether the results are looked up again ([#ifndef NDEBUG]). *)
Context (self_check : bool).

Definition AS_CHECK_SHADOW (a : addr) (c : cap) : exec unit :=
  check (as_check_shadow a c) assertion_failed.

(** [cap_copy_x] to [*target] and [assert (r)]. *)
Definition copy_to (st : addr_space) (target : pte) (target_addr : addr) (source : cap)
    (source_addr : addr) (flags : Z) (a : cap_addr_trans) : exec (addr_space * pte) :=
  t ← pte_cap st target;
  o ← asserted (cap_copy_x (fun c => c) rm_cap_copy false target_addr source_addr t source flags
                  (CAP_PROPERTIES OBJECT_POLICY_DEFAULT a));
  _ ← check (co_ok o) assertion_failed;
  Ret (pte_set st target (co_target o)).

(** The assertion that the slot at [a] is found and is [p]. *)
Definition check_lookup (st : addr_space) (a : addr) (p : pte) : exec unit :=
  if self_check then
    match as_lookup_rel (lookup_fuel a) st root_slot a None as_lookup_want_slot, p with
    | LK_slot l _, in_slot l' => check (bool_decide (l = l')) assertion_failed
    | _, _ => Crash assertion_failed
    end
  else Ret tt.

(** 1.a) and 1.b): the pivot designates what the pte designated. *)
Definition copy_pivot (st : addr_space) (pt_cap : cap) (pivot_idx : Z) (pivot_phys_addr : addr) (c : cap)
    (pte_addr : addr) (pivot_guard pivot_gbits : Z) : exec (addr_space * pte) :=
  pivot ← do_index st pt_cap pivot_idx;
  _ ← check (negb (is_fake pivot)) assertion_failed;
  let '(r, a) := CAP_ADDR_TRANS_SET_GUARD CAP_ADDR_TRANS_VOID pivot_guard pivot_gbits in
  _ ← check r assertion_failed;
  copy_to st pivot pivot_phys_addr c pte_addr CAP_COPY_COPY_ADDR_TRANS_GUARD a.

(** 2): the pte points to the new page table. *)
Definition set_pte (st : addr_space) (p : pte) (pte_addr : addr) (pt_cap : cap) (storage : addr)
    (pte_guard pte_gbits subpages : Z) : exec (addr_space * pte) :=
  let '(r, a) := CAP_ADDR_TRANS_SET_GUARD_SUBPAGE CAP_ADDR_TRANS_VOID pte_guard pte_gbits 0 subpages in
  _ ← check r assertion_failed;
  copy_to st p pte_addr pt_cap storage
    (Z.lor CAP_COPY_COPY_ADDR_TRANS_SUBPAGE CAP_COPY_COPY_ADDR_TRANS_GUARD) a.

(** Steps 1 and 2 for [p], whose capability [c] is at [pte_addr]: [None] without
    memory, and otherwise [p] and the pivot with its address. *)
Definition replace_pte (st : addr_space) (address : addr) (p : pte) (c : cap) (pte_addr : addr)
    (remaining : Z) (gc : as_guard_cappage) (need_pivot : bool)
    : exec (addr_space * option (pte * option (addr * pte))) :=
  let gbits := gc_gbits gc in
  let pt_width := gc_cappage_width gc in
  let pte_guard := CAP_GUARD c in
  let pte_gbits := CAP_GUARD_BITS c in
  pt_addr ← asserted (addr_chop address (remaining - gbits));
  let '(st, (rt_cap, rt_storage)) := allocate_page_table st pt_addr in
  if cap_type_eqb (c_type rt_cap) cap_void then Ret (st, None)
  else
    let subpages := Z.shiftl 1 (CAPPAGE_SLOTS_LOG2 - pt_width) in
    let pt_cap := (CAP_SET_SUBPAGE rt_cap 0 subpages).2 in
    pivot_idx ← asserted (extract_bits_inv (u32 pte_guard) (pte_gbits - gbits - 1) pt_width);
    pivot_addr ← asserted (addr_extend pt_addr pivot_idx pt_width);
    pivot_phys_addr ← asserted (addr_extend rt_storage pivot_idx CAPPAGE_SLOTS_LOG2);
    let pivot_gbits := pte_gbits - gbits - pt_width in
    pg ← asserted (extract_bits64 pte_guard 0 pivot_gbits);
    let pivot_guard := i32 pg in
    new_target ← asserted (addr_extend pivot_addr pivot_guard pivot_gbits);
    old_target ← asserted (addr_extend pte_addr pte_guard pte_gbits);
    _ ← check (ADDR_EQ new_target old_target) panicked;
    (* 1. Copy the capability to the pivot. *)
    '(st, pivot) ←
      (if need_pivot then
         '(st, pivot) ← copy_pivot st pt_cap pivot_idx pivot_phys_addr c pte_addr pivot_guard pivot_gbits;
         Ret (st, Some (pivot_addr, pivot))
       else Ret (st, None));
    (* 2. Set the pte to the new page table. *)
    pte_guard ← asserted (extract_bits64_inv pte_guard (pte_gbits - 1) gbits);
    '(st, p) ← set_pte st p pte_addr pt_cap rt_storage pte_guard gbits subpages;
    Ret (st, Some (p, pivot)).

(** The assertions on the pivot. *)
Definition check_pivot (st : addr_space) (pte_addr : addr) (p : pte) (pivot : option (addr * pte))
    : exec unit :=
  match pivot with
  | Some (pivot_addr, pivot) =>
      if self_check then
        _ ← check_lookup st pivot_addr pivot;
        c ← pte_cap st pivot; _ ← AS_CHECK_SHADOW pivot_addr c;
        c ← pte_cap st p; AS_CHECK_SHADOW pte_addr c
      else Ret tt
  | None => Ret tt
  end.

(** A new page table: the page table's slot and what is left to translate;
    [None] without memory. *)
Definition insert_table (st : addr_space) (address : addr) (p : pte) (c : cap) (pte_addr : addr)
    (remaining : Z) (gc : as_guard_cappage) (need_pivot : bool)
    : exec (addr_space * option (pte * Z)) :=
  '(st, r) ← replace_pte st address p c pte_addr remaining gc need_pivot;
  match r with
  | None => Ret (st, None)
  | Some (p, pivot) =>
      _ ← check_pivot st pte_addr p pivot;
      Ret (st, Some (p, remaining - gc_gbits gc))
  end.

(** How an iteration goes on after the guard: it leaves the loop, returns NULL,
    or indexes the page table at [p]. *)
Inductive next :=
| Break
| NoMemory (st : addr_space)
| Index (st : addr_space) (p : pte) (remaining : Z).

(** The guard: matched, or the place for a new page table. *)
Definition descend (st : addr_space) (address : addr) (prefix depth : Z) (p : pte) (remaining : Z)
  : exec next :=
  c ← pte_cap st p;
  pte_addr ← asserted (addr_chop address remaining);
  _ ← AS_CHECK_SHADOW pte_addr c;
  let pte_guard := CAP_GUARD c in
  let pte_gbits := CAP_GUARD_BITS c in
  addr_guard ← (if pte_gbits <=? remaining
                then asserted (extract_bits64_inv prefix (remaining - 1) pte_gbits)
                else Ret (u64 (-1)));
  if (pte_gbits =? remaining) && (pte_guard =? addr_guard) then Ret Break
  else if is_table c && (pte_gbits <=? remaining) && (pte_guard =? addr_guard) then
    _ ← check (0 <? remaining - pte_gbits) assertion_failed;
    Ret (Index st p (remaining - pte_gbits))
  else
    let insert gbits tilobject need_pivot :=
      gc ← table_shape prefix remaining depth tilobject gbits;
      '(st, r) ← insert_table st address p c pte_addr remaining gc need_pivot;
      Ret (match r with Some (p, remaining) => Index st p remaining | None => NoMemory st end) in
    if cap_type_eqb (c_type c) cap_void && (pte_gbits =? 0) then
      low ← asserted (extract_bits64 prefix 0 remaining);
      if L4_msb64 low <=? CAP_ADDR_TRANS_GUARD_SUBPAGE_BITS then Ret Break
      else insert remaining remaining false
    else
      gbits ← common_guard prefix remaining c;
      insert gbits pte_gbits true.

(** Indexing the page table at [p]. *)
Definition index_table (st : addr_space) (address : addr) (prefix : Z) (p : pte) (remaining : Z)
  : exec (pte * Z) :=
  c ← pte_cap st p;
  width ← match c_type c with
          | cap_cappage | cap_rcappage => Ret (CAP_SUBPAGE_SIZE_LOG2 c)
          | cap_folio => Ret FOLIO_OBJECTS_LOG2
          | _ => Crash panicked
          end;
  if remaining <? width then Crash panicked
  else
    idx ← asserted (extract_bits64_inv prefix (remaining - 1) width);
    p ← do_index st c idx;
    _ ← check (Bool.eqb (is_fake p) (cap_type_eqb (c_type c) cap_folio)) assertion_failed;
    let remaining := remaining - width in
    _ ← (if remaining =? 0 then c ← pte_cap st p; AS_CHECK_SHADOW address c else Ret tt);
    Ret (p, remaining).

(** The loop: where it ends, and what is left of the address there. *)
Fixpoint build_loop (fuel : nat) (st : addr_space) (address : addr) (prefix depth : Z) (p : pte)
    (remaining : Z) : exec (addr_space * option (pte * Z)) :=
  match fuel with
  | O => Crash out_of_fuel
  | S fuel =>
      n ← descend st address prefix depth p remaining;
      match n with
      | Break => Ret (st, Some (p, remaining))
      | NoMemory st => Ret (st, None)
      | Index st p remaining =>
          '(p, remaining) ← index_table st address prefix p remaining;
          if 0 <? remaining then build_loop fuel st address prefix depth p remaining
          else Ret (st, Some (p, remaining))
      end
  end.

(** What follows the loop: the slot is given the rest of the address as its
    guard. *)
Definition claim_slot (st : addr_space) (address : addr) (prefix : Z) (may_overwrite : bool) (p : pte)
    (remaining : Z) : exec (addr_space * pte) :=
  c ← pte_cap st p;
  _ ← (if cap_type_eqb (c_type c) cap_void && (CAP_GUARD_BITS c =? 0) then Ret tt
       else check may_overwrite panicked);
  let gbits := remaining in
  low ← asserted (extract_bits64 prefix 0 gbits);
  let guard := i32 low in
  if negb (gbits =? CAP_GUARD_BITS c) || negb (u64 guard =? CAP_GUARD c) then
    let '(r, a) := CAP_ADDR_TRANS_SET_GUARD_SUBPAGE CAP_ADDR_TRANS_VOID guard gbits 0 1 in
    _ ← check r assertion_failed;
    slot_addr ← asserted (addr_chop address gbits);
    '(st, p) ← copy_to st p slot_addr c slot_addr CAP_COPY_COPY_ADDR_TRANS_GUARD a;
    c ← pte_cap st p;
    _ ← AS_CHECK_SHADOW slot_addr c;
    Ret (st, p)
  else Ret (st, p).

Definition finish (st : addr_space) (address : addr) (prefix : Z) (may_overwrite : bool) (p : pte)
    (remaining : Z) : exec (addr_space * pte) :=
  '(st, p) ← claim_slot st address prefix may_overwrite p remaining;
  _ ← check_lookup st address p;
  Ret (st, p).

Definition as_build (fuel : nat) (st : addr_space) (address : addr) (may_overwrite : bool)
  : exec (addr_space * option pte) :=
  _ ← check (negb (ADDR_IS_VOID address)) assertion_failed;
  let depth := addr_depth address in
  let prefix := Z.shiftr (addr_prefix address) (ADDR_BITS - depth) in
  '(st, r) ← build_loop fuel st address prefix depth (in_slot root_slot) depth;
  match r with
  | None => Ret (st, None)
  | Some (p, remaining) =>
      '(st, p) ← finish st address prefix may_overwrite p remaining;
      Ret (st, Some p)
  end.

End build.

End AsBuild.
