(* ===== verification/AsPath.v ===== *)
(** * Paths in an address space

    The strings of bits that lead from a slot through page tables to a slot
    ([path]), the address that the guard of an object completes ([object_at]),
    and what putting a page table between a slot and its object does to them. *)

From S2P Require Import Prelude L4Math Addr Bits AddrTrans Gbits Cap AsLookup AsBuild.

Module AsPath.

Import AsBuild.

(** ** Well-formed address spaces *)

(** A capability whose descriptor is a valid one, and that leads to at least two
    slots if it is a page table. *)
Record cap_sound (c : cap) : Prop := {
  cs_wf : cat_wf (c_addr_trans c);
  cs_log2 : subpages_log2 (c_addr_trans c) <= 8;
  cs_guard : CAP_GUARD c < 2 ^ CAP_GUARD_BITS c;
  cs_wide : forall wd, table_width c = Some wd -> 0 < wd
}.

(** The page tables exist; the objects of a folio have no guard, and a folio is
    not used as a page table. *)
Record build_wf (st : addr_space) : Prop := {
  bw_caps : forall l c, slot_cap st l = Some c -> cap_sound c;
  bw_tables : forall l c, slot_cap st l = Some c -> table_width c <> None -> c_shadow c <> 0 ->
    exists o, as_objects st !! c_shadow c = Some o /\ length o = 256%nat;
  bw_folio : forall l c i c', slot_cap st l = Some c -> c_type c = cap_folio -> c_shadow c <> 0 ->
    slot_cap st (obj_slot (c_shadow c) i) = Some c' -> CAP_GUARD_BITS c' = 0;
  bw_kind : forall l c l' c', slot_cap st l = Some c -> slot_cap st l' = Some c' ->
    table_width c <> None -> table_width c' <> None -> c_shadow c = c_shadow c' -> c_shadow c <> 0 ->
    c_type c = cap_folio -> c_type c' = cap_folio
}.

Lemma guard_bits_range c : cap_sound c -> 0 <= CAP_GUARD_BITS c < 64.
Proof. intros [(_ & _ & ?) _ _ _]. unfold CAP_GUARD_BITS, CAP_ADDR_TRANS_GUARD_BITS. lia. Qed.

Lemma guard_range c : cap_sound c -> 0 <= CAP_GUARD c < 2 ^ 22 /\ CAP_GUARD c < 2 ^ CAP_GUARD_BITS c.
Proof. intros [H _ ? _]. split; [|done]. by apply cat_guard_range. Qed.

Lemma sound_width c wd : cap_sound c -> table_width c = Some wd -> 0 < wd <= 8.
Proof.
  intros [(_ & Hl & _) Hl8 _ Hw] H. split; [by apply Hw|].
  unfold table_width in H. destruct (c_type c); try discriminate; injection H as <-; lia.
Qed.

(** The slots of a table are slots of its object. *)
Lemma sound_slots c wd i :
  cap_sound c -> table_width c = Some wd -> 0 <= i < 2 ^ wd -> 0 <= table_base c + i < 256.
Proof.
  intros [(_ & Hl & _) Hl8 _ _] Hwd Hi.
  pose proof (cat_offset_bound (c_addr_trans c) i ltac:(lia)) as Ho.
  rewrite cat_subpage_size_pow2 in Ho by done.
  unfold table_width, table_base, CAP_SUBPAGE_OFFSET in *.
  destruct (c_type c); try discriminate; injection Hwd as <-; lia.
Qed.

(** ** Slots *)

(** A slot that a capability can lead to. *)
Definition slot_ok (l : slot) : Prop :=
  match l with root_slot => True | obj_slot _ i => 0 <= i end.

Lemma slot_set_same st l c : is_Some (slot_cap st l) -> slot_cap (slot_set st l c) l = Some c.
Proof.
  intros [c0 H]. destruct l as [|p i]; [done|]. cbn in *.
  destruct (as_objects st !! p) as [o|] eqn:E; [|done]. cbn in H.
  rewrite lookup_alter_eq, E. cbn. apply list_lookup_insert_eq. by apply lookup_lt_Some in H.
Qed.

Lemma slot_set_other st l c l' :
  slot_ok l -> slot_ok l' -> l <> l' -> slot_cap (slot_set st l c) l' = slot_cap st l'.
Proof.
  intros Hl Hl' Hne. destruct l as [|p i], l' as [|p' i']; cbn in *; try done.
  destruct (decide (p = p')) as [->|Hp].
  - rewrite lookup_alter_eq. destruct (as_objects st !! p') as [o|]; [|done]. cbn.
    apply list_lookup_insert_ne. intros E. apply Z2Nat.inj in E; [congruence|done..].
  - by rewrite lookup_alter_ne.
Qed.

Lemma slot_set_caps st l c l' c' :
  slot_cap (slot_set st l c) l' = Some c' -> c' = c \/ slot_cap st l' = Some c'.
Proof.
  destruct l as [|p i], l' as [|p' i']; cbn; try (by auto); [intros [= <-]; by left|].
  destruct (decide (p = p')) as [->|Hp]; [|rewrite lookup_alter_ne by done; by right].
  rewrite lookup_alter_eq. destruct (as_objects st !! p') as [o|]; [|done]. cbn.
  intros H. destruct (decide (Z.to_nat i = Z.to_nat i')) as [E|E].
  - rewrite E in H. destruct (decide (Z.to_nat i' < length o)%nat).
    + rewrite list_lookup_insert_eq in H by done. injection H as <-. by left.
    + rewrite list_insert_ge in H by lia. by right.
  - rewrite list_lookup_insert_ne in H by done. by right.
Qed.

Lemma slot_set_objects st l c p :
  (exists o, as_objects st !! p = Some o /\ length o = 256%nat) ->
  exists o, as_objects (slot_set st l c) !! p = Some o /\ length o = 256%nat.
Proof.
  intros (o & H & Hl). destruct l as [|p' i]; cbn; [by eexists|].
  destruct (decide (p' = p)) as [->|Hp].
  - rewrite lookup_alter_eq, H. eexists. split; [done|]. by rewrite length_insert.
  - rewrite lookup_alter_ne by done. by eexists.
Qed.

Lemma table_slot st l c wd i :
  build_wf st -> slot_cap st l = Some c -> table_width c = Some wd -> c_shadow c <> 0 ->
  0 <= i < 2 ^ wd -> is_Some (slot_cap st (obj_slot (c_shadow c) (table_base c + i))).
Proof.
  intros Hst Hl Hwd Hs Hi.
  destruct (bw_tables st Hst l c Hl ltac:(congruence) Hs) as (o & Ho & Hlen). cbn. rewrite Ho. cbn.
  apply lookup_lt_is_Some_2. pose proof (sound_slots c wd i (bw_caps st Hst l c Hl) Hwd Hi). lia.
Qed.

(** ** Paths *)

(** [path st l q d l']: from the slot [l], the [d] bits [q] lead through page
    tables to the slot [l']. *)
Inductive path (st : addr_space) : slot -> Z -> Z -> slot -> Prop :=
| path_nil l : path st l 0 0 l
| path_step l c wd idx q r l' :
    slot_cap st l = Some c -> table_width c = Some wd -> c_shadow c <> 0 -> 0 <= idx < 2 ^ wd ->
    path st (obj_slot (c_shadow c) (table_base c + idx)) q r l' ->
    path st l ((CAP_GUARD c * 2 ^ wd + idx) * 2 ^ r + q) (CAP_GUARD_BITS c + wd + r) l'.

(** The object that the capability [c] in slot [l] designates has the address of
    the [d] bits [q]: a path to the slot and then the guard. *)
Definition object_at (st : addr_space) (q d : Z) (l : slot) (c : cap) : Prop :=
  exists q1 d1, path st root_slot q1 d1 l /\ slot_cap st l = Some c /\
    q = q1 * 2 ^ CAP_GUARD_BITS c + CAP_GUARD c /\ d = d1 + CAP_GUARD_BITS c.

Lemma append_range q1 d1 q2 d2 :
  0 <= d1 -> 0 <= d2 -> 0 <= q1 < 2 ^ d1 -> 0 <= q2 < 2 ^ d2 -> 0 <= q1 * 2 ^ d2 + q2 < 2 ^ (d1 + d2).
Proof. intros. rewrite pow2_split by lia. nia. Qed.

Lemma append_assoc q1 q2 d2 q3 d3 :
  0 <= d2 -> 0 <= d3 ->
  (q1 * 2 ^ d2 + q2) * 2 ^ d3 + q3 = q1 * 2 ^ (d2 + d3) + (q2 * 2 ^ d3 + q3).
Proof. intros. rewrite pow2_split by lia. ring. Qed.

Lemma append_three q1 q2 d2 q3 d3 q4 d4 :
  0 <= d2 -> 0 <= d3 -> 0 <= d4 ->
  ((q1 * 2 ^ d2 + q2) * 2 ^ d3 + q3) * 2 ^ d4 + q4
  = q1 * 2 ^ (d2 + d3 + d4) + ((q2 * 2 ^ d3 + q3) * 2 ^ d4 + q4).
Proof. intros. rewrite !Z.pow_add_r by lia. ring. Qed.

Lemma path_range {st l q d l'} :
  build_wf st -> path st l q d l' -> 0 <= d /\ 0 <= q < 2 ^ d.
Proof.
  intros Hst. induction 1 as [l|l c wd idx q r l' Hl Hw Hs Hi _ [IH1 IH2]]; [cbn; lia|].
  pose proof (bw_caps st Hst l c Hl) as Hc. pose proof (sound_width _ _ Hc Hw).
  pose proof (guard_bits_range c Hc). pose proof (guard_range c Hc).
  split; [lia|]. apply append_range; try lia. apply append_range; lia.
Qed.

Lemma path_app {st l q1 d1 l1 q2 d2 l2} :
  build_wf st -> path st l q1 d1 l1 -> path st l1 q2 d2 l2 ->
  path st l (q1 * 2 ^ d2 + q2) (d1 + d2) l2.
Proof.
  intros Hst H H2. pose proof (path_range Hst H2).
  induction H as [l|l c wd idx q r l' Hl Hw Hs Hi Hp IH]; [by rewrite Z.mul_0_l, !Z.add_0_l|].
  pose proof (path_range Hst Hp).
  rewrite append_assoc by lia.
  replace (CAP_GUARD_BITS c + wd + r + d2) with (CAP_GUARD_BITS c + wd + (r + d2)) by lia.
  apply path_step; auto.
Qed.

Lemma path_one st l c wd idx :
  slot_cap st l = Some c -> table_width c = Some wd -> c_shadow c <> 0 -> 0 <= idx < 2 ^ wd ->
  path st l (CAP_GUARD c * 2 ^ wd + idx) (CAP_GUARD_BITS c + wd)
    (obj_slot (c_shadow c) (table_base c + idx)).
Proof.
  intros Hl Hw Hs Hi.
  replace (CAP_GUARD c * 2 ^ wd + idx) with ((CAP_GUARD c * 2 ^ wd + idx) * 2 ^ 0 + 0) by lia.
  replace (CAP_GUARD_BITS c + wd) with (CAP_GUARD_BITS c + wd + 0) by lia.
  apply path_step; try done. constructor.
Qed.

Lemma path_slot {st l q d l'} :
  build_wf st -> path st l q d l' -> slot_ok l -> is_Some (slot_cap st l) ->
  slot_ok l' /\ is_Some (slot_cap st l').
Proof.
  intros Hst. induction 1 as [l|l c wd idx q r l' Hl Hw Hs Hi Hp IH]; [done|].
  intros _ _. apply IH; [|by eapply table_slot].
  cbn. pose proof (sound_slots c wd idx (bw_caps st Hst l c Hl) Hw Hi). lia.
Qed.

(** ** Paths are what lookups follow *)

Lemma check_guard_match c A r :
  cap_sound c -> 0 <= A < 2 ^ 64 -> CAP_GUARD_BITS c <= r <= 63 ->
  A mod 2 ^ r / 2 ^ (r - CAP_GUARD_BITS c) = CAP_GUARD c ->
  check_guard c A r = inl (r - CAP_GUARD_BITS c).
Proof.
  intros Hc HA Hr HG. pose proof (guard_bits_range c Hc). destruct (guard_range c Hc) as [Hg _].
  unfold check_guard. case_if; [f_equal; lia|].
  rewrite (proj2 (Z.ltb_ge _ _)), extract_top, HG by lia.
  by rewrite i32_small, u64_small, Z.eqb_refl by lia.
Qed.

Lemma index_match c A r wd :
  cap_sound c -> 0 <= A < 2 ^ 64 -> wd <= r <= 63 -> table_width c = Some wd -> c_shadow c <> 0 ->
  index_object c A r = inl (obj_slot (c_shadow c) (table_base c + A mod 2 ^ r / 2 ^ (r - wd)), r - wd).
Proof.
  intros Hc HA Hr Hw Hs. pose proof (sound_width c wd Hc Hw) as Hwd.
  pose proof (low_div A r (r - wd) ltac:(lia)) as Hlow. replace (r - (r - wd)) with wd in Hlow by lia.
  pose proof (sound_slots c wd _ Hc Hw Hlow) as Hsl.
  unfold index_object, table_width, table_base, CAP_SUBPAGE_SIZE_LOG2,
    CAP_ADDR_TRANS_SUBPAGE_SIZE_LOG2, FOLIO_OBJECTS_LOG2, CAPPAGE_SLOTS, PAGESIZE in *.
  change (0x1000 / 16) with 256. rewrite (proj2 (Z.eqb_neq _ _) Hs).
  destruct (c_type c); try discriminate; injection Hw as <-;
    rewrite (proj2 (Z.ltb_ge _ _)), extract_top by lia; [| |done].
  all: by rewrite (proj2 (andb_true_iff _ _)) by (split; [apply Z.leb_le|apply Z.ltb_lt]; lia).
Qed.

(** The top bits of a string, and the string below them. *)
Lemma split_top A r d :
  0 <= d <= r -> A mod 2 ^ r = A mod 2 ^ r / 2 ^ (r - d) * 2 ^ (r - d) + A mod 2 ^ (r - d).
Proof.
  intros Hd. rewrite <- (mod_mod_pow2 A r (r - d)) by lia. apply mod_pow2_div. lia.
Qed.

(** Reading the first step of a path off the word that is translated. *)
Lemma first_step A r g gb wd idx r1 q d :
  0 <= gb -> 0 <= wd -> 0 <= r1 -> 0 <= idx < 2 ^ wd -> 0 <= q < 2 ^ r1 ->
  d = gb + wd + r1 -> d <= r -> A mod 2 ^ r / 2 ^ (r - d) = (g * 2 ^ wd + idx) * 2 ^ r1 + q ->
  A mod 2 ^ r / 2 ^ (r - gb) = g /\
  A mod 2 ^ (r - gb) / 2 ^ (r - gb - wd) = idx /\
  A mod 2 ^ (r - gb - wd) / 2 ^ (r - gb - wd - r1) = q.
Proof.
  intros Hgb Hwd Hr1 Hi Hq -> Hr E. set (k := r - (gb + wd + r1)) in *.
  pose proof (pow2_pos k ltac:(lia)) as Hk. pose proof (Z.mod_pos_bound A (2 ^ k) Hk) as Hlow.
  assert (HA : A mod 2 ^ r = ((g * 2 ^ wd + idx) * 2 ^ r1 + q) * 2 ^ k + A mod 2 ^ k).
  { rewrite <- E. replace k with (r - (gb + wd + r1)) by lia. apply split_top. lia. }
  assert (Hq2 : 0 <= q * 2 ^ k + A mod 2 ^ k < 2 ^ (r1 + k)) by (apply append_range; lia).
  assert (Hi2 : 0 <= idx * 2 ^ (r1 + k) + (q * 2 ^ k + A mod 2 ^ k) < 2 ^ (wd + (r1 + k)))
    by (apply append_range; lia).
  rewrite append_assoc, append_assoc in HA by lia.
  replace (r - gb - wd - r1) with k by lia. replace (r - gb - wd) with (r1 + k) by lia.
  replace (r - gb) with (wd + (r1 + k)) by lia.
  rewrite <- (mod_mod_pow2 A r (r1 + k)), <- (mod_mod_pow2 A r (wd + (r1 + k))) by lia.
  rewrite HA. rewrite append_div, (append_mod g), append_div by lia.
  split; [done|]. split; [done|].
  rewrite <- append_assoc by lia. by rewrite (append_mod _ _ (r1 + k)), append_div by lia.
Qed.

Lemma walk_path st mode A l q d l' r w fuel :
  build_wf st -> 0 <= A < 2 ^ 64 -> path st l q d l' -> d <= r <= 63 ->
  A mod 2 ^ r / 2 ^ (r - d) = q -> mode <> as_lookup_want_object \/ d < r -> r < Z.of_nat fuel ->
  exists fuel' w', walk fuel st None mode A l r w = walk fuel' st None mode A l' (r - d) w' /\
    r - d < Z.of_nat fuel'.
Proof.
  intros Hst HA H. revert r w fuel.
  induction H as [l|l c wd idx q r1 l' Hl Hw Hs Hi Hp IH]; intros r w fuel Hr E Hm Hf.
  { exists fuel, w. rewrite Z.sub_0_r. split; [done|lia]. }
  pose proof (bw_caps st Hst l c Hl) as Hc. pose proof (sound_width _ _ Hc Hw) as Hwd.
  pose proof (guard_bits_range c Hc) as Hgb. pose proof (path_range Hst Hp) as [Hr1 Hq].
  destruct (first_step A r (CAP_GUARD c) (CAP_GUARD_BITS c) wd idx r1 q (CAP_GUARD_BITS c + wd + r1) ltac:(lia) ltac:(lia) Hr1 Hi Hq eq_refl ltac:(lia) E)
    as (E1 & E2 & E3).
  destruct fuel as [|fuel]; [lia|]. cbn [walk]. rewrite (proj2 (Z.eqb_neq r 0)) by lia.
  rewrite Hl, andb_false_r, check_guard_match by (done || lia).
  rewrite (proj2 (Z.eqb_neq (r - _) 0)) by lia.
  rewrite (index_match c A _ wd), E2 by (done || lia).
  assert (Eo : (r - CAP_GUARD_BITS c - wd =? 0) && bool_decide (mode = as_lookup_want_object) = false).
  { destruct Hm as [Hm|Hm]; [by rewrite (bool_decide_eq_false_2 _ Hm), andb_false_r|].
    by rewrite (proj2 (Z.eqb_neq _ _)) by lia. }
  rewrite Eo. replace (r - (CAP_GUARD_BITS c + wd + r1)) with (r - CAP_GUARD_BITS c - wd - r1) by lia.
  apply IH; [lia|done| |lia]. destruct Hm; [by left|right; lia].
Qed.

(** The slot at the end of a path is found, with or without the guard of what is
    in it. *)
Lemma slot_found st q d l c r :
  build_wf st -> path st root_slot q d l -> slot_cap st l = Some c -> bits_ok q d ->
  r = 0 \/ r = CAP_GUARD_BITS c /\ d + r <= 63 ->
  let q' := if r =? 0 then q else q * 2 ^ r + CAP_GUARD c in
  exists w, as_lookup_rel (lookup_fuel (of_bits q' (d + r))) st root_slot (of_bits q' (d + r)) None
              as_lookup_want_slot = LK_slot l w.
Proof.
  intros Hst Hp Hl Hok Hr q'. pose proof (bw_caps st Hst l c Hl) as Hc.
  pose proof (guard_bits_range c Hc) as Hgb. destruct (guard_range c Hc) as [_ Hg].
  destruct (id Hok) as [Hd Hq]. pose proof (guard_range c Hc) as [Hg0 _].
  assert (Hok' : bits_ok q' (d + r)).
  { subst q'. case_if; [by rewrite E, Z.add_0_r|]. destruct Hr as [?|[-> ?]]; [done|].
    apply bits_ok_append; [done|lia..]. }
  destruct (id Hok') as [Hd' Hq']. pose proof (pow2_le (d + r) 63 ltac:(lia)).
  rewrite as_lookup_rel_walk by done. unfold lookup_fuel. rewrite addr_depth_bits by done.
  assert (Eq : q' mod 2 ^ (d + r) / 2 ^ (d + r - d) = q).
  { rewrite Z.mod_small by done. replace (d + r - d) with r by lia. subst q'. case_if.
    - by rewrite E, Z.div_1_r.
    - destruct Hr as [?|[-> _]]; [done|]. by rewrite append_div by lia. }
  destruct (walk_path st as_lookup_want_slot q' root_slot q d l (d + r) true
              (S (Z.to_nat (d + r))) Hst ltac:(lia) Hp ltac:(lia) Eq ltac:(by left) ltac:(lia))
    as (fuel & w & -> & Hf).
  replace (d + r - d) with r in * by lia. destruct fuel as [|fuel]; [lia|]. cbn [walk].
  assert (Hfin : forall w, lookup_of_walk st None as_lookup_want_slot (WK_found l w) = LK_slot l w).
  { intros w0. cbn. unfold lookup_finish. by rewrite Hl. }
  case_if; [exists w; apply Hfin|]. rewrite Hl, andb_false_r.
  destruct Hr as [?|[Er ?]]; [done|].
  rewrite check_guard_match; [|done|lia|lia|].
  2: { rewrite <- Er, Z.sub_diag, Z.div_1_r. subst q'. cbv iota. rewrite append_mod by (rewrite ?Er; lia). done. }
  rewrite <- Er, Z.sub_diag. cbn. eexists. apply Hfin.
Qed.

(** ** Putting a page table in between *)

(** Two capabilities that differ in their guards only. *)
Definition same_object (c c' : cap) : Prop :=
  c' = cap_set_addr_trans c (c_addr_trans c') /\ CAP_SUBPAGE c' = CAP_SUBPAGE c /\
  subpages_log2 (c_addr_trans c') = subpages_log2 (c_addr_trans c).

Lemma same_object_refl c : same_object c c.
Proof. split; [by destruct c|done]. Qed.

Lemma same_object_trans c1 c2 c3 : same_object c1 c2 -> same_object c2 c3 -> same_object c1 c3.
Proof.
  intros (E1 & ? & ?) (E2 & ? & ?). split; [|split; congruence].
  rewrite E2 at 1. rewrite E1. done.
Qed.

Lemma same_object_fields c c' :
  same_object c c' ->
  c_type c' = c_type c /\ c_shadow c' = c_shadow c /\ table_width c' = table_width c /\
  table_base c' = table_base c.
Proof.
  intros (E & Es & El).
  assert (Et : c_type c' = c_type c) by (by rewrite E). assert (Esh : c_shadow c' = c_shadow c) by (by rewrite E).
  split; [done|]. split; [done|]. unfold table_width, table_base, CAP_SUBPAGE_OFFSET,
    CAP_ADDR_TRANS_SUBPAGE_OFFSET, CAP_ADDR_TRANS_SUBPAGE_SIZE, CAP_ADDR_TRANS_SUBPAGE_SIZE_LOG2,
    CAP_SUBPAGE in *. by rewrite Et, El, Es.
Qed.

(** In [st2] the capability [c] that was in slot [l] of [st] is in slot [i] of
    the new page table [p], whose capability [P] is in [l]; the guard of [c] is
    split into the guard of [P], the index and the guard of [T]. *)
Record pivoted (st st2 : addr_space) (l : slot) (c P T : cap) (p i w : Z) : Prop := {
  pv_ok : slot_ok l;
  pv_cap : slot_cap st l = Some c;
  pv_fresh : as_objects st !! p = None;
  pv_pte : slot_cap st2 l = Some P;
  pv_type : c_type P = cap_cappage;
  pv_shadow : c_shadow P = p;
  pv_p : p <> 0;
  pv_width : table_width P = Some w;
  pv_base : table_base P = 0;
  pv_pivot : slot_cap st2 (obj_slot p i) = Some T;
  pv_i : 0 <= i < 2 ^ w;
  pv_same : same_object c T;
  pv_bits : CAP_GUARD_BITS c = CAP_GUARD_BITS P + w + CAP_GUARD_BITS T;
  pv_guard : CAP_GUARD c = (CAP_GUARD P * 2 ^ w + i) * 2 ^ CAP_GUARD_BITS T + CAP_GUARD T;
  pv_other : forall s, slot_ok s -> s <> l -> is_Some (slot_cap st s) -> slot_cap st2 s = slot_cap st s;
  pv_void : forall j c', slot_cap st2 (obj_slot p j) = Some c' -> j <> i -> slot_ok (obj_slot p j) ->
    c_type c' = cap_void
}.

Arguments pv_ok {st st2 l c P T p i w} _ : rename.
Arguments pv_cap {st st2 l c P T p i w} _ : rename.
Arguments pv_fresh {st st2 l c P T p i w} _ : rename.
Arguments pv_pte {st st2 l c P T p i w} _ : rename.
Arguments pv_type {st st2 l c P T p i w} _ : rename.
Arguments pv_shadow {st st2 l c P T p i w} _ : rename.
Arguments pv_p {st st2 l c P T p i w} _ : rename.
Arguments pv_width {st st2 l c P T p i w} _ : rename.
Arguments pv_base {st st2 l c P T p i w} _ : rename.
Arguments pv_pivot {st st2 l c P T p i w} _ : rename.
Arguments pv_i {st st2 l c P T p i w} _ : rename.
Arguments pv_same {st st2 l c P T p i w} _ : rename.
Arguments pv_bits {st st2 l c P T p i w} _ : rename.
Arguments pv_guard {st st2 l c P T p i w} _ : rename.
Arguments pv_other {st st2 l c P T p i w} _ : rename.
Arguments pv_void {st st2 l c P T p i w} _ : rename.

(** Paths lead where they led. *)
Lemma path_pivoted {st st2 l c P T p i w l0 q d l1} :
  build_wf st -> build_wf st2 -> pivoted st st2 l c P T p i w ->
  path st l0 q d l1 -> slot_ok l0 -> is_Some (slot_cap st l0) -> path st2 l0 q d l1.
Proof.
  intros Hst Hst2 V. induction 1 as [l0|l0 c0 wd idx q r l1 Hl Hw Hs Hi Hp IH]; intros Hok Hsome; [constructor|].
  pose proof (bw_caps st Hst l0 c0 Hl) as Hc0. pose proof (sound_width _ _ Hc0 Hw).
  assert (Hp2 : path st2 (obj_slot (c_shadow c0) (table_base c0 + idx)) q r l1).
  { apply IH; [|by eapply table_slot]. cbn. pose proof (sound_slots _ _ _ Hc0 Hw Hi). lia. }
  destruct (decide (l0 = l)) as [->|Hne].
  - assert (c0 = c) as -> by (destruct V; congruence).
    destruct (same_object_fields _ _ (pv_same V)) as (Et & Esh & Ew & Eb).
    pose proof (bw_caps st2 Hst2 _ _ (pv_pivot V)) as HT.
    pose proof (guard_bits_range T HT). pose proof (path_range Hst2 Hp2).
    pose proof (sound_width _ _ (bw_caps st2 Hst2 _ _ (pv_pte V)) (pv_width V)).
    rewrite (pv_bits V), (pv_guard V).
    rewrite append_three by lia.
    replace (CAP_GUARD_BITS P + w + CAP_GUARD_BITS T + wd + r)
      with (CAP_GUARD_BITS P + w + (CAP_GUARD_BITS T + wd + r)) by lia.
    apply path_step; try apply V; [by rewrite (pv_shadow V); apply V|].
    rewrite (pv_shadow V), (pv_base V), Z.add_0_l.
    apply path_step; rewrite ?Ew, ?Esh, ?Eb; [apply V|done..].
  - apply path_step; try done. by rewrite (pv_other V).
Qed.

(** Objects keep their addresses. *)
Lemma object_pivoted {st st2 l c P T p i w q d l1 c1} :
  build_wf st -> build_wf st2 -> pivoted st st2 l c P T p i w ->
  object_at st q d l1 c1 -> exists l2 c2, object_at st2 q d l2 c2 /\ same_object c1 c2.
Proof.
  intros Hst Hst2 V (q1 & d1 & Hp & Hl & -> & ->).
  assert (Hroot : is_Some (slot_cap st root_slot)) by (by eexists).
  destruct (path_slot Hst Hp I Hroot) as [Hok Hsome].
  pose proof (path_pivoted Hst Hst2 V Hp I Hroot) as Hp2.
  destruct (decide (l1 = l)) as [->|Hne].
  - assert (c1 = c) as -> by (destruct V; congruence). exists (obj_slot p i), T. split; [|apply V].
    pose proof (guard_bits_range T (bw_caps st2 Hst2 _ _ (pv_pivot V))).
    pose proof (bw_caps st2 Hst2 _ _ (pv_pte V)) as HP.
    pose proof (sound_width _ _ HP (pv_width V)). pose proof (guard_bits_range P HP).
    pose proof (path_one st2 l P w i (pv_pte V) (pv_width V)
      ltac:(rewrite (pv_shadow V); apply V) (pv_i V)) as Ho.
    rewrite (pv_shadow V), (pv_base V), Z.add_0_l in Ho.
    pose proof (path_app Hst2 Hp2 Ho) as Hp3.
    eexists _, _. split; [exact Hp3|]. split; [apply V|].
    rewrite (pv_bits V), (pv_guard V).
    split; [|lia]. symmetry. apply append_assoc; lia.
  - exists l1, c1. split; [|apply same_object_refl]. exists q1, d1.
    by rewrite (pv_other V).
Qed.

End AsPath.
