(* ===== verification/AsInsert.v ===== *)
(** * Inserting a page table

    What [AsBuild.replace_pte] does: the capability of the slot is copied to a
    slot of the new page table with the end of its guard, and the slot is left
    with the beginning of it ([replace_pte_pivots]). *)

From S2P Require Import Prelude L4Math Addr Bits AddrTrans Gbits Cap AsLookup AsBuild AsPath.

Module AsInsert.

Import AsBuild AsPath.

(** ** Copying *)

Lemma set_guard_sound a0 g gb s n a :
  0 <= g < 2 ^ 64 -> 0 <= gb < 64 -> 0 <= n < 2 ^ 32 ->
  CAP_ADDR_TRANS_SET_GUARD_SUBPAGE a0 g gb s n = (true, a) ->
  cat_wf a /\ CAP_ADDR_TRANS_GUARD a = g /\ CAP_ADDR_TRANS_GUARD_BITS a = gb /\
  CAP_ADDR_TRANS_SUBPAGE a = s /\ CAP_ADDR_TRANS_SUBPAGES a = n /\ g < 2 ^ gb.
Proof.
  intros Hg Hgb Hn E.
  pose proof (set_guard_subpage_readback a0 g gb s n true a Hg Hgb Hn E). cbn in *. tauto.
Qed.

Lemma pte_set_slot st l c : pte_set st (in_slot l) c = (slot_set st l c, in_slot l).
Proof. done. Qed.

Section copies.
Context {rm_cap_copy : Z}.

Lemma copy_to_ret {st p ta source sa flags a t st' p'} :
  pte_cap st p = Ret t -> cat_wf (c_addr_trans t) -> cat_wf (c_addr_trans source) -> cat_wf a ->
  copy_to rm_cap_copy st p ta source sa flags a = Ret (st', p') ->
  let pr := CAP_PROPERTIES OBJECT_POLICY_DEFAULT a in
  exists s n g gb b, copy_subpage source flags pr = Some (s, n) /\ copy_guard t source flags pr = (g, gb) /\
    (st', p') = pte_set st p (copy_result source flags pr b) /\
    cat_wf b /\ subpages_log2 b <= 8 /\ CAP_ADDR_TRANS_GUARD b = g /\ CAP_ADDR_TRANS_GUARD_BITS b = gb /\
    CAP_ADDR_TRANS_SUBPAGE b = s /\ CAP_ADDR_TRANS_SUBPAGES b = n.
Proof.
  intros Ht Hwt Hws Hwa H. unfold copy_to in H. rewrite Ht in H. cbn [mbind exec_bind] in H.
  destruct (cap_copy_x _ _ _ _ _ _ _ _ _) as [o|] eqn:Eo; [|done]. cbn in H.
  destruct (co_ok o) eqn:Eok; [|done]. cbn in H. injection H as H.
  destruct (cap_copy_x_inv _ _ _ _ _ _ _ _ (CAP_PROPERTIES OBJECT_POLICY_DEFAULT a) _ Hwt Hws Hwa Eo Eok)
    as (s & n & g & gb & b & Es & Eg & Et & _ & H1 & H2 & H3 & H4 & H5 & H6).
  exists s, n, g, gb, b. rewrite <- Et. by rewrite H.
Qed.

(** A copy with a guard of its own. *)
Lemma copy_guard_ret {st p ta source sa a t st' p'} :
  pte_cap st p = Ret t -> cap_sound t -> cap_sound source -> cat_wf a ->
  CAP_ADDR_TRANS_GUARD a < 2 ^ CAP_ADDR_TRANS_GUARD_BITS a ->
  copy_to rm_cap_copy st p ta source sa CAP_COPY_COPY_ADDR_TRANS_GUARD a = Ret (st', p') ->
  exists T, (st', p') = pte_set st p T /\ cap_sound T /\ same_object source T /\
    CAP_GUARD T = CAP_ADDR_TRANS_GUARD a /\ CAP_GUARD_BITS T = CAP_ADDR_TRANS_GUARD_BITS a.
Proof.
  intros Ht Hst Hss Ha Hg H.
  destruct (copy_to_ret Ht (cs_wf _ Hst) (cs_wf _ Hss) Ha H)
    as (s & n & g & gb & b & Es & Eg & E & Hb & Hb8 & Hbg & Hbb & Hbs & Hbn).
  cbn in Es, Eg. injection Es as <- <-. injection Eg as <- <-.
  pose proof (cat_guard_range a Ha). rewrite i32_small in Hbg by lia.
  eexists. split; [exact E|]. set (T := copy_result _ _ _ _).
  assert (ET : T = cap_set_addr_trans source b) by done.
  assert (Hsame : same_object source T).
  { split; [by rewrite ET|]. split; [by rewrite ET|]. rewrite ET. cbn.
    unfold CAP_SUBPAGES in Hbn. destruct Hss as [(_ & ? & _) _ _ _], Hb as (_ & ? & _).
    rewrite !cat_subpages_pow2 in Hbn by lia. apply Z.pow_inj_r in Hbn; lia. }
  destruct (same_object_fields _ _ Hsame) as (_ & _ & Hw & _).
  assert (EG : CAP_GUARD T = CAP_ADDR_TRANS_GUARD a) by (by rewrite ET).
  assert (EB : CAP_GUARD_BITS T = CAP_ADDR_TRANS_GUARD_BITS a) by (by rewrite ET).
  split; [|by split]. split; rewrite ?EG, ?EB; [by rewrite ET|by rewrite ET|done|].
  intros wd. rewrite Hw. apply Hss.
Qed.

(** A copy of a capability to a page table. *)
Lemma copy_table_ret {st p ta source sa a w t st' p'} :
  pte_cap st p = Ret t -> cap_sound t -> c_type source = cap_cappage -> cat_wf (c_addr_trans source) ->
  cat_wf a -> CAP_ADDR_TRANS_GUARD a < 2 ^ CAP_ADDR_TRANS_GUARD_BITS a ->
  CAP_ADDR_TRANS_SUBPAGE a = 0 -> CAP_ADDR_TRANS_SUBPAGES a = 2 ^ (8 - w) -> 0 < w <= 8 ->
  copy_to rm_cap_copy st p ta source sa
    (Z.lor CAP_COPY_COPY_ADDR_TRANS_SUBPAGE CAP_COPY_COPY_ADDR_TRANS_GUARD) a = Ret (st', p') ->
  exists P, (st', p') = pte_set st p P /\ cap_sound P /\ c_type P = cap_cappage /\
    c_shadow P = c_shadow source /\ table_width P = Some w /\ table_base P = 0 /\
    CAP_GUARD P = CAP_ADDR_TRANS_GUARD a /\ CAP_GUARD_BITS P = CAP_ADDR_TRANS_GUARD_BITS a.
Proof.
  intros Ht Hst Hty Hws Ha Hg Hsub Hn Hw H.
  destruct (copy_to_ret Ht (cs_wf _ Hst) Hws Ha H)
    as (s & n & g & gb & b & Es & Eg & E & Hb & Hb8 & Hbg & Hbb & Hbs & Hbn).
  cbn in Eg. injection Eg as <- <-. pose proof (cat_guard_range a Ha). rewrite i32_small in Hbg by lia.
  unfold copy_subpage in Es. rewrite Hty in Es.
  change (flag _ _) with true in Es. cbn [is_cappage cap_type_eqb] in Es.
  change (negb (is_cappage cap_cappage)) with false in Es. rewrite andb_false_r in Es.
  case_if_in Es; [done|]. injection Es as <- <-.
  eexists. split; [exact E|]. set (P := copy_result _ _ _ _).
  assert (EP : P = cap_set_addr_trans source b) by done.
  assert (ET : c_type P = cap_cappage) by (by rewrite EP).
  assert (El : subpages_log2 b = 8 - w).
  { rewrite Hn, cat_subpages_pow2 in Hbn by apply Hb. destruct Hb as (_ & ? & _).
    apply Z.pow_inj_r in Hbn; lia. }
  assert (EW : table_width P = Some w) by (unfold table_width; rewrite ET, EP; cbn; f_equal; lia).
  assert (EB : table_base P = 0).
  { unfold table_base, CAP_SUBPAGE_OFFSET, CAP_ADDR_TRANS_SUBPAGE_OFFSET. rewrite ET, EP. cbn.
    by rewrite Hbs, Hsub. }
  assert (EG : CAP_GUARD P = CAP_ADDR_TRANS_GUARD a) by (by rewrite EP).
  assert (EGB : CAP_GUARD_BITS P = CAP_ADDR_TRANS_GUARD_BITS a) by (by rewrite EP).
  split; [|by repeat split]. split; rewrite ?EG, ?EGB; [by rewrite EP|by rewrite EP|done|].
  rewrite EW. intros ? [= <-]. lia.
Qed.
End copies.

(** ** The state with the page table inserted *)

(** The slot [l] is not one of a folio's objects. *)
Definition not_in_folio (st : addr_space) (l : slot) : Prop :=
  forall l0 c0 j, slot_cap st l0 = Some c0 -> c_type c0 = cap_folio -> c_shadow c0 <> 0 ->
    l <> obj_slot (c_shadow c0) j.

Definition empty_table (e : cap) : list cap := replicate 256 e.
Arguments empty_table : simpl never.

Lemma empty_table_lookup e n c : empty_table e !! n = Some c <-> c = e /\ (n < 256)%nat.
Proof. apply lookup_replicate. Qed.

(** Slots by a natural index. *)
Lemma slot_cap_norm st p j : slot_cap st (obj_slot p j) = slot_cap st (obj_slot p (Z.of_nat (Z.to_nat j))).
Proof. cbn. by rewrite Nat2Z.id. Qed.

Section pivot_state.
Context (st : addr_space) (l : slot) (c P T e : cap) (p i w : Z).

(** [st] with a page table of void capabilities at [p]. *)
Definition with_table : addr_space := mk_as (as_root st) (<[p := empty_table e]> (as_objects st)).

Definition pivot_state : addr_space := slot_set (slot_set with_table (obj_slot p i) T) l P.

Context (Hst : build_wf st) (Hok : slot_ok l) (Hl : slot_cap st l = Some c).
Context (Hp : p <> 0) (Hfresh : as_objects st !! p = None).
Context (He : c_type e = cap_void) (Hes : cap_sound e).
Context (HPs : cap_sound P) (HPt : c_type P = cap_cappage) (HPp : c_shadow P = p).
Context (HPw : table_width P = Some w) (HPb : table_base P = 0).
Context (HTs : cap_sound T) (HT : same_object c T) (Hi : 0 <= i < 2 ^ w).

Lemma old_not_new s j : is_Some (slot_cap st s) -> s <> obj_slot p j.
Proof. intros [c' Hs] ->. cbn in Hs. by rewrite Hfresh in Hs. Qed.

Lemma with_table_old s : is_Some (slot_cap st s) -> slot_cap with_table s = slot_cap st s.
Proof.
  intros Hs. destruct s as [|p' i']; [done|]. cbn.
  rewrite lookup_insert_ne; [done|]. intros <-. by apply (old_not_new _ i' Hs).
Qed.

Lemma with_table_new s c' : slot_cap with_table s = Some c' -> c' = e \/ slot_cap st s = Some c'.
Proof.
  destruct s as [|p' i']; [by right|]. cbn. destruct (decide (p = p')) as [<-|Hne].
  - rewrite lookup_insert_eq. cbn. intros [-> _]%empty_table_lookup. by left.
  - rewrite lookup_insert_ne by done. by right.
Qed.

Lemma index_range : 0 <= i < 256.
Proof. pose proof (sound_slots P w i HPs HPw Hi). lia. Qed.

Lemma pivot_state_caps s c' :
  slot_cap pivot_state s = Some c' -> c' = P \/ c' = T \/ c' = e \/ slot_cap st s = Some c'.
Proof.
  intros [->|[->|H%with_table_new]%slot_set_caps]%slot_set_caps; tauto.
Qed.

Lemma with_table_index j : 0 <= j < 256 -> slot_cap with_table (obj_slot p j) = Some e.
Proof.
  intros Hj. cbn. rewrite lookup_insert_eq. cbn. apply empty_table_lookup. split; [done|clear -Hj; lia].
Qed.

Lemma pivot_state_other s :
  slot_ok s -> s <> l -> is_Some (slot_cap st s) -> slot_cap pivot_state s = slot_cap st s.
Proof.
  intros Hs Hne Hsome. pose proof index_range. unfold pivot_state.
  rewrite slot_set_other, slot_set_other by (try done; try (cbn; lia);
    by apply not_eq_sym, old_not_new). by apply with_table_old.
Qed.

Lemma pivot_state_pivoted :
  CAP_GUARD_BITS c = CAP_GUARD_BITS P + w + CAP_GUARD_BITS T ->
  CAP_GUARD c = (CAP_GUARD P * 2 ^ w + i) * 2 ^ CAP_GUARD_BITS T + CAP_GUARD T ->
  pivoted st pivot_state l c P T p i w.
Proof.
  intros Hb Hg. pose proof index_range as Hr. pose proof (old_not_new l i ltac:(by eexists)) as Hne.
  assert (Hslot : slot_ok (obj_slot p i)) by (cbn; lia).
  split; try done.
  - apply slot_set_same. rewrite slot_set_other, with_table_old by (try done; by eexists). by eexists.
  - unfold pivot_state. rewrite slot_set_other by (try done). apply slot_set_same.
    rewrite with_table_index by done. by eexists.
  - apply pivot_state_other.
  - intros j c' H Hj Hjo. unfold pivot_state in H.
    rewrite !slot_set_other in H by (try done; try congruence; by apply old_not_new; eexists).
    cbn in H. rewrite lookup_insert_eq in H. cbn in H. by apply empty_table_lookup in H as [-> _].
Qed.

Lemma pivot_state_objects q :
  (exists o, as_objects st !! q = Some o /\ length o = 256%nat) \/ q = p ->
  exists o, as_objects pivot_state !! q = Some o /\ length o = 256%nat.
Proof.
  intros Hq. apply slot_set_objects, slot_set_objects. cbn. destruct (decide (p = q)) as [<-|Hne].
  - rewrite lookup_insert_eq. eexists. split; [done|]. apply length_replicate.
  - rewrite lookup_insert_ne by done. by destruct Hq.
Qed.

(** A page table in the new state is the new one or an old one. *)
Lemma pivot_state_tables s c' :
  slot_cap pivot_state s = Some c' -> table_width c' <> None -> c_shadow c' <> 0 ->
  c' = P \/
  (c_shadow c' <> p /\ exists s0 c0, slot_cap st s0 = Some c0 /\ table_width c0 <> None /\
     c_shadow c0 = c_shadow c' /\ c_type c0 = c_type c').
Proof.
  intros H Hw Hs. destruct (same_object_fields _ _ HT) as (Et & Esh & Ew & _).
  assert (Hold : forall s0 c0, slot_cap st s0 = Some c0 -> table_width c0 <> None -> c_shadow c0 <> 0 ->
                   c_shadow c0 <> p).
  { intros s0 c0 H0 Hw0 Hs0 E. destruct (bw_tables st Hst s0 c0 H0 Hw0 Hs0) as (o & Ho & _).
    rewrite E in Ho. congruence. }
  destruct (pivot_state_caps _ _ H) as [->|[->|[->|H0]]]; [by left|right..].
  - rewrite Esh, Et, Ew in *. split; [by apply (Hold l c)|]. by exists l, c.
  - unfold table_width in Hw. by rewrite He in Hw.
  - split; [by apply (Hold s c')|]. by exists s, c'.
Qed.

Lemma pivot_state_wf :
  not_in_folio st l ->
  build_wf pivot_state.
Proof.
  intros Hwr. split.
  - intros s c' [->|[->|[->|H]]]%pivot_state_caps; try done. by eapply bw_caps.
  - intros s c' H Hw Hs. apply pivot_state_objects.
    destruct (pivot_state_tables s c' H Hw Hs) as [->|(_ & s0 & c0 & H0 & Hw0 & E0 & _)]; [by right|left].
    rewrite <- E0. apply (bw_tables st Hst s0 c0 H0 Hw0). congruence.
  - intros s c' j c'' H Hty Hs Hj.
    assert (Hw : table_width c' <> None) by (unfold table_width; by rewrite Hty).
    destruct (pivot_state_tables s c' H Hw Hs) as [->|(Hne & s0 & c0 & H0 & Hw0 & E0 & Et)]; [congruence|].
    rewrite Hty in Et. rewrite <- E0 in *. rewrite slot_cap_norm in Hj.
    rewrite pivot_state_other in Hj.
    + by eapply (bw_folio st Hst s0 c0).
    + cbn. lia.
    + by apply not_eq_sym, (Hwr s0).
    + destruct (bw_tables st Hst s0 c0 H0 Hw0 Hs) as (o & Ho & Hlen).
      destruct (pivot_state_objects (c_shadow c0)) as (o' & Ho' & Hlen'); [left; by eexists|].
      cbn [slot_cap] in Hj |- *. rewrite Ho' in Hj. rewrite Ho. cbn in Hj |- *.
      apply lookup_lt_Some in Hj. apply lookup_lt_is_Some_2. lia.
  - intros s1 c1 s2 c2 H1 H2 Hw1 Hw2 E Hs Hty.
    destruct (pivot_state_tables s1 c1 H1 Hw1 Hs) as [->|(Hne & s0 & c0 & H0 & Hw0 & E0 & Et)]; [congruence|].
    destruct (pivot_state_tables s2 c2 H2 Hw2 ltac:(congruence)) as [->|(Hne' & s0' & c0' & H0' & Hw0' & E0' & Et')]; [congruence|].
    rewrite <- Et'. apply (bw_kind st Hst s0 c0 s0' c0'); congruence.
Qed.
End pivot_state.

(** ** Inserting a page table *)

(** What is asked of the callback: without memory it returns a void capability,
    and otherwise a cappage whose shadow is a new object of void capabilities. *)
Definition allocates (allocate_page_table : addr_space -> addr -> addr_space * (cap * addr)) : Prop :=
  forall st a st' rc rs, allocate_page_table st a = (st', (rc, rs)) ->
    (c_type rc = cap_void /\ st' = st) \/
    (c_type rc = cap_cappage /\ c_addr_trans rc = CAP_ADDR_TRANS_VOID /\ c_shadow rc <> 0 /\
     as_objects st !! c_shadow rc = None /\
     exists e, c_type e = cap_void /\ c_addr_trans e = CAP_ADDR_TRANS_VOID /\
               st' = with_table st e (c_shadow rc)).

Lemma void_sound e : c_type e = cap_void -> c_addr_trans e = CAP_ADDR_TRANS_VOID -> cap_sound e.
Proof.
  intros Ht Ha. unfold CAP_ADDR_TRANS_VOID in Ha. split;
    unfold cat_wf, CAP_GUARD, CAP_GUARD_BITS, table_width; rewrite ?Ha, ?Ht; cbn; lia || done.
Qed.

Lemma new_table_cap rt w :
  c_type rt = cap_cappage -> c_addr_trans rt = CAP_ADDR_TRANS_VOID -> 0 < w <= 8 ->
  (CAP_SET_SUBPAGE rt 0 (Z.shiftl 1 (CAPPAGE_SLOTS_LOG2 - w))).2 = cap_set_addr_trans rt (mk_cat 0 (8 - w) 0).
Proof.
  intros Ht Ha Hw.
  unfold CAP_SET_SUBPAGE, CAP_SET_GUARD_SUBPAGE, CAP_GUARD, CAP_GUARD_BITS. rewrite Ht, Ha.
  change (is_cappage cap_cappage) with true. rewrite andb_false_r.
  assert (w = 1 \/ w = 2 \/ w = 3 \/ w = 4 \/ w = 5 \/ w = 6 \/ w = 7 \/ w = 8) as Hcases by lia.
  repeat (destruct Hcases as [->|Hcases]; [reflexivity|]). subst w. reflexivity.
Qed.

Lemma do_index_new st rt k i :
  c_type rt = cap_cappage -> c_shadow rt <> 0 ->
  do_index st (cap_set_addr_trans rt (mk_cat 0 k 0)) i = Ret (in_slot (obj_slot (c_shadow rt) i)).
Proof.
  intros Ht Hs. unfold do_index, is_table. cbn [cap_set_addr_trans c_type c_shadow]. rewrite Ht.
  cbn [check mbind exec_bind]. by rewrite (proj2 (Z.eqb_neq _ _) Hs).
Qed.

(** The parts of the guard of the object in the way. *)
Lemma guard_parts G t w :
  0 <= t -> 0 <= w ->
  G = (G / 2 ^ (t + w) * 2 ^ w + (G / 2 ^ t) mod 2 ^ w) * 2 ^ t + G mod 2 ^ t.
Proof.
  intros Ht Hw. pose proof (pow2_pos t Ht). pose proof (pow2_pos w Hw).
  rewrite pow2_split, <- Z.div_div by lia.
  rewrite <- (mod_pow2_div (G / 2 ^ t) w) by lia. apply mod_pow2_div. lia.
Qed.

Lemma extract_bits_inv_some w n c x :
  0 <= w < 2 ^ 32 -> 0 < c <= n -> extract_bits_inv w (n - 1) c = Some x ->
  n <= 32 /\ x = (w / 2 ^ (n - c)) mod 2 ^ c.
Proof.
  intros Hw Hc H. destruct (decide (n <= 32)) as [Hn|Hn].
  - rewrite extract_bits_inv_eq in H by lia. split; [done|congruence].
  - exfalso. unfold extract_bits_inv in H. rewrite (proj2 (Z.eqb_neq c 0)) in H by lia.
    unfold extract_bits in H. destruct (assertb ((0 <=? n - 1 - c + 1) && _)); [|done]. cbn in H.
    rewrite (proj2 (andb_false_iff _ _)) in H by (right; apply Z.leb_gt; lia). done.
Qed.

Lemma asserted_inv {A} (o : option A) a : asserted o = Ret a -> o = Some a.
Proof. destruct o; cbn; congruence. Qed.

(** The top bits of a guard. *)
Lemma guard_top c g k :
  cap_sound c -> 0 <= g -> 0 <= k -> k + g = CAP_GUARD_BITS c ->
  0 <= CAP_GUARD c / 2 ^ k < 2 ^ g /\ CAP_GUARD c / 2 ^ k < 2 ^ 22.
Proof.
  intros Hc Hg Hk E. destruct (guard_range c Hc) as [HG HGB]. pose proof (pow2_pos k Hk).
  split; [apply div_pow2_range; [lia|lia|rewrite E; lia]|].
  apply Z.le_lt_trans with (CAP_GUARD c); [apply Z.div_le_upper_bound; nia|lia].
Qed.

Section insertion.
Context (rm_cap_copy : Z) (allocate_page_table : addr_space -> addr -> addr_space * (cap * addr)).
Context (Halloc : allocates allocate_page_table).

Lemma copy_pivot_ret st e rc k i phys c pte_addr g t st' pv :
  c_type rc = cap_cappage -> c_shadow rc <> 0 -> cap_sound c -> cap_sound e ->
  0 <= i < 256 -> 0 <= t < 64 -> 0 <= g < 2 ^ t -> g < 2 ^ 22 ->
  copy_pivot rm_cap_copy (with_table st e (c_shadow rc)) (cap_set_addr_trans rc (mk_cat 0 k 0)) i phys c
    pte_addr g t = Ret (st', pv) ->
  exists T, st' = slot_set (with_table st e (c_shadow rc)) (obj_slot (c_shadow rc) i) T /\
    pv = in_slot (obj_slot (c_shadow rc) i) /\ cap_sound T /\ same_object c T /\
    CAP_GUARD T = g /\ CAP_GUARD_BITS T = t.
Proof.
  intros Hty Hs Hc Hes Hi Ht Hg Hg22 H. unfold copy_pivot in H.
  rewrite do_index_new in H by done. cbn [mbind exec_bind is_fake negb check] in H.
  destruct (CAP_ADDR_TRANS_SET_GUARD _ _ _) as [[] a] eqn:Ea; [|done]. cbn [mbind exec_bind check] in H.
  apply (set_guard_sound _ _ _ 0 1) in Ea as (Ha & <- & <- & _ & _ & _); [|lia..].
  assert (Hcap : pte_cap (with_table st e (c_shadow rc)) (in_slot (obj_slot (c_shadow rc) i)) = Ret e)
    by (unfold pte_cap; by rewrite with_table_index).
  destruct (copy_guard_ret Hcap Hes Hc Ha ltac:(lia) H)
    as (T & ET & HTs & HT & HTg & HTb).
  rewrite pte_set_slot in ET. injection ET as -> ->. by exists T.
Qed.

Lemma set_pte_ret st l c pte_addr rc storage g b w st' p :
  slot_cap st l = Some c -> cap_sound c -> c_type rc = cap_cappage -> 0 < w <= 8 ->
  0 <= b < 64 -> 0 <= g < 2 ^ b -> g < 2 ^ 22 ->
  set_pte rm_cap_copy st (in_slot l) pte_addr (cap_set_addr_trans rc (mk_cat 0 (8 - w) 0)) storage g b
    (Z.shiftl 1 (CAPPAGE_SLOTS_LOG2 - w)) = Ret (st', p) ->
  exists P, st' = slot_set st l P /\ p = in_slot l /\ cap_sound P /\ c_type P = cap_cappage /\
    c_shadow P = c_shadow rc /\ table_width P = Some w /\ table_base P = 0 /\
    CAP_GUARD P = g /\ CAP_GUARD_BITS P = b.
Proof.
  intros Hl Hc Hty Hw Hb Hg Hg22 H. unfold set_pte in H.
  change (CAPPAGE_SLOTS_LOG2 - w) with (8 - w) in H. rewrite Z.shiftl_1_l in H.
  pose proof (pow2_le (8 - w) 8 ltac:(lia)). pose proof (pow2_pos (8 - w) ltac:(lia)).
  destruct (CAP_ADDR_TRANS_SET_GUARD_SUBPAGE _ _ _ _ _) as [[] a] eqn:Ea; [|done]. cbn [mbind exec_bind check] in H.
  apply set_guard_sound in Ea as (Ha & <- & <- & Has & Han & Hgb); [|lia..].
  assert (Hcap : pte_cap st (in_slot l) = Ret c) by (unfold pte_cap; by rewrite Hl).
  assert (Hwrc : cat_wf (c_addr_trans (cap_set_addr_trans rc (mk_cat 0 (8 - w) 0))))
    by (unfold cat_wf; cbn; lia).
  destruct (copy_table_ret (w := w) Hcap Hc
              (Hty : c_type (cap_set_addr_trans rc (mk_cat 0 (8 - w) 0)) = cap_cappage) Hwrc Ha Hgb Has Han Hw H)
    as (P & EP & HP).
  rewrite pte_set_slot in EP. injection EP as -> ->. by exists P.
Qed.

Lemma replace_pte_pivots st address l c pte_addr remaining gc st' r :
  build_wf st -> slot_ok l -> slot_cap st l = Some c -> not_in_folio st l ->
  0 <= gc_gbits gc -> 0 < gc_cappage_width gc <= 8 ->
  gc_gbits gc + gc_cappage_width gc <= CAP_GUARD_BITS c ->
  replace_pte rm_cap_copy allocate_page_table st address (in_slot l) c pte_addr remaining gc true
  = Ret (st', r) ->
  match r with
  | None => st' = st
  | Some (p, pivot) =>
      build_wf st' /\ p = in_slot l /\ exists P T q i pt_addr pivot_addr,
      pivoted st st' l c P T q i (gc_cappage_width gc) /\ CAP_GUARD_BITS P = gc_gbits gc /\
      CAP_GUARD P = CAP_GUARD c / 2 ^ (CAP_GUARD_BITS c - gc_gbits gc) /\
      pivot = Some (pivot_addr, in_slot (obj_slot q i)) /\
      addr_chop address (remaining - gc_gbits gc) = Some pt_addr /\
      addr_extend pt_addr i (gc_cappage_width gc) = Some pivot_addr
  end.
Proof.
  intros Hst Hok Hl Hnf Hg Hw Hgw H. set (g := gc_gbits gc) in *. set (w := gc_cappage_width gc) in *.
  unfold replace_pte in H. fold g in H. fold w in H. apply exec_bind_Ret in H as (pt_addr & Hpt%asserted_inv & H).
  destruct (allocate_page_table st pt_addr) as [st1 [rc rs]] eqn:Ea.
  destruct (Halloc _ _ _ _ _ Ea) as [[Hv ->]|(Hty & Hat & Hs & Hfresh & e & He & Hea & ->)].
  { rewrite Hv in H. cbn in H. by injection H as <- <-. }
  rewrite Hty in H. change (cap_type_eqb cap_cappage cap_void) with false in H.
  cbv beta iota zeta in H. rewrite new_table_cap in H by done.
  pose proof (bw_caps st Hst l c Hl) as Hc. pose proof (guard_bits_range c Hc) as HB.
  destruct (guard_range c Hc) as [HG HGB]. set (t := CAP_GUARD_BITS c - g - w) in *.
  apply exec_bind_Ret in H as (i & Hi%asserted_inv & H). rewrite u32_small in Hi by lia.
  apply extract_bits_inv_some in Hi as [Hn Ei]; [|lia..]. fold t in Ei.
  apply exec_bind_Ret in H as (pivot_addr & Hpa%asserted_inv & H). apply exec_bind_Ret in H as (phys & _ & H).
  apply exec_bind_Ret in H as (pg & Hpg%asserted_inv & H).
  rewrite extract_bits64_eq, Z.div_1_r in Hpg by lia. injection Hpg as <-.
  apply exec_bind_Ret in H as (nt & _ & H). apply exec_bind_Ret in H as (ot & _ & H).
  apply exec_bind_Ret in H as ([] & _ & H). apply exec_bind_Ret in H as ([st2 pv] & H1 & H).
  apply exec_bind_Ret in H1 as ([st3 pv3] & H1 & E). injection E as <- <-.
  assert (Hti : 0 <= CAP_GUARD c mod 2 ^ t < 2 ^ t) by (apply Z.mod_pos_bound, pow2_pos; lia).
  assert (Htl : CAP_GUARD c mod 2 ^ t <= CAP_GUARD c) by (apply Z.mod_le; [lia|apply pow2_pos; lia]).
  rewrite i32_small in H1 by lia.
  assert (Hiw : 0 <= i < 2 ^ w) by (subst i; apply Z.mod_pos_bound, pow2_pos; lia).
  pose proof (pow2_le w 8 ltac:(lia)) as Hw8.
  apply copy_pivot_ret in H1 as (T & -> & -> & HTs & HT & HTg & HTb); try done; try lia; [|by apply void_sound].
  rewrite extract_bits64_inv_eq in H by lia. cbn [mbind exec_bind asserted] in H.
  replace (CAP_GUARD_BITS c - g) with (t + w) in * by lia.
  pose proof (guard_top c g (t + w) Hc Hg ltac:(lia) ltac:(lia)) as Hpg. rewrite Z.mod_small in H by lia.
  apply exec_bind_Ret in H as ([st4 p4] & H1 & E). injection E as <- <-.
  apply (set_pte_ret _ _ c) in H1 as (P & -> & -> & HPs & HPt & HPp & HPw & HPb & HPg & HPgb); try done; try lia.
  2: { rewrite slot_set_other; [by rewrite with_table_old by (done || by eexists)|cbn; lia|done|].
       apply not_eq_sym, (old_not_new st); [done|by eexists]. }
  pose proof (void_sound e He Hea). split; [by apply (pivot_state_wf st l c P T e (c_shadow rc) i w)|].
  split; [done|]. exists P, T, (c_shadow rc), i, pt_addr, pivot_addr. split; [|done].
  apply (pivot_state_pivoted st l c P T e (c_shadow rc) i w); try done.
  - rewrite HPgb, HTb. lia.
  - rewrite HPg, HTg, HTb, Ei. apply guard_parts; lia.
Qed.
End insertion.

(** ** Where the page table goes *)

Lemma div_pow2_add a m n : 0 <= m -> 0 <= n -> a / 2 ^ (m + n) = a / 2 ^ m / 2 ^ n.
Proof.
  intros Hm Hn. pose proof (pow2_pos m Hm). pose proof (pow2_pos n Hn).
  rewrite Z.div_div by lia. by rewrite pow2_split.
Qed.

Lemma lxor_range a b n : 0 <= n -> 0 <= a < 2 ^ n -> 0 <= b < 2 ^ n -> 0 <= Z.lxor a b < 2 ^ n.
Proof.
  intros Hn Ha Hb. assert (H0 : 0 <= Z.lxor a b) by (apply Z.lxor_nonneg; lia). split; [done|].
  assert (E : Z.lxor a b / 2 ^ n = 0).
  { rewrite <- Z.shiftr_div_pow2, Z.shiftr_lxor, !Z.shiftr_div_pow2, !Z.div_small by done. done. }
  pose proof (pow2_pos n Hn). apply Z.div_small_iff in E; lia.
Qed.

(** Words whose difference has [k] bits agree above them. *)
Lemma lxor_msb a b k :
  0 <= a < 2 ^ 64 -> 0 <= b < 2 ^ 64 -> L4_msb64 (Z.lxor a b) <= k -> 0 <= k -> a / 2 ^ k = b / 2 ^ k.
Proof.
  intros Ha Hb Hk Hk0.
  pose proof (lxor_range a b 64 ltac:(lia) Ha Hb) as Hx.
  apply L4_msb64_le in Hk; [|done|done].
  rewrite <- !Z.shiftr_div_pow2 by done. apply Z.lxor_eq. rewrite <- Z.shiftr_lxor.
  rewrite Z.shiftr_div_pow2 by done. apply Z.div_small. lia.
Qed.

(** The guard of the new page table's capability is the top of both. *)
Definition prefix_agrees (A remaining : Z) (c : cap) (g : Z) : Prop :=
  0 <= g <= remaining /\ g <= CAP_GUARD_BITS c /\
  CAP_GUARD c / 2 ^ (CAP_GUARD_BITS c - g) = A mod 2 ^ remaining / 2 ^ (remaining - g).

Lemma prefix_agrees_le A remaining c g g' :
  prefix_agrees A remaining c g -> 0 <= g' <= g -> prefix_agrees A remaining c g'.
Proof.
  intros (Hg & HB & E) Hg'. split; [lia|]. split; [lia|].
  replace (CAP_GUARD_BITS c - g') with (CAP_GUARD_BITS c - g + (g - g')) by lia.
  replace (remaining - g') with (remaining - g + (g - g')) by lia.
  by rewrite !div_pow2_add, E by lia.
Qed.

Lemma common_guard_agrees A remaining c g :
  cap_sound c -> 0 <= A < 2 ^ 64 -> 0 <= remaining <= 63 ->
  common_guard A remaining c = Ret g -> prefix_agrees A remaining c g.
Proof.
  intros Hc HA Hr H. pose proof (guard_bits_range c Hc) as HB. destruct (guard_range c Hc) as [HG HGB].
  unfold common_guard in H. set (B := CAP_GUARD_BITS c) in *. set (G := CAP_GUARD c) in *.
  assert (Hmax : exists max a, 0 <= max <= remaining /\ max <= B /\ a = G / 2 ^ (B - max) /\
    (if remaining <? B then remaining else B) = max /\
    (if remaining <? B then Z.shiftr G (B - remaining) else G) = a).
  { case_if; [exists remaining|exists B]; eexists; repeat split; try lia.
    - by rewrite Z.shiftr_div_pow2 by lia.
    - by rewrite Z.sub_diag, Z.div_1_r. }
  destruct Hmax as (max & a & Hmax & HmaxB & Ea & E1 & E2). rewrite E1, E2 in H.
  rewrite extract_top in H by lia. cbn [mbind exec_bind asserted] in H.
  set (b := A mod 2 ^ remaining / 2 ^ (remaining - max)) in *. injection H as H.
  pose proof (low_div A remaining (remaining - max) ltac:(lia)) as Hb. fold b in Hb.
  replace (remaining - (remaining - max)) with max in Hb by lia.
  assert (Ha : 0 <= a < 2 ^ max).
  { rewrite Ea. apply div_pow2_range; [lia..|]. replace (B - max + max) with B by lia; lia. }
  pose proof (pow2_le max 63 ltac:(lia)).
  pose proof (lxor_range a b max ltac:(lia) Ha Hb) as Hx.
  assert (Hm : 0 <= L4_msb64 (Z.lxor a b) <= max).
  { split; [apply L4_msb64_nonneg; lia|]. apply L4_msb64_le; lia. }
  set (k := L4_msb64 (Z.lxor a b)) in *.
  pose proof (lxor_msb a b k ltac:(lia) ltac:(lia) ltac:(lia) ltac:(lia)) as E.
  subst g. split; [lia|]. split; [fold B; lia|]. fold B G.
  rewrite Ea in E. unfold b in E. rewrite <- !div_pow2_add in E by lia.
  replace (B - (max - k)) with (B - max + k) by lia.
  by replace (remaining - (max - k)) with (remaining - max + k) by lia.
Qed.

Lemma as_compute_gbits_nonneg u t g gc : as_compute_gbits_cappage u t g = Some gc -> 0 <= gc_gbits gc.
Proof.
  unfold as_compute_gbits_cappage. destruct (assertb (_ && _)); [|done]. cbn [mbind option_bind].
  set (g' := if u <=? PAGESIZE_LOG2 then g else _). destruct (assertb (0 <=? g')) eqn:E; [|done].
  cbn [mbind option_bind]. intros [= <-]. cbn. unfold assertb in E. case_if_in E; [lia|done].
Qed.

Lemma check_inv {b f u} : check b f = Ret u -> b = true.
Proof. by destruct b. Qed.

Lemma table_shape_ret A remaining depth t g gc :
  table_shape A remaining depth t g = Ret gc ->
  0 <= gc_gbits gc <= g /\ 0 < gc_cappage_width gc <= 8 /\ gc_gbits gc + gc_cappage_width gc <= t.
Proof.
  unfold table_shape. intros H. apply exec_bind_Ret in H as (first & _ & H).
  set (g' := if _ <? _ then _ else g) in H.
  assert (Hg' : g' <= g) by (subst g'; case_if; lia). clearbody g'.
  apply exec_bind_Ret in H as ([] & _ & H). apply exec_bind_Ret in H as (gc' & Hgc & H).
  destruct (as_compute_gbits_cappage _ _ _) as [gc0|] eqn:E; [|done]. injection Hgc as ->.
  apply as_compute_gbits_nonneg in E.
  apply exec_bind_Ret in H as ([] & H1%check_inv & H). apply exec_bind_Ret in H as ([] & H2%check_inv & H).
  apply exec_bind_Ret in H as ([] & H3%check_inv & H). injection H as ->.
  apply andb_true_iff in H3 as [H3 H4]. unfold CAPPAGE_SLOTS_LOG2, PAGESIZE_LOG2 in H4.
  apply Z.leb_le in H1, H2, H4. apply Z.ltb_lt in H3. lia.
Qed.

(** Without an object in the way the index of the pivot is computed all the
    same, from a guard of no bits. *)
Lemma replace_pte_no_pivot rm alloc st address p c pte_addr remaining gc st' r :
  allocates alloc -> CAP_GUARD_BITS c = 0 -> 0 <= gc_gbits gc -> 0 < gc_cappage_width gc ->
  replace_pte rm alloc st address p c pte_addr remaining gc false = Ret (st', r) ->
  st' = st /\ r = None.
Proof.
  intros Halloc HB Hg Hw H. unfold replace_pte in H.
  apply exec_bind_Ret in H as (pt_addr & _ & H).
  destruct (alloc st pt_addr) as [st1 [rc rs]] eqn:Ea.
  destruct (Halloc _ _ _ _ _ Ea) as [[Hv ->]|(Hty & _)].
  { rewrite Hv in H. cbn in H. by injection H as <- <-. }
  exfalso. rewrite Hty, HB in H. change (cap_type_eqb cap_cappage cap_void) with false in H.
  cbv beta iota zeta in H. apply exec_bind_Ret in H as (i & Hi & _).
  unfold extract_bits_inv, extract_bits in Hi. rewrite (proj2 (Z.eqb_neq _ 0)) in Hi by lia.
  rewrite (proj2 (Z.leb_gt 0 (_ - _ + 1))) in Hi by lia. done.
Qed.

End AsInsert.
