(* ===== verification/AsBuildOk.v ===== *)
(** * Building an address space is correct

    What [AsBuild.as_build] does to an address space: if it returns a slot, the
    slot is at the address it was given, and everything else that was in the
    address space stays where it was. *)

From S2P Require Import Prelude L4Math Addr Bits AddrTrans Gbits Cap AsLookup AsBuild AsPath AsInsert.

Module AsBuildOk.

Import AsBuild AsPath AsInsert.

(** ** Crashes that are not for want of fuel *)

Lemma bind_fueled {A B} (m : exec A) (k : A -> exec B) :
  m <> Crash out_of_fuel -> (forall a, m = Ret a -> k a <> Crash out_of_fuel) -> m ≫= k <> Crash out_of_fuel.
Proof. intros Hm Hk. destruct m as [a|f]; [by apply Hk|cbn; congruence]. Qed.

Ltac fueled :=
  repeat first
    [ discriminate
    | match goal with |- mbind _ _ <> _ => apply bind_fueled; [|intros ? ?] end
    | match goal with |- (match ?x with _ => _ end) <> _ => destruct x end ].

Ltac fueled_by := unfold asserted, check, access; fueled.

Lemma pte_cap_fueled st p : pte_cap st p <> Crash out_of_fuel.
Proof. unfold pte_cap. fueled_by. Qed.

Lemma do_index_fueled st c i : do_index st c i <> Crash out_of_fuel.
Proof. unfold do_index. fueled_by. Qed.

Lemma copy_to_fueled rm st p ta s sa fl a : copy_to rm st p ta s sa fl a <> Crash out_of_fuel.
Proof. unfold copy_to. fueled_by. apply pte_cap_fueled. Qed.

Lemma check_lookup_fueled sc st a p : check_lookup sc st a p <> Crash out_of_fuel.
Proof. unfold check_lookup. fueled_by. Qed.

Lemma check_pivot_fueled cs sc st a p pv : check_pivot cs sc st a p pv <> Crash out_of_fuel.
Proof.
  unfold check_pivot, AS_CHECK_SHADOW. fueled_by; apply check_lookup_fueled || apply pte_cap_fueled.
Qed.

Lemma copy_pivot_fueled rm st pc i pp c pa g t : copy_pivot rm st pc i pp c pa g t <> Crash out_of_fuel.
Proof. unfold copy_pivot. fueled_by; apply do_index_fueled || apply copy_to_fueled. Qed.

Lemma set_pte_fueled rm st p pa pc rs g b n : set_pte rm st p pa pc rs g b n <> Crash out_of_fuel.
Proof. unfold set_pte. fueled_by. apply copy_to_fueled. Qed.

Lemma replace_pte_fueled rm alloc st a p c pa r gc np :
  replace_pte rm alloc st a p c pa r gc np <> Crash out_of_fuel.
Proof. unfold replace_pte. fueled_by; apply copy_pivot_fueled || apply set_pte_fueled. Qed.

Lemma insert_table_fueled rm cs alloc sc st a p c pa r gc np :
  insert_table rm cs alloc sc st a p c pa r gc np <> Crash out_of_fuel.
Proof. unfold insert_table. fueled_by; apply replace_pte_fueled || apply check_pivot_fueled. Qed.

Lemma table_shape_fueled A r d t g : table_shape A r d t g <> Crash out_of_fuel.
Proof. unfold table_shape. fueled_by. Qed.

Lemma descend_fueled rm cs alloc sc st a A d p r :
  descend rm cs alloc sc st a A d p r <> Crash out_of_fuel.
Proof.
  unfold descend, AS_CHECK_SHADOW, common_guard.
  fueled_by; apply pte_cap_fueled || apply table_shape_fueled || apply insert_table_fueled.
Qed.

Lemma index_table_fueled cs st a A p r : index_table cs st a A p r <> Crash out_of_fuel.
Proof.
  unfold index_table, AS_CHECK_SHADOW. fueled_by; apply pte_cap_fueled || apply do_index_fueled.
Qed.

Lemma claim_slot_fueled rm cs st a A mo p r : claim_slot rm cs st a A mo p r <> Crash out_of_fuel.
Proof.
  unfold claim_slot, AS_CHECK_SHADOW. fueled_by; apply pte_cap_fueled || apply copy_to_fueled.
Qed.

Lemma finish_fueled rm cs sc st a A mo p r : finish rm cs sc st a A mo p r <> Crash out_of_fuel.
Proof. unfold finish. fueled_by; apply claim_slot_fueled || apply check_lookup_fueled. Qed.

(** ** The loop *)

(** Where the loop is: in a slot, or at an object of a folio. *)
Definition located (st : addr_space) (p : pte) (l : slot) : Prop :=
  slot_ok l /\
  match p with
  | in_slot l' => l' = l /\ is_Some (slot_cap st l) /\ not_in_folio st l
  | fake_slot o => slot_cap st l = Some o /\ c_type o <> cap_void /\ CAP_GUARD_BITS o = 0
  end.

(** The address space [st'] has every object of [st] at its address. *)
Definition keeps (st st' : addr_space) : Prop :=
  forall q d l c, object_at st q d l c -> c_type c <> cap_void ->
    exists l' c', object_at st' q d l' c' /\ same_object c c'.

Lemma keeps_refl st : keeps st st.
Proof. intros q d l c H _. exists l, c. split; [done|apply same_object_refl]. Qed.

Lemma keeps_trans st1 st2 st3 : keeps st1 st2 -> keeps st2 st3 -> keeps st1 st3.
Proof.
  intros H1 H2 q d l c H Hc. destruct (H1 q d l c H Hc) as (l2 & c2 & Ho2 & S2).
  destruct (same_object_fields _ _ S2) as (Et & _).
  destruct (H2 q d l2 c2 Ho2 ltac:(congruence)) as (l3 & c3 & Ho3 & S3).
  exists l3, c3. split; [done|by eapply same_object_trans].
Qed.

Lemma located_cap st p l c : located st p l -> pte_cap st p = Ret c -> slot_cap st l = Some c.
Proof.
  intros [_ H]. destruct p as [l'|o]; cbn.
  - destruct H as (-> & _ & _). unfold access. by destruct (slot_cap st l); intros [= ->].
  - destruct H as (-> & _ & _). by intros [= ->].
Qed.

Lemma located_pte_cap st p l c : located st p l -> slot_cap st l = Some c -> pte_cap st p = Ret c.
Proof.
  intros [_ H] Hl. destruct p as [l'|o]; cbn.
  - destruct H as (-> & _ & _). by rewrite Hl.
  - destruct H as (H & _ & _). congruence.
Qed.

(** The objects of a folio have no guard, and are not void. *)
Lemma located_in_slot st p l c :
  located st p l -> slot_cap st l = Some c -> CAP_GUARD_BITS c <> 0 \/ c_type c = cap_void ->
  p = in_slot l /\ not_in_folio st l.
Proof.
  intros [_ H] Hl Hor. destruct p as [l'|o]; [by destruct H as (-> & _ & ?)|].
  destruct H as (Ho & Ht & Hb). rewrite Hl in Ho. injection Ho as <-. by destruct Hor.
Qed.

Lemma located_some st p l : located st p l -> is_Some (slot_cap st l).
Proof. intros [_ H]. destruct p as [l'|o]; [apply H|exists o; apply H]. Qed.

(** The bits of the address above the [r - k] low ones. *)
Lemma prefix_split A r k :
  0 <= k <= r -> A / 2 ^ (r - k) = A / 2 ^ r * 2 ^ k + A mod 2 ^ r / 2 ^ (r - k).
Proof.
  intros Hk. pose proof (pow2_pos (r - k) ltac:(lia)). pose proof (pow2_pos r ltac:(lia)).
  pose proof (mod_pow2_div A r ltac:(lia)) as E. rewrite E at 1.
  replace (2 ^ r) with (2 ^ k * 2 ^ (r - k)) at 2 by (rewrite <- pow2_split by lia; f_equal; lia).
  rewrite Z.mul_assoc. apply Z.div_add_l. lia.
Qed.

Lemma path_extend st A D r g w l c i :
  build_wf st -> path st root_slot (A / 2 ^ r) (D - r) l -> slot_cap st l = Some c ->
  table_width c = Some w -> c_shadow c <> 0 -> CAP_GUARD_BITS c = g -> 0 <= g -> 0 <= w -> g + w <= r ->
  CAP_GUARD c = A mod 2 ^ r / 2 ^ (r - g) -> i = A mod 2 ^ (r - g) / 2 ^ (r - g - w) ->
  path st root_slot (A / 2 ^ (r - g - w)) (D - (r - g - w)) (obj_slot (c_shadow c) (table_base c + i)).
Proof.
  intros Hst Hp Hl Hw Hs HB Hg Hw0 Hgw HG Hi.
  pose proof (low_div A (r - g) (r - g - w) ltac:(lia)) as Hir. rewrite <- Hi in Hir.
  replace (r - g - (r - g - w)) with w in Hir by lia.
  pose proof (path_app Hst Hp (path_one st l c w i Hl Hw Hs Hir)) as H.
  rewrite (prefix_split A (r - g) w), (prefix_split A r g), <- HG, <- Hi by lia.
  rewrite append_assoc by lia. rewrite HB in H. by replace (D - (r - g - w)) with (D - r + (g + w)) by lia.
Qed.

Section loop.
Context (rm_cap_copy : Z) (as_check_shadow : addr -> cap -> bool).
Context (allocate_page_table : addr_space -> addr -> addr_space * (cap * addr)) (self_check : bool).
Context (Halloc : allocates allocate_page_table).
Context (A D : Z) (HA : bits_ok A D).

(** The guard of [c] is the top of the [r] bits that remain, and [r'] follow. *)
Definition guard_read (r r' : Z) (c : cap) : Prop :=
  0 <= r' /\ r' = r - CAP_GUARD_BITS c /\ CAP_GUARD c = A mod 2 ^ r / 2 ^ r'.

(** The bits that remain fit in a guard, and none remain at an object of a folio. *)
Definition fits (p : pte) (r : Z) : Prop :=
  A mod 2 ^ r < 2 ^ 22 /\ (is_fake p = true -> r = 0).

Lemma index_table_at st address l p r c p' r2 :
  build_wf st -> slot_cap st l = Some c -> pte_cap st p = Ret c -> 0 <= r <= D ->
  index_table as_check_shadow st address A p r = Ret (p', r2) ->
  exists w, table_width c = Some w /\ c_shadow c <> 0 /\ 0 < w <= r /\ r2 = r - w /\
    located st p' (obj_slot (c_shadow c) (table_base c + A mod 2 ^ r / 2 ^ (r - w))).
Proof.
  intros Hst Hl Hpc Hr H. pose proof (bw_caps st Hst l c Hl) as Hc.
  destruct HA as [HD HAr]. pose proof (pow2_le D 63 ltac:(lia)).
  unfold index_table in H. rewrite Hpc in H. cbn [mbind exec_bind] in H.
  apply exec_bind_Ret in H as (w & Hw & H).
  assert (Htw : table_width c = Some w).
  { unfold table_width. destruct (c_type c); try discriminate; by injection Hw as <-. }
  pose proof (sound_width c w Hc Htw) as Hw8.
  case_if_in H; [done|]. rewrite extract_top in H by lia. cbn [mbind exec_bind asserted] in H.
  apply exec_bind_Ret in H as (p2 & Hi & H). apply exec_bind_Ret in H as ([] & _ & H).
  apply exec_bind_Ret in H as ([] & _ & H). injection H as -> <-.
  set (i := A mod 2 ^ r / 2 ^ (r - w)) in *.
  unfold do_index in Hi. apply exec_bind_Ret in Hi as ([] & _ & Hi).
  apply exec_bind_Ret in Hi as ([] & Hs%check_inv & Hi). apply negb_true_iff, Z.eqb_neq in Hs.
  pose proof (low_div A r (r - w) ltac:(lia)) as Hir. fold i in Hir.
  replace (r - (r - w)) with w in Hir by lia. pose proof (sound_slots c w i Hc Htw Hir) as Hsl.
  exists w. split; [done|]. split; [done|]. split; [lia|]. split; [done|]. fold i. split; [cbn; lia|].
  destruct (table_slot st l c w i Hst Hl Htw Hs Hir) as [o Ho].
  destruct (decide (c_type c = cap_folio)) as [Hf|Hf].
  - assert (Eb : table_base c + i = i) by (unfold table_base; by rewrite Hf).
    rewrite Eb in *. rewrite Hf in Hi. apply exec_bind_Ret in Hi as ([] & _ & Hi). rewrite Ho in Hi.
    cbn [access mbind exec_bind] in Hi. case_if_in Hi; [done|]. injection Hi as <-.
    split; [done|]. split; [|by eapply (bw_folio st Hst l c)].
    intros Ev%cap_type_eqb_eq. congruence.
  - assert (Ep : p' = in_slot (obj_slot (c_shadow c) (table_base c + i))).
    { unfold table_base. unfold table_width in Htw. destruct (c_type c); congruence. }
    rewrite Ep. split; [done|]. split; [by exists o|].
    intros l0 c0 j Hl0 Hty0 Hs0 [= Esh _]. apply Hf.
    apply (bw_kind st Hst l0 c0 l c); try done; [|congruence]. unfold table_width. by rewrite Hty0.
Qed.

Lemma index_table_step st address l p r r' c p' r2 :
  build_wf st -> slot_cap st l = Some c -> pte_cap st p = Ret c ->
  path st root_slot (A / 2 ^ r) (D - r) l -> r <= D -> guard_read r r' c ->
  index_table as_check_shadow st address A p r' = Ret (p', r2) ->
  0 <= r2 < r' /\ exists l', located st p' l' /\ path st root_slot (A / 2 ^ r2) (D - r2) l'.
Proof.
  intros Hst Hl Hpc Hp Hr (Hr0 & Hr' & HG) H.
  pose proof (guard_bits_range c (bw_caps st Hst l c Hl)).
  destruct (index_table_at st address l p r' c p' r2 Hst Hl Hpc ltac:(lia) H) as (w & Hw & Hs & Hwr & -> & Hloc).
  split; [lia|]. eexists. split; [exact Hloc|]. subst r'. eapply path_extend; try done; lia.
Qed.

Lemma insert_table_step st address l p c pte_addr r gc st' res :
  build_wf st -> located st p l -> slot_cap st l = Some c ->
  path st root_slot (A / 2 ^ r) (D - r) l ->
  insert_table rm_cap_copy as_check_shadow allocate_page_table self_check st address p c pte_addr r
    gc true = Ret (st', res) ->
  prefix_agrees A r c (gc_gbits gc) -> 0 < gc_cappage_width gc <= 8 ->
  gc_gbits gc + gc_cappage_width gc <= CAP_GUARD_BITS c ->
  match res with
  | None => st' = st
  | Some (p', r') => build_wf st' /\ keeps st st' /\ path st' root_slot (A / 2 ^ r) (D - r) l /\
      exists c', slot_cap st' l = Some c' /\ pte_cap st' p' = Ret c' /\ guard_read r r' c'
  end.
Proof.
  intros Hst Hloc Hl Hp H Hag Hw Hgw.
  destruct Hag as (Hg & _ & Eg).
  destruct (located_in_slot st p l c Hloc Hl ltac:(left; lia)) as [-> Hnf].
  unfold insert_table in H. apply exec_bind_Ret in H as ([st2 r2] & H1 & H2).
  pose proof (replace_pte_pivots rm_cap_copy allocate_page_table Halloc st address l c pte_addr r gc st2 r2
                Hst (proj1 Hloc) Hl Hnf ltac:(lia) Hw Hgw H1) as Hr.
  destruct r2 as [[p2 pv]|].
  - apply exec_bind_Ret in H2 as ([] & _ & H2). injection H2 as <- <-.
    destruct Hr as (Hst2 & -> & P & T & q & i & pa & va & V & HPb & HPg & _).
    pose proof (pv_pte V) as HlP.
    split; [done|]. split; [|split].
    + intros q0 d0 l0 c0 H0 _. exact (object_pivoted Hst Hst2 V H0).
    + apply (path_pivoted Hst Hst2 V Hp); [done|by eexists].
    + exists P. split; [done|]. split; [cbn; by rewrite HlP|]. unfold guard_read. rewrite HPb, HPg. lia.
  - injection H2 as <- <-. done.
Qed.

Lemma descend_step st l p r n :
  build_wf st -> located st p l -> path st root_slot (A / 2 ^ r) (D - r) l -> 0 <= r <= D ->
  descend rm_cap_copy as_check_shadow allocate_page_table self_check st (of_bits A D) A D p r = Ret n ->
  match n with
  | Break => fits p r
  | NoMemory st' => st' = st
  | Index st' p' r' => build_wf st' /\ keeps st st' /\ path st' root_slot (A / 2 ^ r) (D - r) l /\
      exists c', slot_cap st' l = Some c' /\ pte_cap st' p' = Ret c' /\ guard_read r r' c'
  end.
Proof.
  intros Hst Hloc Hp Hr H. destruct HA as [HD HAr]. pose proof (pow2_le D 63 ltac:(lia)).
  unfold descend in H. apply exec_bind_Ret in H as (c & Hpc & H).
  pose proof (located_cap st p l c Hloc Hpc) as Hl. pose proof (bw_caps st Hst l c Hl) as Hc.
  pose proof (guard_bits_range c Hc) as HB. destruct (guard_range c Hc) as [HG _].
  apply exec_bind_Ret in H as (pte_addr & _ & H). apply exec_bind_Ret in H as ([] & _ & H).
  apply exec_bind_Ret in H as (ag & Hag & H).
  destruct ((CAP_GUARD_BITS c =? r) && (CAP_GUARD c =? ag)) eqn:Em0.
  { injection H as <-. apply andb_true_iff in Em0 as [E1%Z.eqb_eq E2%Z.eqb_eq].
    rewrite (proj2 (Z.leb_le _ _)), extract_top, E1, Z.sub_diag, Z.div_1_r in Hag by lia. injection Hag as <-.
    split; [lia|]. intros Hfk. destruct p as [|o]; [done|]. destruct Hloc as (_ & Ho & _ & Hb).
    rewrite Hl in Ho. injection Ho as <-. lia. }
  destruct (is_table c && (CAP_GUARD_BITS c <=? r) && (CAP_GUARD c =? ag)) eqn:Em.
  { apply exec_bind_Ret in H as ([] & Hpos%check_inv & H). injection H as <-. apply Z.ltb_lt in Hpos.
    split; [done|]. split; [apply keeps_refl|]. split; [done|]. exists c. split; [done|]. split; [done|].
    apply andb_true_iff in Em as [[_ Hle]%andb_true_iff E%Z.eqb_eq].
    rewrite Hle in Hag. apply Z.leb_le in Hle. rewrite extract_top in Hag by lia. injection Hag as <-.
    unfold guard_read. lia. }
  destruct (cap_type_eqb (c_type c) cap_void && (CAP_GUARD_BITS c =? 0)) eqn:Ev.
  - apply andb_true_iff in Ev as [Ety%cap_type_eqb_eq E0%Z.eqb_eq].
    apply exec_bind_Ret in H as (low & Hlow & H).
    rewrite extract_bits64_eq, Z.div_1_r in Hlow by lia. injection Hlow as <-.
    case_if_in H.
    { injection H as <-. pose proof (Z.mod_pos_bound A (2 ^ r) ltac:(apply pow2_pos; lia)). split.
      - apply L4_msb64_le; [|lia|done]. pose proof (Z.mod_le A (2 ^ r)). lia.
      - destruct (located_in_slot st p l c Hloc Hl ltac:(by right)) as [-> _]. done. }
    apply exec_bind_Ret in H as (gc & Hgc%table_shape_ret & H).
    apply exec_bind_Ret in H as ([st2 res] & H1 & H2).
    unfold insert_table in H1. apply exec_bind_Ret in H1 as ([st3 r3] & H1 & H3).
    apply replace_pte_no_pivot in H1 as [-> ->]; [|done|done|lia|lia]. injection H3 as <- <-.
    by injection H2 as <-.
  - apply exec_bind_Ret in H as (g & Hg & H). apply common_guard_agrees in Hg; [|done|lia|lia].
    apply exec_bind_Ret in H as (gc & Hgc%table_shape_ret & H).
    apply exec_bind_Ret in H as ([st2 res] & H1 & H2).
    apply (prefix_agrees_le _ _ _ _ (gc_gbits gc)) in Hg; [|lia].
    pose proof (insert_table_step st (of_bits A D) l p c pte_addr r gc st2 res Hst Hloc Hl Hp H1 Hg
                  ltac:(lia) ltac:(lia)) as Hres.
    destruct res as [[p2 r2]|]; injection H2 as <-; exact Hres.
Qed.
Lemma build_loop_step fuel st l p r :
  build_wf st -> located st p l -> path st root_slot (A / 2 ^ r) (D - r) l -> 0 <= r <= D ->
  match build_loop rm_cap_copy as_check_shadow allocate_page_table self_check fuel st (of_bits A D) A D p r with
  | Ret (st', res) =>
      build_wf st' /\ keeps st st' /\
      match res with
      | None => True
      | Some (p', r') => 0 <= r' <= D /\ fits p' r' /\
          exists l', located st' p' l' /\ path st' root_slot (A / 2 ^ r') (D - r') l'
      end
  | Crash f => r < Z.of_nat fuel -> f <> out_of_fuel
  end.
Proof.
  revert st l p r. induction fuel as [|fuel IH]; intros st l p r Hst Hloc Hp Hr; cbn [build_loop]; [lia|].
  destruct (descend _ _ _ _ _ _ _ _ _ _) as [n|f] eqn:En; cbn [mbind exec_bind].
  2: { intros _ ->. by apply (descend_fueled _ _ _ _ _ _ _ _ _ _) in En. }
  pose proof (descend_step st l p r n Hst Hloc Hp Hr En) as Hn. destruct n as [|st'|st' p' r'].
  - split; [done|]. split; [apply keeps_refl|]. split; [lia|]. split; [done|]. by exists l.
  - subst st'. split; [done|]. split; [apply keeps_refl|done].
  - destruct Hn as (Hst' & Hk & Hp' & c & Hl & Hpc & Hg).
    destruct (index_table _ _ _ _ _ _) as [[p2 r2]|f] eqn:Ei; cbn [mbind exec_bind].
    2: { intros _ ->. by apply index_table_fueled in Ei. }
    destruct (index_table_step st' (of_bits A D) l p' r r' c p2 r2 Hst' Hl Hpc Hp'
                (proj2 Hr) Hg Ei) as (Hr2 & l2 & Hloc2 & Hp2).
    pose proof (guard_bits_range c (bw_caps st' Hst' l c Hl)). destruct Hg as (_ & Hr' & _).
    case_if.
    + specialize (IH st' l2 p2 r2 Hst' Hloc2 Hp2 ltac:(lia)).
      destruct (build_loop _ _ _ _ _ _ _ _ _ _ _) as [[st3 res]|f]; [|intros; apply IH; lia].
      destruct IH as (H1 & H2 & H3). split; [done|]. split; [by eapply keeps_trans|done].
    + split; [done|]. split; [done|]. split; [lia|].
      assert (r2 = 0) as -> by lia. split; [split; [by rewrite Z.mod_1_r|done]|by exists l2].
Qed.
End loop.

(** ** The slot that was asked for *)

(** Every object of [st] is still at its address in [st'], but for [T]. *)
Definition keeps_except (T : cap) (st st' : addr_space) : Prop :=
  forall q d l c, object_at st q d l c -> c_type c <> cap_void ->
    (exists l' c', object_at st' q d l' c' /\ same_object c c') \/ same_object c T.

Lemma keeps_then_except T st1 st2 st3 : keeps st1 st2 -> keeps_except T st2 st3 -> keeps_except T st1 st3.
Proof.
  intros H1 H2 q d l c H Hc. destruct (H1 q d l c H Hc) as (l2 & c2 & Ho2 & S2).
  destruct (same_object_fields _ _ S2) as (Et & _).
  destruct (H2 q d l2 c2 Ho2 ltac:(congruence)) as [(l3 & c3 & Ho3 & S3)|S3].
  - left. exists l3, c3. split; [done|by eapply same_object_trans].
  - right. by eapply same_object_trans.
Qed.

Lemma keeps_except_void T st st' : c_type T = cap_void -> keeps_except T st st' -> keeps st st'.
Proof.
  intros Hv H q d l c Ho Hc. destruct (H q d l c Ho Hc) as [Hk|S]; [done|].
  destruct (same_object_fields _ _ S) as (Et & _). congruence.
Qed.

(** The capability [c] in the slot [l] gets another guard. *)
Section reguarded.
Context (st : addr_space) (l : slot) (c T : cap).
Context (Hst : build_wf st) (Hok : slot_ok l) (Hl : slot_cap st l = Some c) (Hnf : not_in_folio st l).
Context (HT : same_object c T) (HTs : cap_sound T).

Lemma reguarded_caps s c' :
  slot_cap (slot_set st l T) s = Some c' -> exists s0 c0, slot_cap st s0 = Some c0 /\ same_object c0 c'.
Proof.
  intros [->|H]%slot_set_caps; [by exists l, c|]. exists s, c'. split; [done|apply same_object_refl].
Qed.

Lemma reguarded_wf : build_wf (slot_set st l T).
Proof.
  split.
  - intros s c' [->|H]%slot_set_caps; [done|by eapply bw_caps].
  - intros s c' (s0 & c0 & H & (_ & Es & Ew & _)%same_object_fields)%reguarded_caps Hw Hs.
    apply slot_set_objects. rewrite Es in *. eapply (bw_tables st Hst s0); [done|congruence|done].
  - intros s c' j c'' (s0 & c0 & H & (Et & Es & _)%same_object_fields)%reguarded_caps Hty Hs Hj.
    rewrite Es in *. rewrite Et in Hty.
    rewrite slot_cap_norm, slot_set_other in Hj; [by eapply (bw_folio st Hst s0 c0)|done|cbn; lia|by eapply Hnf].
  - intros s1 c1 s2 c2 (s3 & c3 & H1 & (E1 & E2 & E3 & _)%same_object_fields)%reguarded_caps
      (s4 & c4 & H2 & (E4 & E5 & E6 & _)%same_object_fields)%reguarded_caps.
    rewrite E1, E2, E3, E4, E5, E6. by apply (bw_kind st Hst s3 c3 s4 c4).
Qed.

Context (Hw0 : table_width c = None).

Lemma reguarded_path l0 q d l1 :
  path st l0 q d l1 -> slot_ok l0 -> is_Some (slot_cap st l0) -> path (slot_set st l T) l0 q d l1.
Proof.
  induction 1 as [l0|l0 c0 wd idx q r l1 Hl0 Hw Hs Hi Hp IH]; intros Hok0 Hsome; [constructor|].
  assert (l <> l0) by (intros <-; congruence).
  apply path_step; [by rewrite slot_set_other|done..|].
  pose proof (sound_slots _ _ _ (bw_caps st Hst l0 c0 Hl0) Hw Hi).
  apply IH; [cbn; lia|by eapply table_slot].
Qed.

Lemma reguarded_keeps : keeps_except T st (slot_set st l T).
Proof.
  intros q d l1 c1 (q1 & d1 & Hp & Hl1 & -> & ->) Hc1.
  destruct (path_slot Hst Hp I ltac:(by eexists)) as [Hok1 _].
  assert (Hdec : l = l1 \/ l <> l1) by (destruct (decide (l = l1)); auto).
  destruct Hdec as [<-|Hne]; [right; congruence|left].
  exists l1, c1. split; [|apply same_object_refl].
  exists q1, d1. split; [by apply reguarded_path; [|done|eexists]|]. split; [|done].
  by rewrite slot_set_other.
Qed.
End reguarded.

Lemma claim_slot_step {rm cs st address A D mo l p r st' p'} :
  build_wf st -> located st p l -> path st root_slot (A / 2 ^ r) (D - r) l -> bits_ok A D -> 0 <= r <= D ->
  fits A p r -> claim_slot rm cs st address A mo p r = Ret (st', p') ->
  build_wf st' /\ exists T, slot_cap st' l = Some T /\
    (p' = in_slot l \/ p' = fake_slot T /\ mo = true) /\
    (mo = false -> c_type T = cap_void /\ keeps st st') /\
    (table_width T = None -> object_at st' A D l T /\ keeps_except T st st').
Proof.
  intros Hst Hloc Hp HA Hr [Hlow Hfk] H. destruct (id HA) as [HD HAr]. pose proof (pow2_le D 63 ltac:(lia)).
  unfold claim_slot in H. apply exec_bind_Ret in H as (c & Hpc & H).
  pose proof (located_cap st p l c Hloc Hpc) as Hl. pose proof (bw_caps st Hst l c Hl) as Hc.
  apply exec_bind_Ret in H as ([] & Hmo & H).
  assert (Hvoid : mo = false -> c_type c = cap_void).
  { intros ->. destruct (cap_type_eqb (c_type c) cap_void && (CAP_GUARD_BITS c =? 0)) eqn:Ev; [|done].
    by apply andb_true_iff in Ev as [Hv%cap_type_eqb_eq _]. }
  destruct (guard_range c Hc) as [HG _].
  rewrite extract_bits64_eq, Z.div_1_r in H by lia. cbn [mbind exec_bind asserted] in H.
  pose proof (Z.mod_pos_bound A (2 ^ r) ltac:(apply pow2_pos; lia)) as Hlr.
  rewrite i32_small, u64_small in H by lia.
  assert (Hat : forall st2 T, slot_cap st2 l = Some T -> CAP_GUARD_BITS T = r -> CAP_GUARD T = A mod 2 ^ r ->
                  path st2 root_slot (A / 2 ^ r) (D - r) l -> object_at st2 A D l T).
  { intros st2 T H1 H2 H3 H4. exists (A / 2 ^ r), (D - r). rewrite H2, H3.
    split; [done|]. split; [done|]. split; [apply mod_pow2_div; lia|lia]. }
  destruct p as [l'|o].
  - destruct (id Hloc) as (Hok & -> & _ & Hnf). case_if_in H.
    + destruct (CAP_ADDR_TRANS_SET_GUARD_SUBPAGE _ _ _ _ _) as [[] a] eqn:Ea; [|done]. cbn [check mbind exec_bind] in H.
      apply set_guard_sound in Ea as (Ha & Hag & Hab & _); [|lia..].
      apply exec_bind_Ret in H as (sa & _ & H). apply exec_bind_Ret in H as ([st3 p3] & H1 & H).
      apply exec_bind_Ret in H as (c3 & _ & H). apply exec_bind_Ret in H as ([] & _ & H).
      injection H as -> ->.
      destruct (copy_guard_ret Hpc Hc Hc Ha ltac:(rewrite Hag, Hab; lia) H1)
        as (T & ET & HTs & HT & HTg & HTb). rewrite pte_set_slot in ET. injection ET as -> ->.
      destruct (same_object_fields _ _ HT) as (Et & _ & Ew & _).
      split; [by apply (reguarded_wf st l c T)|]. exists T.
      split; [by apply slot_set_same; eexists|]. split; [by left|]. split.
      * intros Hf. specialize (Hvoid Hf). split; [congruence|]. apply (keeps_except_void T); [congruence|].
        apply (reguarded_keeps st l c T); try done. unfold table_width. by rewrite Hvoid.
      * rewrite Ew. intros Hw. split; [|by apply (reguarded_keeps st l c T)].
        apply Hat; [by apply slot_set_same; eexists|lia..|].
        apply (reguarded_path st l c T); try done; by eexists.
    + injection H as <- <-. split; [done|]. exists c. split; [done|]. split; [by left|].
      split; [intros Hf; split; [auto|apply keeps_refl]|]. intros _.
      split; [apply Hat; try done; lia|]. intros q d l1 c1 Ho Hc1. left. by apply (keeps_refl st q d l1 c1).
  - destruct (id Hloc) as (_ & Ho & Ht & Hb). injection Hpc as <-. specialize (Hfk eq_refl). subst r.
    assert (HG0 : CAP_GUARD o = 0).
    { destruct (guard_range o Hc) as [_ Hg]. rewrite Hb in Hg. cbn in Hg. lia. }
    rewrite Hb, HG0, Z.mod_1_r in H. cbn in H. injection H as <- <-.
    split; [done|]. exists o. split; [done|].
    assert (Em : mo = true) by (destruct mo; [done|by destruct Ht; apply Hvoid]).
    split; [by right|]. split; [congruence|]. intros _.
    split; [apply Hat; try done; by rewrite Z.mod_1_r|]. intros q d l1 c1 Ho1 Hc1. left. by apply (keeps_refl st q d l1 c1).
Qed.

Lemma object_found st A D l c :
  build_wf st -> object_at st A D l c -> bits_ok A D ->
  exists w, as_lookup_rel (lookup_fuel (of_bits A D)) st root_slot (of_bits A D) None as_lookup_want_slot
            = LK_slot l w.
Proof.
  intros Hst (q & d & Hp & Hl & -> & ->) HA.
  pose proof (bw_caps st Hst l c Hl) as Hc. pose proof (guard_bits_range c Hc).
  destruct (path_range Hst Hp) as [Hd Hq]. destruct (id HA) as [HD _].
  pose proof (slot_found st q d l c (CAP_GUARD_BITS c) Hst Hp Hl ltac:(split; lia) ltac:(lia)) as Hs.
  cbv zeta in Hs. destruct (Z.eqb_spec (CAP_GUARD_BITS c) 0) as [E|E]; [|exact Hs].
  destruct (guard_range c Hc) as [HG HGB]. rewrite E in *. cbn in HGB.
  replace (CAP_GUARD c) with 0 in * by lia. by rewrite Z.mul_1_r, Z.add_0_r.
Qed.

(** ** The code's own checks *)

Lemma bind_ext {A B} (m : exec A) (k k' : A -> exec B) :
  (forall a, m = Ret a -> k a = k' a) -> m ≫= k = m ≫= k'.
Proof. intros H. destruct m as [a|f]; [by apply H|done]. Qed.

Lemma bind_ret {A B} (m : exec A) a (k : A -> exec B) : m = Ret a -> m ≫= k = k a.
Proof. by intros ->. Qed.

Lemma bind_ext2 {A B} (m m' : exec A) (k k' : A -> exec B) :
  m = m' -> (forall a, m' = Ret a -> k a = k' a) -> m ≫= k = m' ≫= k'.
Proof. intros ->. apply bind_ext. Qed.

Lemma addr_extend_depth q d x w a :
  bits_ok q d -> addr_extend (of_bits q d) x w = Some a -> d + w <= 63.
Proof.
  intros Hq. unfold addr_extend. rewrite addr_depth_bits by done.
  unfold assertb at 1. destruct (0 <=? w); cbn [mbind option_bind]; [|done].
  unfold assertb at 1, ADDR_BITS. destruct (Z.leb_spec (d + w) 63); [done|]. by cbn.
Qed.

Lemma slot_found_here st q d l a :
  build_wf st -> path st root_slot q d l -> is_Some (slot_cap st l) -> d <= 63 -> a = of_bits q d ->
  exists w, as_lookup_rel (lookup_fuel a) st root_slot a None as_lookup_want_slot = LK_slot l w.
Proof.
  intros Hst Hp [c Hl] Hd ->. destruct (path_range Hst Hp) as [Hd0 Hq].
  pose proof (slot_found st q d l c 0 Hst Hp Hl ltac:(split; lia) ltac:(lia)) as Hs.
  cbn in Hs. by rewrite Z.add_0_r in Hs.
Qed.

Lemma check_lookup_found st a l w :
  as_lookup_rel (lookup_fuel a) st root_slot a None as_lookup_want_slot = LK_slot l w ->
  check_lookup true st a (in_slot l) = Ret tt.
Proof. intros H. unfold check_lookup. rewrite H. by rewrite bool_decide_eq_true_2. Qed.

Section checks.
Context (rm_cap_copy : Z) (as_check_shadow : addr -> cap -> bool).
Context (allocate_page_table : addr_space -> addr -> addr_space * (cap * addr)).
Context (Halloc : allocates allocate_page_table) (Hcs : forall a c, as_check_shadow a c = true).
Context (A D : Z) (HA : bits_ok A D).

(** The pivot is found. *)
Lemma insert_table_checks st l p c pte_addr r gc :
  build_wf st -> located st p l -> slot_cap st l = Some c ->
  path st root_slot (A / 2 ^ r) (D - r) l -> 0 <= r <= D ->
  prefix_agrees A r c (gc_gbits gc) -> 0 < gc_cappage_width gc <= 8 ->
  gc_gbits gc + gc_cappage_width gc <= CAP_GUARD_BITS c ->
  insert_table rm_cap_copy as_check_shadow allocate_page_table true st (of_bits A D) p c pte_addr r gc true =
  insert_table rm_cap_copy as_check_shadow allocate_page_table false st (of_bits A D) p c pte_addr r gc true.
Proof.
  intros Hst Hloc Hl Hp Hr (Hg & _ & Eg) Hw Hgw. unfold insert_table. apply bind_ext. intros [st2 [[p2 pv]|]] H; [|done].
  destruct (located_in_slot st p l c Hloc Hl ltac:(left; lia)) as [-> Hnf].
  destruct (replace_pte_pivots rm_cap_copy allocate_page_table Halloc st _ l c pte_addr r gc st2 _
              Hst (proj1 Hloc) Hl Hnf ltac:(lia) Hw Hgw H)
    as (Hst2 & -> & P & T & q & i & pa & va & V & HPb & HPg & -> & Hpa & Hva).
  set (g := gc_gbits gc) in *. set (w := gc_cappage_width gc) in *.
  rewrite addr_chop_bits in Hpa by (done || lia). injection Hpa as <-.
  pose proof (bits_ok_drop A D (r - g) HA ltac:(lia)) as Hok.
  pose proof (addr_extend_depth _ _ _ _ _ Hok Hva) as Hd.
  rewrite addr_extend_bits in Hva by (try done; try lia; apply (pv_i V)).
  injection Hva as <-.
  pose proof (pv_pte V) as HlP. pose proof (pv_pivot V) as HlT.
  assert (Hp2 : path st2 root_slot (A / 2 ^ r) (D - r) l)
    by (apply (path_pivoted Hst Hst2 V Hp); [done|by eexists]).
  pose proof (path_one st2 l P w i HlP (pv_width V)
    ltac:(rewrite (pv_shadow V); apply V) (pv_i V)) as Ho.
  rewrite (pv_shadow V), (pv_base V), Z.add_0_l, HPb in Ho.
  pose proof (path_app Hst2 Hp2 Ho) as Hp3.
  destruct (slot_found_here st2 _ _ _ (of_bits (A / 2 ^ (r - g) * 2 ^ w + i) (D - (r - g) + w)) Hst2 Hp3
              ltac:(by eexists) ltac:(lia)) as [w' Hw'].
  { f_equal; [|lia]. rewrite (prefix_split A r g), <- Eg, HPg by lia. apply append_assoc; lia. }
  unfold check_pivot. rewrite (check_lookup_found _ _ _ _ Hw'). unfold AS_CHECK_SHADOW.
  cbn [mbind exec_bind pte_cap]. rewrite HlT, HlP. cbn [mbind exec_bind access]. by rewrite !Hcs.
Qed.

Lemma descend_checks st l p r :
  build_wf st -> located st p l -> path st root_slot (A / 2 ^ r) (D - r) l -> 0 <= r <= D ->
  descend rm_cap_copy as_check_shadow allocate_page_table true st (of_bits A D) A D p r =
  descend rm_cap_copy as_check_shadow allocate_page_table false st (of_bits A D) A D p r.
Proof.
  intros Hst Hloc Hp Hr. destruct HA as [HD HAr]. pose proof (pow2_le D 63 ltac:(lia)) as HD63.
  unfold descend. apply bind_ext. intros c Hpc. apply bind_ext. intros pte_addr _.
  apply bind_ext. intros [] _. apply bind_ext. intros ag _.
  pose proof (located_cap st p l c Hloc Hpc) as Hl. pose proof (bw_caps st Hst l c Hl) as Hc.
  destruct ((CAP_GUARD_BITS c =? r) && _); [done|]. destruct (is_table c && _ && _); [done|].
  destruct (cap_type_eqb _ _ && _) eqn:Ev; apply bind_ext; intros x Hx.
  - apply andb_true_iff in Ev as [_ E0%Z.eqb_eq].
    case_if; [done|]. apply bind_ext. intros gc Hgc%table_shape_ret. apply bind_ext2; [|done].
    unfold insert_table. apply bind_ext. intros [st2 [[p2 pv]|]] H; [|done].
    by apply replace_pte_no_pivot in H as [_ ?]; [..|lia|lia].
  - apply common_guard_agrees in Hx; [|done|lia|lia].
    apply bind_ext. intros gc Hgc%table_shape_ret. apply bind_ext2; [|done].
    apply (prefix_agrees_le _ _ _ _ (gc_gbits gc)) in Hx; [|lia].
    apply (insert_table_checks st l); done || lia.
Qed.

Lemma build_loop_checks fuel st l p r :
  build_wf st -> located st p l -> path st root_slot (A / 2 ^ r) (D - r) l -> 0 <= r <= D ->
  build_loop rm_cap_copy as_check_shadow allocate_page_table true fuel st (of_bits A D) A D p r =
  build_loop rm_cap_copy as_check_shadow allocate_page_table false fuel st (of_bits A D) A D p r.
Proof.
  revert st l p r. induction fuel as [|fuel IH]; intros st l p r Hst Hloc Hp Hr; cbn [build_loop]; [done|].
  apply bind_ext2; [by eapply descend_checks|]. intros n En.
  pose proof (descend_step rm_cap_copy as_check_shadow allocate_page_table false Halloc A D HA
                st l p r n Hst Hloc Hp Hr En) as Hn.
  destruct n as [|st'|st' p' r']; [done..|]. destruct Hn as (Hst' & _ & Hp' & c & Hl & Hpc & Hg).
  apply bind_ext. intros [p2 r2] Ei.
  destruct (index_table_step as_check_shadow A D HA st' _ l p' r r' c p2 r2 Hst' Hl Hpc Hp'
              (proj2 Hr) Hg Ei) as (Hr2 & l2 & Hloc2 & Hp2).
  pose proof (guard_bits_range c (bw_caps st' Hst' l c Hl)). destruct Hg as (_ & Hr' & _).
  case_if; [|done]. apply (IH st' l2); done || lia.
Qed.
End checks.

(** ** A slot that is there already *)

Section reuse.
Context (rm_cap_copy : Z) (as_check_shadow : addr -> cap -> bool).
Context (allocate_page_table : addr_space -> addr -> addr_space * (cap * addr)) (self_check : bool).
Context (Hcs : forall a c, as_check_shadow a c = true).
Context (A D : Z) (HA : bits_ok A D).

Lemma path_zero st l q l' : build_wf st -> path st l q 0 l' -> l' = l.
Proof.
  intros Hst H. inversion H as [|? c wd idx q0 r ? Hl Hw Hs Hi Hp]; [done|].
  pose proof (bw_caps st Hst l c Hl) as Hc. pose proof (sound_width _ _ Hc Hw).
  pose proof (guard_bits_range c Hc). pose proof (path_range Hst Hp). lia.
Qed.

(** The guard of a page table on the path matches. *)
Lemma descend_matches st p l c wd r :
  build_wf st -> located st p l -> slot_cap st l = Some c -> table_width c = Some wd ->
  CAP_GUARD_BITS c + wd <= r <= D -> A mod 2 ^ r / 2 ^ (r - CAP_GUARD_BITS c) = CAP_GUARD c ->
  descend rm_cap_copy as_check_shadow allocate_page_table self_check st (of_bits A D) A D p r =
  Ret (Index st p (r - CAP_GUARD_BITS c)).
Proof.
  intros Hst Hloc Hl Hw Hr HG. destruct HA as [HD HAr]. pose proof (pow2_le D 63 ltac:(lia)).
  pose proof (bw_caps st Hst l c Hl) as Hc. pose proof (sound_width _ _ Hc Hw).
  pose proof (guard_bits_range c Hc).
  unfold descend. rewrite (located_pte_cap st p l c Hloc Hl). cbn [mbind exec_bind].
  rewrite addr_chop_bits by (done || lia). cbn [mbind exec_bind asserted].
  unfold AS_CHECK_SHADOW. rewrite Hcs. cbn [check mbind exec_bind].
  rewrite (proj2 (Z.leb_le _ _)), extract_top, HG by lia. cbn [mbind exec_bind asserted].
  rewrite (proj2 (Z.eqb_neq _ r)), Z.eqb_refl by lia. cbn [andb].
  assert (Et : is_table c = true) by (unfold is_table; unfold table_width in Hw; by destruct (c_type c)).
  rewrite Et. cbn [andb]. by rewrite (proj2 (Z.ltb_lt _ _)) by lia.
Qed.

Lemma index_matches st p l c wd r :
  build_wf st -> slot_ok l -> slot_cap st l = Some c -> pte_cap st p = Ret c -> table_width c = Some wd -> c_shadow c <> 0 ->
  wd <= r <= D ->
  let l2 := obj_slot (c_shadow c) (table_base c + A mod 2 ^ r / 2 ^ (r - wd)) in
  (forall o, slot_cap st l2 = Some o -> c_type c = cap_folio -> c_type o <> cap_void) ->
  exists p2, index_table as_check_shadow st (of_bits A D) A p r = Ret (p2, r - wd).
Proof.
  intros Hst Hok Hl Hpc Hw Hs Hr l2 Hf. destruct HA as [HD HAr]. pose proof (pow2_le D 63 ltac:(lia)).
  pose proof (bw_caps st Hst l c Hl) as Hc. pose proof (sound_width _ _ Hc Hw).
  pose proof (low_div A r (r - wd) ltac:(lia)) as Hi. replace (r - (r - wd)) with wd in Hi by lia.
  destruct (table_slot st l c wd _ Hst Hl Hw Hs Hi) as [o Ho]. fold l2 in Ho.
  assert (Hd : exists p2, do_index st c (A mod 2 ^ r / 2 ^ (r - wd)) = Ret p2 /\
                 is_fake p2 = cap_type_eqb (c_type c) cap_folio /\ pte_cap st p2 = Ret o).
  { unfold do_index, is_table. rewrite (proj2 (Z.eqb_neq _ _) Hs).
    unfold table_width in Hw. unfold table_base in l2.
    destruct (c_type c) eqn:Et; try discriminate; cbn [check mbind exec_bind negb].
    1,2: eexists; split; [done|]; split; [done|]; cbn [pte_cap]; fold l2; by rewrite Ho.
    injection Hw as <-. rewrite (proj2 (andb_true_iff _ _)) by (unfold FOLIO_OBJECTS; split; lia).
    cbn [check mbind exec_bind].
    change (obj_slot (c_shadow c) (A mod 2 ^ r / 2 ^ (r - 7))) with l2. rewrite Ho.
    cbn [access mbind exec_bind].
    destruct (cap_type_eqb (c_type o) cap_void) eqn:Ev; [|by eexists].
    apply cap_type_eqb_eq in Ev. by destruct (Hf o Ho eq_refl). }
  destruct Hd as (p2 & Hd & Hfake & Hp2). exists p2.
  assert (Hwidth : (match c_type c with
                    | cap_cappage | cap_rcappage => Ret (CAP_SUBPAGE_SIZE_LOG2 c)
                    | cap_folio => Ret FOLIO_OBJECTS_LOG2
                    | _ => Crash panicked
                    end) = Ret wd).
  { unfold table_width in Hw. destruct (c_type c); try discriminate; by injection Hw as <-. }
  unfold index_table. rewrite Hpc, (bind_ret (Ret c) c), (bind_ret _ _ _ Hwidth) by done. rewrite (proj2 (Z.ltb_ge _ _)), extract_top by lia.
  cbn [mbind exec_bind asserted]. rewrite Hd. cbn [mbind exec_bind]. rewrite Hfake, eqb_reflx.
  cbn [check mbind exec_bind]. case_if; [|done].
  rewrite Hp2. cbn [mbind exec_bind]. unfold AS_CHECK_SHADOW. by rewrite Hcs.
Qed.

Lemma descend_free st l c r :
  build_wf st -> slot_cap st l = Some c -> c_type c = cap_void -> CAP_GUARD_BITS c = 0 ->
  A mod 2 ^ r < 2 ^ 22 -> 0 <= r <= D ->
  descend rm_cap_copy as_check_shadow allocate_page_table self_check st (of_bits A D) A D (in_slot l) r = Ret Break.
Proof.
  intros Hst Hl Hv HB Hlow Hr. destruct HA as [HD HAr]. pose proof (pow2_le D 63 ltac:(lia)).
  pose proof (Z.mod_pos_bound A (2 ^ r) ltac:(apply pow2_pos; lia)) as Hm.
  unfold descend. cbn [pte_cap]. rewrite Hl. cbn [access mbind exec_bind].
  rewrite addr_chop_bits by (done || lia). cbn [mbind exec_bind asserted].
  unfold AS_CHECK_SHADOW. rewrite Hcs. cbn [check mbind exec_bind]. rewrite HB.
  rewrite (proj2 (Z.leb_le _ _)), extract_top by lia. cbn [mbind exec_bind asserted].
  case_if; [done|]. unfold is_table. rewrite Hv. change (cap_type_eqb cap_void cap_void) with true.
  cbn [andb Z.eqb]. rewrite extract_bits64_eq, Z.div_1_r by lia. cbn [mbind exec_bind asserted].
  pose proof (Z.mod_le A (2 ^ r) ltac:(lia) ltac:(lia)).
  by rewrite (proj2 (Z.leb_le _ _)) by (apply L4_msb64_le; unfold CAP_ADDR_TRANS_GUARD_SUBPAGE_BITS; lia).
Qed.

Lemma build_loop_reuses fuel st l1 q d l p r c :
  build_wf st -> path st l1 q d l -> slot_cap st l = Some c -> c_type c = cap_void ->
  CAP_GUARD_BITS c = 0 -> A mod 2 ^ r < 2 ^ 22 -> not_in_folio st l -> located st p l1 ->
  0 <= r -> d + r <= D -> A mod 2 ^ (d + r) / 2 ^ r = q -> d + r < Z.of_nat fuel ->
  build_loop rm_cap_copy as_check_shadow allocate_page_table self_check fuel st (of_bits A D) A D p (d + r)
  = Ret (st, Some (in_slot l, r)).
Proof.
  intros Hst Hp Hl Hv HB Hlow Hnf. revert p fuel.
  induction Hp as [l|l1 c1 wd idx q r1 l Hl1 Hw Hs Hi Hp IH]; intros p fuel Hloc Hr HrD E Hf.
  - destruct fuel as [|fuel]; [lia|]. cbn [build_loop]. rewrite (proj1 (located_in_slot st p l c Hloc Hl (or_intror Hv))).
    by rewrite descend_free with (c := c) by (done || lia).
  - pose proof (bw_caps st Hst l1 c1 Hl1) as Hc. pose proof (sound_width _ _ Hc Hw) as Hwd.
    pose proof (guard_bits_range c1 Hc) as Hgb. pose proof (path_range Hst Hp) as [Hr1 Hq].
    set (R := CAP_GUARD_BITS c1 + wd + r1 + r) in *.
    destruct (first_step A R (CAP_GUARD c1) (CAP_GUARD_BITS c1) wd idx r1 q (CAP_GUARD_BITS c1 + wd + r1)
                ltac:(lia) ltac:(lia) Hr1 Hi Hq eq_refl ltac:(lia)) as (E1 & E2 & E3).
    { by replace (R - (CAP_GUARD_BITS c1 + wd + r1)) with r by lia. }
    destruct fuel as [|fuel]; [lia|]. cbn [build_loop].
    rewrite (descend_matches st p l1 c1 wd R Hst Hloc Hl1 Hw) by (done || lia). cbn [mbind exec_bind].
    pose proof (located_pte_cap st p l1 c1 Hloc Hl1) as Hpc.
    destruct (index_matches st p l1 c1 wd (R - CAP_GUARD_BITS c1) Hst (proj1 Hloc) Hl1 Hpc Hw Hs ltac:(lia))
      as [p2 Ei].
    { rewrite E2. intros o Ho Hf1 Hov. inversion Hp; subst; [by eapply (Hnf l1 c1)|].
      match goal with H1 : slot_cap st (obj_slot (c_shadow c1) _) = Some ?x, H2 : table_width ?x = Some _ |- _ =>
        rewrite H1 in Ho; injection Ho as ->; unfold table_width in H2; by rewrite Hov in H2 end. }
    rewrite Ei. cbn [mbind exec_bind].
    destruct (index_table_at as_check_shadow A D HA st _ l1 p (R - CAP_GUARD_BITS c1) c1 _ _ Hst Hl1 Hpc ltac:(lia) Ei)
      as (w & Hw' & _ & _ & _ & Hloc2).
    rewrite Hw in Hw'. injection Hw' as <-. rewrite E2 in Hloc2.
    replace (R - CAP_GUARD_BITS c1 - wd) with (r1 + r) in * by lia. case_if.
    + apply IH; try done; try lia. by replace r with (r1 + r - r1) at 2 by lia.
    + assert (r1 = 0) as -> by lia. pose proof (path_zero _ _ _ _ Hst Hp) as El. rewrite <- El in Hloc2.
      by rewrite (proj1 (located_in_slot st p2 l c Hloc2 Hl (or_intror Hv))).
Qed.
Lemma of_bits_not_void q d : bits_ok q d -> ADDR_IS_VOID (of_bits q d) = false.
Proof.
  intros H. destruct (proj2 (addr_wf_bits (of_bits q d)) ltac:(by exists q, d)) as [Hp _].
  unfold ADDR_IS_VOID, ADDR_EQ. change (raw ADDR_VOID) with 0. apply Z.eqb_neq. lia.
Qed.

Lemma slot_set_id st l c : slot_cap st l = Some c -> slot_set st l c = st.
Proof.
  destruct st as [root objs], l as [|p i]; cbn; [congruence|]. intros H. f_equal.
  destruct (objs !! p) as [o|] eqn:E; [|done]. cbn in H.
  apply map_eq. intros p'. destruct (decide (p = p')) as [<-|Hne].
  - rewrite lookup_alter_eq, E. cbn. by rewrite list_insert_id.
  - by rewrite lookup_alter_ne.
Qed.

Lemma set_guard_whole a0 g r :
  0 <= r < 64 -> 0 <= g < 2 ^ r -> g < 2 ^ 22 ->
  CAP_ADDR_TRANS_SET_GUARD_SUBPAGE a0 g r 0 1 = (true, mk_cat g 0 r).
Proof.
  intros Hr Hg Hg22. pose proof (pow2_le r 63 ltac:(lia)).
  assert (Hv : set_guard_subpage_valid g r 0 1 = true).
  { apply set_guard_subpage_valid_iff; [lia..|]. exists 0.
    pose proof (proj2 (L4_msb_le g r ltac:(lia) ltac:(lia)) ltac:(lia)).
    pose proof (proj2 (L4_msb_le g 22 ltac:(lia) ltac:(lia)) ltac:(lia)). lia. }
  unfold CAP_ADDR_TRANS_SET_GUARD_SUBPAGE. rewrite Hv. change (L4_msb (u32 1) - 1) with 0.
  rewrite Z.shiftl_0_r, Z.lor_0_r. unfold CAP_ADDR_TRANS_SUBPAGES_BITS, CAP_ADDR_TRANS_GDEPTH_BITS, CAP_ADDR_TRANS_GUARD_SUBPAGE_BITS.
  by rewrite (wrap_small 4), (wrap_small 6), (wrap_small 22) by lia.
Qed.

Lemma claim_slot_free st mo l c r :
  rm_cap_copy = 0 -> build_wf st -> slot_ok l -> slot_cap st l = Some c -> c_type c = cap_void ->
  c_addr_trans c = CAP_ADDR_TRANS_VOID -> 0 <= r <= D -> A mod 2 ^ r < 2 ^ 22 ->
  claim_slot rm_cap_copy as_check_shadow st (of_bits A D) A mo (in_slot l) r
  = Ret (slot_set st l (cap_set_addr_trans c (mk_cat (A mod 2 ^ r) 0 r)), in_slot l).
Proof.
  intros Hrm Hst Hok Hl Hv Ha Hr Hlow. destruct (id HA) as [HD HAr]. pose proof (pow2_le D 63 ltac:(lia)).
  pose proof (Z.mod_pos_bound A (2 ^ r) ltac:(apply pow2_pos; lia)) as Hm.
  assert (HB : CAP_GUARD_BITS c = 0) by (unfold CAP_GUARD_BITS; by rewrite Ha).
  unfold claim_slot. cbn [pte_cap]. rewrite Hl. cbn [access mbind exec_bind]. rewrite Hv, HB.
  change (cap_type_eqb cap_void cap_void && (0 =? 0)) with true. cbn [mbind exec_bind].
  rewrite extract_bits64_eq, Z.div_1_r by lia. cbn [mbind exec_bind asserted].
  rewrite i32_small by lia.
  destruct (Z.eqb_spec r 0) as [->|Hr0].
  { rewrite Z.mod_1_r. unfold CAP_GUARD. rewrite Ha. cbn.
    rewrite slot_set_id; [done|]. rewrite Hl. f_equal. destruct c. cbn in *. by subst. }
  cbn [negb orb].
  rewrite set_guard_whole by lia. cbn [check mbind exec_bind].
  rewrite addr_chop_bits by done. cbn [asserted mbind exec_bind].
  pose proof (of_bits_not_void _ _ (bits_ok_drop A D r HA Hr)) as Hnv.
  set (g := A mod 2 ^ r) in *.
  assert (Hx : cap_copy_x (fun c => c) rm_cap_copy false (of_bits (A / 2 ^ r) (D - r)) (of_bits (A / 2 ^ r) (D - r))
                 c c CAP_COPY_COPY_ADDR_TRANS_GUARD (CAP_PROPERTIES OBJECT_POLICY_DEFAULT (mk_cat g 0 r))
               = Some (mk_outcome true false (cap_set_addr_trans c (mk_cat g 0 r)))).
  { unfold cap_copy_x. change (copy_subpage c _ _) with (Some (CAP_SUBPAGE c, CAP_SUBPAGES c)).
    unfold CAP_SUBPAGE, CAP_SUBPAGES. rewrite Ha. cbv beta iota zeta.
    change (CAP_ADDR_TRANS_SUBPAGE CAP_ADDR_TRANS_VOID) with 0.
    change (CAP_ADDR_TRANS_SUBPAGES CAP_ADDR_TRANS_VOID) with 1.
    change (copy_guard c c _ _) with (i32 (CAP_ADDR_TRANS_GUARD (mk_cat g 0 r)), r).
    unfold CAP_ADDR_TRANS_GUARD. cbn [guard_subpage subpages_log2]. rewrite Z.shiftr_0_r, i32_small by lia.
    cbn [andb p_addr_trans]. rewrite set_guard_whole by lia. cbn [negb]. rewrite Hnv, Hrm. done. }
  unfold copy_to. cbn [pte_cap]. rewrite Hl. cbn [access mbind exec_bind]. rewrite Hx.
  cbn [asserted mbind exec_bind co_ok check co_target]. rewrite pte_set_slot. cbn [mbind exec_bind pte_cap].
  rewrite slot_set_same by (by eexists). cbn [access mbind exec_bind]. unfold AS_CHECK_SHADOW. by rewrite Hcs.
Qed.

(** ** A free slot whose guard would be too wide *)

(** The root is free, and the rest of the address does not fit in its guard. *)
Lemma descend_void st :
  c_type (as_root st) = cap_void -> CAP_GUARD_BITS (as_root st) = 0 -> 2 ^ 22 <= A ->
  descend rm_cap_copy as_check_shadow allocate_page_table self_check st (of_bits A D) A D (in_slot root_slot) D =
  gc ← table_shape A D D D D;
  '(st, r) ← insert_table rm_cap_copy as_check_shadow allocate_page_table self_check st (of_bits A D)
               (in_slot root_slot) (as_root st) (of_bits (A / 2 ^ D) (D - D)) D gc false;
  Ret (match r with Some (p, remaining) => Index st p remaining | None => NoMemory st end).
Proof.
  intros Hv HB HA22. destruct (id HA) as [HD HAr]. pose proof (pow2_le D 63 ltac:(lia)).
  unfold descend. cbn [pte_cap slot_cap access mbind exec_bind].
  rewrite addr_chop_bits by (done || lia). cbn [mbind exec_bind asserted].
  unfold AS_CHECK_SHADOW. rewrite Hcs. cbn [check mbind exec_bind]. rewrite HB.
  rewrite (proj2 (Z.leb_le _ _)), extract_top by lia. cbn [mbind exec_bind asserted].
  rewrite (proj2 (Z.eqb_neq 0 D)) by (intros <-; cbn in HAr; lia). unfold is_table. rewrite Hv.
  change (cap_type_eqb cap_void cap_void) with true. cbn [andb Z.eqb].
  rewrite extract_bits64_eq, Z.div_1_r, Z.mod_small by lia. cbn [mbind exec_bind asserted].
  case_if; [|done]. apply L4_msb64_le in E; unfold CAP_ADDR_TRANS_GUARD_SUBPAGE_BITS in *; lia.
Qed.

Lemma replace_pte_free alloc st address p c pte_addr remaining gc pt_addr :
  CAP_GUARD_BITS c = 0 -> 0 <= gc_gbits gc -> 0 < gc_cappage_width gc ->
  addr_chop address (remaining - gc_gbits gc) = Some pt_addr ->
  replace_pte rm_cap_copy alloc st address p c pte_addr remaining gc false =
  let '(st', (rt_cap, _)) := alloc st pt_addr in
  if cap_type_eqb (c_type rt_cap) cap_void then Ret (st', None) else Crash assertion_failed.
Proof.
  intros HB Hg Hw Hp. unfold replace_pte. rewrite Hp. cbn [asserted mbind exec_bind].
  destruct (alloc st pt_addr) as [st1 [rc rs]]. case_if; [done|]. rewrite HB.
  unfold extract_bits_inv, extract_bits. rewrite (proj2 (Z.eqb_neq _ 0)) by lia.
  by rewrite (proj2 (Z.leb_gt 0 (_ - _ + 1))) by lia.
Qed.

Lemma insert_free_fails st c :
  CAP_GUARD_BITS c = 0 -> 2 ^ 22 <= A ->
  exists gc, table_shape A D D D D = Ret gc /\ exists pt_addr,
    insert_table rm_cap_copy as_check_shadow allocate_page_table self_check st (of_bits A D)
      (in_slot root_slot) c (of_bits (A / 2 ^ D) (D - D)) D gc false =
    let '(st', (rt_cap, _)) := allocate_page_table st pt_addr in
    if cap_type_eqb (c_type rt_cap) cap_void then Ret (st', None) else Crash assertion_failed.
Proof.
  intros HB HA22. destruct (id HA) as [HD HAr]. pose proof (pow2_le D 63 ltac:(lia)).
  assert (Hs : exists gc, table_shape A D D D D = Ret gc).
  { unfold table_shape. rewrite extract_top by lia. cbn [asserted mbind exec_bind].
    rewrite Z.sub_diag, Z.div_1_r, Z.mod_small by lia.
    assert (Hm1 : ~ L4_msb64 A <= 22) by (intros E; apply L4_msb64_le in E; lia).
    assert (Hm2 : L4_msb64 A <= D) by (apply L4_msb64_le; lia).
    unfold CAP_ADDR_TRANS_GUARD_SUBPAGE_BITS, ADDR_BITS. rewrite (proj2 (Z.ltb_lt 22 _)) by lia.
    replace (D + 63 - D) with 63 by lia. set (g := D - (L4_msb64 A - 22)).
    assert (Hpre : gbits_pre 63 D g) by (unfold gbits_pre, g; lia).
    pose proof (as_compute_gbits_fits 63 D g Hpre) as Hf.
    destruct (as_compute_gbits_cappage 63 D g) as [gc|]; [|by destruct Hf as [[_ Hgap] _]].
    destruct Hf as (_ & Hg & Hw & Ht). exists gc. unfold CAPPAGE_SLOTS_LOG2, PAGESIZE_LOG2, gbits_pre in *.
    cbn [asserted mbind exec_bind andb].
    repeat match goal with
    | |- context [?a <? ?b] => rewrite (proj2 (Z.ltb_lt a b)) by lia
    | |- context [?a <=? ?b] => rewrite (proj2 (Z.leb_le a b)) by lia
    | |- context [check _ _] => cbn [andb check mbind exec_bind]
    end. done. }
  destruct Hs as [gc Hgc]. exists gc. split; [done|]. apply table_shape_ret in Hgc as (Hg & Hw & Ht).
  exists (of_bits (A / 2 ^ (D - gc_gbits gc)) (D - (D - gc_gbits gc))). unfold insert_table.
  erewrite replace_pte_free; [|done|lia|lia|apply addr_chop_bits; done || lia].
  destruct (allocate_page_table st _) as [st1 [rc rs]]. by case_if.
Qed.
End reuse.

Lemma address_word A D :
  bits_ok A D ->
  Z.shiftr (addr_prefix (of_bits A D)) (ADDR_BITS - addr_depth (of_bits A D)) = A /\
  addr_depth (of_bits A D) = D.
Proof.
  intros HA. destruct (id HA) as [HD _]. rewrite addr_depth_bits, addr_prefix_bits by done.
  unfold ADDR_BITS. pose proof (pow2_pos (63 - D) ltac:(lia)).
  by rewrite Z.shiftr_div_pow2, Z.div_mul by lia.
Qed.

Lemma start_path st A D :
  bits_ok A D ->
  located st (in_slot root_slot) root_slot /\ path st root_slot (A / 2 ^ D) (D - D) root_slot.
Proof.
  intros [HD HA]. split; [|rewrite Z.sub_diag, Z.div_small by done; constructor].
  split; [done|]. split; [done|]. split; [by eexists|]. by intros l0 c0 j _ _ _.
Qed.

(** ** Properties *)

Section as_build.
Context (rm_cap_copy : Z) (as_check_shadow : addr -> cap -> bool).
Context (allocate_page_table : addr_space -> addr -> addr_space * (cap * addr)) (self_check : bool).
Context (Halloc : allocates allocate_page_table).

(** C5: building an address space at an address that is not void, with or
    without leave to overwrite what is there.  The call may fail: by an assertion
    or a panic, for instance when the slot is taken and may not be overwritten;
    but it ends, within one iteration for each bit of the address and one more.
    When it returns no slot for lack of memory, every object is still at its
    address.  When it returns a slot, the address space is well-formed, and:
    without leave to overwrite, the slot is void and every object is still at its
    address; and unless what the slot holds is a page table, a lookup of the
    address finds that very slot, at that address, and every object but the one
    in it is still at its address.  Where the address ends at an object of a
    folio and may be overwritten, the code returns, instead of the slot, a local
    copy of it (and only without its checks of itself).  Conditions: the address
    space is well-formed ([build_wf]), and the callback returns a fresh page
    table of void capabilities or nothing ([allocates]). *)
Theorem as_build_finds_slot fuel st address may_overwrite :
  build_wf st -> addr_wf address -> addr_depth address < Z.of_nat fuel ->
  match as_build rm_cap_copy as_check_shadow allocate_page_table self_check fuel st address may_overwrite with
  | Ret (st', None) => build_wf st' /\ keeps st st'
  | Ret (st', Some p) =>
      build_wf st' /\ exists l T, slot_cap st' l = Some T /\
        (p = in_slot l \/ p = fake_slot T /\ may_overwrite = true /\ self_check = false) /\
        (may_overwrite = false -> c_type T = cap_void /\ keeps st st') /\
        (table_width T = None ->
           object_at st' (addr_prefix address / 2 ^ (63 - addr_depth address)) (addr_depth address) l T /\
           keeps_except T st st' /\
           exists w, as_lookup_rel (lookup_fuel address) st' root_slot address None as_lookup_want_slot = LK_slot l w)
  | Crash f => f <> out_of_fuel
  end.
Proof.
  intros Hst (A & D & HA & ->)%addr_wf_bits Hf. destruct (id HA) as [HD HAr].
  pose proof (pow2_pos (63 - D) ltac:(lia)).
  rewrite addr_depth_bits in * by done. rewrite addr_prefix_bits by done.
  rewrite Z.div_mul by lia. destruct (address_word A D HA) as [E1 E2].
  unfold as_build. rewrite E1, E2.
  destruct (negb _); cbn [check mbind exec_bind]; [|done].
  destruct (start_path st A D HA) as [Hloc Hp].
  pose proof (build_loop_step rm_cap_copy as_check_shadow allocate_page_table self_check Halloc A D HA fuel
                st root_slot (in_slot root_slot) D Hst Hloc Hp ltac:(lia)) as Hb.
  destruct (build_loop _ _ _ _ _ _ _ _ _ _ _) as [[st1 res]|f]; cbn [mbind exec_bind]; [|by apply Hb].
  destruct Hb as (Hst1 & Hk1 & Hres). destruct res as [[p r]|]; [|done].
  destruct Hres as (Hr & Hfits & l & Hloc1 & Hp1).
  destruct (finish _ _ _ _ _ _ _ _ _) as [[st2 p2]|f] eqn:Ef; cbn [mbind exec_bind].
  2: { intros ->. by apply finish_fueled in Ef. }
  unfold finish in Ef. apply exec_bind_Ret in Ef as ([st3 p3] & Ef & E3).
  apply exec_bind_Ret in E3 as ([] & Hck & E3). injection E3 as <- <-.
  destruct (claim_slot_step Hst1 Hloc1 Hp1 HA Hr Hfits Ef) as (Hst3 & T & Hl & Hp3 & Hno & Hat).
  split; [done|]. exists l, T. split; [done|]. split.
  { destruct Hp3 as [->|[-> Hmo]]; [by left|right]. split; [done|]. split; [done|].
    unfold check_lookup in Hck. destruct self_check; [|done]. by destruct (as_lookup_rel _ _ _ _ _ _). }
  split.
  - intros Hmo. destruct (Hno Hmo) as [Hv Hk]. split; [done|]. by eapply keeps_trans.
  - intros Hw. destruct (Hat Hw) as [Ho Hk]. split; [done|]. split; [by eapply keeps_then_except|].
    by apply (object_found _ A D l T).
Qed.

(** C24: the results that the code looks up again to check itself: with and without
    the checks under [#ifndef NDEBUG] a call does the same, but for one case:
    where the address ends at an object of a folio and may be overwritten, the
    check fails.  Conditions: the address space is well-formed ([build_wf]), the
    callback returns a fresh page table of void capabilities or nothing
    ([allocates]), the kernel's capabilities agree with their shadows, and, if
    overwriting is allowed, the slot that is returned does not hold a page table. *)
Theorem as_build_self_checks fuel st address may_overwrite :
  build_wf st -> addr_wf address -> (forall a c, as_check_shadow a c = true) ->
  let r := as_build rm_cap_copy as_check_shadow allocate_page_table false fuel st address may_overwrite in
  (may_overwrite = true ->
   forall st' p c, r = Ret (st', Some p) -> pte_cap st' p = Ret c -> table_width c = None) ->
  as_build rm_cap_copy as_check_shadow allocate_page_table true fuel st address may_overwrite =
  if may_overwrite then match r with Ret (_, Some (fake_slot _)) => Crash assertion_failed | _ => r end else r.
Proof.
  intros Hst (A & D & HA & ->)%addr_wf_bits Hcs. destruct (id HA) as [HD HAr].
  destruct (address_word A D HA) as [E1 E2]. unfold as_build. rewrite E1, E2.
  rewrite of_bits_not_void by done. cbn [negb check mbind exec_bind]. cbv zeta.
  destruct (start_path st A D HA) as [Hloc Hp].
  rewrite (build_loop_checks _ _ _ Halloc Hcs A D HA fuel st root_slot) by (done || lia).
  pose proof (build_loop_step rm_cap_copy as_check_shadow allocate_page_table false Halloc A D HA fuel
                st root_slot (in_slot root_slot) D Hst Hloc Hp ltac:(lia)) as Hs.
  destruct (build_loop _ _ _ _ _ _ _ _ _ _ _) as [[st1 [[p r]|]]|f]; cbn [mbind exec_bind]; [|intros _; by destruct may_overwrite..].
  destruct Hs as (Hst1 & _ & Hr & Hfits & l & Hloc1 & Hp1). unfold finish.
  destruct (claim_slot _ _ _ _ _ _ _ _) as [[st2 p2]|f] eqn:Ef; cbn [mbind exec_bind]; [|intros _; by destruct may_overwrite].
  destruct (claim_slot_step Hst1 Hloc1 Hp1 HA Hr Hfits Ef) as (Hst2 & T & Hl & Hp2 & Hno & Hat).
  intros Htab. change (check_lookup false st2 (of_bits A D) p2) with (Ret tt : exec unit) in *. cbn [mbind exec_bind] in *.
  destruct Hp2 as [->|[-> ->]].
  - destruct (Hat) as [Ho _].
    { destruct may_overwrite.
      - apply (Htab eq_refl st2 (in_slot l)); [done|]. cbn [pte_cap]. by rewrite Hl.
      - destruct (Hno eq_refl) as [Hv _]. unfold table_width. by rewrite Hv. }
    destruct (object_found st2 A D l T Hst2 Ho HA) as [w Hw].
    rewrite (check_lookup_found _ _ _ _ Hw). cbn [mbind exec_bind]. by destruct may_overwrite.
  - unfold check_lookup. by destruct (as_lookup_rel _ _ _ _ _ _).
Qed.

(** C25: a slot that is there already is used: if the address leads through page
    tables to a slot that is not one of a folio's objects and holds a void
    capability with a void descriptor (no guard), and the rest of the address is
    below 2^22, that is, fits in a guard, building the address space returns that
    slot, with the rest of the address as its guard, and changes nothing else: it
    allocates nothing, whether overwriting is allowed or not, with and without the
    code's checks of itself.  Conditions: the address space is well-formed
    ([build_wf]), the kernel's capabilities agree with their shadows, the RPC to
    copy a capability succeeds, and the loop is given an iteration for each bit of
    the address and one more. *)
Theorem as_build_reuses fuel st A D r l c may_overwrite :
  build_wf st -> bits_ok A D -> 0 <= r <= D -> path st root_slot (A / 2 ^ r) (D - r) l ->
  not_in_folio st l -> slot_cap st l = Some c -> c_type c = cap_void ->
  c_addr_trans c = CAP_ADDR_TRANS_VOID -> A mod 2 ^ r < 2 ^ 22 -> D < Z.of_nat fuel ->
  rm_cap_copy = 0 -> (forall a c, as_check_shadow a c = true) ->
  as_build rm_cap_copy as_check_shadow allocate_page_table self_check fuel st (of_bits A D) may_overwrite
  = Ret (slot_set st l (cap_set_addr_trans c (mk_cat (A mod 2 ^ r) 0 r)), Some (in_slot l)).
Proof.
  intros Hst HA Hr Hp Hnf Hl Hv Ha Hlow Hf Hrm Hcs. destruct (id HA) as [HD HAr].
  destruct (address_word A D HA) as [E1 E2]. unfold as_build. rewrite E1, E2.
  rewrite of_bits_not_void by done. cbn [negb check mbind exec_bind].
  destruct (start_path st A D HA) as [Hloc _].
  assert (HB : CAP_GUARD_BITS c = 0) by (unfold CAP_GUARD_BITS; by rewrite Ha).
  assert (Hb : build_loop rm_cap_copy as_check_shadow allocate_page_table self_check fuel st (of_bits A D) A D
                 (in_slot root_slot) D = Ret (st, Some (in_slot l, r))).
  { replace D with (D - r + r) at 3 by lia.
    eapply (build_loop_reuses rm_cap_copy as_check_shadow allocate_page_table self_check Hcs A D HA fuel st
              root_slot); try done; try lia.
    replace (D - r + r) with D by lia. by rewrite Z.mod_small. }
  rewrite Hb. cbn [mbind exec_bind].
  destruct (path_slot Hst Hp I ltac:(by eexists)) as [Hok _].
  pose proof (claim_slot_free rm_cap_copy as_check_shadow Hcs A D HA st may_overwrite l c r Hrm Hst Hok Hl Hv Ha Hr Hlow) as Hc.
  assert (Hloc1 : located st (in_slot l) l) by (split; [done|]; split; [done|]; split; [by eexists|done]).
  destruct (claim_slot_step Hst Hloc1 Hp HA Hr ltac:(by split) Hc) as (Hst2 & T & Hl2 & _ & _ & Hat).
  rewrite slot_set_same in Hl2 by (by eexists). injection Hl2 as <-.
  destruct Hat as [Ho _]; [unfold table_width; cbn; by rewrite Hv|].
  destruct (object_found _ A D l _ Hst2 Ho HA) as [w Hw].
  unfold finish. rewrite Hc. cbn [mbind exec_bind]. destruct self_check; [|done].
  by rewrite (check_lookup_found _ _ _ _ Hw).
Qed.

(** C38: an empty address space (its root void, with a void descriptor) cannot be
    given a slot at an address of more than 22 significant bits, whether
    overwriting is allowed or not.  The code means to insert a page table and asks
    the callback for one.  If it gets none, it returns no slot; if it gets one, it
    computes the index of a pivot that it does not need, from a guard of no bits,
    and an assertion of [extract_bits] fails.  Conditions: at least one iteration,
    and the kernel's capability to the root agrees with its shadow. *)
Theorem as_build_wide_guard_fails fuel st A D may_overwrite :
  (0 < fuel)%nat -> bits_ok A D -> c_type (as_root st) = cap_void ->
  c_addr_trans (as_root st) = CAP_ADDR_TRANS_VOID -> 2 ^ 22 <= A -> (forall a c, as_check_shadow a c = true) ->
  exists pt_addr,
    as_build rm_cap_copy as_check_shadow allocate_page_table self_check fuel st (of_bits A D) may_overwrite =
    let '(st', (rt_cap, _)) := allocate_page_table st pt_addr in
    if cap_type_eqb (c_type rt_cap) cap_void then Ret (st', None) else Crash assertion_failed.
Proof.
  intros Hfuel HA Hv Ha HA22 Hcs. destruct (address_word A D HA) as [E1 E2].
  assert (HB : CAP_GUARD_BITS (as_root st) = 0) by (unfold CAP_GUARD_BITS; by rewrite Ha).
  destruct (insert_free_fails rm_cap_copy as_check_shadow allocate_page_table self_check A D HA st (as_root st) HB HA22)
    as (gc & Hgc & pt_addr & Hi).
  exists pt_addr. unfold as_build. rewrite E1, E2.
  rewrite of_bits_not_void by done. cbn [negb check mbind exec_bind].
  destruct fuel as [|fuel]; [lia|]. cbn [build_loop].
  rewrite (descend_void rm_cap_copy as_check_shadow allocate_page_table self_check Hcs A D HA st Hv HB HA22).
  rewrite Hgc. cbn [mbind exec_bind]. rewrite Hi.
  destruct (allocate_page_table st pt_addr) as [st' [rc rs]]. by destruct (cap_type_eqb _ _).
Qed.
End as_build.

(** ** A small address space and its allocator *)

Definition empty_cap : cap := mk_cap 0 false 0 0 0 0 cap_void CAP_ADDR_TRANS_VOID.

(** Page tables at the pages after the objects there are. *)
Definition sample_alloc (st : addr_space) (a : addr) : addr_space * (cap * addr) :=
  let n := Z.of_nat (S (size (as_objects st))) in
  match as_objects st !! (n * 4096) with
  | Some _ => (st, (empty_cap, ADDR_VOID))
  | None => (with_table st empty_cap (n * 4096),
             (mk_cap 0 false 0 (n * 4096) 0 0 cap_cappage CAP_ADDR_TRANS_VOID, of_bits (0x100000 + n) 51))
  end.

Lemma sample_alloc_ok : allocates sample_alloc.
Proof.
  intros st a st' rc rs. unfold sample_alloc. set (n := Z.of_nat _).
  destruct (as_objects st !! (n * 4096)) eqn:E; intros [= <- <- <-]; [by left|right].
  split; [done|]. split; [done|]. split; [cbn; lia|]. split; [done|]. by exists empty_cap.
Qed.

Lemma lone_wf c : cap_sound c -> table_width c = None -> build_wf (mk_as c ∅).
Proof.
  intros Hc Hw.
  assert (H : forall l c', slot_cap (mk_as c ∅) l = Some c' -> c' = c).
  { intros [|p i] c'; cbn; [congruence|]. by rewrite lookup_empty. }
  split.
  - by intros l c' ->%H.
  - by intros l c' ->%H Ht.
  - intros l c' i c'' ->%H Ht. unfold table_width in Hw. by rewrite Ht in Hw.
  - by intros l c' l' c'' ->%H ->%H Ht.
Qed.

(** A page at the address of the 51 bits [5]. *)
Definition one_page : addr_space :=
  mk_as (mk_cap 0 false 0 0 0 0 cap_page (mk_cat 5 0 51)) ∅.

Lemma one_page_wf : build_wf one_page.
Proof.
  apply lone_wf; [|done]. split; unfold cat_wf, CAP_GUARD, CAP_GUARD_BITS; vm_compute; repeat split; congruence.
Qed.

Lemma sample_as_build_wf : build_wf sample_as.
Proof.
  assert (H : forall c : cap, c ∈ sample_caps -> cap_sound c /\ c_type c <> cap_folio /\
            (table_width c <> None -> c_shadow c <> 0 -> c_shadow c = 4096)).
  { intros c Hc. repeat (apply elem_of_cons in Hc as [->|Hc];
      [split; [split; unfold cat_wf, CAP_GUARD, CAP_GUARD_BITS, table_width; cbn; repeat split; try lia;
               intros ? [= <-]; lia|done]|]). by apply elem_of_nil in Hc. }
  split.
  - intros l c Hl%sample_as_caps. by apply H.
  - intros l c Hl%sample_as_caps Hw Hs. rewrite (proj2 (proj2 (H c Hl)) Hw Hs). eexists.
    split; [apply lookup_singleton_eq|]. by rewrite length_insert, length_replicate.
  - intros l c i c' Hl%sample_as_caps Ht. by destruct (proj1 (proj2 (H c Hl))).
  - intros l c l' c' Hl%sample_as_caps _ _ _ _ _ Ht. by destruct (proj1 (proj2 (H c Hl))).
Qed.

(** ** Witnesses *)

(** The page at the very address that is asked for is reused when overwriting is
    allowed, and moves below a new page table when another one is. *)
Theorem as_build_finds_slot_witness :
  let found address may_overwrite :=
    match as_build 0 (fun _ _ => true) sample_alloc true 52 one_page address may_overwrite with
    | Ret (st', None) => build_wf st' /\ keeps one_page st'
    | Ret (st', Some p) =>
        build_wf st' /\ exists l T, slot_cap st' l = Some T /\
          (p = in_slot l \/ p = fake_slot T /\ may_overwrite = true /\ true = false) /\
          (may_overwrite = false -> c_type T = cap_void /\ keeps one_page st') /\
          (table_width T = None ->
             object_at st' (addr_prefix address / 2 ^ (63 - addr_depth address)) (addr_depth address) l T /\
             keeps_except T one_page st' /\
             exists w, as_lookup_rel (lookup_fuel address) st' root_slot address None as_lookup_want_slot = LK_slot l w)
    | Crash f => f <> out_of_fuel
    end in
  found (of_bits 9 51) false /\ found (of_bits 5 51) true /\
  (exists st', as_build 0 (fun _ _ => true) sample_alloc true 52 one_page (of_bits 9 51) false
     = Ret (st', Some (in_slot (obj_slot 4096 9)))) /\
  as_build 0 (fun _ _ => true) sample_alloc true 52 one_page (of_bits 5 51) true
     = Ret (one_page, Some (in_slot root_slot)).
Proof.
  split; [|split; [|split]].
  - apply (as_build_finds_slot 0 (fun _ _ => true) sample_alloc true sample_alloc_ok 52 one_page (of_bits 9 51) false).
    + apply one_page_wf.
    + vm_compute. by split.
    + vm_compute. reflexivity.
  - apply (as_build_finds_slot 0 (fun _ _ => true) sample_alloc true sample_alloc_ok 52 one_page (of_bits 5 51) true).
    + apply one_page_wf.
    + vm_compute. by split.
    + vm_compute. reflexivity.
  - eexists. vm_compute. reflexivity.
  - vm_compute. reflexivity.
Defined.

Theorem as_build_self_checks_witness :
  as_build 0 (fun _ _ => true) sample_alloc true 52 one_page (of_bits 9 51) false =
  as_build 0 (fun _ _ => true) sample_alloc false 52 one_page (of_bits 9 51) false /\
  as_build 0 (fun _ _ => true) sample_alloc true 52 one_page (of_bits 5 51) true =
  match as_build 0 (fun _ _ => true) sample_alloc false 52 one_page (of_bits 5 51) true with
  | Ret (_, Some (fake_slot _)) => Crash assertion_failed
  | r => r
  end.
Proof.
  split.
  - apply (as_build_self_checks 0 (fun _ _ => true) sample_alloc sample_alloc_ok 52 one_page (of_bits 9 51) false).
    + apply one_page_wf.
    + vm_compute. by split.
    + intros a c. reflexivity.
    + intros E. discriminate E.
  - apply (as_build_self_checks 0 (fun _ _ => true) sample_alloc sample_alloc_ok 52 one_page (of_bits 5 51) true).
    + apply one_page_wf.
    + vm_compute. by split.
    + intros a c. reflexivity.
    + intros _ st' p c E Hc. assert (Er : as_build 0 (fun _ _ => true) sample_alloc false 52 one_page (of_bits 5 51) true
        = Ret (one_page, Some (in_slot root_slot))) by (vm_compute; reflexivity).
      rewrite Er in E. injection E as <- <-. injection Hc as <-. reflexivity.
Defined.

Theorem as_build_reuses_witness :
  as_build 0 (fun _ _ => true) sample_alloc true 15 sample_as (of_bits ((2 * 256 + 7) * 16 + 5) 14) true
  = Ret (slot_set sample_as (obj_slot 4096 7)
           (cap_set_addr_trans empty_cap (mk_cat (((2 * 256 + 7) * 16 + 5) mod 2 ^ 4) 0 4)),
         Some (in_slot (obj_slot 4096 7))).
Proof.
  apply (as_build_reuses 0 (fun _ _ => true) sample_alloc true 15 sample_as ((2 * 256 + 7) * 16 + 5) 14 4
           (obj_slot 4096 7) empty_cap true); try done.
  - apply sample_as_build_wf.
  - change (((2 * 256 + 7) * 16 + 5) / 2 ^ 4) with ((CAP_GUARD (as_root sample_as) * 2 ^ 8 + 7) * 2 ^ 0 + 0).
    change (14 - 4) with (CAP_GUARD_BITS (as_root sample_as) + 8 + 0).
    change (obj_slot 4096 7) with
      (obj_slot (c_shadow (as_root sample_as)) (table_base (as_root sample_as) + 7)).
    apply path_step; [done|done|done|lia|constructor].
  - intros l0 c0 j Hl%sample_as_caps Ht.
    repeat (apply elem_of_cons in Hl as [->|Hl]; [done|]). by apply elem_of_nil in Hl.
Defined.

(** With memory and without. *)
Theorem as_build_wide_guard_fails_witness :
  as_build 0 (fun _ _ => true) sample_alloc true 52 (mk_as empty_cap ∅) (of_bits (2 ^ 22 + 1) 51) true
  = Crash assertion_failed /\
  as_build 0 (fun _ _ => true) (fun st _ => (st, (empty_cap, ADDR_VOID))) true 52 (mk_as empty_cap ∅)
    (of_bits (2 ^ 22 + 1) 51) true
  = Ret (mk_as empty_cap ∅, None).
Proof.
  split.
  - destruct (as_build_wide_guard_fails 0 (fun _ _ => true) sample_alloc true 52 (mk_as empty_cap ∅)
                (2 ^ 22 + 1) 51 true ltac:(lia) ltac:(split; lia) eq_refl eq_refl ltac:(lia) ltac:(done)) as [a ->].
    reflexivity.
  - destruct (as_build_wide_guard_fails 0 (fun _ _ => true) (fun st _ => (st, (empty_cap, ADDR_VOID))) true 52
                (mk_as empty_cap ∅) (2 ^ 22 + 1) 51 true ltac:(lia) ltac:(split; lia) eq_refl eq_refl
                ltac:(lia) ltac:(done)) as [a ->].
    reflexivity.
Defined.

End AsBuildOk.
