(* ===== verification/Zalloc.v ===== *)
(** * The zone allocator of the kernel: [viengoos/zalloc.c]

    A buddy allocator: free blocks of each power-of-two size are kept in a
    doubly linked list ordered by address, whose links are stored in the
    blocks themselves.  The model has the links: the heap maps the address of
    a free block to the [struct block] at its start, and [zone] is the array
    of list heads. *)

From Stdlib Require Import Sorting.Sorted.
From S2P Require Import Prelude L4Math Gbits.

(** ** The code *)

Record block := mk_block { next : Z; prev : Z }.

Record zstate := mk_zstate {
  zone : list Z;
  heap : gmap Z block;
  zalloc_memory : Z
}.

Definition ZONE_SIZE (x : Z) : Z := u32 (Z.shiftl 1 (x + PAGESIZE_LOG2)).
Definition ZONES : Z := 4 * 8 - PAGESIZE_LOG2 - 1.

Definition load (st : zstate) (p : Z) : exec block := access (heap st !! p).

Definition store (st : zstate) (p : Z) (b : block) : zstate :=
  mk_zstate (zone st) (<[p := b]> (heap st)) (zalloc_memory st).

(** [p->next = n] and [p->prev = n] *)
Definition set_next (st : zstate) (p n : Z) : exec zstate :=
  b ← load st p; Ret (store st p (mk_block n (prev b))).
Definition set_prev (st : zstate) (p n : Z) : exec zstate :=
  b ← load st p; Ret (store st p (mk_block (next b) n)).

Definition get_zone (st : zstate) (n : Z) : exec Z := access (zone st !! Z.to_nat n).

Definition set_zone (st : zstate) (n p : Z) : exec zstate :=
  _ ← get_zone st n;
  Ret (mk_zstate (<[Z.to_nat n := p]> (zone st)) (heap st) (zalloc_memory st)).

(** [while (right && block > right)] *)
Fixpoint find_neighbours (fuel : nat) (st : zstate) (block lft rgt : Z) : exec (Z * Z) :=
  match fuel with
  | O => Crash out_of_fuel
  | S fuel =>
      if negb (rgt =? 0) && (rgt <? block) then
        b ← load st rgt;
        find_neighbours fuel st block rgt (next b)
      else Ret (lft, rgt)
  end.

(** "Remove left neighbour." and "Remove right neighbour from the list." *)
Definition remove_block (st : zstate) (p zone_nr : Z) : exec zstate :=
  b ← load st p;
  st ← (if negb (prev b =? 0) then set_next st (prev b) (next b)
        else set_zone st zone_nr (next b));
  b ← load st p;
  if negb (next b =? 0) then set_prev st (next b) (prev b) else Ret st.

(** "Could not coalesce.  Just insert." *)
Definition insert_block (st : zstate) (block lft rgt zone_nr : Z) : exec zstate :=
  let st := store st block (mk_block rgt lft) in
  st ← (if negb (rgt =? 0) then set_prev st rgt block else Ret st);
  if negb (lft =? 0) then set_next st lft block
  else set_zone st zone_nr block.

Fixpoint add_block (fuel : nat) (st : zstate) (block zone_nr : Z) : exec zstate :=
  match fuel with
  | O => Crash out_of_fuel
  | S fuel' =>
      z ← get_zone st zone_nr;
      '(lft, rgt) ← find_neighbours fuel st block 0 z;
      if negb (lft =? 0) && (Z.lxor lft block =? ZONE_SIZE zone_nr) then
        st ← remove_block st lft zone_nr;
        add_block fuel' st lft (zone_nr + 1)
      else if negb (rgt =? 0) && (Z.lxor rgt block =? ZONE_SIZE zone_nr) then
        st ← remove_block st rgt zone_nr;
        add_block fuel' st block (zone_nr + 1)
      else insert_block st block lft rgt zone_nr
  end.

(** The zone of the block that [zfree] breaks off the beginning. *)
Definition chunk_zone (block size : Z) : Z :=
  let block_align := u32 (L4_lsb block - 1) in
  let size_align := u32 (L4_msb size - 1) in
  u32 ((if block_align <? size_align then block_align else size_align) - PAGESIZE_LOG2).

(** The [do]-[while] loop of [zfree]. *)
Fixpoint zfree_loop (fuel : nat) (st : zstate) (block size : Z) : exec zstate :=
  match fuel with
  | O => Crash out_of_fuel
  | S fuel' =>
      let zone_nr := chunk_zone block size in
      st ← add_block fuel st block zone_nr;
      let block := u32 (block + ZONE_SIZE zone_nr) in
      let size := u32 (size - ZONE_SIZE zone_nr) in
      if 0 <? size then zfree_loop fuel' st block size else Ret st
  end.

Definition zfree (fuel : nat) (st : zstate) (block size : Z) : exec zstate :=
  _ ← check (negb (block =? 0)) assertion_failed;
  _ ← check (Z.land size (PAGESIZE - 1) =? 0) panicked;
  _ ← check (Z.land block (PAGESIZE - 1) =? 0) panicked;
  let st := mk_zstate (zone st) (heap st) (u32 (zalloc_memory st + size / PAGESIZE)) in
  zfree_loop fuel st block size.

(** [while (!zone[zone_nr] && zone_nr < ZONES)]: the element after the last is
    read as well, and what is there does not matter. *)
Fixpoint find_zone (fuel : nat) (st : zstate) (zone_nr : Z) : exec Z :=
  match fuel with
  | O => Crash out_of_fuel
  | S fuel =>
      if zone_nr =? ZONES then Ret zone_nr
      else
        z ← get_zone st zone_nr;
        if (z =? 0) && (zone_nr <? ZONES) then find_zone fuel st (zone_nr + 1) else Ret zone_nr
  end.

(** [memset (block, 0, size)] *)
Definition zero_heap (h : gmap Z block) (p size : Z) : gmap Z block :=
  map_imap (fun a b => Some (if (p <=? a) && (a <? p + size) then mk_block 0 0 else b)) h.

(** "Now bite off the beginning of the first block in this zone." *)
Definition take_block (fuel : nat) (st : zstate) (zone_nr size : Z) : exec (zstate * Z) :=
  block ← get_zone st zone_nr;
  b ← load st block;
  st ← set_zone st zone_nr (next b);
  st ← (if negb (next b =? 0) then set_prev st (next b) 0 else Ret st);
  let st := mk_zstate (zone st) (heap st) (u32 (zalloc_memory st - ZONE_SIZE zone_nr / PAGESIZE)) in
  st ← (if size <? ZONE_SIZE zone_nr
        then zfree fuel st (u32 (block + size)) (ZONE_SIZE zone_nr - size) else Ret st);
  Ret (mk_zstate (zone st) (zero_heap (heap st) block size) (zalloc_memory st), block).

Definition zalloc (fuel : nat) (st : zstate) (size : Z) : exec (zstate * Z) :=
  _ ← check (Z.land size (PAGESIZE - 1) =? 0) panicked;
  zone_nr ← find_zone fuel st (u32 (L4_msb (u32 (size - 1)) - PAGESIZE_LOG2));
  if zone_nr =? ZONES then
    _ ← check (zalloc_memory st =? 0) assertion_failed;
    Ret (st, 0)
  else take_block fuel st zone_nr size.

(** ** Doubly linked segments *)

(** [dseg h p c l q e]: from [c], whose [prev] is [p], the blocks [l] in
    order; the last one is [q] and its [next] is [e]. *)
Fixpoint dseg (h : gmap Z block) (p c : Z) (l : list Z) (q e : Z) : Prop :=
  match l with
  | [] => c = e /\ p = q
  | x :: l => c = x /\ x <> 0 /\ exists n, h !! x = Some (mk_block n p) /\ dseg h x n l q e
  end.

(** A whole list from its head. *)
Definition dlist (h : gmap Z block) (c : Z) (l : list Z) : Prop := exists q, dseg h 0 c l q 0.

Lemma dseg_app h p c l1 l2 q e :
  dseg h p c (l1 ++ l2) q e <-> exists m k, dseg h p c l1 m k /\ dseg h m k l2 q e.
Proof.
  revert p c. induction l1 as [|x l1 IH]; intros p c; cbn.
  - split; [intros; by exists p, c|]. by intros (m & k & [-> ->] & H).
  - split.
    + intros (-> & Hx & n & Hh & (m & k & H1 & H2)%IH). exists m, k. split; [|done]. eauto.
    + intros (m & k & (-> & Hx & n & Hh & H1) & H2). repeat split; try done.
      exists n. split; [done|]. apply IH. eauto.
Qed.

(** Only the blocks of the segment matter. *)
Lemma dseg_frame h h' p c l q e :
  (forall x, x ∈ l -> h' !! x = h !! x) -> dseg h p c l q e -> dseg h' p c l q e.
Proof.
  revert p c. induction l as [|x l IH]; intros p c Hf; [done|].
  intros (-> & Hx & n & Hh & H). repeat split; try done. exists n.
  rewrite Hf by left. split; [done|]. apply IH; [|done]. intros y Hy. apply Hf. by right.
Qed.

Lemma dseg_insert h p c l q e x b : x ∉ l -> dseg h p c l q e -> dseg (<[x := b]> h) p c l q e.
Proof.
  intros Hx. apply dseg_frame. intros y Hy. apply lookup_insert_ne. by intros ->.
Qed.

(** The block before a point of the list: none, or the segment's last block,
    whose [next] can be redirected. *)
Lemma dseg_end h c l m k k' :
  dseg h 0 c l m k -> NoDup l ->
  (m = 0 /\ l = [] /\ c = k) \/
  (m <> 0 /\ m ∈ l /\ (l = [] -> False) /\ exists b, h !! m = Some b /\
     dseg (<[m := mk_block k' (prev b)]> h) 0 c l m k').
Proof.
  destruct l as [|x l _] using rev_ind; [intros [-> ->] _; by left|].
  intros (m' & k0 & H1 & (-> & H0 & n & Hh & [<- <-]))%dseg_app (_ & Hnd & _)%NoDup_app.
  right. split; [done|]. split; [set_solver|]. split; [by destruct l|].
  exists (mk_block n m'). split; [done|]. apply dseg_app. exists m', x. split.
  - apply dseg_insert; [|done]. intros Hin. apply (Hnd x Hin). by left.
  - repeat split; try done. exists k'. by rewrite lookup_insert_eq.
Qed.

(** The block after it: none, or one whose [prev] can be redirected. *)
Lemma dseg_begin h m m' k l q :
  dseg h m k l q 0 -> NoDup l ->
  (k = 0 /\ l = []) \/
  (k <> 0 /\ k ∈ l /\ exists b, h !! k = Some b /\ dseg (<[k := mk_block (next b) m']> h) m' k l q 0).
Proof.
  destruct l as [|x l]; [intros [-> ->] _; by left|].
  intros (-> & H0 & n & Hh & H) [Hx _]%NoDup_cons. right. split; [done|]. split; [by left|].
  exists (mk_block n m). split; [done|]. repeat split; try done. exists n. cbn.
  rewrite lookup_insert_eq. split; [done|]. by apply dseg_insert.
Qed.

(** ** The lists of the zones *)

(** The zones hold the lists [L]. *)
Definition rep (st : zstate) (L : list (list Z)) : Prop := Forall2 (dlist (heap st)) (zone st) L.

(** Two states that differ in zone [n] and in blocks of the lists [l] only. *)
Definition zone_update (st st' : zstate) (n : nat) (z' : Z) (l : list Z) : Prop :=
  zone st' = <[n := z']> (zone st) /\ zalloc_memory st' = zalloc_memory st /\
  forall y, y ∉ l -> heap st' !! y = heap st !! y.

Lemma rep_update st st' n z' l l1 l' L :
  rep st L -> L !! n = Some l1 -> zone_update st st' n z' l -> dlist (heap st') z' l' ->
  (forall m lm y, m <> n -> L !! m = Some lm -> y ∈ lm -> y ∉ l) ->
  rep st' (<[n := l']> L).
Proof.
  intros Hrep Hn (Hz & _ & Hh) Hd Hdis. unfold rep. rewrite Hz.
  apply Forall2_same_length_lookup_2.
  { rewrite !length_insert. by eapply Forall2_length. }
  intros m z lm H1 H2. destruct (decide (m = n)) as [->|Hm].
  - pose proof (lookup_lt_Some _ _ _ Hn) as Hlt. pose proof (Forall2_length _ _ _ Hrep) as Hlen.
    rewrite list_lookup_insert_eq in H1 by lia. rewrite list_lookup_insert_eq in H2 by lia.
    by simplify_eq.
  - rewrite list_lookup_insert_ne in H1 by done. rewrite list_lookup_insert_ne in H2 by done.
    destruct (Forall2_lookup_lr _ _ _ _ _ _ Hrep H1 H2) as [q Hq]. exists q.
    eapply dseg_frame; [|done]. intros y Hy. by eapply Hh, Hdis.
Qed.

Lemma get_zone_Ret st n z : zone st !! n = Some z -> get_zone st (Z.of_nat n) = Ret z.
Proof. intros H. unfold get_zone. by rewrite Nat2Z.id, H. Qed.

(** Unlinking a block of a zone. *)
Lemma remove_block_spec st n z l1 x l2 :
  zone st !! n = Some z -> dlist (heap st) z (l1 ++ x :: l2) -> NoDup (l1 ++ x :: l2) ->
  exists st' z', remove_block st x (Z.of_nat n) = Ret st' /\
    zone_update st st' n z' (l1 ++ x :: l2) /\ dlist (heap st') z' (l1 ++ l2).
Proof.
  intros Hz [q (m & k & H1 & (-> & Hx0 & nx & Hx & H2))%dseg_app]
    (Hnd1 & Hdis & [Hx2 Hnd2]%NoDup_cons)%NoDup_app.
  assert (x ∉ l1) as Hx1 by (intros Hin; apply (Hdis x Hin); by left).
  assert (forall y, y ∈ l1 -> y ∉ l2) as Hdis2 by (intros y Hy ?; apply (Hdis y Hy); by right).
  unfold remove_block, load. rewrite Hx. cbn [access mbind exec_bind next prev].
  destruct (dseg_end _ _ _ _ _ nx H1 Hnd1) as [(-> & -> & ->)|(Hm & Hm1 & _ & bm & Hbm & H1')].
  - cbn [negb Z.eqb]. unfold set_zone. rewrite (get_zone_Ret _ _ _ Hz). cbn.
    rewrite Hx. cbn. rewrite Nat2Z.id. destruct (dseg_begin _ _ 0 _ _ _ H2 Hnd2)
      as [[-> ->]|(Hnx & Hnx2 & b & Hb & H2')]; cbn.
    + eexists _, 0. repeat split. by exists 0.
    + rewrite (proj2 (Z.eqb_neq nx 0) Hnx). cbn. unfold set_prev, load. cbn. rewrite Hb. cbn.
      eexists _, nx. repeat split; [|by exists q].
      intros y Hy. cbn. apply lookup_insert_ne. set_solver.
  - rewrite (proj2 (Z.eqb_neq m 0) Hm). unfold set_next, load. rewrite Hbm. cbn.
    rewrite lookup_insert_ne by set_solver. rewrite Hx. cbn.
    assert (dseg (<[m := mk_block nx (prev bm)]> (heap st)) x nx l2 q 0) as H2i
      by (apply dseg_insert; [by apply Hdis2|done]).
    destruct (dseg_begin _ _ m _ _ _ H2i Hnd2) as [[-> ->]|(Hnx & Hnx2 & b & Hb & H2')]; cbn.
    + eexists _, z. split; [done|]. split; [split; [|split]|].
      * by rewrite list_insert_id.
      * done.
      * intros y Hy. cbn. apply lookup_insert_ne. set_solver.
      * exists m. cbn. rewrite app_nil_r. done.
    + rewrite (proj2 (Z.eqb_neq nx 0) Hnx). cbn. unfold set_prev, load. cbn. rewrite Hb. cbn.
      eexists _, z. split; [done|]. split; [split; [|split]|].
      * by rewrite list_insert_id.
      * done.
      * intros y Hy. cbn. rewrite !lookup_insert_ne by set_solver. done.
      * exists q. cbn. apply dseg_app. exists m, nx. split; [|done].
        apply dseg_insert; [|done]. intros ?. by apply (Hdis2 nx).
Qed.

(** Where the search stops: [m] and [k] are the blocks around the split of
    the list, the first part lies below [x] and the second does not start
    below it. *)
Definition split_at (h : gmap Z block) (z x : Z) (l1 l2 : list Z) (m k : Z) : Prop :=
  dseg h 0 z l1 m k /\ (exists q, dseg h m k l2 q 0) /\
  Forall (fun y => y < x) l1 /\ (forall y, head l2 = Some y -> x <= y).

Lemma find_neighbours_spec fuel st z x l1 l2 m k q :
  dseg (heap st) 0 z l1 m k -> dseg (heap st) m k l2 q 0 -> Forall (fun y => y < x) l1 ->
  (length l2 < fuel)%nat ->
  exists l1' l2' m' k', find_neighbours fuel st x m k = Ret (m', k') /\
    l1 ++ l2 = l1' ++ l2' /\ split_at (heap st) z x l1' l2' m' k'.
Proof.
  revert l1 l2 m k. induction fuel as [|fuel IH]; intros l1 l2 m k H1 H2 Hl Hf; [lia|].
  cbn [find_neighbours]. destruct l2 as [|y l2].
  - destruct H2 as [-> ->]. exists l1, [], q, 0. split; [done|]. split; [done|].
    repeat split; try done. by exists q.
  - destruct (id H2) as (-> & Hy & n & Hn & H2'). rewrite (proj2 (Z.eqb_neq y 0) Hy). cbn [negb andb].
    case_if.
    + unfold load. rewrite Hn. cbn. replace (l1 ++ y :: l2) with ((l1 ++ [y]) ++ l2) by by rewrite <- app_assoc.
      apply IH; [|done| |cbn in Hf; lia].
      * apply dseg_app. exists m, y. split; [done|]. repeat split; try done. by exists n.
      * apply Forall_app. by repeat constructor.
    + exists l1, (y :: l2), m, y. split; [done|]. split; [done|]. repeat split; try done.
      * by exists q.
      * intros ? [= <-]. lia.
Qed.

(** Linking a block between its neighbours. *)
Lemma insert_block_spec st n z x l1 l2 m k q :
  zone st !! n = Some z -> dseg (heap st) 0 z l1 m k -> dseg (heap st) m k l2 q 0 ->
  NoDup (l1 ++ l2) -> x ∉ l1 ++ l2 -> x <> 0 ->
  exists st' z', insert_block st x m k (Z.of_nat n) = Ret st' /\
    zone_update st st' n z' (x :: l1 ++ l2) /\ dlist (heap st') z' (l1 ++ x :: l2).
Proof.
  intros Hz H1 H2 (Hnd1 & Hdis & Hnd2)%NoDup_app Hx Hx0. rewrite elem_of_app in Hx.
  unfold insert_block. set (st0 := store st x (mk_block k m)).
  assert (exists st1 q', (if negb (k =? 0) then set_prev st0 k x else Ret st0) = Ret st1 /\
            zone st1 = zone st /\ zalloc_memory st1 = zalloc_memory st /\
            (forall y, y ∉ x :: l2 -> heap st1 !! y = heap st !! y) /\
            heap st1 !! x = Some (mk_block k m) /\ dseg (heap st1) x k l2 q' 0)
    as (st1 & q' & -> & Hz1 & Hm1 & Hh1 & Hx1 & H2').
  { assert (dseg (heap st0) m k l2 q 0) as H2i by (apply dseg_insert; [tauto|done]).
    destruct (dseg_begin _ _ x _ _ _ H2i Hnd2) as [[-> ->]|(Hk & Hk2 & b & Hb & H2')]; cbn.
    - exists st0, x. repeat split; cbn; [|by rewrite lookup_insert_eq].
      intros y Hy. apply lookup_insert_ne. set_solver.
    - rewrite (proj2 (Z.eqb_neq k 0) Hk). unfold set_prev, load. rewrite Hb. cbn.
      eexists _, q. repeat split; cbn; [| |done].
      + intros y Hy. rewrite !lookup_insert_ne by set_solver. done.
      + rewrite lookup_insert_ne by set_solver. by rewrite lookup_insert_eq. }
  cbn [mbind exec_bind].
  assert (dseg (heap st1) 0 z l1 m k) as H1'.
  { eapply dseg_frame; [|done]. intros y Hy. apply Hh1. set_solver. }
  destruct (dseg_end _ _ _ _ _ x H1' Hnd1) as [(-> & -> & ->)|(Hm & Hml & _ & b & Hb & H1'')].
  - cbn. unfold set_zone, get_zone. rewrite Nat2Z.id, Hz1, Hz. cbn.
    eexists _, x. split; [done|]. split.
    { split; [done|]. split; [done|]. intros y Hy. apply Hh1. set_solver. }
    exists q'. repeat split; try done. by exists k.
  - rewrite (proj2 (Z.eqb_neq m 0) Hm). cbn. unfold set_next, load. rewrite Hb. cbn.
    eexists _, z. split; [done|]. split; [split; [|split]|].
    + cbn. by rewrite Hz1, list_insert_id.
    + done.
    + intros y Hy. cbn. rewrite lookup_insert_ne by set_solver. apply Hh1. set_solver.
    + exists q'. cbn. apply dseg_app. exists m, x. split; [done|]. repeat split; [done|].
      exists k. rewrite lookup_insert_ne by set_solver. split; [done|].
      apply dseg_insert; [|done]. by apply Hdis.
Qed.

(** ** Sizes and buddies *)

Definition zsize (n : nat) : Z := 2 ^ (Z.of_nat n + 12).

Lemma zsize_pos n : 0 < zsize n.
Proof. apply pow2_pos. lia. Qed.

Lemma zsize_S n : zsize (S n) = 2 * zsize n.
Proof. unfold zsize. rewrite Nat2Z.inj_succ, <- Z.pow_succ_r by lia. f_equal. lia. Qed.

Lemma zsize_pages n : zsize n = 2 ^ Z.of_nat n * 4096.
Proof. unfold zsize. rewrite pow2_split by lia. reflexivity. Qed.

Lemma zsize_le m n : (m <= n)%nat -> zsize m <= zsize n.
Proof. intros. unfold zsize. apply pow2_le. lia. Qed.

Lemma ZONE_SIZE_zsize n : (n < 20)%nat -> ZONE_SIZE (Z.of_nat n) = zsize n.
Proof.
  intros. unfold ZONE_SIZE, PAGESIZE_LOG2, zsize. rewrite Z.shiftl_1_l.
  apply u32_small. pose proof (pow2_le (Z.of_nat n + 12) 31). pose proof (pow2_pos (Z.of_nat n + 12)). lia.
Qed.

(** A multiple of a smaller size that lies inside an aligned block is at least
    that size away from its end. *)
Lemma aligned_step x y s : 0 < s -> x mod s = 0 -> y mod s = 0 -> x < y -> x + s <= y.
Proof.
  intros Hs Hx Hy Hlt. apply Z.div_exact in Hx; [|lia]. apply Z.div_exact in Hy; [|lia].
  assert (x / s < y / s) by (apply (Z.mul_lt_mono_pos_l s); lia). nia.
Qed.

Lemma zsize_divide m n x : (m <= n)%nat -> x mod zsize n = 0 -> x mod zsize m = 0.
Proof.
  intros Hm Hx. apply Z.mod_divide; [pose proof (zsize_pos m); lia|].
  apply Z.mod_divide in Hx; [|pose proof (zsize_pos n); lia].
  etransitivity; [|exact Hx]. exists (2 ^ (Z.of_nat n - Z.of_nat m)). unfold zsize.
  rewrite (pow2_at (Z.of_nat m + 12) (Z.of_nat n + 12)) by lia. do 2 f_equal. lia.
Qed.

(** Flipping bit [k] of an aligned address gives its buddy. *)
Lemma lxor_pow2 x k :
  0 <= k -> 0 <= x -> x mod 2 ^ k = 0 ->
  Z.lxor x (2 ^ k) = if x mod 2 ^ (k + 1) =? 0 then x + 2 ^ k else x - 2 ^ k.
Proof.
  intros Hk Hx0 Hx. pose proof (pow2_pos k Hk). apply Z.div_exact in Hx; [|lia].
  set (q := x / 2 ^ k) in *. clearbody q. subst x.
  rewrite pow2_split, (Z.mul_comm (2 ^ k) (2 ^ 1)), (Z.mul_comm (2 ^ k) q) by lia.
  rewrite Z.mul_mod_distr_r by lia. change (2 ^ 1) with 2.
  replace (Z.lxor (q * 2 ^ k) (2 ^ k)) with (Z.lxor q 1 * 2 ^ k).
  - assert (Z.lxor q 1 = if q mod 2 =? 0 then q + 1 else q - 1) as E.
    { pose proof (Z.mod_pos_bound q 2 ltac:(lia)). pose proof (Z.div_mod q 2 ltac:(lia)).
      assert (0 <= q / 2) as Hq by (apply Z.div_pos; nia). generalize dependent (q / 2). intros h.
      destruct (Z.eqb_spec (q mod 2) 0) as [->|Hq]; intros E Hh.
      - rewrite E, Z.add_0_r. by destruct h.
      - assert (q = 2 * h + 1) as -> by lia. by destruct h. }
    rewrite E. destruct (Z.eqb_spec (q mod 2) 0) as [->|Hq].
    + rewrite Z.mul_0_l, Z.eqb_refl. lia.
    + rewrite (proj2 (Z.eqb_neq _ _)); [lia|nia].
  - rewrite <- !Z.shiftl_mul_pow2 by done. rewrite Z.shiftl_lxor, Z.shiftl_1_l. done.
Qed.

(** Two aligned blocks whose addresses differ in the one bit are the halves
    of a block of the next size. *)
Lemma buddies n x y :
  0 <= x -> x mod zsize n = 0 -> y mod zsize n = 0 -> Z.lxor x y = zsize n ->
  (x < y /\ y = x + zsize n /\ x mod zsize (S n) = 0) \/
  (y < x /\ x = y + zsize n /\ y mod zsize (S n) = 0).
Proof.
  intros Hx0 Hx Hy Hxy. pose proof (zsize_pos n) as Hp.
  assert (y = Z.lxor x (zsize n)) as E.
  { rewrite <- Hxy, <- Z.lxor_assoc, Z.lxor_nilpotent, Z.lxor_0_l. done. }
  unfold zsize in E, Hx. rewrite lxor_pow2 in E by (try done; lia).
  fold (zsize n) in E, Hx.
  replace (Z.of_nat n + 12 + 1) with (Z.of_nat (S n) + 12) in E by lia. fold (zsize (S n)) in E.
  destruct (Z.eqb_spec (x mod zsize (S n)) 0); [left|right]; repeat split; try done; try lia.
  subst y. apply Z.div_exact in Hx; [|lia]. set (q := x / zsize n) in *. clearbody q. subst x.
  rewrite zsize_S, (Z.mul_comm 2) in *. rewrite Z.mul_mod_distr_l in n0 by lia.
  replace (zsize n * q - zsize n) with (zsize n * (q - 1)) by lia.
  rewrite Z.mul_mod_distr_l by lia. pose proof (Z.mod_pos_bound q 2 ltac:(lia)).
  replace ((q - 1) mod 2) with 0; [lia|]. symmetry.
  assert (q mod 2 = 1) as Hq1 by nia. rewrite Zminus_mod, Hq1. reflexivity.
Qed.

(** ** The invariant of the pool *)

Definition in_zone (L : list (list Z)) (n : nat) (b : Z) : Prop := exists l, L !! n = Some l /\ b ∈ l.

(** The addresses of free memory. *)
Definition free (L : list (list Z)) (a : Z) : Prop :=
  exists n b, in_zone L n b /\ b <= a < b + zsize n.

(** The end of the memory the pool may manage: with all of it below 2 GB, two
    buddies are never of the largest size. *)
Definition LIMIT : Z := 2 ^ 31.

Record zinv (L : list (list Z)) : Prop := {
  zi_zones : length L = 19%nat;
  zi_sorted : forall n l, L !! n = Some l -> StronglySorted Z.lt l;
  zi_block : forall n b, in_zone L n b -> 0 < b /\ b mod zsize n = 0 /\ b + zsize n <= LIMIT;
  zi_disjoint : forall n b n' b', in_zone L n b -> in_zone L n' b' ->
    (n = n' /\ b = b') \/ b + zsize n <= b' \/ b' + zsize n' <= b;
  zi_coalesced : forall n b b', in_zone L n b -> in_zone L n b' -> Z.lxor b b' <> zsize n
}.

Lemma in_zone_lt L n b : zinv L -> in_zone L n b -> (n < 19)%nat.
Proof. intros Hi (l & H%lookup_lt_Some & _). by rewrite (zi_zones _ Hi) in H. Qed.

Lemma sorted_NoDup l : StronglySorted Z.lt l -> NoDup l.
Proof.
  induction 1 as [|x l Hl IH Hx]; constructor; [|done].
  intros Hin. rewrite Forall_forall in Hx. specialize (Hx _ Hin). lia.
Qed.

Lemma sorted_app l1 l2 :
  StronglySorted Z.lt (l1 ++ l2) <->
  StronglySorted Z.lt l1 /\ StronglySorted Z.lt l2 /\ forall x y, x ∈ l1 -> y ∈ l2 -> x < y.
Proof.
  induction l1 as [|z l1 IH]; cbn.
  - split; [|tauto]. intros H. repeat split; [constructor|done|set_solver].
  - split.
    + intros [(H1 & H2 & H3)%IH [Hz1 Hz2]%Forall_app]%StronglySorted_inv.
      rewrite Forall_forall in Hz2. repeat split; [by constructor|done|].
      intros x y [->|Hx]%elem_of_cons Hy; eauto.
    + intros ([H1 Hz]%StronglySorted_inv & H2 & H3). constructor.
      * apply IH. repeat split; try done. intros x y ? ?. apply H3; [by right|done].
      * apply Forall_app. split; [done|]. apply Forall_forall. intros y Hy. apply H3; [by left|done].
Qed.

(** Blocks of different zones are different. *)
Lemma zones_NoDup L n n' l l' y :
  zinv L -> L !! n = Some l -> L !! n' = Some l' -> n' <> n -> y ∈ l' -> y ∉ l.
Proof.
  intros Hi Hl Hl' Hne Hy' Hy. pose proof (zsize_pos n). pose proof (zsize_pos n').
  destruct (zi_disjoint _ Hi n y n' y) as [[? _]|]; try done; [by exists l|by exists l'|lia].
Qed.

(** Updating one zone. *)
Lemma in_zone_insert L n l l' m b :
  L !! n = Some l ->
  in_zone (<[n := l']> L) m b <-> (m = n /\ b ∈ l') \/ (m <> n /\ in_zone L m b).
Proof.
  intros Hn. pose proof (lookup_lt_Some _ _ _ Hn). unfold in_zone.
  destruct (decide (m = n)) as [->|Hm].
  - rewrite list_lookup_insert_eq by done. split.
    + intros (? & [= <-] & ?). by left.
    + intros [[_ ?]|[? _]]; [by exists l'|done].
  - rewrite list_lookup_insert_ne by done. split; [by right|]. by intros [[? _]|[_ ?]].
Qed.

Lemma in_zone_remove L n l1 x l2 m b :
  zinv L -> L !! n = Some (l1 ++ x :: l2) ->
  in_zone (<[n := l1 ++ l2]> L) m b <-> in_zone L m b /\ ~ (m = n /\ b = x).
Proof.
  intros Hi Hn. rewrite (in_zone_insert _ _ _ _ _ _ Hn).
  pose proof (sorted_NoDup _ (zi_sorted _ Hi _ _ Hn)) as Hnd.
  apply NoDup_app in Hnd as (_ & H1 & [H2 _]%NoDup_cons). split.
  - intros [[-> Hb]|[Hm Hb]]; [|split; [done|by intros [-> _]]].
    split; [exists (l1 ++ x :: l2); set_solver|]. intros [_ ->]. apply elem_of_app in Hb as [Hb|Hb]; [|done].
    apply (H1 x Hb). by left.
  - intros [(l & Hl & Hb) Hne]. destruct (decide (m = n)) as [->|]; [left|right; split; [done|by exists l]].
    split; [done|]. rewrite Hl in Hn. injection Hn as ->. set_solver.
Qed.

Lemma in_zone_add L n l1 x l2 m b :
  L !! n = Some (l1 ++ l2) ->
  in_zone (<[n := l1 ++ x :: l2]> L) m b <-> in_zone L m b \/ (m = n /\ b = x).
Proof.
  intros Hn. rewrite (in_zone_insert _ _ _ _ _ _ Hn). split.
  - intros [[-> Hb]|[Hm Hb]]; [|by left]. apply elem_of_app in Hb as [Hb|[->|Hb]%elem_of_cons].
    + left. exists (l1 ++ l2). set_solver.
    + by right.
    + left. exists (l1 ++ l2). set_solver.
  - intros [(l & Hl & Hb)|[-> ->]]; [|left; set_solver].
    destruct (decide (m = n)) as [->|]; [left|right; split; [done|by exists l]].
    split; [done|]. rewrite Hl in Hn. injection Hn as ->. set_solver.
Qed.

(** A block outside of the pool, where the pool could take it. *)
Record block_ok (L : list (list Z)) (n : nat) (b : Z) : Prop := {
  bo_zone : (n < 19)%nat;
  bo_pos : 0 < b;
  bo_aligned : b mod zsize n = 0;
  bo_limit : b + zsize n <= LIMIT;
  bo_outside : forall a, b <= a < b + zsize n -> ~ free L a
}.

Lemma block_ok_disjoint L n b n' b' :
  block_ok L n b -> in_zone L n' b' -> b + zsize n <= b' \/ b' + zsize n' <= b.
Proof.
  intros Hb Hz. pose proof (zsize_pos n). pose proof (zsize_pos n').
  destruct (Z.le_gt_cases (b + zsize n) b'); [by left|].
  destruct (Z.le_gt_cases (b' + zsize n') b); [by right|]. exfalso.
  apply (bo_outside _ _ _ Hb (Z.max b b')); [lia|]. exists n', b'. split; [done|lia].
Qed.

Lemma free_remove L n l1 x l2 a :
  zinv L -> L !! n = Some (l1 ++ x :: l2) ->
  free L a <-> free (<[n := l1 ++ l2]> L) a \/ x <= a < x + zsize n.
Proof.
  intros Hi Hn. split.
  - intros (m & b & Hb & Ha). destruct (decide (m = n /\ b = x)) as [[-> ->]|Hne]; [by right|].
    left. exists m, b. split; [|done]. by apply (in_zone_remove _ _ _ _ _ _ _ Hi Hn).
  - intros [(m & b & [Hb _]%(in_zone_remove _ _ _ _ _ _ _ Hi Hn) & Ha)|Ha]; [by exists m, b|].
    exists n, x. split; [|done]. exists (l1 ++ x :: l2). set_solver.
Qed.

Lemma free_add L n l1 x l2 a :
  L !! n = Some (l1 ++ l2) ->
  free (<[n := l1 ++ x :: l2]> L) a <-> free L a \/ x <= a < x + zsize n.
Proof.
  intros Hn. split.
  - intros (m & b & [Hb|[-> ->]]%(in_zone_add _ _ _ _ _ _ _ Hn) & Ha); [left; by exists m, b|by right].
  - intros [(m & b & Hb & Ha)|Ha].
    + exists m, b. split; [|done]. apply (in_zone_add _ _ _ _ _ _ _ Hn). by left.
    + exists n, x. split; [|done]. apply (in_zone_add _ _ _ _ _ _ _ Hn). by right.
Qed.

Lemma zinv_remove L n l1 x l2 :
  zinv L -> L !! n = Some (l1 ++ x :: l2) -> zinv (<[n := l1 ++ l2]> L).
Proof.
  intros Hi Hn. assert (forall m b, in_zone (<[n := l1 ++ l2]> L) m b -> in_zone L m b) as Hsub
    by (intros m b Hb; apply (in_zone_remove _ _ _ _ _ _ _ Hi Hn) in Hb; tauto).
  constructor.
  - rewrite length_insert. apply Hi.
  - intros m l Hl. destruct (decide (m = n)) as [->|Hm].
    + rewrite list_lookup_insert_eq in Hl by (by eapply lookup_lt_Some). injection Hl as <-.
      apply (zi_sorted _ Hi), sorted_app in Hn as (H1 & [H2 _]%StronglySorted_inv & H3).
      apply sorted_app. repeat split; try done. intros y z Hy Hz. apply H3; [done|by right].
    + rewrite list_lookup_insert_ne in Hl by done. by apply (zi_sorted _ Hi m).
  - intros m b Hb. apply Hi. by apply Hsub.
  - intros m b m' b' Hb Hb'. apply (zi_disjoint _ Hi); by apply Hsub.
  - intros m b b' Hb Hb'. apply (zi_coalesced _ Hi); by apply Hsub.
Qed.

Lemma zinv_add L n l1 x l2 :
  zinv L -> block_ok L n x -> L !! n = Some (l1 ++ l2) ->
  Forall (fun y => y < x) l1 -> Forall (fun y => x < y) l2 ->
  (forall y, in_zone L n y -> Z.lxor y x <> zsize n) ->
  zinv (<[n := l1 ++ x :: l2]> L).
Proof.
  intros Hi Hx Hn Hl1 Hl2 Hbud. rewrite Forall_forall in Hl1, Hl2.
  pose proof (fun m b => proj1 (in_zone_add L n l1 x l2 m b Hn)) as Hin.
  constructor.
  - rewrite length_insert. apply Hi.
  - intros m l Hl. destruct (decide (m = n)) as [->|Hm].
    + rewrite list_lookup_insert_eq in Hl by (by eapply lookup_lt_Some). injection Hl as <-.
      apply (zi_sorted _ Hi), sorted_app in Hn as (H1 & H2 & H3).
      apply sorted_app. split; [done|]. split; [constructor; [done|by apply Forall_forall]|].
      intros y z Hy [->|Hz]%elem_of_cons; eauto.
    + rewrite list_lookup_insert_ne in Hl by done. by apply (zi_sorted _ Hi m).
  - intros m b [Hb|[-> ->]]%Hin; [by apply Hi|]. destruct Hx. done.
  - intros m b m' b' [Hb|[-> ->]]%Hin [Hb'|[-> ->]]%Hin.
    + by apply (zi_disjoint _ Hi).
    + right. destruct (block_ok_disjoint _ _ _ _ _ Hx Hb); [by right|by left].
    + right. by apply (block_ok_disjoint _ _ _ _ _ Hx).
    + by left.
  - intros m b b' Hb%Hin Hb'%Hin. destruct Hb as [Hb|[-> ->]], Hb' as [Hb'|[E ->]].
    + by apply (zi_coalesced _ Hi m).
    + subst m. by apply Hbud.
    + rewrite Z.lxor_comm. by apply Hbud.
    + rewrite Z.lxor_nilpotent. pose proof (zsize_pos n). lia.
Qed.

Lemma removed_not_free L n l1 y l2 a :
  zinv L -> L !! n = Some (l1 ++ y :: l2) -> y <= a < y + zsize n ->
  ~ free (<[n := l1 ++ l2]> L) a.
Proof.
  intros Hi Hn Ha (m & b & [Hb Hne]%(in_zone_remove _ _ _ _ _ _ _ Hi Hn) & Hab).
  assert (in_zone L n y) as Hy by (exists (l1 ++ y :: l2); set_solver).
  destruct (zi_disjoint _ Hi _ _ _ _ Hb Hy) as [|]; [done|lia].
Qed.

(** Taking a buddy out of the pool and putting the two blocks together. *)
Lemma block_ok_merge L n l1 y l2 x :
  zinv L -> block_ok L n x -> L !! n = Some (l1 ++ y :: l2) -> Z.lxor y x = zsize n ->
  block_ok (<[n := l1 ++ l2]> L) (S n) (Z.min x y) /\
  forall a, free (<[n := l1 ++ l2]> L) a \/ Z.min x y <= a < Z.min x y + zsize (S n) <->
            free L a \/ x <= a < x + zsize n.
Proof.
  intros Hi Hx Hn Hxy. assert (in_zone L n y) as Hy by (exists (l1 ++ y :: l2); set_solver).
  destruct (zi_block _ Hi _ _ Hy) as (Hy0 & Hya & HyL). destruct (id Hx) as [Hz Hx0 Hxa HxL Ho].
  pose proof (zsize_pos n) as Hp. pose proof (zsize_S n) as HS.
  pose proof (fun a => free_remove L n l1 y l2 a Hi Hn) as Hf.
  assert (Z.min x y mod zsize (S n) = 0 /\ Z.max x y = Z.min x y + zsize n) as [Hma Hmx].
  { destruct (buddies n y x ltac:(lia) Hya Hxa Hxy) as [(? & ? & ?)|(? & ? & ?)].
    - rewrite Z.min_r, Z.max_l by lia. split; [done|lia].
    - rewrite Z.min_l, Z.max_r by lia. split; [done|lia]. }
  split.
  - assert (zsize (S n) <= Z.min x y) as Hmin
      by (pose proof (aligned_step 0 (Z.min x y) (zsize (S n)) ltac:(lia) eq_refl Hma ltac:(lia)); lia).
    constructor; [|lia|done|lia|].
    + destruct (decide (S n < 19)%nat) as [|Hge]; [done|]. exfalso.
      pose proof (zsize_le 19 (S n) ltac:(lia)) as H19. change (zsize 19) with (2 ^ 31) in H19.
      unfold LIMIT in *. lia.
    + intros a Ha Hfa. destruct (Z.lt_ge_cases a x) as [|Hxa']; [|destruct (Z.lt_ge_cases a (x + zsize n))].
      * revert Hfa. apply (removed_not_free _ _ _ y _ _ Hi Hn). lia.
      * apply (Ho a ltac:(lia)). apply Hf. by left.
      * revert Hfa. apply (removed_not_free _ _ _ y _ _ Hi Hn). lia.
  - intros a. rewrite Hf.
    assert (Z.min x y <= a < Z.min x y + zsize (S n) <->
            y <= a < y + zsize n \/ x <= a < x + zsize n) as -> by lia. tauto.
Qed.

(** ** Counting *)

(** The pages in zones of [w], [2 * w], ... pages. *)
Fixpoint pages_from (w : Z) (L : list (list Z)) : Z :=
  match L with [] => 0 | l :: L => Z.of_nat (length l) * w + pages_from (2 * w) L end.

Definition pages (L : list (list Z)) : Z := pages_from 1 L.

Definition blocks (L : list (list Z)) : nat := length (concat L).

Lemma pages_insert L n l l' :
  L !! n = Some l ->
  pages (<[n := l']> L) = pages L + (Z.of_nat (length l') - Z.of_nat (length l)) * 2 ^ Z.of_nat n.
Proof.
  unfold pages. rewrite <- (Z.mul_1_l (2 ^ Z.of_nat n)). generalize 1 as w. revert n.
  induction L as [|l0 L IH]; intros [|n] w Hn; cbn in Hn; try done.
  - injection Hn as ->. cbn. lia.
  - cbn [insert list_insert pages_from].
    replace (<[n := l']> L) with (<[n := l']> L) by done.
    change (pages_from (2 * w) (list_insert n l' L)) with (pages_from (2 * w) (<[n := l']> L)).
    rewrite (IH n (2 * w) Hn), Nat2Z.inj_succ, Z.pow_succ_r by lia. lia.
Qed.

Lemma blocks_insert L n l l' :
  L !! n = Some l -> (blocks (<[n := l']> L) + length l = blocks L + length l')%nat.
Proof.
  intros Hn. unfold blocks. rewrite (insert_take_drop L n l') by (by eapply lookup_lt_Some).
  rewrite <- (take_drop_middle L n l Hn) at 3.
  rewrite !concat_app. cbn [concat]. rewrite !length_app. lia.
Qed.

Lemma blocks_length L n l : L !! n = Some l -> (length l <= blocks L)%nat.
Proof. intros Hn. pose proof (blocks_insert L n l [] Hn) as H. cbn in H. lia. Qed.

(** Every block has a page. *)
Lemma blocks_pages L : Z.of_nat (blocks L) <= pages L.
Proof.
  unfold blocks, pages. enough (forall w, 1 <= w -> Z.of_nat (length (concat L)) <= pages_from w L)
    as H by (apply H; lia).
  induction L as [|l L IH]; intros w Hw; cbn; [lia|].
  rewrite length_app, Nat2Z.inj_add. specialize (IH (2 * w) ltac:(lia)).
  assert (Z.of_nat (length l) <= Z.of_nat (length l) * w) by nia. lia.
Qed.

(** ** Coalescing *)

Lemma dseg_last_elem h c l m k : dseg h 0 c l m k -> m <> 0 -> exists l', l = l' ++ [m].
Proof.
  destruct l as [|x l' _] using rev_ind; [intros [_ <-]; done|].
  intros (m' & k0 & _ & (_ & _ & n & _ & [_ <-]))%dseg_app _. by exists l'.
Qed.

Lemma dseg_first_elem h m k l q : dseg h m k l q 0 -> k <> 0 -> exists l', l = k :: l'.
Proof. destruct l as [|x l']; [by intros [-> _]|]. intros (-> & _) _. by exists l'. Qed.

(** A buddy of [x] in a zone is one of the neighbours that are looked at. *)
Lemma buddy_adjacent L n l1 l2 x y h z m k :
  zinv L -> block_ok L n x -> L !! n = Some (l1 ++ l2) -> split_at h z x l1 l2 m k ->
  in_zone L n y -> Z.lxor y x = zsize n -> (y = m /\ m <> 0) \/ (y = k /\ k <> 0).
Proof.
  intros Hi Hx Hn (H1 & [q H2] & Hl1 & Hl2) Hy Hxy. pose proof (zsize_pos n) as Hp.
  destruct (zi_block _ Hi _ _ Hy) as (Hy0 & Hya & _).
  pose proof (zi_sorted _ Hi _ _ Hn) as (Hs1 & Hs2 & Hs12)%sorted_app.
  destruct Hy as (l & Hl & Hy). rewrite Hl in Hn. injection Hn as ->.
  assert (forall z, z ∈ l1 ++ l2 -> 0 < z /\ z mod zsize n = 0) as Hal
    by (intros w Hw; destruct (zi_block _ Hi n w) as (? & ? & _); [by eexists|done]).
  apply elem_of_app in Hy as [Hy|Hy].
  - assert (m <> 0) as Hm.
    { intros ->. destruct l1 as [|w l1' _] using rev_ind; [by apply elem_of_nil in Hy|].
      apply dseg_app in H1 as (? & ? & _ & (_ & Hw & ? & _ & [_ ?])). done. }
    left. split; [|done]. destruct (dseg_last_elem _ _ _ _ _ H1 Hm) as [l1' ->].
    apply elem_of_app in Hy as [Hy|Hy]; [|by apply list_elem_of_singleton in Hy]. exfalso.
    apply sorted_app in Hs1 as (_ & _ & Hs1). specialize (Hs1 y m Hy ltac:(by left)).
    apply Forall_app in Hl1 as [_ [Hmx _]%Forall_cons].
    destruct (Hal m ltac:(set_solver)) as [_ Hma].
    pose proof (aligned_step y m _ Hp Hya Hma Hs1).
    pose proof (aligned_step m x _ Hp Hma (bo_aligned _ _ _ Hx) Hmx).
    destruct (buddies n y x ltac:(lia) Hya (bo_aligned _ _ _ Hx) Hxy) as [|]; lia.
  - assert (k <> 0) as Hk.
    { intros ->. destruct l2 as [|w l2']; [by apply elem_of_nil in Hy|].
      by destruct H2 as (? & ? & _). }
    right. split; [|done]. destruct (dseg_first_elem _ _ _ _ _ H2 Hk) as [l2' ->].
    apply elem_of_cons in Hy as [->|Hy]; [done|]. exfalso.
    apply StronglySorted_inv in Hs2 as [_ Hs2]. rewrite Forall_forall in Hs2. specialize (Hs2 y Hy).
    specialize (Hl2 k eq_refl). destruct (Hal k ltac:(set_solver)) as [_ Hka].
    assert (k <> x) as Hkx.
    { intros ->. apply (bo_outside _ _ _ Hx x ltac:(lia)). exists n, x.
      split; [exists (l1 ++ x :: l2'); split; [done|set_solver]|lia]. }
    pose proof (aligned_step k y _ Hp Hka Hya Hs2).
    pose proof (aligned_step x k _ Hp (bo_aligned _ _ _ Hx) Hka ltac:(lia)).
    destruct (buddies n y x ltac:(lia) Hya (bo_aligned _ _ _ Hx) Hxy) as [|]; lia.
Qed.

(** What [add_block] has done in state [st'] with lists [L']. *)
Definition added (st st' : zstate) (L L' : list (list Z)) (x : Z) (n : nat) : Prop :=
  rep st' L' /\ zinv L' /\ zalloc_memory st' = zalloc_memory st /\
  (forall a, free L' a <-> free L a \/ x <= a < x + zsize n) /\
  pages L' = pages L + 2 ^ Z.of_nat n /\ (blocks L' <= blocks L + 1)%nat.

(** Removing a buddy from its zone leaves a larger block to be added. *)
Lemma remove_buddy st L n z l1 y l2 x :
  rep st L -> zinv L -> block_ok L n x -> L !! n = Some (l1 ++ y :: l2) ->
  zone st !! n = Some z -> dlist (heap st) z (l1 ++ y :: l2) -> Z.lxor y x = zsize n ->
  exists st', remove_block st y (Z.of_nat n) = Ret st' /\
    rep st' (<[n := l1 ++ l2]> L) /\ zinv (<[n := l1 ++ l2]> L) /\
    block_ok (<[n := l1 ++ l2]> L) (S n) (Z.min x y) /\
    (blocks (<[n := l1 ++ l2]> L) + 1 = blocks L)%nat /\
    (forall st'' L', added st' st'' (<[n := l1 ++ l2]> L) L' (Z.min x y) (S n) -> added st st'' L L' x n).
Proof.
  intros Hrep Hi Hx Hn Hz Hd Hxy.
  destruct (remove_block_spec st n z l1 y l2 Hz Hd (sorted_NoDup _ (zi_sorted _ Hi _ _ Hn)))
    as (st' & z' & Hst' & Hup & Hd').
  destruct (block_ok_merge L n l1 y l2 x Hi Hx Hn Hxy) as [Hok Hfree].
  pose proof (pages_insert L n _ (l1 ++ l2) Hn) as Hp. pose proof (blocks_insert L n _ (l1 ++ l2) Hn) as Hb.
  rewrite !length_app in Hp, Hb. cbn [length] in Hp, Hb.
  exists st'. split; [done|]. split; [|split; [by eapply zinv_remove|split; [done|split; [lia|]]]].
  - eapply rep_update; [done..|]. intros m lm w Hm Hlm Hw. by eapply (zones_NoDup L n m).
  - intros st'' L' (H1 & H2 & H3 & H4 & H5 & H6). destruct Hup as (_ & Hmem & _).
    split; [done|]. split; [done|]. split; [congruence|].
    split; [intros a; by rewrite H4, Hfree|]. split; [|lia].
    rewrite H5, Hp, Nat2Z.inj_succ, Z.pow_succ_r by lia. lia.
Qed.

(** Inserting a block that has no buddy in its zone. *)
Lemma insert_added st L n z l1 l2 m k x :
  rep st L -> zinv L -> block_ok L n x -> L !! n = Some (l1 ++ l2) -> zone st !! n = Some z ->
  split_at (heap st) z x l1 l2 m k -> (forall y, in_zone L n y -> Z.lxor y x <> zsize n) ->
  exists st' L', insert_block st x m k (Z.of_nat n) = Ret st' /\ added st st' L L' x n.
Proof.
  intros Hrep Hi Hx Hl Hz (H1 & [q H2] & Hl1 & Hl2) Hnone. pose proof (zsize_pos n).
  assert (forall y m, in_zone L m y -> y <> x) as Hne.
  { intros y m' Hy ->. pose proof (zsize_pos m').
    destruct (block_ok_disjoint _ _ _ _ _ Hx Hy); lia. }
  assert (x ∉ l1 ++ l2) as Hxl by (intros Hin; by apply (Hne x n); [eexists|]).
  pose proof (sorted_NoDup _ (zi_sorted _ Hi _ _ Hl)) as Hnd. pose proof (bo_pos _ _ _ Hx).
  destruct (insert_block_spec st n z x l1 l2 m k q Hz H1 H2 Hnd Hxl ltac:(lia))
    as (st' & z' & Hst' & Hup & Hd').
  pose proof (pages_insert L n _ (l1 ++ x :: l2) Hl) as Hp. pose proof (blocks_insert L n _ (l1 ++ x :: l2) Hl) as Hb.
  rewrite !length_app in Hp, Hb. cbn [length] in Hp, Hb.
  exists st', (<[n := l1 ++ x :: l2]> L). split; [done|]. split; [|split; [|split; [|split; [|split]]]].
  - eapply rep_update; [done..|]. intros m' lm w Hm Hlm Hw. apply not_elem_of_cons. split.
    + apply (Hne w m'). by eexists.
    + by eapply (zones_NoDup L n m').
  - apply zinv_add; try done. apply (zi_sorted _ Hi), sorted_app in Hl as (_ & Hs2 & _).
    destruct l2 as [|k' l2]; [done|]. specialize (Hl2 k' eq_refl).
    assert (k' <> x) by set_solver. apply StronglySorted_inv in Hs2 as [_ Hs2].
    constructor; [lia|]. eapply Forall_impl; [exact Hs2|]. cbn. lia.
  - apply Hup.
  - intros a. by apply free_add.
  - rewrite Hp. lia.
  - lia.
Qed.

Lemma add_block_spec fuel st L n x :
  rep st L -> zinv L -> block_ok L n x -> (blocks L + (19 - n) < fuel)%nat ->
  exists st' L', add_block fuel st x (Z.of_nat n) = Ret st' /\ added st st' L L' x n.
Proof.
  revert st L n x. induction fuel as [|fuel IH]; intros st L n x Hrep Hi Hx Hf; [lia|].
  pose proof (bo_zone _ _ _ Hx) as Hn19. pose proof (bo_pos _ _ _ Hx) as Hx0.
  destruct (lookup_lt_is_Some_2 L n) as [l Hl]; [by rewrite (zi_zones _ Hi)|].
  destruct (Forall2_lookup_r _ _ _ _ _ Hrep Hl) as (z & Hz & q & Hd).
  pose proof (blocks_length _ _ _ Hl) as Hll.
  destruct (find_neighbours_spec (S fuel) st z x [] l 0 z q) as (l1 & l2 & m & k & Hfind & El & Hsp);
    [done|done|constructor|lia|]. cbn in El. subst l.
  cbn [add_block]. rewrite (get_zone_Ret _ _ _ Hz). cbn [mbind exec_bind]. rewrite Hfind.
  cbn [mbind exec_bind]. rewrite ZONE_SIZE_zsize by lia.
  replace (Z.of_nat n + 1) with (Z.of_nat (S n)) by lia.
  destruct (id Hsp) as (H1 & [q' H2] & Hl1 & Hl2).
  assert (forall y, in_zone L n y -> Z.lxor y x = zsize n -> 0 <= x /\ x mod zsize n = 0 /\ y mod zsize n = 0) as Hal.
  { intros y Hy _. split; [lia|]. split; [apply Hx|]. by apply (zi_block _ Hi). }
  destruct (negb (m =? 0) && (Z.lxor m x =? zsize n)) eqn:Em; zbool; [|destruct (negb (k =? 0) && (Z.lxor k x =? zsize n)) eqn:Ek; zbool].
  - destruct (dseg_last_elem _ _ _ _ _ H1 ltac:(done)) as [l1' ->]. rewrite <- app_assoc in *. cbn in *.
    destruct (remove_buddy st L n z l1' m l2 x) as (st1 & -> & Hr1 & Hi1 & Hok1 & Hb1 & Hadd);
      [done..|by exists q|done|]. cbn.
    replace (Z.min x m) with m in * by (apply Forall_app in Hl1 as [_ [? _]%Forall_cons]; lia).
    destruct (IH st1 _ (S n) m Hr1 Hi1 Hok1 ltac:(lia)) as (st' & L' & Hst' & HL').
    exists st', L'. split; [done|by apply Hadd].
  - destruct (dseg_first_elem _ _ _ _ _ H2 ltac:(done)) as [l2' ->].
    destruct (remove_buddy st L n z l1 k l2' x) as (st1 & -> & Hr1 & Hi1 & Hok1 & Hb1 & Hadd);
      [done..|by exists q|done|]. cbn.
    replace (Z.min x k) with x in * by (specialize (Hl2 k eq_refl); lia).
    destruct (IH st1 _ (S n) x Hr1 Hi1 Hok1 ltac:(lia)) as (st' & L' & Hst' & HL').
    exists st', L'. split; [done|by apply Hadd].
  - assert (forall y, in_zone L n y -> Z.lxor y x <> zsize n) as Hnone.
    { intros y Hy Hyx. destruct (buddy_adjacent _ _ _ _ _ _ _ _ _ _ Hi Hx Hl Hsp Hy Hyx) as [[-> Hm]|[-> Hk]].
      - by rewrite (proj2 (Z.eqb_neq m 0) Hm), (proj2 (Z.eqb_eq _ _) Hyx) in Em.
      - by rewrite (proj2 (Z.eqb_neq k 0) Hk), (proj2 (Z.eqb_eq _ _) Hyx) in Ek. }
    by apply (insert_added st L n z l1 l2 m k x Hrep Hi Hx Hl Hz Hsp).
Qed.

(** ** The amount of memory *)

Lemma pages_empty L : pages L = 0 \/ exists n x l, L !! n = Some (x :: l).
Proof.
  unfold pages. generalize 1 as w. induction L as [|[|x l] L IH]; intros w; [by left| |].
  - destruct (IH (2 * w)) as [E|(n & x & l & H)]; [left; cbn; lia|]. right. by exists (S n), x, l.
  - right. by exists 0%nat, x, l.
Qed.

(** The free pages, as many as [pages] counts. *)
Lemma free_pages L :
  zinv L -> exists P, NoDup P /\ Z.of_nat (length P) = pages L /\ forall p, p ∈ P -> free L (p * 4096).
Proof.
  remember (blocks L) as N eqn:HN. revert L HN.
  induction N as [N IH] using lt_wf_ind. intros L HN Hi.
  destruct (pages_empty L) as [E|(n & x & l & Hn)].
  { exists []. rewrite E. repeat split; [constructor|]. intros p Hp. by apply elem_of_nil in Hp. }
  pose proof (blocks_insert L n _ l Hn) as Hb. pose proof (pages_insert L n _ l Hn) as Hp.
  cbn [length] in Hb, Hp.
  destruct (IH (blocks (<[n := l]> L)) ltac:(lia) _ eq_refl (zinv_remove L n [] x l Hi Hn))
    as (P & Hnd & Hlen & HP).
  assert (in_zone L n x) as Hx by (exists (x :: l); set_solver).
  destruct (zi_block _ Hi _ _ Hx) as (Hx0 & Hxa & _). apply (zsize_divide 0 n) in Hxa; [|lia].
  change (zsize 0) with 4096 in Hxa. apply Z.div_exact in Hxa; [|lia].
  pose proof (zsize_pages n) as Hzp. pose proof (pow2_pos (Z.of_nat n)).
  exists (seqZ (x / 4096) (2 ^ Z.of_nat n) ++ P). split; [|split].
  - apply NoDup_app. split; [apply NoDup_seqZ|]. split; [|done].
    intros p Hp1%elem_of_seqZ Hp2%HP. revert Hp2. apply (removed_not_free L n [] x l _ Hi Hn). nia.
  - rewrite length_app, length_seqZ, Nat2Z.inj_add, Hlen, Hp. lia.
  - intros p [Hp1%elem_of_seqZ|Hp2%HP]%elem_of_app.
    + exists n, x. split; [done|nia].
    + by apply (free_remove L n [] x l _ Hi Hn); left.
Qed.

Lemma pages_bound L : zinv L -> 0 <= pages L <= 2 ^ 19.
Proof.
  intros Hi. destruct (free_pages L Hi) as (P & Hnd & Hlen & HP).
  assert (P ⊆+ seqZ 0 (2 ^ 19)) as Hs%submseteq_length.
  { apply NoDup_submseteq; [done|]. intros p (n & b & Hb & Hp)%HP.
    destruct (zi_block _ Hi _ _ Hb) as (? & _ & Hlim). unfold LIMIT in Hlim.
    apply elem_of_seqZ. lia. }
  rewrite length_seqZ in Hs. lia.
Qed.

(** ** [zfree] *)

(** The first chunk of a range is a block that fits it. *)
Lemma chunk_zone_spec x size :
  0 < x -> x mod 4096 = 0 -> 0 < size -> size mod 4096 = 0 -> x + size <= LIMIT ->
  exists n, chunk_zone x size = Z.of_nat n /\ (n < 19)%nat /\ x mod zsize n = 0 /\ zsize n <= size.
Proof.
  intros Hx Hxa Hs Hsa Hlim. unfold LIMIT in *.
  destruct (odd_pow2_decompose x Hx) as (k & Hk & Ex). set (i := bsf x) in *.
  assert (0 <= i) as Hi by apply bsf_nonneg. pose proof (pow2_pos i Hi).
  pose proof (Z.log2_spec size Hs) as [Hlo Hhi].
  assert (forall j, 0 <= j -> 2 ^ j <= 2 ^ 30 -> j <= 30) as Hle
    by (intros j Hj H'; by apply Z.pow_le_mono_r_iff in H'; lia).
  assert (i <= 30) as Hi30 by (destruct (Z.le_gt_cases i 30); [done|pose proof (pow2_le 31 i); nia]).
  assert (Z.log2 size <= 30) as Hl30
    by (destruct (Z.le_gt_cases (Z.log2 size) 30); [done|pose proof (pow2_le 31 (Z.log2 size)); lia]).
  assert (12 <= i) as Hi12.
  { destruct (Z.le_gt_cases 12 i); [done|]. exfalso. rewrite Ex in Hxa.
    change 4096 with (2 ^ 12) in Hxa. rewrite (pow2_at i 12) in Hxa by lia.
    rewrite Z.mul_mod_distr_r in Hxa by (pose proof (pow2_pos (12 - i)); lia).
    assert ((2 * k + 1) mod 2 ^ (12 - i) = 0) as Hm by nia.
    replace (12 - i) with (1 + (11 - i)) in Hm by lia. rewrite pow2_split in Hm by lia.
    pose proof (pow2_pos (11 - i) ltac:(lia)). apply Z.div_exact in Hm; [|lia].
    change (2 ^ 1) with 2 in Hm. lia. }
  assert (12 <= Z.log2 size) as Hl12.
  { apply Z.log2_le_pow2; [done|]. apply Z.div_exact in Hsa; [|lia]. lia. }
  set (j := Z.min i (Z.log2 size)). exists (Z.to_nat (j - 12)). unfold zsize.
  rewrite Z2Nat.id by lia. replace (j - 12 + 12) with j by lia. split; [|split; [lia|split]].
  - unfold chunk_zone, PAGESIZE_LOG2. rewrite L4_msb_log2 by done. rewrite Ex, L4_lsb_decomposed by done.
    rewrite !(u32_small (_ + 1 - 1)) by lia. case_if; rewrite u32_small; lia.
  - rewrite Ex, (pow2_at j i) by lia. rewrite Z.mul_assoc. apply Z.mod_mul. pose proof (pow2_pos j). lia.
  - pose proof (pow2_le j (Z.log2 size)). lia.
Qed.

(** A range of memory, whole pages outside of the pool. *)
Record range_ok (L : list (list Z)) (x size : Z) : Prop := {
  ro_pos : 0 < x;
  ro_aligned : x mod 4096 = 0;
  ro_size : 0 < size;
  ro_pages : size mod 4096 = 0;
  ro_limit : x + size <= LIMIT;
  ro_outside : forall a, x <= a < x + size -> ~ free L a
}.

Lemma zfree_loop_spec fuel st L x size :
  rep st L -> zinv L -> range_ok L x size ->
  Z.of_nat (blocks L) + 2 * (size / 4096) + 20 < Z.of_nat fuel ->
  exists st' L', zfree_loop fuel st x size = Ret st' /\ rep st' L' /\ zinv L' /\
    zalloc_memory st' = zalloc_memory st /\
    (forall a, free L' a <-> free L a \/ x <= a < x + size) /\
    pages L' = pages L + size / 4096.
Proof.
  revert st L x size. induction fuel as [|fuel IH]; intros st L x size Hrep Hi Hr Hf.
  { destruct Hr. assert (0 <= size / 4096) by (apply Z.div_pos; lia). lia. }
  destruct (id Hr) as [Hx Hxa Hs Hsa Hlim Ho].
  destruct (chunk_zone_spec x size Hx Hxa Hs Hsa Hlim) as (n & En & Hn & Hxn & Hns).
  pose proof (zsize_pos n) as Hp. pose proof (zsize_pages n) as Hzp. pose proof (pow2_pos (Z.of_nat n)) as Hp2.
  cbn [zfree_loop]. rewrite En, ZONE_SIZE_zsize by lia.
  assert (block_ok L n x) as Hok by (constructor; try done; [lia|intros a Ha; apply Ho; lia]).
  assert (size / 4096 = 2 ^ Z.of_nat n + (size - zsize n) / 4096) as Hdiv.
  { replace size with (2 ^ Z.of_nat n * 4096 + (size - zsize n)) at 1 by lia.
    apply Z.div_add_l. lia. }
  assert (0 <= (size - zsize n) / 4096) as Hrest by (apply Z.div_pos; lia).
  destruct (add_block_spec (S fuel) st L n x Hrep Hi Hok ltac:(lia)) as (st1 & L1 & -> & Hr1 & Hi1 & Hm1 & Hf1 & Hp1 & Hb1).
  cbn [mbind exec_bind]. unfold LIMIT in *. rewrite !u32_small by lia. case_if.
  - assert (range_ok L1 (x + zsize n) (size - zsize n)) as Hr'.
    { constructor; unfold LIMIT; try lia.
      - rewrite Hzp, Z.mod_add; [done|lia].
      - rewrite Hzp, Zminus_mod, Hsa, Z.mod_mul; [done|lia].
      - intros a Ha [Hfa|Hfa]%Hf1; [apply (Ho a); [lia|done]|lia]. }
    destruct (IH st1 L1 _ _ Hr1 Hi1 Hr' ltac:(lia)) as (st' & L' & -> & Hr2 & Hi2 & Hm2 & Hf2 & Hp3).
    exists st', L'. repeat (split; [done|]). split; [congruence|]. split; [|lia].
    intros a. rewrite Hf2, Hf1.
    assert (x <= a < x + size <-> x <= a < x + zsize n \/
            x + zsize n <= a < x + zsize n + (size - zsize n)) as -> by lia. tauto.
  - assert (size = zsize n) as -> by lia. rewrite Z.sub_diag in Hdiv. change (0 / 4096) with 0 in Hdiv.
    exists st1, L1. repeat (split; [done|]). lia.
Qed.

(** ** Specification

    The pool manages the set [F] of free addresses: its zones hold disjoint,
    aligned and fully coalesced blocks that make up [F], and the count of free
    pages is right. *)
Definition pool (st : zstate) (F : Z -> Prop) : Prop :=
  exists L, rep st L /\ zinv L /\ zalloc_memory st = pages L /\ forall a, F a <-> free L a.

Lemma pool_ext p F F' : (forall a, F a <-> F' a) -> pool p F -> pool p F'.
Proof. intros E (L&?&?&?&H). exists L. repeat (split; [done|]). intros a. now rewrite <- E, H. Qed.

Lemma pool_bound p F : pool p F -> 0 <= zalloc_memory p <= 2 ^ 19.
Proof. intros (L&_&Hi&->&_). now apply pages_bound. Qed.

(** Fuel enough for adding [size] bytes to a pool. *)
Definition zfree_fuel (st : zstate) (size : Z) : Z := zalloc_memory st + 2 * (size / 4096) + 20.

(** The pool before any memory is added to it. *)
Definition pool_init : zstate := mk_zstate (replicate 19 0) ∅ 0.

Lemma pool_init_ok : pool pool_init (fun _ => False).
Proof.
  assert (forall n b, ~ in_zone (replicate 19 []) n b) as Hno.
  { intros n b (l & [-> _]%lookup_replicate & Hb). by apply elem_of_nil in Hb. }
  exists (replicate 19 []). split; [|split; [|split]].
  - apply Forall2_same_length_lookup_2; [done|]. intros i z l Hz Hl.
    apply lookup_replicate in Hz as [-> _]. apply lookup_replicate in Hl as [-> _]. by exists 0.
  - constructor; [done|..]; [intros n l [-> _]%lookup_replicate; constructor|..];
      intros; exfalso; by eapply Hno.
  - done.
  - intros a. split; [done|]. intros (n & b & H & _). by apply Hno in H.
Qed.

Lemma zfree_spec fuel st L x size :
  rep st L -> zinv L -> zalloc_memory st = pages L -> range_ok L x size ->
  zfree_fuel st size < Z.of_nat fuel ->
  exists st' L', zfree fuel st x size = Ret st' /\ rep st' L' /\ zinv L' /\
    zalloc_memory st' = pages L' /\ (forall a, free L' a <-> free L a \/ x <= a < x + size) /\
    pages L' = pages L + size / 4096.
Proof.
  intros Hrep Hi Hm Hr Hf. destruct (id Hr) as [Hx Hxa Hs Hsa Hlim Ho].
  unfold zfree_fuel in Hf. pose proof (blocks_pages L).
  destruct (zfree_loop_spec fuel (mk_zstate (zone st) (heap st) (u32 (zalloc_memory st + size / PAGESIZE)))
              L x size Hrep Hi Hr ltac:(lia)) as (st' & L' & Hst' & Hr' & Hi' & Hm' & Hf' & Hp').
  pose proof (pages_bound L' Hi'). pose proof (pages_bound L Hi).
  exists st', L'. split; [|split; [done|split; [done|split; [|done]]]].
  - unfold zfree. change (PAGESIZE - 1) with (2 ^ 12 - 1). rewrite !land_mask by done.
    change (2 ^ 12) with 4096. rewrite Hxa, Hsa, (proj2 (Z.eqb_neq x 0)) by lia. exact Hst'.
  - rewrite Hm'; cbn [zalloc_memory]; change PAGESIZE with 4096. rewrite u32_small; lia.
Qed.

(** [zfree] on the pool as a set of addresses. *)
Lemma zfree_pool st F x size fuel :
  pool st F -> 0 < x -> x mod 4096 = 0 -> 0 < size -> size mod 4096 = 0 -> x + size <= LIMIT ->
  (forall a, x <= a < x + size -> ~ F a) -> zfree_fuel st size < Z.of_nat fuel ->
  exists st', zfree fuel st x size = Ret st' /\
    pool st' (fun a => F a \/ x <= a < x + size) /\
    zalloc_memory st' = zalloc_memory st + size / 4096.
Proof.
  intros (L & Hrep & Hi & Hm & HF) Hx Hxa Hs Hsa Hlim Ho Hf.
  assert (range_ok L x size) as Hr by (constructor; try done; intros a Ha Hfa; by apply (Ho a Ha), HF).
  destruct (zfree_spec fuel st L x size Hrep Hi Hm Hr Hf) as (st' & L' & Hst' & Hr' & Hi' & Hm' & Hf' & Hp').
  exists st'. split; [done|]. split; [|lia].
  exists L'. repeat (split; [done|]). intros a. by rewrite Hf', HF.
Qed.

(** C8: [zfree] of a range of whole pages outside of the pool and below the
    limit adds exactly that range to the free memory, counts its pages and
    keeps the invariant: the free blocks are disjoint, aligned to their size,
    linked in order of address in both directions, and no two buddies are left
    apart. *)
Theorem zfree_adds st F x size fuel :
  pool st F -> 0 < x -> x mod 4096 = 0 -> 0 < size -> size mod 4096 = 0 -> x + size <= LIMIT ->
  (forall a, x <= a < x + size -> ~ F a) -> zfree_fuel st size < Z.of_nat fuel ->
  exists st', zfree fuel st x size = Ret st' /\
    pool st' (fun a => F a \/ x <= a < x + size) /\
    zalloc_memory st' = zalloc_memory st + size / 4096.
Proof. apply zfree_pool. Qed.

Theorem zfree_adds_witness :
  exists st', zfree 60 pool_init 0x1000 0x4000 = Ret st' /\
    pool st' (fun a => False \/ 0x1000 <= a < 0x1000 + 0x4000) /\
    zalloc_memory st' = 0 + 0x4000 / 4096.
Proof.
  apply (zfree_adds pool_init (fun _ => False) 0x1000 0x4000 60 pool_init_ok);
    first [lia | reflexivity | tauto | vm_compute; congruence].
Defined.

(** ** [zalloc] *)

(** With all buddies coalesced, an aligned range of a block's size that is
    free lies inside one block. *)
Lemma aligned_range_block L n x :
  zinv L -> x mod zsize n = 0 -> (forall a, x <= a < x + zsize n -> free L a) ->
  exists m b, in_zone L m b /\ (n <= m)%nat /\ b <= x /\ x + zsize n <= b + zsize m.
Proof.
  intros Hi. revert x. induction n as [|n IH]; intros x Hx Hf.
  - destruct (Hf x) as (m & b & Hb & Hbx); [pose proof (zsize_pos 0); lia|].
    exists m, b. split; [done|]. split; [lia|]. split; [lia|].
    destruct (zi_block _ Hi _ _ Hb) as (_ & Hba & _). pose proof (zsize_pos 0).
    apply (aligned_step x (b + zsize m)); [done|done| |lia].
    rewrite zsize_pages. change 4096 with (zsize 0). rewrite Z.mod_add by lia.
    by apply (zsize_divide 0 m); [lia|].
  - pose proof (zsize_pos n) as Hp. pose proof (zsize_S n) as HS.
    assert (x mod zsize n = 0) as Hxn by (apply (zsize_divide n (S n)); [lia|done]).
    destruct (IH x Hxn) as (m1 & b1 & Hb1 & Hm1 & Hl1 & Hr1); [intros; apply Hf; lia|].
    destruct (IH (x + zsize n)) as (m2 & b2 & Hb2 & Hm2 & Hl2 & Hr2).
    { rewrite <- (Z.mul_1_l (zsize n)) at 1. by rewrite Z.mod_add by lia. }
    { intros; apply Hf; lia. }
    assert (forall m b, in_zone L m b -> (S n <= m)%nat -> b mod zsize (S n) = 0 /\ (b + zsize m) mod zsize (S n) = 0) as Hal.
    { intros m b Hb Hm. destruct (zi_block _ Hi _ _ Hb) as (_ & Hba & _).
      split; (apply (zsize_divide (S n) m); [done|]); [done|].
      rewrite <- (Z.mul_1_l (zsize m)) at 1. rewrite Z.mod_add; [done|]. pose proof (zsize_pos m). lia. }
    destruct (decide (S n <= m1)%nat) as [H1|H1]; [|destruct (decide (S n <= m2)%nat) as [H2|H2]].
    + exists m1, b1. repeat (split; [done|]). destruct (Hal _ _ Hb1 H1) as [_ He].
      apply aligned_step; [lia|done|done|lia].
    + exists m2, b2. repeat (split; [done|]). destruct (Hal _ _ Hb2 H2) as [Hb _].
      split; [|lia]. destruct (Z.le_gt_cases b2 x); [done|].
      pose proof (aligned_step x b2 _ (zsize_pos (S n)) Hx Hb ltac:(lia)). lia.
    + assert (m1 = n) as -> by lia. assert (m2 = n) as -> by lia.
      assert (b1 = x) as -> by lia. assert (b2 = x + zsize n) as -> by lia.
      destruct (zi_coalesced _ Hi n x (x + zsize n) Hb1 Hb2).
      destruct (zi_block _ Hi _ _ Hb1) as (? & _). unfold zsize in *.
      pose proof (lxor_pow2 x (Z.of_nat n + 12) ltac:(lia) ltac:(lia) Hxn) as E.
      replace (Z.of_nat n + 12 + 1) with (Z.of_nat (S n) + 12) in E by lia.
      rewrite (proj2 (Z.eqb_eq _ 0) Hx) in E. rewrite <- E, <- Z.lxor_assoc, Z.lxor_nilpotent.
      apply Z.lxor_0_l.
Qed.

(** The zone in which the search for [size] bytes starts. *)
Lemma start_zone size :
  0 < size <= 2 ^ 30 -> size mod 4096 = 0 ->
  exists k, u32 (L4_msb (u32 (size - 1)) - PAGESIZE_LOG2) = Z.of_nat k /\ (k < 19)%nat /\
    size <= zsize k /\ forall n, size <= zsize n -> (k <= n)%nat.
Proof.
  intros Hs Ha. assert (4096 <= size) as H4k by (apply Z.div_exact in Ha; lia).
  pose proof (Z.log2_spec (size - 1) ltac:(lia)) as [Hlo Hhi].
  assert (11 <= Z.log2 (size - 1)) as H11 by (apply Z.log2_le_pow2; lia).
  assert (Z.log2 (size - 1) < 30) as H30 by (apply Z.log2_lt_pow2; lia).
  set (j := Z.log2 (size - 1)) in *. exists (Z.to_nat (j - 11)).
  unfold PAGESIZE_LOG2, zsize. rewrite (u32_small (size - 1)), L4_msb_log2 by lia. fold j.
  rewrite u32_small, Z2Nat.id by lia. replace (j - 11 + 12) with (Z.succ j) by lia.
  split; [lia|]. split; [lia|]. split; [lia|]. intros n Hn.
  assert (j < Z.of_nat n + 12); [|lia]. apply (Z.pow_lt_mono_r_iff 2); lia.
Qed.

Lemma zone_empty st L n z l :
  rep st L -> zone st !! n = Some z -> L !! n = Some l -> z = 0 <-> l = [].
Proof.
  intros Hrep Hz Hl. destruct (Forall2_lookup_lr _ _ _ _ _ _ Hrep Hz Hl) as [q Hd].
  destruct l as [|x l]; [by destruct Hd|]. by destruct Hd as (-> & ? & _).
Qed.

(** The search finds the first nonempty zone. *)
Lemma find_zone_spec fuel st L k :
  rep st L -> zinv L -> (k <= 19)%nat -> (19 - k < fuel)%nat ->
  exists n, find_zone fuel st (Z.of_nat k) = Ret (Z.of_nat n) /\ (k <= n <= 19)%nat /\
    (forall m b, (k <= m < n)%nat -> ~ in_zone L m b) /\
    ((n < 19)%nat -> exists x l, L !! n = Some (x :: l)).
Proof.
  intros Hrep Hi. revert k. induction fuel as [|fuel IH]; intros k Hk Hf; [lia|].
  cbn [find_zone]. change ZONES with 19. case_if.
  { exists k. split; [done|]. split; [lia|]. split; [intros; lia|lia]. }
  destruct (lookup_lt_is_Some_2 L k) as [l Hl]; [rewrite (zi_zones _ Hi); lia|].
  destruct (Forall2_lookup_r _ _ _ _ _ Hrep Hl) as (z & Hz & _).
  rewrite (get_zone_Ret _ _ _ Hz). cbn [mbind exec_bind].
  pose proof (zone_empty _ _ _ _ _ Hrep Hz Hl) as Hze.
  rewrite (proj2 (Z.ltb_lt _ 19)), andb_true_r by lia. case_if.
  - replace (Z.of_nat k + 1) with (Z.of_nat (S k)) by lia.
    destruct (IH (S k) ltac:(lia) ltac:(lia)) as (n & Hn & Hkn & Hno & Hs).
    exists n. split; [done|]. split; [lia|]. split; [|done]. intros m b Hm.
    destruct (decide (m = k)) as [->|]; [|apply Hno; lia].
    intros (l' & Hl' & Hb). rewrite Hl in Hl'. injection Hl' as <-.
    rewrite (proj1 Hze ltac:(done)) in Hb. by apply elem_of_nil in Hb.
  - exists k. split; [done|]. split; [lia|]. split; [intros; lia|]. intros _.
    destruct l as [|x l]; [tauto|by exists x, l].
Qed.

(** Taking the first block of a zone. *)
Lemma pop_block st L n x l :
  rep st L -> zinv L -> L !! n = Some (x :: l) ->
  exists b st1 st2, heap st !! x = Some b /\ get_zone st (Z.of_nat n) = Ret x /\
    set_zone st (Z.of_nat n) (next b) = Ret st1 /\
    (if negb (next b =? 0) then set_prev st1 (next b) 0 else Ret st1) = Ret st2 /\
    rep st2 (<[n := l]> L) /\ zalloc_memory st2 = zalloc_memory st.
Proof.
  intros Hrep Hi Hl. destruct (Forall2_lookup_r _ _ _ _ _ Hrep Hl) as (z & Hz & q & (-> & Hx & nx & Hh & Hd)).
  pose proof (sorted_NoDup _ (zi_sorted _ Hi _ _ Hl)) as [_ Hnd]%NoDup_cons.
  assert (forall m lm w, m <> n -> L !! m = Some lm -> w ∈ lm -> w ∉ x :: l) as Hdis
    by (intros m lm w Hm Hlm Hw; by eapply (zones_NoDup L n m)).
  exists (mk_block nx 0). unfold set_zone. rewrite (get_zone_Ret _ _ _ Hz), Nat2Z.id. cbn.
  destruct (dseg_begin _ _ 0 _ _ _ Hd Hnd) as [[-> ->]|(Hnx & Hnxl & b & Hb & Hd')].
  - eexists _, _. repeat (split; [done|]). split; [|done].
    eapply (rep_update st _ n 0 [x]); [done|done| |by exists 0|done]. by repeat split.
  - rewrite (proj2 (Z.eqb_neq _ _) Hnx). eexists _, _. split; [done|]. split; [done|].
    split; [reflexivity|]. split; [unfold set_prev, load; cbn; rewrite Hb; reflexivity|]. split; [|done].
    eapply (rep_update st _ n nx (x :: l)); [done|done| |by exists q|done].
    split; [done|]. split; [done|]. intros y Hy. cbn. apply lookup_insert_ne. set_solver.
Qed.

(** Clearing the allocated block leaves the pool alone. *)
Lemma rep_zero_heap st L x size :
  rep st L -> (forall n b, in_zone L n b -> ~ (x <= b < x + size)) ->
  rep (mk_zstate (zone st) (zero_heap (heap st) x size) (zalloc_memory st)) L.
Proof.
  intros Hrep Hout. unfold rep; cbn. apply Forall2_same_length_lookup_2; [by eapply Forall2_length|].
  intros n z l Hz Hl. destruct (Forall2_lookup_lr _ _ _ _ _ _ Hrep Hz Hl) as [q Hq]. exists q.
  eapply dseg_frame; [|done]. intros b Hb. unfold zero_heap. rewrite map_lookup_imap.
  assert ((x <=? b) && (b <? x + size) = false) as ->.
  { assert (~ (x <= b < x + size)) by (apply (Hout n); by exists l).
    apply andb_false_iff. rewrite Z.leb_gt, Z.ltb_ge. lia. }
  by destruct (heap st !! b).
Qed.

(** What a successful allocation of [size] bytes at [x] leaves. *)
Definition zalloc_ok (st st' : zstate) (F : Z -> Prop) (x size : Z) : Prop :=
  0 < x /\ x mod 4096 = 0 /\ (forall a, x <= a < x + size -> F a) /\
  pool st' (fun a => F a /\ ~ (x <= a < x + size)) /\
  zalloc_memory st' = zalloc_memory st - size / 4096 /\
  (forall a b, x <= a < x + size -> heap st' !! a = Some b -> b = mk_block 0 0).

Lemma take_block_spec fuel st L n x l size :
  rep st L -> zinv L -> zalloc_memory st = pages L -> L !! n = Some (x :: l) ->
  0 < size <= zsize n -> size mod 4096 = 0 -> 3 * zalloc_memory st + 40 < Z.of_nat fuel ->
  exists st', take_block fuel st (Z.of_nat n) size = Ret (st', x) /\ zalloc_ok st st' (free L) x size.
Proof.
  intros Hrep Hi Hm Hl Hs Hsa Hf. pose proof (zsize_pages n) as Hzp. pose proof (pow2_pos (Z.of_nat n)) as Hp2.
  assert (in_zone L n x) as Hx by (exists (x :: l); set_solver).
  destruct (zi_block _ Hi _ _ Hx) as (Hx0 & Hxa & Hlim). unfold LIMIT in Hlim.
  pose proof (in_zone_lt _ _ _ Hi Hx) as Hn. apply (zsize_divide 0 n) in Hxa; [|lia].
  change (zsize 0) with 4096 in Hxa.
  destruct (pop_block st L n x l Hrep Hi Hl) as (b & st1 & st2 & Hb & Hget & Hst1 & Hst2 & Hr2 & Hm2).
  pose proof (zinv_remove L n [] x l Hi Hl) as Hi2. cbn in Hi2.
  pose proof (fun a => free_remove L n [] x l a Hi Hl) as Hfr. cbn in Hfr.
  pose proof (fun a => removed_not_free L n [] x l a Hi Hl) as Hnf. cbn in Hnf.
  pose proof (pages_insert L n _ l Hl) as Hpl. cbn [length] in Hpl.
  pose proof (pages_bound _ Hi) as Hpb. pose proof (pages_bound _ Hi2) as Hpb2.
  set (L2 := <[n := l]> L) in *.
  assert (pages L2 = pages L - 2 ^ Z.of_nat n) as Hpl' by lia. clear Hpl. rename Hpl' into Hpl.
  assert (0 <= size / 4096) by (apply Z.div_pos; lia).
  assert (zsize n / 4096 = 2 ^ Z.of_nat n) as Hzd by (rewrite Hzp; apply Z.div_mul; lia).
  assert (size / 4096 + (zsize n - size) / 4096 = 2 ^ Z.of_nat n) as Hdiv.
  { apply Z.div_exact in Hsa; [|lia]. rewrite Hsa at 2.
    replace (zsize n - 4096 * (size / 4096)) with ((2 ^ Z.of_nat n - size / 4096) * 4096) by lia.
    rewrite Z.div_mul by lia. lia. }
  unfold take_block. rewrite Hget. unfold load. cbn [mbind exec_bind access]. rewrite Hb.
  cbn [mbind exec_bind access]. rewrite Hst1. cbn [mbind exec_bind]. rewrite Hst2. cbn [mbind exec_bind].
  rewrite !ZONE_SIZE_zsize, Hm2, Hm by lia. change PAGESIZE with 4096. rewrite Hzd, u32_small by lia.
  set (st3 := mk_zstate (zone st2) (heap st2) _).
  assert (exists st4 L4, (if size <? zsize n then zfree fuel st3 (u32 (x + size)) (zsize n - size) else Ret st3)
            = Ret st4 /\ rep st4 L4 /\ zinv L4 /\ zalloc_memory st4 = pages L4 /\
            (forall a, free L4 a <-> free L2 a \/ x + size <= a < x + zsize n) /\
            pages L4 = pages L - size / 4096) as (st4 & L4 & -> & Hr4 & Hi4 & Hm4 & Hf4 & Hp4).
  { case_if.
    - rewrite u32_small by lia.
      destruct (zfree_spec fuel st3 L2 (x + size) (zsize n - size)) as (st4 & L4 & H1 & H2 & H3 & H4 & H5 & H6);
        [done|done|cbn; lia| | |].
      + constructor; unfold LIMIT; try lia.
        * rewrite Z.add_mod, Hxa, Hsa by lia. done.
        * rewrite Zminus_mod, Hsa, Hzp, Z.mod_mul by lia. done.
        * intros a Ha. apply Hnf. lia.
      + unfold zfree_fuel, st3. cbn [zalloc_memory]. lia.
      + exists st4, L4. repeat (split; [done|]). split; [|lia].
        intros a. by replace (x + zsize n) with (x + size + (zsize n - size)) by lia.
    - assert (size = zsize n) as -> by lia. exists st3, L2. repeat (split; [done|]).
      split; [|lia]. intros a. split; [by left|]. intros [?|?]; [done|lia]. }
  cbn [mbind exec_bind]. eexists. split; [reflexivity|]. split; [lia|]. split; [done|].
  split; [intros a Ha; apply Hfr; right; lia|]. split; [|split].
  - exists L4. split; [|split; [done|split; [done|]]].
    + apply rep_zero_heap; [done|]. intros m c Hc Hcx.
      assert (free L4 c) as [Hfc|]%Hf4; [|apply (Hnf c); [lia|done]|lia].
      exists m, c. split; [done|]. pose proof (zsize_pos m). lia.
    + intros a. rewrite Hf4, Hfr. split.
      * intros [[Ha|Ha] Hn']; [by left|right; lia].
      * intros [Ha|Ha]; (split; [tauto || (right; lia)|]); [|lia].
        intros Hax. apply (Hnf a); [lia|done].
  - cbn. lia.
  - intros a c Ha. cbn. unfold zero_heap. rewrite map_lookup_imap.
    destruct (heap st4 !! a); [|done]. cbn.
    rewrite (proj2 (Z.leb_le x a)), (proj2 (Z.ltb_lt a _)) by lia. by intros [= <-].
Qed.

(** [zalloc] on the pool as a set of addresses. *)
Lemma zalloc_pool st F size fuel :
  pool st F -> 0 < size <= 2 ^ 30 -> size mod 4096 = 0 ->
  3 * zalloc_memory st + 40 < Z.of_nat fuel ->
  match zalloc fuel st size with
  | Ret (st', x) => zalloc_ok st st' F x size \/ (x = 0 /\ st' = st /\ zalloc_memory st = 0)
  | Crash f => f = assertion_failed /\ zalloc_memory st <> 0 /\
      forall n x, size <= zsize n -> x mod zsize n = 0 -> ~ (forall a, x <= a < x + zsize n -> F a)
  end.
Proof.
  intros (L & Hrep & Hi & Hm & HF) Hs Hsa Hf. pose proof (pages_bound L Hi).
  destruct (start_zone size Hs Hsa) as (k & Hk & Hk19 & Hks & Hkmin).
  unfold zalloc. change (PAGESIZE - 1) with (2 ^ 12 - 1). rewrite land_mask by done.
  change (2 ^ 12) with 4096. rewrite Hsa, Hk. cbn [Z.eqb check mbind exec_bind].
  destruct (find_zone_spec fuel st L k Hrep Hi ltac:(lia) ltac:(lia)) as (n & -> & Hkn & Hno & Hsome).
  cbn [mbind exec_bind]. change ZONES with 19. case_if.
  - assert (n = 19%nat) as -> by lia. unfold check. case_if; cbn [mbind exec_bind]; [by right|].
    split; [done|]. split; [done|]. intros m x Hsm Hx Hall.
    destruct (aligned_range_block L m x Hi Hx) as (m' & b & Hb & Hm' & _); [intros a Ha; by apply HF, Hall|].
    pose proof (in_zone_lt _ _ _ Hi Hb). specialize (Hkmin m Hsm). apply (Hno m' b); [lia|done].
  - destruct (Hsome ltac:(lia)) as (x & l & Hl). pose proof (zsize_le k n ltac:(lia)).
    destruct (take_block_spec fuel st L n x l size Hrep Hi Hm Hl ltac:(lia) Hsa Hf)
      as (st' & E' & H1 & H2 & H3 & H4 & H5). rewrite E'. left.
    split; [done|]. split; [done|]. split; [intros a Ha; by apply HF, H3|]. split; [|done].
    destruct H4 as (L' & Hr' & Hi' & Hm' & HF'). exists L'. repeat (split; [done|]).
    intros a. rewrite <- HF'. by rewrite HF.
Qed.

(** C9: from a pool with free memory [F], an allocation of whole pages, up to
    1 GB, either returns a free range of that size, which it removes from the
    pool (and nothing else) and clears; or returns 0 with the pool empty and
    unchanged; or ends in the assertion that the pool is empty, and then no
    free range of the size rounded up to a power of two is aligned to it. *)
Theorem zalloc_takes st F size fuel :
  pool st F -> 0 < size <= 2 ^ 30 -> size mod 4096 = 0 ->
  3 * zalloc_memory st + 40 < Z.of_nat fuel ->
  match zalloc fuel st size with
  | Ret (st', x) => zalloc_ok st st' F x size \/ (x = 0 /\ st' = st /\ zalloc_memory st = 0)
  | Crash f => f = assertion_failed /\ zalloc_memory st <> 0 /\
      forall n x, size <= zsize n -> x mod zsize n = 0 -> ~ (forall a, x <= a < x + zsize n -> F a)
  end.
Proof. apply zalloc_pool. Qed.

(** Four pages at 0x1000, as [zfree] adds them. *)
Definition sample_pool : zstate :=
  mk_zstate (<[0%nat := 0x1000]> (<[1%nat := 0x2000]> (replicate 19 0)))
    (<[0x1000 := mk_block 0x4000 0]> (<[0x4000 := mk_block 0 0x1000]> {[0x2000 := mk_block 0 0]})) 4.

Lemma sample_pool_ok : pool sample_pool (fun a => False \/ 0x1000 <= a < 0x1000 + 0x4000).
Proof.
  destruct (zfree_spec 60 pool_init (replicate 19 []) 0x1000 0x4000) as (st' & L' & H1 & H2 & H3 & H4 & H5 & _).
  - apply Forall2_same_length_lookup_2; [done|]. intros i z l Hz Hl.
    apply lookup_replicate in Hz as [-> _]. apply lookup_replicate in Hl as [-> _]. by exists 0.
  - assert (forall n b, ~ in_zone (replicate 19 []) n b) as Hno
      by (intros n b (l & [-> _]%lookup_replicate & Hb); by apply elem_of_nil in Hb).
    constructor; [done|..]; [intros n l [-> _]%lookup_replicate; constructor|..];
      intros; exfalso; by eapply Hno.
  - done.
  - constructor; first [lia | done | intros a _ (n & b & (l & [-> _]%lookup_replicate & Hb) & _); by apply elem_of_nil in Hb].
  - vm_compute. done.
  - assert (st' = sample_pool) as ->.
    { vm_compute in H1. injection H1 as <-. reflexivity. }
    exists L'. repeat (split; [done|]). intros a. rewrite H5. split; [intros [[]|?]; by right|].
    intros [(n & b & (l & [-> _]%lookup_replicate & Hb) & _)|?]; [by apply elem_of_nil in Hb|by right].
Qed.

Theorem zalloc_takes_witness :
  exists st', zalloc_ok sample_pool st' (fun a => False \/ 0x1000 <= a < 0x1000 + 0x4000) 0x1000 0x1000
    \/ (0x1000 = 0 /\ st' = sample_pool /\ zalloc_memory sample_pool = 0).
Proof.
  eexists.
  apply (zalloc_takes sample_pool _ 0x1000 60 sample_pool_ok);
    first [split; lia | reflexivity | vm_compute; reflexivity].
Defined.
