(* ===== verification/Reserve.v ===== *)
(** * Physical memory and its reservations (viengoos/memory.c)

    Before the memory of the machine is handed to the pool, the kernel reserves
    what must not be: its own binary, its boot modules, the memory used during
    initialisation.  Reservations are ranges of bytes, both ends included, with a
    type, kept in an array of 128 descriptors and on a search tree.
    [memory_add] gives the pool the pages that no reservation touches;
    [memory_reservation_clear] ends the reservations of one type and gives the
    pool their pages.

    The tree is represented by its nodes in order.  Which of several overlapping
    nodes a search returns depends on the tree's shape, so [find] is an argument;
    all that is assumed of it is that it finds a node if there is one. *)

From S2P Require Import Prelude Zalloc.

Module Reserve.

(** ** Data *)

Record region := Region { r_start : Z; r_end : Z }.

Inductive memory_reservation :=
| memory_reservation_self
| memory_reservation_init
| memory_reservation_system_executable
| memory_reservation_modules.

#[export] Instance memory_reservation_eq_dec : EqDecision memory_reservation.
Proof. solve_decision. Defined.

Record reservation := Reservation { rregion : region; rtype : memory_reservation; used : bool }.

Definition MAX_RESERVATIONS : Z := 128.

Definition reservation_node_compare (a b : region) : Z :=
  if r_end a <? r_start b then -1 else if r_end b <? r_start a then 1 else 0.

Record mstate := Mstate {
  reservation_pool : Z -> reservation;
  reservations : list Z;                      (* the tree's nodes, in order *)
  frames : zstate;
  memory_total : Z
}.

Definition reg (s : mstate) (i : Z) : region := rregion (reservation_pool s i).
Definition start_of (s : mstate) (i : Z) : Z := r_start (reg s i).
Definition end_of (s : mstate) (i : Z) : Z := r_end (reg s i).
Definition type_of (s : mstate) (i : Z) : memory_reservation := rtype (reservation_pool s i).

Definition set_reservation (s : mstate) (i : Z) (r : reservation) : mstate :=
  Mstate (<[i := r]> (reservation_pool s)) (reservations s) (frames s) (memory_total s).
Definition set_reservations (s : mstate) (l : list Z) : mstate :=
  Mstate (reservation_pool s) l (frames s) (memory_total s).
Definition set_start (s : mstate) (i x : Z) : mstate :=
  set_reservation s i (Reservation (Region x (end_of s i)) (type_of s i) (used (reservation_pool s i))).
Definition set_end (s : mstate) (i x : Z) : mstate :=
  set_reservation s i (Reservation (Region (start_of s i) x) (type_of s i) (used (reservation_pool s i))).
Definition set_used (s : mstate) (i : Z) (b : bool) : mstate :=
  set_reservation s i (Reservation (reg s i) (type_of s i) b).

(** ** The tree *)

(** The nodes before and after a node. *)
Fixpoint after (l : list Z) (i : Z) : option Z :=
  match l with
  | [] => None
  | j :: l => if i =? j then head l else after l i
  end.
Definition hurd_btree_reservation_first (s : mstate) : option Z := head (reservations s).
Definition hurd_btree_reservation_next (s : mstate) (i : Z) : option Z := after (reservations s) i.
Definition hurd_btree_reservation_prev (s : mstate) (i : Z) : option Z := after (reverse (reservations s)) i.
Definition hurd_btree_reservation_detach (s : mstate) (i : Z) : mstate :=
  set_reservations s (filter (fun j => j <> i) (reservations s)).

(** Inserting a node; a node with an overlapping key is returned instead. *)
Fixpoint insert_node (s : mstate) (l : list Z) (i : Z) : list Z * option Z :=
  match l with
  | [] => ([i], None)
  | j :: l =>
      let c := reservation_node_compare (reg s i) (reg s j) in
      if c <? 0 then (i :: j :: l, None)
      else if c =? 0 then (j :: l, Some j)
      else let '(l, r) := insert_node s l i in (j :: l, r)
  end.
Definition hurd_btree_reservation_insert (s : mstate) (i : Z) : mstate * option Z :=
  let '(l, r) := insert_node s (reservations s) i in (set_reservations s l, r).

(** ** Reserving *)

Section find.
Context (find : mstate -> region -> option Z).

(** Following a pointer to a node. *)
Definition deref (p : option Z) : exec Z :=
  match p with Some i => Ret i | None => Crash invalid_access end.

(** Extending the neighbours of the region by it. *)
Definition coalesce (s : mstate) (overlap start end_ : Z) (type : memory_reservation)
    : exec (mstate * bool) :=
  '(on_right, on_left) ←
    (if start_of s overlap =? u32 (end_ + 1)
     then Ret (Some overlap, hurd_btree_reservation_prev s overlap)
     else
       _ ← check (u32 (end_of s overlap + 1) =? start) assertion_failed;
       Ret (hurd_btree_reservation_next s overlap, Some overlap));
  r ← deref on_right;
  let with_right := (start_of s r =? u32 (end_ + 1)) && bool_decide (type_of s r = type) in
  let s := if with_right then set_start s r start else s in
  l ← deref on_left;
  if (u32 (end_of s l + 1) =? start) && bool_decide (type_of s l = type) then
    let s := if with_right then
               let s := set_end s l (end_of s overlap) in
               set_used (hurd_btree_reservation_detach s r) r false
             else s in
    Ret (set_end s l end_, true)
  else Ret (s, with_right).

(** A new descriptor: the first that is not in use. *)
Fixpoint new_reservation (n : nat) (i : Z) (s : mstate) (start end_ : Z) (type : memory_reservation)
    : exec (mstate * bool) :=
  match n with
  | O => Crash panicked
  | S n =>
      if negb (used (reservation_pool s i)) then
        let s := set_reservation s i (Reservation (Region start end_) type true) in
        let '(s, r) := hurd_btree_reservation_insert s i in
        _ ← check (bool_decide (r = None)) panicked;
        Ret (s, true)
      else new_reservation n (i + 1) s start end_ type
  end.

Definition memory_reserve (s : mstate) (start end_ : Z) (type : memory_reservation)
    : exec (mstate * bool) :=
  _ ← check (start <? end_) assertion_failed;
  match find s (Region start end_) with
  | Some _ => Ret (s, false)
  | None =>
      '(s, coalesced) ←
        match find s (Region (u32 (start - 1)) (u32 (end_ + 1))) with
        | Some overlap => coalesce s overlap start end_ type
        | None => Ret (s, false)
        end;
      if (coalesced : bool) then Ret (s, true)
      else new_reservation (Z.to_nat MAX_RESERVATIONS) 0 s start end_ type
  end.

(** ** Which memory is reserved *)

(** The loop that looks for the first node that overlaps. *)
Fixpoint first_overlap (fuel : nat) (s : mstate) (i start : Z) : exec Z :=
  match fuel with
  | O => Crash out_of_fuel
  | S fuel =>
      match hurd_btree_reservation_prev s i with
      | Some j => if start <? end_of s j then first_overlap fuel s j start else Ret i
      | None => Ret i
      end
  end.

Definition memory_is_reserved (fuel : nat) (s : mstate) (start end_ : Z) : exec (option (Z * Z)) :=
  _ ← check (start <? end_) assertion_failed;
  match find s (Region start end_) with
  | None => Ret None
  | Some i =>
      i ← first_overlap fuel s i start;
      Ret (Some (if start <? start_of s i then start_of s i else start,
                 if end_of s i <? end_ then end_of s i else end_))
  end.

(** ** Giving memory to the pool *)

Definition PAGE_MASK : Z := Z.lnot 4095.

Definition give (fuel : nat) (s : mstate) (start size : Z) : exec mstate :=
  p ← zfree fuel (frames s) start size;
  Ret (Mstate (reservation_pool s) (reservations s) p (u32 (memory_total s + size / 4096))).

(** The loop of [memory_add]. *)
Fixpoint add_loop (n fuel : nat) (s : mstate) (start end_ : Z) : exec mstate :=
  match n with
  | O => Crash out_of_fuel
  | S n =>
      if start <? end_ then
        o ← memory_is_reserved fuel s start end_;
        let '(start_reservation, end_reservation) :=
          match o with
          | None => (u32 (end_ + 1), u32 (end_ + 1))
          | Some (a, b) => (Z.land a PAGE_MASK, b)
          end in
        s ← (if 0 <? u32 (start_reservation - start)
             then give fuel s start (u32 (start_reservation - start)) else Ret s);
        add_loop n fuel s (Z.land (u32 (end_reservation + 4095)) PAGE_MASK) end_
      else Ret s
  end.

Definition memory_add (fuel : nat) (s : mstate) (start end_ : Z) : exec mstate :=
  _ ← check (Z.land start 4095 =? 0) assertion_failed;
  _ ← check (Z.land end_ 4095 =? 4095) assertion_failed;
  let start := if start =? 0 then start + 4096 else start in
  add_loop fuel fuel s start end_.

Fixpoint clear_loop (n fuel : nat) (s : mstate) (r : option Z) (type : memory_reservation) : exec mstate :=
  match r with
  | None => Ret s
  | Some i =>
      match n with
      | O => Crash out_of_fuel
      | S n =>
          let next := hurd_btree_reservation_next s i in
          s ← (if bool_decide (type_of s i = type) then
                 let s := set_used (hurd_btree_reservation_detach s i) i false in
                 memory_add fuel s (Z.land (start_of s i) PAGE_MASK)
                   (u32 (Z.land (end_of s i) PAGE_MASK + 4096 - 1))
               else Ret s);
          clear_loop n fuel s next type
      end
  end.

Definition memory_reservation_clear (fuel : nat) (s : mstate) (type : memory_reservation) : exec mstate :=
  clear_loop fuel fuel s (hurd_btree_reservation_first s) type.

(** The function [add] inside [memory_grab]: the frame numbers' bounds and the memory. *)
Definition add (fuel : nat) (g : bool * Z * Z * mstate) (addr length : Z) : exec (bool * Z * Z * mstate) :=
  let '(first, first_frame, last_frame, s) := g in
  let first_frame := if first || (addr <? first_frame) then addr else first_frame in
  let last_frame := if first || (last_frame <? u32 (addr + length - 4096))
                    then u32 (addr + length - 4096) else last_frame in
  s ← memory_add fuel s addr (u32 (addr + length - 1));
  Ret (false, first_frame, last_frame, s).

(** [pages] are the flexpages that sigma0 hands out, each an address and a size. *)
Fixpoint grab_loop (fuel : nat) (g : bool * Z * Z * mstate) (fpages : list (Z * Z)) : exec (bool * Z * Z * mstate) :=
  match fpages with
  | [] => Ret g
  | (addr, size) :: fpages =>
      g ← add fuel g addr size;
      grab_loop fuel g fpages
  end.

Definition memory_grab (fuel : nat) (s : mstate) (first_frame last_frame : Z) (fpages : list (Z * Z))
    : exec (Z * Z * mstate) :=
  '(_, f, l, s) ← grab_loop fuel (true, first_frame, last_frame, s) fpages;
  Ret (f, l, s).

End find.

(** ** The tree in order *)

Definition before (s : mstate) (i j : Z) : Prop := end_of s i < start_of s j.
Definition sorted (s : mstate) (l : list Z) : Prop := StronglySorted (before s) l.

Record ok (s : mstate) : Prop := Ok {
  k_sorted : sorted s (reservations s);
  k_node : forall i, i ∈ reservations s -> 0 <= i < MAX_RESERVATIONS /\ used (reservation_pool s i) = true /\
    0 <= start_of s i <= end_of s i /\ end_of s i < 2 ^ 32;
  k_used : forall i, 0 <= i < MAX_RESERVATIONS -> used (reservation_pool s i) = true -> i ∈ reservations s
}.

(** Byte [a] is reserved with type [t]. *)
Definition reserved (s : mstate) (t : memory_reservation) (a : Z) : Prop :=
  exists i, i ∈ reservations s /\ type_of s i = t /\ start_of s i <= a <= end_of s i.

Definition overlaps (s : mstate) (lo hi i : Z) : Prop := lo <= end_of s i /\ start_of s i <= hi.

(** What is assumed of the search. *)
Definition searches (find : mstate -> region -> option Z) : Prop :=
  forall s lo hi, ok s -> lo <= hi ->
  match find s (Region lo hi) with
  | Some i => i ∈ reservations s /\ overlaps s lo hi i
  | None => forall i, i ∈ reservations s -> ~ overlaps s lo hi i
  end.

Lemma sorted_mid s l1 i l2 : sorted s (l1 ++ i :: l2) <->
  sorted s (l1 ++ l2) /\ (forall j, j ∈ l1 -> before s j i) /\ (forall j, j ∈ l2 -> before s i j).
Proof.
  unfold sorted. rewrite !StronglySorted_app, StronglySorted_cons, Forall_forall. split.
  - intros (H1&H2&H3&H4). split; [|split; [|done]].
    + split; [|done]. intros x y Hx Hy. apply H1; [done|]. now right.
    + intros j Hj. apply H1; [done|]. now left.
  - intros ((H1&H2&H3)&H4&H5). split; [|done]. intros x y Hx [->|Hy]%elem_of_cons; auto.
Qed.

Lemma sorted_ext s s' l : (forall i, i ∈ l -> reg s' i = reg s i) -> sorted s l -> sorted s' l.
Proof.
  unfold sorted. induction l as [|i l IH]; intros E; [constructor|]. rewrite !StronglySorted_cons, !Forall_forall.
  intros [H1 H2]. split; [|apply IH; [|done]; intros j Hj; apply E; now right].
  intros j Hj. unfold before, end_of, start_of. rewrite (E i), (E j) by now constructor. now apply H1.
Qed.

Lemma ok_nodup s : ok s -> NoDup (reservations s).
Proof.
  intros [Hs Hn _]. induction (reservations s) as [|i l IH]; [constructor|].
  unfold sorted in Hs. apply StronglySorted_cons in Hs as [H1 H2]. rewrite Forall_forall in H1. constructor.
  - intros Hi. assert (Hb := H1 i Hi). unfold before in Hb. specialize (Hn i (list_elem_of_here _ _)). lia.
  - apply IH; [done|]. intros j Hj. apply Hn. now right.
Qed.

(** A node of the tree, with what is around it. *)
Lemma node_mid s i : ok s -> i ∈ reservations s -> exists l1 l2, reservations s = l1 ++ i :: l2 /\ (i ∉ l1) /\ (i ∉ l2).
Proof.
  intros H Hi. assert (Hnd := ok_nodup s H). apply list_elem_of_split in Hi as (l1&l2&E). exists l1, l2.
  split; [done|]. rewrite E in Hnd. apply NoDup_app in Hnd as (_&H1&H2). apply NoDup_cons in H2 as [H2 _].
  split; [|done]. intros Hi. apply (H1 i Hi). now left.
Qed.

Lemma apart s i j : ok s -> i ∈ reservations s -> j ∈ reservations s -> i <> j -> before s i j \/ before s j i.
Proof.
  intros H Hi Hj Hne. destruct (node_mid s i H Hi) as (l1&l2&E&_). assert (Hs := k_sorted _ H). rewrite E in Hs, Hj.
  apply sorted_mid in Hs as (_&H1&H2). rewrite elem_of_app, elem_of_cons in Hj. naive_solver.
Qed.

Lemma after_mid l1 i l2 : (i ∉ l1) -> after (l1 ++ i :: l2) i = head l2.
Proof.
  induction l1 as [|j l1 IH]; intros Hi; cbn; [now rewrite Z.eqb_refl|].
  apply not_elem_of_cons in Hi as [Hne Hi]. rewrite (proj2 (Z.eqb_neq i j)) by done. now apply IH.
Qed.

Lemma next_mid s l1 i l2 : reservations s = l1 ++ i :: l2 -> (i ∉ l1) -> hurd_btree_reservation_next s i = head l2.
Proof. unfold hurd_btree_reservation_next. intros ->. apply after_mid. Qed.

Lemma prev_mid s l1 i l2 : reservations s = l1 ++ i :: l2 -> (i ∉ l2) -> hurd_btree_reservation_prev s i = last l1.
Proof.
  unfold hurd_btree_reservation_prev. intros -> Hi. rewrite reverse_app, reverse_cons, <- app_assoc. cbn.
  rewrite after_mid by now rewrite elem_of_reverse. apply head_reverse.
Qed.

Lemma filter_not_in (l : list Z) i : (i ∉ l) -> filter (fun j => j <> i) l = l.
Proof.
  induction l as [|j l IH]; intros Hi; [done|]. apply not_elem_of_cons in Hi as [Hne Hi].
  rewrite filter_cons_True by congruence. now rewrite IH.
Qed.

Lemma detach_mid s l1 i l2 : reservations s = l1 ++ i :: l2 -> (i ∉ l1) -> (i ∉ l2) ->
  hurd_btree_reservation_detach s i = set_reservations s (l1 ++ l2).
Proof.
  unfold hurd_btree_reservation_detach. intros -> H1 H2. f_equal. rewrite filter_app, filter_cons_False by now intros [].
  now rewrite !filter_not_in.
Qed.

(** ** Changing a node *)

Definition change (s : mstate) (i x y : Z) : mstate :=
  set_reservation s i (Reservation (Region x y) (type_of s i) (used (reservation_pool s i))).

Lemma pool_at s i r j : reservation_pool (set_reservation s i r) j = if decide (j = i) then r else reservation_pool s j.
Proof. apply fn_at. Qed.

(** The node [i], with its neighbours, gets the region from [x] to [y]. *)
Section change.
Context (s : mstate) (i x y : Z) (l1 l2 : list Z) (H : ok s).
Context (E : reservations s = l1 ++ i :: l2) (Hi : (i ∉ l1) /\ (i ∉ l2)).
Context (Hl : forall j, j ∈ l1 -> end_of s j < x) (Hr : forall j, j ∈ l2 -> y < start_of s j).
Context (Hx : 0 <= x <= y) (Hy : y < 2 ^ 32).

Lemma change_reg j : reg (change s i x y) j = if decide (j = i) then Region x y else reg s j.
Proof. unfold reg, change. rewrite pool_at. now case_decide. Qed.

Lemma change_type j : type_of (change s i x y) j = type_of s j.
Proof. unfold type_of, change. rewrite pool_at. case_decide; [now subst j|done]. Qed.

Lemma change_used j : used (reservation_pool (change s i x y) j) = used (reservation_pool s j).
Proof. unfold change. rewrite pool_at. case_decide; [now subst j|done]. Qed.

Lemma change_sorted : sorted (change s i x y) (l1 ++ i :: l2).
Proof.
  assert (Hs := k_sorted _ H). rewrite E in Hs. apply sorted_mid in Hs as (Hs&_&_). apply sorted_mid.
  assert (Hne : forall j, j ∈ l1 ++ l2 -> j <> i) by (intros j Hj ->; apply elem_of_app in Hj; tauto).
  split; [|split].
  - apply (sorted_ext s); [|done]. intros j Hj. rewrite change_reg. now rewrite decide_False by now apply Hne.
  - intros j Hj. unfold before, end_of, start_of. rewrite !change_reg, (decide_True (P := i = i)) by done.
    rewrite decide_False by (apply Hne, elem_of_app; now left). now apply Hl.
  - intros j Hj. unfold before, end_of, start_of. rewrite !change_reg, (decide_True (P := i = i)) by done.
    rewrite decide_False by (apply Hne, elem_of_app; now right). now apply Hr.
Qed.

Lemma change_ok : ok (change s i x y).
Proof.
  split.
  - change (reservations (change s i x y)) with (reservations s). rewrite E. apply change_sorted.
  - intros j Hj. destruct (k_node _ H j Hj) as (Hb&Hu&Hn). split; [done|]. split; [now rewrite change_used|].
    unfold start_of, end_of. rewrite change_reg. case_decide; [now cbn|done].
  - intros j Hj. rewrite change_used. now apply (k_used _ H).
Qed.

Lemma change_reserved u a : reserved (change s i x y) u a <->
  (exists j, j ∈ l1 ++ l2 /\ type_of s j = u /\ start_of s j <= a <= end_of s j) \/
  type_of s i = u /\ x <= a <= y.
Proof.
  unfold reserved. change (reservations (change s i x y)) with (reservations s). rewrite E.
  assert (Hne : forall j, j ∈ l1 ++ l2 -> j <> i) by (intros j Hj ->; apply elem_of_app in Hj; tauto).
  split.
  - intros (j&Hj&Ht&Ha). rewrite change_type in Ht. unfold start_of, end_of in Ha. rewrite change_reg in Ha.
    destruct (decide (j = i)) as [->|Hn]; [right; done|]. left. exists j.
    split; [|done]. rewrite !elem_of_app, elem_of_cons in Hj. rewrite elem_of_app. tauto.
  - intros [(j&Hj&Ht&Ha)|[Ht Ha]].
    + exists j. rewrite change_type. unfold start_of, end_of. rewrite change_reg, decide_False by now apply Hne.
      split; [|done]. rewrite elem_of_app in Hj. rewrite elem_of_app, elem_of_cons. tauto.
    + exists i. rewrite change_type. unfold start_of, end_of. rewrite change_reg, decide_True by done.
      split; [|done]. rewrite elem_of_app, elem_of_cons. tauto.
Qed.
End change.

(** Removing a node. *)
Definition drop_node (s : mstate) (i : Z) : mstate := set_used (hurd_btree_reservation_detach s i) i false.

Section drop.
Context (s : mstate) (i : Z) (l1 l2 : list Z) (H : ok s).
Context (E : reservations s = l1 ++ i :: l2) (Hi : (i ∉ l1) /\ (i ∉ l2)).

Lemma drop_list : reservations (drop_node s i) = l1 ++ l2.
Proof. unfold drop_node. now rewrite (detach_mid s l1 i l2) by tauto. Qed.

Lemma drop_at j : reg (drop_node s i) j = reg s j /\ type_of (drop_node s i) j = type_of s j /\
  used (reservation_pool (drop_node s i) j) = if decide (j = i) then false else used (reservation_pool s j).
Proof.
  unfold drop_node, set_used, reg, type_of. rewrite pool_at.
  case_decide; [subst j; repeat split; reflexivity|repeat split; reflexivity].
Qed.

Lemma drop_ok : ok (drop_node s i).
Proof.
  assert (Hs := k_sorted _ H). rewrite E in Hs. apply sorted_mid in Hs as (Hs&_&_). split.
  - rewrite drop_list. apply (sorted_ext s); [|done]. intros j _. apply drop_at.
  - rewrite drop_list. intros j Hj. destruct (drop_at j) as (Er&_&Eu). unfold start_of, end_of. rewrite Er, Eu.
    rewrite decide_False by (intros ->; apply elem_of_app in Hj; tauto). apply (k_node _ H). rewrite E.
    rewrite elem_of_app in Hj. rewrite elem_of_app, elem_of_cons. tauto.
  - intros j Hj. destruct (drop_at j) as (_&_&->). case_decide as Hn; [done|]. intros Hu.
    apply (k_used _ H j Hj) in Hu. rewrite E, elem_of_app, elem_of_cons in Hu. rewrite drop_list, elem_of_app. tauto.
Qed.

Lemma drop_reserved u a : reserved (drop_node s i) u a <->
  exists j, j ∈ l1 ++ l2 /\ type_of s j = u /\ start_of s j <= a <= end_of s j.
Proof.
  unfold reserved. rewrite drop_list. split; intros (j&Hj&Ht&Ha); exists j; destruct (drop_at j) as (Er&Et&_);
    unfold start_of, end_of in *; rewrite Er in *; rewrite Et in *; done.
Qed.
End drop.

Lemma reserved_mid s l1 i l2 u a : reservations s = l1 ++ i :: l2 -> reserved s u a <->
  (exists j, j ∈ l1 ++ l2 /\ type_of s j = u /\ start_of s j <= a <= end_of s j) \/
  type_of s i = u /\ start_of s i <= a <= end_of s i.
Proof.
  unfold reserved. intros ->. split.
  - intros (j&Hj&Hr). rewrite elem_of_app, elem_of_cons in Hj. destruct (decide (j = i)) as [->|Hne]; [now right|].
    left. exists j. rewrite elem_of_app. split; [tauto|done].
  - intros [(j&Hj&Hr)|Hr]; [exists j|exists i]; (split; [|done]); rewrite elem_of_app, elem_of_cons; [|tauto].
    rewrite elem_of_app in Hj. tauto.
Qed.

(** ** A new descriptor *)

(** The nodes below and above a region that overlaps none. *)
Lemma split_at s l lo hi : sorted s l -> (forall j, j ∈ l -> start_of s j <= end_of s j) ->
  (forall j, j ∈ l -> ~ overlaps s lo hi j) -> lo <= hi ->
  exists l1 l2, l = l1 ++ l2 /\ (forall j, j ∈ l1 -> end_of s j < lo) /\ (forall j, j ∈ l2 -> hi < start_of s j).
Proof.
  intros Hs Hv Hno Hlh. induction l as [|j l IH].
  - exists [], []. split; [done|]. split; intros j Hj; now apply not_elem_of_nil in Hj.
  - apply StronglySorted_cons in Hs as [H1 H2]. rewrite Forall_forall in H1.
    assert (Hj := Hno j (list_elem_of_here _ _)). assert (Hvj := Hv j (list_elem_of_here _ _)). unfold overlaps in Hj.
    destruct (Z.lt_ge_cases (end_of s j) lo) as [Hlt|Hge].
    + destruct IH as (l1&l2&->&Hl&Hr); [done| | |].
      * intros k Hk. apply Hv. now right.
      * intros k Hk. apply Hno. now right.
      * exists (j :: l1), l2. split; [done|]. split; [|done]. intros k [->|Hk]%elem_of_cons; auto.
    + exists [], (j :: l). split; [done|]. split; [intros k Hk; now apply not_elem_of_nil in Hk|].
      intros k [->|Hk]%elem_of_cons; [lia|]. specialize (H1 k Hk). unfold before in H1. lia.
Qed.

Lemma insert_split s l1 l2 i :
  start_of s i <= end_of s i ->
  (forall j, j ∈ l1 -> end_of s j < start_of s i) -> (forall j, j ∈ l2 -> end_of s i < start_of s j) ->
  (forall j, j ∈ l1 -> start_of s j <= end_of s j) ->
  insert_node s (l1 ++ l2) i = (l1 ++ i :: l2, None).
Proof.
  intros Hi Hl Hr Hv. induction l1 as [|j l1 IH].
  - destruct l2 as [|j l2]; [done|]. cbn. unfold reservation_node_compare. fold (end_of s i) (start_of s j).
    now rewrite (proj2 (Z.ltb_lt (end_of s i) (start_of s j))) by (apply Hr; now left).
  - cbn. unfold reservation_node_compare. fold (end_of s i) (start_of s j) (end_of s j) (start_of s i).
    assert (H1 := Hl j (list_elem_of_here _ _)). assert (H2 := Hv j (list_elem_of_here _ _)).
    rewrite (proj2 (Z.ltb_ge (end_of s i) _)) by lia.
    rewrite (proj2 (Z.ltb_lt (end_of s j) (start_of s i))) by done. cbn.
    rewrite IH; [done|..]; intros k Hk; [apply Hl|apply Hv]; now right.
Qed.

(** A descriptor that was not in use, between the nodes [l1] and [l2]. *)
Definition put (s : mstate) (i lo hi : Z) (t : memory_reservation) (l : list Z) : mstate :=
  set_reservations (set_reservation s i (Reservation (Region lo hi) t true)) l.

Section put.
Context (s : mstate) (i lo hi : Z) (t : memory_reservation) (l1 l2 : list Z) (H : ok s).
Context (E : reservations s = l1 ++ l2) (Hu : used (reservation_pool s i) = false) (Hi : 0 <= i < MAX_RESERVATIONS).
Context (Hl : forall j, j ∈ l1 -> end_of s j < lo) (Hr : forall j, j ∈ l2 -> hi < start_of s j).
Context (Hlo : 0 <= lo <= hi) (Hhi : hi < 2 ^ 32).

Abbreviation s' := (put s i lo hi t (l1 ++ i :: l2)).

Lemma put_at l j : reg (put s i lo hi t l) j = (if decide (j = i) then Region lo hi else reg s j) /\
  type_of (put s i lo hi t l) j = (if decide (j = i) then t else type_of s j) /\
  used (reservation_pool (put s i lo hi t l) j) = if decide (j = i) then true else used (reservation_pool s j).
Proof. unfold put, reg, type_of. cbn [reservation_pool set_reservations]. rewrite pool_at. now case_decide. Qed.

Lemma put_old j : j ∈ l1 ++ l2 -> j <> i.
Proof. intros Hj ->. rewrite <- E in Hj. apply (k_node _ H) in Hj as (_&Hj&_). congruence. Qed.

Lemma put_reg l j : j ∈ l1 ++ l2 -> reg (put s i lo hi t l) j = reg s j.
Proof. intros Hj. destruct (put_at l j) as (->&_). rewrite decide_False; [done|now apply put_old]. Qed.

Lemma put_self l : reg (put s i lo hi t l) i = Region lo hi.
Proof. destruct (put_at l i) as (->&_). now rewrite decide_True. Qed.

Lemma put_sorted l : sorted (put s i lo hi t l) (l1 ++ i :: l2).
Proof.
  apply sorted_mid. split; [|split; intros j Hj; unfold before, end_of, start_of].
  - apply (sorted_ext s); [intros j; apply put_reg|]. rewrite <- E. apply H.
  - rewrite put_self, put_reg by set_solver. now apply Hl.
  - rewrite put_self, put_reg by set_solver. now apply Hr.
Qed.

Lemma put_insert : insert_node (put s i lo hi t (reservations s)) (l1 ++ l2) i = (l1 ++ i :: l2, None).
Proof.
  apply insert_split; unfold start_of, end_of; rewrite ?put_self; cbn [r_start r_end]; [lia|..];
    intros j Hj; rewrite put_reg by set_solver; [now apply Hl|now apply Hr|].
  apply (k_node _ H). rewrite E. set_solver.
Qed.

Lemma put_ok : ok s'.
Proof.
  split; [apply put_sorted|..]; cbn [reservations put set_reservations]; intros j.
  - intros Hj. destruct (put_at (l1 ++ i :: l2) j) as (Er&_&Eu). unfold start_of, end_of. rewrite Er, Eu.
    destruct (decide (j = i)) as [->|Hne]; [done|]. apply (k_node _ H). rewrite E. set_solver.
  - intros Hj. destruct (put_at (l1 ++ i :: l2) j) as (_&_&->). case_decide as Hne; [subst j; set_solver|].
    intros Huj. apply (k_used _ H j Hj) in Huj. rewrite E in Huj. set_solver.
Qed.

Lemma put_reserved u a : reserved s' u a <-> reserved s u a \/ u = t /\ lo <= a <= hi.
Proof.
  rewrite (reserved_mid _ l1 i l2) by done. unfold reserved, start_of, end_of. rewrite put_self, E.
  destruct (put_at (l1 ++ i :: l2) i) as (_&->&_). rewrite decide_True by done. cbn [r_start r_end].
  assert (Hold : forall j, j ∈ l1 ++ l2 -> type_of s' j = type_of s j).
  { intros j Hj. destruct (put_at (l1 ++ i :: l2) j) as (_&->&_). rewrite decide_False; [done|now apply put_old]. }
  split; (intros [(j&Hj&Ht&Ha)|Ht]; [left; exists j|right; intuition congruence]).
  - rewrite Hold in Ht by done. rewrite put_reg in Ha by done. done.
  - rewrite Hold, put_reg by done. done.
Qed.
End put.

(** What reserving leaves alone. *)
Definition kept (s s' : mstate) : Prop := frames s' = frames s /\ memory_total s' = memory_total s.

(** [s'] has, besides what [s] has, the bytes from [lo] to [hi] reserved. *)
Definition adds (s s' : mstate) (lo hi : Z) (t : memory_reservation) : Prop :=
  ok s' /\ kept s s' /\ forall u a, reserved s' u a <-> reserved s u a \/ u = t /\ lo <= a <= hi.

Lemma new_ok n i s lo hi t l1 l2 : ok s -> 0 <= lo <= hi -> hi < 2 ^ 32 -> 0 <= i ->
  i + Z.of_nat n = MAX_RESERVATIONS ->
  reservations s = l1 ++ l2 -> (forall j, j ∈ l1 -> end_of s j < lo) -> (forall j, j ∈ l2 -> hi < start_of s j) ->
  match new_reservation n i s lo hi t with
  | Ret (s', b) => b = true /\ adds s s' lo hi t
  | Crash e => e = panicked /\ forall k, i <= k < MAX_RESERVATIONS -> used (reservation_pool s k) = true
  end.
Proof.
  intros H Hlo Hhi Hi Hn E Hl Hr. revert i Hi Hn. induction n as [|n IH]; intros i Hi Hn.
  { split; [done|]. intros k Hk. lia. }
  cbn [new_reservation]. destruct (used (reservation_pool s i)) eqn:Eu; cbn [negb].
  - specialize (IH (i + 1)). destruct (new_reservation n (i + 1) s lo hi t) as [[s' b]|e]; [apply IH; lia|].
    destruct IH as [-> Hk]; [lia..|]. split; [done|]. intros k Hb. destruct (decide (k = i)) as [->|]; [done|].
    apply Hk. lia.
  - assert (Hb : 0 <= i < MAX_RESERVATIONS) by lia.
    change (set_reservation s i _) with (put s i lo hi t (reservations s)).
    unfold hurd_btree_reservation_insert. cbn [reservations put set_reservations].
    assert (Ei : insert_node (put s i lo hi t (reservations s)) (l1 ++ l2) i = (l1 ++ i :: l2, None)).
    { now apply put_insert. }
    rewrite <- E in Ei. rewrite Ei.
    change (set_reservations (put s i lo hi t (reservations s)) ?l) with (put s i lo hi t l).
    rewrite bool_decide_eq_true_2 by done. cbn [check mbind exec_bind]. split; [done|].
    split; [now apply put_ok|]. split; [done|]. now apply put_reserved.
Qed.

(** ** Coalescing *)

(** The region from [lo] to [hi] lies between the neighbours [l] and [r]. *)
Section coalesce.
Context (s : mstate) (lo hi l r : Z) (t : memory_reservation) (l1 l2 : list Z) (H : ok s).
Context (E : reservations s = l1 ++ l :: r :: l2) (Hl : end_of s l < lo) (Hr : hi < start_of s r).
Context (Hlo : 0 < lo <= hi) (Hhi : hi + 1 < 2 ^ 32).

Lemma around : ((l ∉ l1) /\ (l ∉ r :: l2)) /\ ((r ∉ l1 ++ [l]) /\ (r ∉ l2)).
Proof.
  assert (Hnd := ok_nodup s H). rewrite E in Hnd. apply NoDup_app in Hnd as (_&H1&H2).
  apply NoDup_cons in H2 as [H2 H3]. apply NoDup_cons in H3 as [H3 _]. split; (split; [|done]).
  - intros Hin. apply (H1 l Hin). now left.
  - rewrite elem_of_app, list_elem_of_singleton. intros [Hin| ->]; [|apply H2; now left].
    apply (H1 r Hin). right. now left.
Qed.

Lemma below j : j ∈ l1 ++ [l] -> end_of s j < lo.
Proof.
  assert (Hs := k_sorted _ H). rewrite E in Hs. apply sorted_mid in Hs as (_&Hb&_).
  rewrite elem_of_app, list_elem_of_singleton. intros [Hj| ->]; [|done]. specialize (Hb j Hj).
  unfold before in Hb. assert (Hn := k_node _ H l). rewrite E in Hn. specialize (Hn ltac:(set_solver)). lia.
Qed.

Lemma above j : j ∈ r :: l2 -> hi < start_of s j.
Proof.
  assert (Hs := k_sorted _ H). assert (E' := E). change (l :: r :: l2) with ([l] ++ r :: l2) in E'.
  rewrite app_assoc in E'. rewrite E' in Hs. apply sorted_mid in Hs as (_&_&Hb).
  intros [->|Hj]%elem_of_cons; [done|]. specialize (Hb j Hj).
  unfold before in Hb. assert (Hn := k_node _ H r). rewrite E in Hn. specialize (Hn ltac:(set_solver)). lia.
Qed.

Abbreviation with_right := ((start_of s r =? hi + 1) && bool_decide (type_of s r = t)).
Abbreviation with_left := ((end_of s l + 1 =? lo) && bool_decide (type_of s l = t)).

(** What [coalesce] does, whichever of the neighbours was found. *)
Lemma coalesce_eq o : o = r /\ start_of s r = hi + 1 \/ o = l /\ end_of s l + 1 = lo /\ start_of s r <> hi + 1 \/
    o = l /\ end_of s l + 1 = lo ->
  coalesce s o lo hi t =
    let s1 := if with_right then change s r lo (end_of s r) else s in
    if with_left then Ret (if with_right then set_end (drop_node (set_end s1 l (end_of s1 o)) r) l hi
                           else set_end s1 l hi, true)
    else Ret (s1, with_right).
Proof.
  destruct around as [[Hl1 Hl2] [Hr1 Hr2]]. assert (E' := E). change (l :: r :: l2) with ([l] ++ r :: l2) in E'.
  rewrite app_assoc in E'. intros Ho. unfold coalesce. rewrite (u32_small (hi + 1)) by lia.
  assert (Hnl := k_node _ H l). rewrite E in Hnl. specialize (Hnl ltac:(set_solver)).
  assert (Hnr := k_node _ H r). rewrite E in Hnr. specialize (Hnr ltac:(set_solver)).
  assert (Hpair : (if start_of s o =? hi + 1 then Ret (Some o, hurd_btree_reservation_prev s o)
     else _ ← check (u32 (end_of s o + 1) =? lo) assertion_failed; Ret (hurd_btree_reservation_next s o, Some o))
     = Ret (Some r, Some l)).
  { destruct Ho as [[-> Ho]|Ho].
    - rewrite Ho, Z.eqb_refl, (prev_mid s (l1 ++ [l]) r l2) by done. now rewrite last_snoc.
    - assert (Ho' : o = l /\ end_of s l + 1 = lo) by tauto. destruct Ho' as [-> Ho'].
      rewrite (proj2 (Z.eqb_neq _ _)) by lia. rewrite u32_small by lia. rewrite Ho', Z.eqb_refl.
      cbn [check mbind exec_bind]. now rewrite (next_mid s l1 l (r :: l2)). }
  rewrite Hpair. cbn [mbind exec_bind deref].
  assert (Hne : l <> r) by (intros ->; apply Hl2; now left).
  assert (El : (u32 (end_of (if with_right then set_start s r lo else s) l + 1) =? lo) &&
    bool_decide (type_of (if with_right then set_start s r lo else s) l = t) = with_left).
  { assert (Eu : u32 (end_of s l + 1) = end_of s l + 1) by (apply u32_small; lia).
    destruct with_right; [|now rewrite Eu]. change (set_start s r lo) with (change s r lo (end_of s r)).
    rewrite change_type. unfold end_of at 1. rewrite change_reg, decide_False by done. fold (end_of s l).
    now rewrite Eu. }
  rewrite El. now destruct with_left, with_right.
Qed.

(** Extending the right neighbour downwards. *)
Lemma extend_right : start_of s r = hi + 1 -> type_of s r = t -> adds s (change s r lo (end_of s r)) lo hi t.
Proof.
  intros Hs Ht. destruct around as [_ [Hr1 Hr2]]. assert (E' := E). change (l :: r :: l2) with ([l] ++ r :: l2) in E'.
  rewrite app_assoc in E'. assert (Hn := k_node _ H r). rewrite E in Hn. specialize (Hn ltac:(set_solver)).
  assert (Hab : forall j, j ∈ l2 -> end_of s r < start_of s j).
  { assert (Hso := k_sorted _ H). rewrite E' in Hso. now apply sorted_mid in Hso as (_&_&Hb). }
  assert (Hbe := below). split; [|split; [done|]].
  - apply (change_ok s r lo (end_of s r) (l1 ++ [l]) l2); try done; lia.
  - intros u a. rewrite (change_reserved s r lo (end_of s r) (l1 ++ [l]) l2 E' (conj Hr1 Hr2)) by lia.
    rewrite (reserved_mid s (l1 ++ [l]) r l2) by done. rewrite Ht.
    assert (Ha : lo <= a <= end_of s r <-> start_of s r <= a <= end_of s r \/ lo <= a <= hi) by lia.
    rewrite Ha. intuition congruence.
Qed.

(** Extending the left neighbour upwards. *)
Lemma extend_left : end_of s l + 1 = lo -> type_of s l = t -> adds s (set_end s l hi) lo hi t.
Proof.
  intros Hs Ht. destruct around as [[Hl1 Hl2] _]. change (set_end s l hi) with (change s l (start_of s l) hi).
  assert (Hn := k_node _ H l). rewrite E in Hn. specialize (Hn ltac:(set_solver)).
  assert (Hbe : forall j, j ∈ l1 -> end_of s j < start_of s l).
  { assert (Hso := k_sorted _ H). rewrite E in Hso. now apply sorted_mid in Hso as (_&Hb&_). }
  assert (Hab := above). split; [|split; [done|]].
  - apply (change_ok s l (start_of s l) hi l1 (r :: l2)); try done; lia.
  - intros u a. rewrite (change_reserved s l (start_of s l) hi l1 (r :: l2) E (conj Hl1 Hl2)) by lia.
    rewrite (reserved_mid s l1 l (r :: l2)) by done. rewrite Ht.
    assert (Ha : start_of s l <= a <= hi <-> start_of s l <= a <= end_of s l \/ lo <= a <= hi) by lia.
    rewrite Ha. intuition congruence.
Qed.
End coalesce.

(** ** [memory_reserve] *)

Section reserve.
Context (find : mstate -> region -> option Z) (Hfind : searches find).
Context (s : mstate) (lo hi : Z) (t : memory_reservation) (H : ok s).
Context (Hlo : 0 < lo < hi) (Hhi : hi + 1 < 2 ^ 32).

(** Where the region lies when it overlaps nothing. *)
Lemma free_split : (forall i, i ∈ reservations s -> ~ overlaps s lo hi i) -> exists l1 l2,
  reservations s = l1 ++ l2 /\ (forall j, j ∈ l1 -> end_of s j < lo) /\ (forall j, j ∈ l2 -> hi < start_of s j).
Proof.
  intros Hno. apply (split_at s _ lo hi); [apply H| |done|lia]. intros j Hj. apply (k_node _ H) in Hj. lia.
Qed.

(** The last node below the region and the first above it are the only ones that
    can touch it. *)
Lemma touching l1 l2 o : reservations s = l1 ++ l2 ->
  (forall j, j ∈ l1 -> end_of s j < lo) -> (forall j, j ∈ l2 -> hi < start_of s j) ->
  o ∈ reservations s -> overlaps s (lo - 1) (hi + 1) o ->
  (last l1 = Some o /\ end_of s o + 1 = lo /\ start_of s o <> hi + 1) \/
  (head l2 = Some o /\ start_of s o = hi + 1).
Proof.
  intros E Hl Hr Ho [Hov1 Hov2]. assert (Hn := k_node _ H). assert (Hs := k_sorted _ H). rewrite E in *.
  assert (Hno := Hn o Ho). apply elem_of_app in Ho as [Ho|Ho].
  - left. assert (Hlo' := Hl o Ho). split; [|lia]. apply list_elem_of_split in Ho as (k1&k2&->).
    destruct k2 as [|k k2]; [now rewrite last_snoc|]. exfalso.
    rewrite <- app_assoc in Hs. apply sorted_mid in Hs as (_&_&Hb).
    assert (Hk := Hb k ltac:(now left)). unfold before in Hk.
    specialize (Hn k ltac:(set_solver)). specialize (Hl k ltac:(set_solver)). lia.
  - right. assert (Hro := Hr o Ho). split; [|lia]. apply list_elem_of_split in Ho as (k1&k2&->).
    destruct k1 as [|k k1]; [done|]. exfalso.
    rewrite app_assoc in Hs. apply sorted_mid in Hs as (_&Hb&_).
    assert (Hk := Hb k ltac:(set_solver)). unfold before in Hk.
    specialize (Hn k ltac:(set_solver)). specialize (Hr k ltac:(set_solver)). lia.
Qed.

(** The reservations next to the region have neighbours on its other side. *)
Definition surrounded : Prop := forall i, i ∈ reservations s -> end_of s i + 1 = lo \/ start_of s i = hi + 1 ->
  exists j k, j ∈ reservations s /\ k ∈ reservations s /\ end_of s j < lo /\ hi < start_of s k.

(** The region closes the gap between two reservations of its type. *)
Definition closes_gap (l r : Z) : Prop :=
  l ∈ reservations s /\ r ∈ reservations s /\ end_of s l + 1 = lo /\ start_of s r = hi + 1 /\
  type_of s l = t /\ type_of s r = t.

Lemma reserve_ok : (exists i, 0 <= i < MAX_RESERVATIONS /\ used (reservation_pool s i) = false) ->
  surrounded -> (forall l r, ~ closes_gap l r) ->
  exists s' b, memory_reserve find s lo hi t = Ret (s', b) /\
    (b = false <-> exists i, i ∈ reservations s /\ overlaps s lo hi i) /\
    (b = false -> s' = s) /\ (b = true -> adds s s' lo hi t).
Proof.
  intros (fi&Hfi&Hfu) Hsur Hgap. unfold memory_reserve. rewrite (proj2 (Z.ltb_lt lo hi)) by lia.
  cbn [check mbind exec_bind]. assert (F1 := Hfind s lo hi H ltac:(lia)).
  destruct (find s (Region lo hi)) as [i|].
  { exists s, false. split; [done|]. split; [|done]. split; [|done]. intros _. exists i. done. }
  assert (Hdone : forall r s', r = Ret (s', true) -> adds s s' lo hi t -> exists s' b, r = Ret (s', b) /\
    (b = false <-> exists i, i ∈ reservations s /\ overlaps s lo hi i) /\
    (b = false -> s' = s) /\ (b = true -> adds s s' lo hi t)).
  { intros r s' -> Ha. exists s', true. split; [done|]. split; [|done]. split; [done|].
    intros (i&Hi&Ho). now apply F1 in Ho. }
  destruct (free_split F1) as (l1&l2&E&Hl&Hr). rewrite !u32_small by lia.
  assert (Hnew : exists s', new_reservation (Z.to_nat MAX_RESERVATIONS) 0 s lo hi t = Ret (s', true) /\
    adds s s' lo hi t).
  { assert (Hnw := new_ok (Z.to_nat MAX_RESERVATIONS) 0 s lo hi t l1 l2 H ltac:(lia) ltac:(lia) ltac:(lia) eq_refl E Hl Hr).
    destruct (new_reservation _ 0 s lo hi t) as [[s' b]|e]; [destruct Hnw as [-> Ha]; now exists s'|].
    destruct Hnw as [_ Hk]. rewrite Hk in Hfu; [done|lia]. }
  assert (F2 := Hfind s (lo - 1) (hi + 1) H ltac:(lia)).
  destruct (find s (Region (lo - 1) (hi + 1))) as [o|]; cbn [mbind exec_bind].
  2: { destruct Hnew as (s'&En&Ha). now apply (Hdone _ s'). }
  destruct F2 as [Ho Hov]. assert (Ht := touching l1 l2 o E Hl Hr Ho Hov).
  destruct (Hsur o Ho) as (j&k&Hj&Hk&Hjl&Hkr); [destruct Ht as [(_&?&_)|[_ ?]]; tauto|].
  destruct l1 as [|l l1 _] using rev_ind.
  { rewrite E in Hj. specialize (Hr j Hj). apply (k_node _ H) in Hk. assert (Hnj := k_node _ H j). rewrite E in Hnj.
    specialize (Hnj Hj). lia. }
  destruct l2 as [|r l2].
  { rewrite E, app_nil_r in Hk. specialize (Hl k Hk). assert (Hnk := k_node _ H k). rewrite E, app_nil_r in Hnk.
    specialize (Hnk Hk). lia. }
  rewrite <- app_assoc in E. cbn in E. rewrite last_snoc in Ht. cbn [head] in Ht.
  assert (Hel := Hl l ltac:(set_solver)). assert (Hsr := Hr r ltac:(set_solver)).
  rewrite (coalesce_eq s lo hi l r t l1 l2 H E) by (lia || naive_solver).
  assert (Gap := Hgap l r). unfold closes_gap in Gap. rewrite E in Gap.
  destruct (_ && bool_decide (type_of s l = t)) eqn:El, (_ && bool_decide (type_of s r = t)) eqn:Er; cbn [mbind exec_bind].
  - exfalso. apply andb_prop in El as [E1%Z.eqb_eq E2%bool_decide_eq_true], Er as [E3%Z.eqb_eq E4%bool_decide_eq_true].
    apply Gap. split; [set_solver|]. split; [set_solver|]. done.
  - apply andb_prop in El as [E1%Z.eqb_eq E2%bool_decide_eq_true]. apply (Hdone _ _ eq_refl).
    now apply (extend_left s lo hi l r t l1 l2 H E); try lia.
  - apply andb_prop in Er as [E1%Z.eqb_eq E2%bool_decide_eq_true]. apply (Hdone _ _ eq_refl).
    now apply (extend_right s lo hi l r t l1 l2 H E); try lia.
  - destruct Hnew as (s'&En&Ha). now apply (Hdone _ s').
Qed.

(** No reservation lies on the other side of one that touches the region. *)
Lemma reserve_edge : (forall i, i ∈ reservations s -> ~ overlaps s lo hi i) ->
  (exists i, i ∈ reservations s /\ (end_of s i + 1 = lo \/ start_of s i = hi + 1)) ->
  (forall i, i ∈ reservations s -> end_of s i < lo) \/ (forall i, i ∈ reservations s -> hi < start_of s i) ->
  memory_reserve find s lo hi t = Crash invalid_access.
Proof.
  intros Hno (i0&Hi0&Ht0) Hside. unfold memory_reserve. rewrite (proj2 (Z.ltb_lt lo hi)) by lia.
  cbn [check mbind exec_bind]. assert (F1 := Hfind s lo hi H ltac:(lia)).
  destruct (find s (Region lo hi)) as [i|]; [destruct F1 as [Hi Ho]; now apply Hno in Ho|].
  rewrite !u32_small by lia. assert (F2 := Hfind s (lo - 1) (hi + 1) H ltac:(lia)).
  assert (Hn := k_node _ H).
  destruct (find s (Region (lo - 1) (hi + 1))) as [o|].
  2: { exfalso. apply (F2 i0 Hi0). unfold overlaps. specialize (Hn i0 Hi0). lia. }
  destruct F2 as [Ho Hov]. assert (Hno' := Hn o Ho). unfold coalesce. rewrite !u32_small by lia.
  destruct Hside as [Hb|Ha].
  - assert (E : reservations s = reservations s ++ []) by now rewrite app_nil_r.
    destruct (touching (reservations s) [] o E Hb) as [(Hl&He&Hne)|[? _]]; try done.
    { intros j Hj. now apply not_elem_of_nil in Hj. }
    rewrite (proj2 (Z.eqb_neq _ _) Hne), He, (u32_small lo), Z.eqb_refl by lia. cbn [check mbind exec_bind].
    apply last_Some in Hl as (l&El).
    rewrite (next_mid s l o []); [done|done|]. intros Hin. assert (Hnd := ok_nodup s H). rewrite El in Hnd.
    apply NoDup_app in Hnd as (_&Hd&_). apply (Hd o Hin). now left.
  - destruct (touching [] (reservations s) o eq_refl) as [[? _]|[Hh Hs]]; try done.
    { intros j Hj. now apply not_elem_of_nil in Hj. }
    rewrite Hs, Z.eqb_refl. cbn [mbind exec_bind deref]. apply head_Some in Hh as (l&El).
    rewrite (prev_mid s [] o l); [done|done|]. intros Hin. assert (Hnd := ok_nodup s H). rewrite El in Hnd.
    now apply NoDup_cons in Hnd as [Hd _].
Qed.

(** Closing a gap ends the reservation behind it. *)
Lemma reserve_gap l r : closes_gap l r -> (forall i, i ∈ reservations s -> ~ overlaps s lo hi i) ->
  exists s', memory_reserve find s lo hi t = Ret (s', true) /\
  forall u a, start_of s r <= a <= end_of s r -> ~ reserved s' u a.
Proof.
  intros (Hl&Hr&El&Er&Tl&Tr) Hno. assert (Hn := k_node _ H). assert (Hnl := Hn l Hl). assert (Hnr := Hn r Hr).
  unfold memory_reserve. rewrite (proj2 (Z.ltb_lt lo hi)) by lia. cbn [check mbind exec_bind].
  assert (F1 := Hfind s lo hi H ltac:(lia)).
  destruct (find s (Region lo hi)) as [i|]; [destruct F1 as [Hi Ho]; now apply Hno in Ho|].
  destruct (free_split Hno) as (l1&l2&E&Hbe&Hab). rewrite !u32_small by lia.
  destruct (touching l1 l2 l E Hbe Hab Hl) as [[Hlast _]|[_ ?]]; [unfold overlaps; lia| |lia].
  destruct (touching l1 l2 r E Hbe Hab Hr) as [(_&?&_)|[Hhead _]]; [unfold overlaps; lia|lia|].
  assert (F2 := Hfind s (lo - 1) (hi + 1) H ltac:(lia)).
  destruct (find s (Region (lo - 1) (hi + 1))) as [o|].
  2: { exfalso. apply (F2 l Hl). unfold overlaps. lia. }
  destruct F2 as [Ho Hov]. assert (Hor := touching l1 l2 o E Hbe Hab Ho Hov). rewrite Hlast, Hhead in Hor.
  apply last_Some in Hlast as (k1&->). apply head_Some in Hhead as (k2&->). rewrite <- app_assoc in E. cbn in E.
  rewrite (coalesce_eq s lo hi l r t k1 k2 H E) by (lia || naive_solver).
  rewrite El, Er, !Z.eqb_refl, !bool_decide_eq_true_2 by done. cbn [andb mbind exec_bind].
  eexists. split; [reflexivity|]. intros u a Ha (i&Hi&_&Hai). cbn in Hi. apply list_elem_of_filter in Hi as [Hir Hi].
  assert (Hne : l <> r) by (intros ->; lia).
  assert (Hreg : end_of (set_end (drop_node (set_end (change s r lo (end_of s r)) l
    (end_of (change s r lo (end_of s r)) o)) r) l hi) i = if decide (i = l) then hi else end_of s i).
  { unfold end_of, reg. cbn. rewrite !fn_at. repeat (case_decide; [congruence || done|]). done. }
  assert (Hreg' : i <> l -> start_of (set_end (drop_node (set_end (change s r lo (end_of s r)) l
    (end_of (change s r lo (end_of s r)) o)) r) l hi) i = start_of s i).
  { intros Hil. unfold start_of, reg. cbn. rewrite !fn_at. repeat (case_decide; [congruence || done|]). done. }
  rewrite Hreg in Hai. destruct (decide (i = l)) as [->|Hil]; [lia|]. rewrite Hreg' in Hai by done.
  destruct (apart s i r H Hi Hr Hir) as [Hb|Hb]; unfold before in Hb; lia.
Qed.
End reserve.

(** ** Which memory is reserved *)

Section is_reserved.
Context (find : mstate -> region -> option Z) (Hfind : searches find).
Context (s : mstate) (lo hi : Z) (H : ok s) (Hlh : lo < hi).

Lemma node_count : Z.of_nat (length (reservations s)) <= 128.
Proof.
  assert (Hl := range_length (reservations s) 128 (ok_nodup s H)).
  enough (Z.of_nat (length (reservations s)) <= Z.max 0 128) by lia. apply Hl. intros i Hi.
  now apply (k_node _ H).
Qed.

(** The first of the nodes that overlap the region. *)
Definition first_of (i : Z) : Prop := i ∈ reservations s /\ overlaps s lo hi i /\
  forall j, j ∈ reservations s -> overlaps s lo hi j -> j = i \/ before s i j.

Lemma first_overlap_ok fuel l1 i l2 : (forall j, j ∈ reservations s -> end_of s j <> lo) ->
  reservations s = l1 ++ i :: l2 -> overlaps s lo hi i -> (length l1 < fuel)%nat ->
  exists j, first_overlap fuel s i lo = Ret j /\ first_of j.
Proof.
  intros Hne. revert i l2 fuel. induction l1 as [|k l1 IH] using rev_ind; intros i l2 fuel E Hov Hf;
    (destruct fuel as [|fuel]; [lia|]); cbn [first_overlap].
  all: assert (Hi : i ∈ reservations s) by (rewrite E; set_solver).
  all: destruct (proj1 (sorted_mid s _ i l2) ltac:(rewrite <- E; apply H)) as (_&Hb&Ha).
  all: assert (Hni : i ∉ l2) by (intros Hin; specialize (Ha i Hin); unfold before in Ha; apply (k_node _ H) in Hi; lia).
  all: rewrite (prev_mid s _ i l2 E Hni).
  - exists i. split; [done|]. split; [done|]. split; [done|]. intros j Hj _. rewrite E in Hj.
    apply elem_of_cons in Hj as [->|Hj]; [now left|right; now apply Ha].
  - rewrite last_snoc. assert (Hk : k ∈ reservations s) by (rewrite E; set_solver).
    assert (Hnk := k_node _ H k Hk). assert (Hki := Hb k ltac:(set_solver)). unfold before in Hki.
    destruct (Z.ltb_spec lo (end_of s k)) as [Hlt|Hge].
    + rewrite <- app_assoc in E. cbn in E. apply (IH k (i :: l2)); [done| |rewrite length_app in Hf; cbn in Hf; lia].
      destruct Hov. split; lia.
    + exists i. split; [done|]. split; [done|]. split; [done|]. intros j Hj [Hj1 Hj2].
      specialize (Hne k Hk). assert (Hs := k_sorted _ H). rewrite E in Hs, Hj.
      rewrite elem_of_app, elem_of_cons in Hj. destruct Hj as [Hj|[->|Hj]]; [|now left|right; now apply Ha].
      exfalso. rewrite elem_of_app, list_elem_of_singleton in Hj. destruct Hj as [Hj| ->]; [|lia].
      rewrite <- app_assoc in Hs. cbn in Hs. apply sorted_mid in Hs as (_&Hb'&_). specialize (Hb' j Hj).
      unfold before in Hb'. lia.
Qed.

Lemma is_reserved_ok fuel : (forall j, j ∈ reservations s -> end_of s j <> lo) -> (128 < fuel)%nat ->
  exists o, memory_is_reserved find fuel s lo hi = Ret o /\
  match o with
  | None => forall i, i ∈ reservations s -> ~ overlaps s lo hi i
  | Some (a, b) => exists i, first_of i /\ a = Z.max (start_of s i) lo /\ b = Z.min (end_of s i) hi
  end.
Proof.
  intros Hne Hfuel. unfold memory_is_reserved. rewrite (proj2 (Z.ltb_lt lo hi)) by done. cbn [check mbind exec_bind].
  assert (F1 := Hfind s lo hi H ltac:(lia)). destruct (find s (Region lo hi)) as [i|]; [|now exists None].
  destruct F1 as [Hi Ho]. destruct (node_mid s i H Hi) as (l1&l2&E&_&_). assert (Hc := node_count).
  assert (Hlen := f_equal length E). rewrite length_app in Hlen. cbn [length] in Hlen.
  destruct (first_overlap_ok fuel l1 i l2 Hne E Ho) as (j&->&Hj); [lia|]. cbn [mbind exec_bind].
  eexists. split; [reflexivity|]. exists j. split; [done|].
  destruct (Z.ltb_spec lo (start_of s j)), (Z.ltb_spec (end_of s j) hi); split; lia.
Qed.
End is_reserved.

(** ** [memory_add] *)

(** A reservation touches page [k]. *)
Definition on_page (s : mstate) (k : Z) : Prop :=
  exists i, i ∈ reservations s /\ start_of s i / 4096 <= k <= end_of s i / 4096.

Lemma page_down a : Z.land a PAGE_MASK = a / 4096 * 4096.
Proof. apply (land_notmask a 12). lia. Qed.

Lemma page_up b : 0 <= b -> b + 4095 < 2 ^ 32 -> b mod 4096 <> 0 ->
  Z.land (u32 (b + 4095)) PAGE_MASK = (b / 4096 + 1) * 4096.
Proof.
  intros Hb Hw Hm. rewrite u32_small, page_down by lia. f_equal.
  assert (Hd := Z.div_mod b 4096 ltac:(done)). assert (Hr := Z.mod_pos_bound b 4096 ltac:(done)).
  symmetry. apply Z.div_unique with (r := b mod 4096 - 1); lia.
Qed.

(** The memory of [s'] is that of [s] and the pool's is [F]. *)
Record given (s s' : mstate) (F : Z -> Prop) : Prop := Given {
  g_pool : reservation_pool s' = reservation_pool s;
  g_tree : reservations s' = reservations s;
  g_frames : pool (frames s') F;
  g_total : u32 (memory_total s') = u32 (memory_total s + (zalloc_memory (frames s') - zalloc_memory (frames s)))
}.

Lemma given_ok s s' F : given s s' F -> ok s -> ok s'.
Proof.
  intros G [H1 H2 H3]. destruct G as [Ep Et _ _]. split; rewrite ?Et.
  - apply (sorted_ext s); [|done]. intros i _. unfold reg. now rewrite Ep.
  - intros i. unfold start_of, end_of, reg. rewrite Ep. apply H2.
  - intros i. rewrite Ep. apply H3.
Qed.

Lemma given_page s s' F k : given s s' F -> on_page s' k <-> on_page s k.
Proof. intros [Ep Et _ _]. unfold on_page, start_of, end_of, reg. now rewrite Ep, Et. Qed.

Lemma given_trans s1 s2 s3 F G : given s1 s2 F -> given s2 s3 G -> given s1 s3 G.
Proof.
  intros [P1 T1 _ M1] [P2 T2 F2 M2]. split; [congruence|congruence|done|].
  rewrite M2. unfold u32, wrap in *. rewrite <- Zplus_mod_idemp_l, M1, Zplus_mod_idemp_l. f_equal. lia.
Qed.

Lemma given_refl s F : pool (frames s) F -> given s s F.
Proof. intros Hp. split; try done. f_equal. lia. Qed.

Lemma given_ext s s' F G : (forall a, F a <-> G a) -> given s s' F -> given s s' G.
Proof. intros E [H1 H2 H3 H4]. split; try done. now apply (pool_ext _ F). Qed.

Lemma give_ok fuel s F x size : pool (frames s) F -> 0 < x -> x mod 4096 = 0 -> 0 < size -> size mod 4096 = 0 ->
  x + size <= LIMIT -> (forall a, x <= a < x + size -> ~ F a) -> 2 ^ 21 <= Z.of_nat fuel ->
  exists s', give fuel s x size = Ret s' /\ given s s' (fun a => F a \/ x <= a < x + size).
Proof.
  intros Hp Hx Hxm Hs Hsm Hlim Hno Hf. assert (Hb := pool_bound _ _ Hp). unfold LIMIT in Hlim.
  assert (Hq : size / 4096 <= 2 ^ 19) by (apply Z.div_le_upper_bound; lia).
  destruct (zfree_pool (frames s) F x size fuel) as (p&E&Hp'&Hm); try done; [unfold zfree_fuel; lia|].
  unfold give. rewrite E. cbn [mbind exec_bind]. eexists. split; [reflexivity|]. split; try done. cbn.
  rewrite Hm. unfold u32, wrap. rewrite Zmod_mod. f_equal. lia.
Qed.

Lemma page_lt x k : x / 4096 < k <-> x < k * 4096.
Proof.
  assert (Hd := Z.div_mod x 4096 ltac:(done)). assert (Hm := Z.mod_pos_bound x 4096 ltac:(done)). lia.
Qed.

Lemma page_le k x : k <= x / 4096 <-> k * 4096 <= x.
Proof. assert (H := page_lt x k). lia. Qed.

Lemma on_page_dec s k : on_page s k \/ ~ on_page s k.
Proof.
  destruct (decide (Exists (fun i => start_of s i / 4096 <= k <= end_of s i / 4096) (reservations s))) as [H|H];
    rewrite Exists_exists in H; [now left|now right].
Qed.

Section add.
Context (find : mstate -> region -> option Z) (Hfind : searches find) (fuel : nat) (Hfuel : 2 ^ 21 <= Z.of_nat fuel).
Context (hi : Z) (Hhi : hi mod 4096 = 4095) (Hlim : hi < LIMIT).

(** Pages that [memory_add] gives to the pool. *)
Definition gets (s : mstate) (lo : Z) (a : Z) : Prop := lo <= a <= hi /\ ~ on_page s (a / 4096).

(** The pages below the first reservation in reach are touched by none. *)
Lemma untouched s lo i x : ok s -> lo mod 4096 = 0 -> first_of s lo hi i -> lo <= x ->
  x / 4096 < Z.max (start_of s i) lo / 4096 -> ~ on_page s (x / 4096).
Proof.
  intros H Hlm (Hi&[Ho1 Ho2]&Hfirst) Hx Hlt (j&Hj&Hj1&Hj2).
  assert (Hdl := Z.div_mod lo 4096 ltac:(done)). assert (Hd := Z.div_mod hi 4096 ltac:(done)).
  assert (Hni := k_node _ H i Hi). assert (Hnj := k_node _ H j Hj).
  assert (Hlx : lo / 4096 <= x / 4096) by (apply Z.div_le_mono; lia).
  assert (Hxh : x < hi + 1) by (apply page_lt in Hlt; assert (Hm := Z.mul_div_le (Z.max (start_of s i) lo) 4096 ltac:(lia)); lia).
  destruct (Z.lt_ge_cases (end_of s j) lo) as [Hjl|Hjl].
  { assert (end_of s j / 4096 < lo / 4096) by (apply page_lt; lia). lia. }
  destruct (Z.lt_ge_cases hi (start_of s j)) as [Hjh|Hjh].
  { assert (hi / 4096 + 1 <= start_of s j / 4096) by (apply page_le; lia).
    assert (x / 4096 < hi / 4096 + 1) by (apply page_lt; lia). lia. }
  destruct (Hfirst j Hj (conj Hjl Hjh)) as [->|Hb].
  - destruct (Z.max_spec (start_of s i) lo) as [[_ E]|[_ E]]; rewrite E in Hlt; lia.
  - unfold before in Hb. assert (Z.max (start_of s i) lo / 4096 <= start_of s j / 4096) by (apply Z.div_le_mono; lia). lia.
Qed.

(** The pages given in a round are those below the first reservation's. *)
Lemma gets_found s lo i x : ok s -> lo mod 4096 = 0 -> first_of s lo hi i ->
  let a := Z.max (start_of s i) lo in let b := Z.min (end_of s i) hi in
  gets s lo x /\ x < (b / 4096 + 1) * 4096 <-> lo <= x < a / 4096 * 4096.
Proof.
  intros H Hlm Hfirst a b. assert (Hu := untouched s lo i x H Hlm Hfirst). destruct Hfirst as (Hi&[Ho1 Ho2]&_).
  assert (Hn := k_node _ H i Hi). assert (Hb := Z.mul_div_le b 4096 ltac:(done)). split.
  - intros [[Hx Hnp] Hxn]. split; [lia|]. apply Z.nle_gt. intros Hxa. apply Hnp. exists i. split; [done|].
    apply page_le in Hxa. apply page_lt in Hxn.
    assert (start_of s i / 4096 <= a / 4096) by (apply Z.div_le_mono; lia).
    assert (b / 4096 <= end_of s i / 4096) by (apply Z.div_le_mono; lia). lia.
  - intros [Hx1 Hx2]. assert (Hxa := proj2 (page_lt x (a / 4096)) Hx2).
    assert (Ha := Z.mul_div_le a 4096 ltac:(done)).
    assert (a / 4096 <= b / 4096) by (apply Z.div_le_mono; lia). split; [split; [lia|]|lia]. now apply Hu.
Qed.

(** Without a reservation in reach they are all. *)
Lemma gets_clear s lo x : lo mod 4096 = 0 -> lo < hi -> (forall i, i ∈ reservations s -> ~ overlaps s lo hi i) ->
  gets s lo x /\ x < hi + 1 <-> lo <= x < hi + 1.
Proof.
  intros Hlm Hlh Ho. assert (Hd := Z.div_mod hi 4096 ltac:(done)). assert (Hdl := Z.div_mod lo 4096 ltac:(done)).
  split; [intros [[Hx _] _]; lia|]. intros Hx. split; [split; [lia|]|lia].
  intros (j&Hj&Hj1&Hj2). apply (Ho j Hj). split.
  - apply Z.nlt_ge. intros Hlt. assert (end_of s j / 4096 < lo / 4096) by (apply page_lt; lia).
    assert (lo / 4096 <= x / 4096) by (apply Z.div_le_mono; lia). lia.
  - apply Z.nlt_ge. intros Hlt. assert (hi / 4096 + 1 <= start_of s j / 4096) by (apply page_le; lia).
    assert (x / 4096 < hi / 4096 + 1) by (apply page_lt; lia). lia.
Qed.

(** A part of the round: the bytes from [lo] to [e] are given if there are any. *)
Lemma give_some s F lo e : pool (frames s) F -> 0 < lo <= e -> lo mod 4096 = 0 -> e mod 4096 = 0 -> e <= hi + 1 ->
  (forall x, lo <= x < e -> ~ F x) ->
  exists s', (if 0 <? u32 (e - lo) then give fuel s lo (u32 (e - lo)) else Ret s) = Ret s' /\
    given s s' (fun x => F x \/ lo <= x < e).
Proof.
  intros Hp Hle Hlm Hem He Hno. unfold LIMIT in Hlim. rewrite u32_small by lia.
  destruct (Z.ltb_spec 0 (e - lo)) as [Hlt|Hge].
  - destruct (give_ok fuel s F lo (e - lo) Hp) as (s'&Eg&Hg); try done; try lia.
    + rewrite Zminus_mod, Hlm, Hem. done.
    + unfold LIMIT. lia.
    + intros x Hx. apply Hno. lia.
    + exists s'. split; [done|]. revert Hg. apply given_ext. intros x. now replace (lo + (e - lo)) with e by lia.
  - exists s. split; [done|]. apply given_refl. revert Hp. apply pool_ext. intros x. intuition lia.
Qed.

(** A round of the loop: the pages below the reservation, then the first page
    behind it. *)
Lemma add_round s F lo : ok s -> pool (frames s) F -> 0 < lo -> lo mod 4096 = 0 -> lo < hi ->
  (forall i, i ∈ reservations s -> end_of s i mod 4096 <> 0) -> (forall a, gets s lo a -> ~ F a) ->
  exists s' next, lo < next <= hi + 1 /\ next mod 4096 = 0 /\
    given s s' (fun a => F a \/ gets s lo a /\ a < next) /\
    forall n, add_loop find (S n) fuel s lo hi = add_loop find n fuel s' next hi.
Proof.
  intros H Hp Hlo Hlm Hlh Hend Hno. assert (Hlim' := Hlim). unfold LIMIT in Hlim'.
  assert (Hd := Z.div_mod hi 4096 ltac:(done)). assert (Hdl := Z.div_mod lo 4096 ltac:(done)).
  destruct (is_reserved_ok find Hfind s lo hi H Hlh fuel) as (o&Eo&Ho); [|lia|].
  { intros j Hj E. apply (Hend j Hj). now rewrite E. }
  destruct o as [[a b]|].
  - destruct Ho as (i&Hfirst&Ea&Eb). destruct (Hfirst) as (Hi&[Ho1 Ho2]&_).
    assert (Hn := k_node _ H i Hi). specialize (Hend i Hi). set (a' := a / 4096 * 4096).
    assert (Hda := Z.div_mod a 4096 ltac:(done)). assert (Hma := Z.mod_pos_bound a 4096 ltac:(done)).
    assert (Hbm : b mod 4096 <> 0) by (destruct (Z.min_spec (end_of s i) hi) as [[_ E]|[_ E]]; rewrite E in Eb; subst b; [done|lia]).
    assert (Hdb := Z.div_mod b 4096 ltac:(done)). assert (Hmb := Z.mod_pos_bound b 4096 ltac:(done)).
    assert (Hal : lo / 4096 <= a / 4096) by (apply Z.div_le_mono; lia).
    assert (Hbh : b / 4096 <= hi / 4096) by (apply Z.div_le_mono; lia).
    assert (Hgets : forall x, gets s lo x /\ x < (b / 4096 + 1) * 4096 <-> lo <= x < a').
    { intros x. unfold a'. rewrite Ea, Eb. now apply gets_found. }
    destruct (give_some s F lo a' Hp) as (s'&Eg&Hg); try (unfold a'; lia); [now apply Z.mod_mul| |].
    { intros x Hx. apply Hno. now apply Hgets in Hx as [Hx _]. }
    exists s', ((b / 4096 + 1) * 4096). split; [lia|]. split; [now apply Z.mod_mul|]. split.
    + revert Hg. apply given_ext. intros x. now rewrite Hgets.
    + intros n. cbn [add_loop]. rewrite (proj2 (Z.ltb_lt lo hi)) by done. rewrite Eo.
      cbn [mbind exec_bind]. rewrite (page_down a). fold a'. rewrite Eg. cbn [mbind exec_bind].
      now rewrite page_up by lia.
  - assert (Eh : hi + 1 = (hi / 4096 + 1) * 4096) by lia.
    assert (Hgets : forall x, gets s lo x /\ x < hi + 1 <-> lo <= x < hi + 1) by (intros x; now apply gets_clear).
    assert (Hm1 : (hi + 1) mod 4096 = 0) by (rewrite Eh; now apply Z.mod_mul).
    destruct (give_some s F lo (hi + 1) Hp) as (s'&Eg&Hg); try lia.
    { intros x Hx. apply Hno. now apply Hgets in Hx as [Hx _]. }
    exists s', (hi + 1). split; [lia|]. split; [done|]. split.
    + revert Hg. apply given_ext. intros x. now rewrite Hgets.
    + intros n. cbn [add_loop]. rewrite (proj2 (Z.ltb_lt lo hi)) by done. rewrite Eo.
      cbn [mbind exec_bind]. rewrite (u32_small (hi + 1)) by lia. rewrite Eg. cbn [mbind exec_bind].
      rewrite u32_small, page_down by lia. f_equal. rewrite Eh at 2. f_equal.
      symmetry. apply Z.div_unique with (r := 4095); lia.
Qed.

Lemma gets_given s s' F lo a : given s s' F -> gets s' lo a <-> gets s lo a.
Proof. intros G. unfold gets. now rewrite (given_page s s' F _ G). Qed.

Lemma add_loop_ok n s F lo : ok s -> pool (frames s) F -> 0 < lo -> lo mod 4096 = 0 ->
  (forall i, i ∈ reservations s -> end_of s i mod 4096 <> 0) -> (forall a, gets s lo a -> ~ F a) ->
  lo <= hi + 1 -> hi + 1 - lo < Z.of_nat n * 4096 ->
  exists s', add_loop find n fuel s lo hi = Ret s' /\ given s s' (fun a => F a \/ gets s lo a).
Proof.
  revert s F lo. induction n as [|n IH]; intros s F lo H Hp Hlo Hlm Hend Hno Hle Hn.
  - lia.
  - destruct (Z.lt_ge_cases lo hi) as [Hlt|Hge].
    2: { exists s. cbn [add_loop]. rewrite (proj2 (Z.ltb_ge lo hi)) by done. split; [done|].
         apply given_refl. revert Hp. apply pool_ext. intros a. split; [now left|]. intros [Hf|[Ha _]]; [done|].
         assert (lo = hi) by lia. subst lo. lia. }
    destruct (add_round s F lo H Hp Hlo Hlm Hlt Hend Hno) as (s1&next&Hnext&Hnm&G1&E1). rewrite E1.
    assert (Hd := Z.div_mod next 4096 ltac:(done)). assert (Hdl := Z.div_mod lo 4096 ltac:(done)).
    destruct (IH s1 (fun a => F a \/ gets s lo a /\ a < next) next) as (s2&E2&G2).
    + now apply (given_ok s s1 _ G1).
    + apply G1.
    + lia.
    + done.
    + rewrite (g_tree _ _ _ G1). intros i Hi. unfold end_of, reg. rewrite (g_pool _ _ _ G1). now apply Hend.
    + intros a Ha. rewrite (gets_given s s1 _ _ _ G1) in Ha. destruct Ha as [Ha Hnp]. intros [Hf|[_ Hlt']]; [|lia].
      revert Hf. apply Hno. split; [lia|done].
    + lia.
    + lia.
    + exists s2. split; [done|]. apply (given_trans s s1 s2 _ _ G1). revert G2. apply given_ext. intros a.
      rewrite (gets_given s s1 _ _ _ G1). unfold gets. split.
      * intros [[Hf|[Ha _]]|[Ha Hnp]]; [now left|now right|right]. split; [lia|done].
      * intros [Hf|[Ha Hnp]]; [left; now left|]. destruct (Z.lt_ge_cases a next); [left; right|right]; (split; [|done]); [split; [lia|done]|lia].
Qed.

Lemma add_ok s F lo : ok s -> pool (frames s) F -> 0 <= lo -> lo mod 4096 = 0 -> lo < hi ->
  (forall i, i ∈ reservations s -> end_of s i mod 4096 <> 0) -> (forall a, gets s (Z.max lo 4096) a -> ~ F a) ->
  exists s', memory_add find fuel s lo hi = Ret s' /\ given s s' (fun a => F a \/ gets s (Z.max lo 4096) a).
Proof.
  intros H Hp Hlo Hlm Hlh Hend Hno. unfold LIMIT in Hlim. assert (Hd := Z.div_mod hi 4096 ltac:(done)).
  assert (Hdl := Z.div_mod lo 4096 ltac:(done)). unfold memory_add. change 4095 with (2 ^ 12 - 1).
  rewrite !land_mask by done. change (2 ^ 12) with 4096. rewrite Hlm, Hhi. cbn [Z.eqb check mbind exec_bind].
  assert (El : (if lo =? 0 then lo + 4096 else lo) = Z.max lo 4096) by (destruct (Z.eqb_spec lo 0); lia).
  rewrite El. apply add_loop_ok; try done; try lia.
  destruct (Z.max_spec lo 4096) as [[_ ->]|[_ ->]]; done.
Qed.
End add.

(** ** [memory_reservation_clear] *)

Section clear.
Context (find : mstate -> region -> option Z) (Hfind : searches find) (fuel : nat) (Hfuel : 2 ^ 21 <= Z.of_nat fuel).
Context (t : memory_reservation).

(** The state between two rounds: nodes [past] are done, [next] are not. *)
Record clearing (s0 : mstate) (F : Z -> Prop) (s : mstate) (past next : list Z) : Prop := Clearing {
  cl_ok : ok s;
  cl_list : reservations s = past ++ next;
  cl_past : forall i, i ∈ past -> type_of s i <> t;
  cl_ends : forall i, i ∈ reservations s -> end_of s i mod 4096 <> 0 /\ (end_of s i / 4096 + 1) * 4096 <= LIMIT;
  cl_given : given (Mstate (reservation_pool s) (reservations s) (frames s0) (memory_total s0)) s
    (fun a => F a \/ 4096 <= a /\ on_page s0 (a / 4096) /\ ~ on_page s (a / 4096));
  cl_sub : forall k, on_page s k -> on_page s0 k;
  cl_regs : forall i, i ∈ reservations s -> i ∈ reservations s0 /\ reg s i = reg s0 i /\ type_of s i = type_of s0 i;
  cl_keep : forall i, i ∈ reservations s0 -> i ∈ reservations s \/ type_of s0 i = t
}.

Lemma on_page_mid s l1 i l2 k : reservations s = l1 ++ i :: l2 ->
  on_page s k <-> (exists j, j ∈ l1 ++ l2 /\ start_of s j / 4096 <= k <= end_of s j / 4096) \/
    start_of s i / 4096 <= k <= end_of s i / 4096.
Proof.
  unfold on_page. intros ->. split.
  - intros (j&Hj&Hk). rewrite elem_of_app, elem_of_cons in Hj. destruct (decide (j = i)) as [->|Hne]; [now right|].
    left. exists j. rewrite elem_of_app. split; [tauto|done].
  - intros [(j&Hj&Hk)|Hk]; [exists j|exists i]; (split; [|done]); rewrite elem_of_app, elem_of_cons; [|tauto].
    rewrite elem_of_app in Hj. tauto.
Qed.

Lemma on_page_drop s i l1 l2 k : reservations s = l1 ++ i :: l2 -> (i ∉ l1) /\ (i ∉ l2) ->
  on_page s k <-> on_page (drop_node s i) k \/ start_of s i / 4096 <= k <= end_of s i / 4096.
Proof.
  intros E Hi. rewrite (on_page_mid s l1 i l2 k E). unfold on_page at 1. rewrite (drop_list s i l1 l2 E Hi).
  enough (Hj : forall j, start_of (drop_node s i) j = start_of s j /\ end_of (drop_node s i) j = end_of s j).
  { split; (intros [(j&Hin&Hk)|Hk]; [left; exists j|now right]); destruct (Hj j) as [Es Ee]; rewrite Es, Ee in *; done. }
  intros j. destruct (drop_at s i j) as (Er&_). unfold start_of, end_of. now rewrite Er.
Qed.

(** A round that ends the reservation [i]. *)
Lemma clear_round s0 F s past i next : (forall a, F a -> ~ on_page s0 (a / 4096)) ->
  clearing s0 F s past (i :: next) -> type_of s i = t ->
  exists s', memory_add find fuel (drop_node s i) (Z.land (start_of (drop_node s i) i) PAGE_MASK)
      (u32 (Z.land (end_of (drop_node s i) i) PAGE_MASK + 4096 - 1)) = Ret s' /\
    clearing s0 F s' past next.
Proof.
  intros HF [H E Hpast Hends Hg Hsub Hregs Hkeep] Ht.
  assert (Hi : i ∈ reservations s) by (rewrite E; set_solver).
  assert (Hni : (i ∉ past) /\ (i ∉ next)).
  { assert (Hnd := ok_nodup s H). rewrite E in Hnd. apply NoDup_app in Hnd as (_&H1&H2).
    apply NoDup_cons in H2 as [H2 _]. split; [|done]. intros Hin. apply (H1 i Hin). now left. }
  assert (Hu := drop_ok s i past next H E Hni). assert (El := drop_list s i past next E Hni).
  set (u := drop_node s i) in *. assert (Hat : forall j, start_of u j = start_of s j /\ end_of u j = end_of s j /\ type_of u j = type_of s j).
  { intros j. destruct (drop_at s i j) as (Er&Et&_). unfold start_of, end_of, u. now rewrite Er. }
  destruct (Hat i) as (Es&Ee&_). rewrite Es, Ee, !page_down. assert (Hn := k_node _ H i Hi). destruct (Hends i Hi) as [_ Hlim].
  assert (Hdrop : forall k, on_page s k <-> on_page u k \/ start_of s i / 4096 <= k <= end_of s i / 4096).
  { intros k. now apply (on_page_drop s i past next). }
  set (hi := u32 (end_of s i / 4096 * 4096 + 4096 - 1)).
  assert (Ehi : hi = end_of s i / 4096 * 4096 + 4095).
  { unfold hi, LIMIT in *. rewrite u32_small; [lia|]. assert (0 <= end_of s i / 4096) by (apply Z.div_pos; lia). lia. }
  assert (Hse : start_of s i / 4096 <= end_of s i / 4096) by (apply Z.div_le_mono; lia).
  assert (Hgets : forall a, gets hi u (Z.max (start_of s i / 4096 * 4096) 4096) a <->
    4096 <= a /\ on_page s (a / 4096) /\ ~ on_page u (a / 4096)).
  { intros a. unfold gets. rewrite Hdrop, Ehi. assert (H1 := page_le (start_of s i / 4096) a).
    assert (H2 := page_lt a (end_of s i / 4096 + 1)). intuition lia. }
  destruct (add_ok find Hfind fuel Hfuel hi) with (s := u) (lo := start_of s i / 4096 * 4096)
    (F := fun a => F a \/ 4096 <= a /\ on_page s0 (a / 4096) /\ ~ on_page s (a / 4096)) as (s'&E1&G).
  - rewrite Ehi, Z.add_comm, Z.mod_add by done. done.
  - lia.
  - done.
  - apply Hg.
  - assert (0 <= start_of s i / 4096) by (apply Z.div_pos; lia). lia.
  - now apply Z.mod_mul.
  - lia.
  - rewrite El. intros j Hj. destruct (Hat j) as (_&->&_). apply Hends. rewrite E. set_solver.
  - intros a (_&Hon&_)%Hgets [Hf|(_&_&Hf)]; [|done]. now apply (HF a Hf), Hsub.
  - exists s'. split; [done|]. assert (Et := g_tree _ _ _ G). rewrite El in Et.
    assert (Hat' : forall j, reg s' j = reg s j /\ type_of s' j = type_of s j).
    { intros j. unfold reg, type_of. rewrite (g_pool _ _ _ G). destruct (drop_at s i j) as (Er&Ety&_). done. }
    assert (Hend' : forall j, end_of s' j = end_of s j) by (intros j; unfold end_of; now destruct (Hat' j) as [-> _]).
    split.
    + now apply (given_ok u s' _ G).
    + done.
    + intros j Hj. destruct (Hat' j) as [_ ->]. now apply Hpast.
    + rewrite Et. intros j Hj. rewrite Hend'. apply Hends. rewrite E. set_solver.
    + split; [done|done| |].
      * assert (Gf := g_frames _ _ _ G). revert Gf. apply pool_ext. intros a. rewrite Hgets, (given_page u s' _ _ G).
        assert (Hs := Hsub (a / 4096)). assert (Hd := Hdrop (a / 4096)).
        assert (Hdec := on_page_dec s (a / 4096)). tauto.
      * cbn. assert (G4 := g_total _ _ _ G). assert (Hg4 := g_total _ _ _ Hg). cbn in Hg4.
        change (memory_total u) with (memory_total s) in G4. change (frames u) with (frames s) in G4.
        rewrite G4. unfold u32, wrap in *. rewrite <- Zplus_mod_idemp_l, Hg4, Zplus_mod_idemp_l. f_equal. lia.
    + intros k. rewrite (given_page u s' _ _ G). intros Hk. apply Hsub, Hdrop. now left.
    + rewrite Et. intros j Hj. destruct (Hat' j) as [-> ->]. apply Hregs. rewrite E. set_solver.
    + intros j Hj. rewrite Et. destruct (Hkeep j Hj) as [Hin|]; [|now right]. rewrite E in Hin.
      destruct (decide (j = i)) as [->|Hne]; [right; now rewrite <- Ht; symmetry; apply Hregs|left; set_solver].
Qed.

Lemma clear_loop_ok s0 F n s past next : (forall a, F a -> ~ on_page s0 (a / 4096)) ->
  clearing s0 F s past next -> (length next < n)%nat ->
  exists s', clear_loop find n fuel s (head next) t = Ret s' /\ clearing s0 F s' (reservations s') [].
Proof.
  intros HF. revert n s past. induction next as [|i next IH]; intros n s past C Hn; cbn [head].
  - exists s. split; [now destruct n|]. assert (E := cl_list _ _ _ _ _ C). rewrite app_nil_r in E. now rewrite E.
  - cbn [length] in Hn. destruct n as [|n]; [lia|]. cbn [clear_loop].
    assert (Hni : i ∉ past).
    { assert (Hnd := ok_nodup s (cl_ok _ _ _ _ _ C)). rewrite (cl_list _ _ _ _ _ C) in Hnd.
      apply NoDup_app in Hnd as (_&H1&_). intros Hin. apply (H1 i Hin). now left. }
    rewrite (next_mid s past i next (cl_list _ _ _ _ _ C) Hni).
    destruct (decide (type_of s i = t)) as [Ht|Ht].
    + rewrite bool_decide_eq_true_2 by done. destruct (clear_round s0 F s past i next HF C Ht) as (s1&E1&C1).
      change (set_used (hurd_btree_reservation_detach s i) i false) with (drop_node s i). rewrite E1.
      cbn [mbind exec_bind]. apply (IH n s1 past C1). lia.
    + rewrite bool_decide_eq_false_2 by done. cbn [mbind exec_bind]. apply (IH n s (past ++ [i])); [|lia].
      destruct C as [C1 C2 C3 C4 C5 C6 C7 C8]. split; try done.
      * rewrite <- app_assoc. exact C2.
      * intros j Hj. apply elem_of_app in Hj as [Hj| ->%list_elem_of_singleton]; [now apply C3|done].
Qed.

End clear.

(** ** The properties *)

Section claims.
Context (find : mstate -> region -> option Z) (Hfind : searches find).

(** C19: [memory_reserve] of a region that overlaps a reservation is refused and
    changes nothing; of any other region it succeeds and reserves exactly its bytes
    in addition, whether it takes a new descriptor or extends the neighbour of its
    type below or above; the reservations stay disjoint, in order and within the
    128 descriptors.  Provided that a descriptor is free, that a reservation
    touching the region has neighbours on both sides of it, and that the region
    does not close a gap between two reservations of its type (what happens then is
    the subject of the next theorems). *)
Theorem memory_reserve_reserves s lo hi t :
  ok s -> 0 < lo < hi -> hi + 1 < 2 ^ 32 ->
  (exists i, 0 <= i < MAX_RESERVATIONS /\ used (reservation_pool s i) = false) ->
  surrounded s lo hi -> (forall l r, ~ closes_gap s lo hi t l r) ->
  exists s' b, memory_reserve find s lo hi t = Ret (s', b) /\
    (b = false <-> exists i, i ∈ reservations s /\ overlaps s lo hi i) /\
    (b = false -> s' = s) /\ (b = true -> adds s s' lo hi t).
Proof. intros. now apply reserve_ok. Qed.

(** a region next to the lowest or to the highest reservation, with all of them
    on its one side, cannot be reserved: the code follows the null pointer to the
    neighbour that does not exist. *)
Theorem memory_reserve_at_edge s lo hi t :
  ok s -> 0 < lo < hi -> hi + 1 < 2 ^ 32 ->
  (forall i, i ∈ reservations s -> ~ overlaps s lo hi i) ->
  (exists i, i ∈ reservations s /\ (end_of s i + 1 = lo \/ start_of s i = hi + 1)) ->
  (forall i, i ∈ reservations s -> end_of s i < lo) \/ (forall i, i ∈ reservations s -> hi < start_of s i) ->
  memory_reserve find s lo hi t = Crash invalid_access.
Proof. intros. now apply reserve_edge. Qed.

(** reserving a region that closes the gap between two reservations of its type
    drops the second one: afterwards none of its bytes is reserved. *)
Theorem memory_reserve_forgets s lo hi t l r :
  ok s -> 0 < lo < hi -> hi + 1 < 2 ^ 32 ->
  closes_gap s lo hi t l r -> (forall i, i ∈ reservations s -> ~ overlaps s lo hi i) ->
  exists s', memory_reserve find s lo hi t = Ret (s', true) /\
    forall u a, start_of s r <= a <= end_of s r -> ~ reserved s' u a.
Proof. intros H1 H2 H3 H4 H5. now apply (reserve_gap find Hfind s lo hi t H1 H2 H3 l r). Qed.


(** a reservation whose last byte is the first byte of a page makes [memory_add]
    of that page and more go round for ever: the page is rounded up to itself. *)
Theorem memory_add_loops s lo hi i fuel :
  ok s -> i ∈ reservations s -> end_of s i = lo -> lo mod 4096 = 0 -> hi mod 4096 = 4095 -> 0 < lo < hi ->
  hi + 1 < 2 ^ 32 -> (forall j, j ∈ reservations s -> j <> i -> ~ overlaps s lo hi j) ->
  memory_add find fuel s lo hi = Crash out_of_fuel.
Proof.
  intros H Hi Ei Hlm Hhm Hlh Hhi Hno. unfold memory_add. change 4095 with (2 ^ 12 - 1).
  rewrite !land_mask by done. change (2 ^ 12) with 4096. rewrite Hlm, Hhm. cbn [Z.eqb check mbind exec_bind].
  rewrite (proj2 (Z.eqb_neq lo 0)) by lia. destruct fuel as [|fl]; [done|]. set (fuel := S fl).
  assert (Hn := k_node _ H i Hi). assert (Hd := Z.div_mod lo 4096 ltac:(done)).
  assert (Er : memory_is_reserved find fuel s lo hi = Ret (Some (lo, lo))).
  { unfold memory_is_reserved. rewrite (proj2 (Z.ltb_lt lo hi)) by lia. cbn [check mbind exec_bind].
    assert (F1 := Hfind s lo hi H ltac:(lia)). destruct (find s (Region lo hi)) as [j|].
    2: { exfalso. apply (F1 i Hi). split; lia. }
    destruct F1 as [Hj Ho]. destruct (decide (j = i)) as [->|Hne]; [|now apply Hno in Ho].
    destruct (node_mid s i H Hi) as (l1&l2&E&_&Hi2).
    assert (Ef : first_overlap fuel s i lo = Ret i).
    { unfold fuel. cbn [first_overlap]. rewrite (prev_mid s l1 i l2 E Hi2).
      destruct (last l1) as [k|] eqn:El; [|done]. apply last_Some in El as (l3&->). assert (Hs := k_sorted _ H).
      rewrite E in Hs. apply sorted_mid in Hs as (_&Hb&_). specialize (Hb k ltac:(set_solver)). unfold before in Hb.
      now rewrite (proj2 (Z.ltb_ge _ _)) by lia. }
    rewrite Ef. cbn [mbind exec_bind]. rewrite (proj2 (Z.ltb_ge lo (start_of s i))), Ei by lia.
    now rewrite (proj2 (Z.ltb_lt lo hi)) by lia. }
  generalize fuel at 1. intros n. induction n as [|n IH]; [done|]. cbn [add_loop].
  rewrite (proj2 (Z.ltb_lt lo hi)) by lia. rewrite Er. cbn [mbind exec_bind].
  assert (Em : lo / 4096 * 4096 = lo) by lia. rewrite (page_down lo), Em, Z.sub_diag. cbn [u32 wrap Z.ltb].
  change (0 <? u32 0) with false. cbn [mbind exec_bind]. rewrite u32_small, page_down by lia.
  replace ((lo + 4095) / 4096) with (lo / 4096); [now rewrite Em|].
  apply Z.div_unique with (r := 4095); lia.
Qed.

End claims.

(** ** Grabbing all memory *)

(** The byte [a] belongs to one of the flexpages. *)
Definition within (fpages : list (Z * Z)) (a : Z) : Prop :=
  exists p, p ∈ fpages /\ p.1 <= a < p.1 + p.2.

(** Flexpages of whole frames, each once. *)
Inductive layout : list (Z * Z) -> Prop :=
| layout_nil : layout []
| layout_cons x n l : 0 <= x -> x mod 4096 = 0 -> 0 < n -> n mod 4096 = 0 -> x + n <= LIMIT ->
    (forall a, x <= a < x + n -> ~ within l a) -> layout l -> layout ((x, n) :: l).

Lemma within_cons x n l a : within ((x, n) :: l) a <-> x <= a < x + n \/ within l a.
Proof.
  unfold within. setoid_rewrite elem_of_cons. split.
  - intros (p&[->|Hp]&Ha); [now left|right; now exists p].
  - intros [Ha|(p&Hp&Ha)]; [exists (x, n); auto|exists p; auto].
Qed.

Section grab.
Context (find : mstate -> region -> option Z) (Hfind : searches find) (fuel : nat) (Hfuel : 2 ^ 21 <= Z.of_nat fuel).

(** One flexpage. *)
Lemma grab_page s F x n : ok s -> pool (frames s) F -> 0 <= x -> x mod 4096 = 0 -> 0 < n -> n mod 4096 = 0 ->
  x + n <= LIMIT -> (forall i, i ∈ reservations s -> end_of s i mod 4096 <> 0) -> (forall a, x <= a < x + n -> ~ F a) ->
  exists s', memory_add find fuel s x (u32 (x + n - 1)) = Ret s' /\
    given s s' (fun a => F a \/ 4096 <= a /\ x <= a < x + n /\ ~ on_page s (a / 4096)).
Proof.
  intros H Hp Hx Hxm Hn Hnm Hlim Hends Hno. unfold LIMIT in Hlim. rewrite u32_small by lia.
  assert (Hd1 := Z.div_mod x 4096 ltac:(done)). assert (Hd2 := Z.div_mod n 4096 ltac:(done)).
  destruct (add_ok find Hfind fuel Hfuel (x + n - 1)) with (s := s) (F := F) (lo := x) as (s'&E&G); try done; try lia.
  - symmetry. apply Z.mod_unique with (q := x / 4096 + n / 4096 - 1); lia.
  - unfold LIMIT. lia.
  - intros a [Ha _]. apply Hno. lia.
  - exists s'. split; [done|]. revert G. apply given_ext. intros a. unfold gets. intuition lia.
Qed.

(** The bounds of the frames after the flexpages [l]. *)
Definition frame_bounds (first : bool) (f la : Z) (l : list (Z * Z)) (f' la' : Z) : Prop :=
  (f' = f /\ (first = false \/ l = []) \/ exists p, p ∈ l /\ f' = p.1) /\
  (la' = la /\ (first = false \/ l = []) \/ exists p, p ∈ l /\ la' = p.1 + p.2 - 4096) /\
  (first = false -> f' <= f /\ la <= la') /\
  (forall p, p ∈ l -> f' <= p.1 /\ p.1 + p.2 - 4096 <= la').

Lemma grab_loop_ok l s F first f la : layout l -> ok s -> pool (frames s) F ->
  (forall i, i ∈ reservations s -> end_of s i mod 4096 <> 0) -> (forall a, within l a -> ~ F a) ->
  exists b f' la' s', grab_loop find fuel (first, f, la, s) l = Ret (b, f', la', s') /\
    given s s' (fun a => F a \/ 4096 <= a /\ within l a /\ ~ on_page s (a / 4096)) /\
    frame_bounds first f la l f' la'.
Proof.
  intros HL. revert s F first f la. induction HL as [|x n l Hx Hxm Hn Hnm Hlim Hdis HL IH]; intros s F first f la H Hp Hends Hno.
  - exists first, f, la, s. split; [done|]. split.
    + apply given_refl. revert Hp. apply pool_ext. intros a. unfold within. set_solver.
    + split; [auto|]. split; [auto|]. split; [lia|]. intros p Hpp. now apply not_elem_of_nil in Hpp.
  - cbn [grab_loop]. unfold add.
    destruct (grab_page s F x n H Hp Hx Hxm Hn Hnm Hlim Hends) as (s1&->&G1).
    { intros a Ha. apply Hno, within_cons. now left. }
    cbn [mbind exec_bind]. unfold LIMIT in Hlim.
    assert (Hd2 := Z.div_mod n 4096 ltac:(done)). assert (En : u32 (x + n - 4096) = x + n - 4096) by (apply u32_small; lia).
    rewrite En. set (f1 := if first || (x <? f) then x else f). set (la1 := if first || (la <? x + n - 4096) then x + n - 4096 else la).
    destruct (IH s1 (fun a => F a \/ 4096 <= a /\ x <= a < x + n /\ ~ on_page s (a / 4096)) false f1 la1)
      as (b&f'&la'&s'&E&G&B).
    + now apply (given_ok s s1 _ G1).
    + apply G1.
    + rewrite (g_tree _ _ _ G1). intros i Hi. unfold end_of, reg. rewrite (g_pool _ _ _ G1). now apply Hends.
    + intros a Ha [Hf|(_&Hr&_)]; [|now apply (Hdis a Hr)]. apply (Hno a); [|done]. apply within_cons. now right.
    + exists b, f', la', s'. split; [done|]. split.
      * apply (given_trans s s1 s' _ _ G1). revert G. apply given_ext. intros a.
        rewrite (given_page s s1 _ _ G1), within_cons. tauto.
      * destruct B as (B1&B2&B3&B4). destruct (B3 eq_refl) as [B5 B6].
        assert (Hf1 : f1 <= x /\ (f1 = x \/ first = false /\ f1 = f) /\ (first = false -> f1 <= f)).
        { unfold f1. destruct first; cbn; [lia|]. destruct (Z.ltb_spec x f); lia. }
        assert (Hl1 : x + n - 4096 <= la1 /\ (la1 = x + n - 4096 \/ first = false /\ la1 = la) /\ (first = false -> la <= la1)).
        { unfold la1. destruct first; cbn; [lia|]. destruct (Z.ltb_spec la (x + n - 4096)); lia. }
        split; [|split; [|split]].
        -- destruct B1 as [[-> _]|(p&Hpp&->)]; [|right; exists p; split; [now right|done]].
           destruct Hf1 as (_&[->|[Ef ->]]&_); [right; exists (x, n); split; [now left|done]|left; auto].
        -- destruct B2 as [[-> _]|(p&Hpp&->)]; [|right; exists p; split; [now right|done]].
           destruct Hl1 as (_&[->|[Ef ->]]&_); [right; exists (x, n); split; [now left|done]|left; auto].
        -- intros E0. destruct Hf1 as (_&_&Hf1), Hl1 as (_&_&Hl1). specialize (Hf1 E0). specialize (Hl1 E0). lia.
        -- intros p [->|Hpp]%elem_of_cons; [cbn; lia|now apply B4].
Qed.

(** C20: [memory_grab] gives the pool every frame of the machine's memory that no
    reservation touches, and nothing else (the page at address 0 is left out), counts
    them, and leaves the addresses of the first and the last frame.  Conditions: the
    memory is a list, not empty, of regions of whole frames below 2 GB that do not
    overlap ([layout]), and none of it is in the pool yet; the reservations are
    disjoint and in order ([ok]), and none ends with the first byte of a page (the
    loop would not end: [memory_add_loops]); the search in the tree of
    reservations finds an overlapping one if there is any ([searches]); and there is
    fuel for 2^21 iterations. *)
Theorem memory_grab_gives s F f la l :
  layout l -> l <> [] -> ok s -> pool (frames s) F ->
  (forall i, i ∈ reservations s -> end_of s i mod 4096 <> 0) -> (forall a, within l a -> ~ F a) ->
  exists f' la' s', memory_grab find fuel s f la l = Ret (f', la', s') /\
    (reservation_pool s' = reservation_pool s /\ reservations s' = reservations s) /\
    pool (frames s') (fun a => F a \/ 4096 <= a /\ within l a /\ ~ on_page s (a / 4096)) /\
    u32 (memory_total s') = u32 (memory_total s + (zalloc_memory (frames s') - zalloc_memory (frames s))) /\
    (exists p, p ∈ l /\ f' = p.1) /\ (exists p, p ∈ l /\ la' = p.1 + p.2 - 4096) /\
    forall p, p ∈ l -> f' <= p.1 /\ p.1 + p.2 - 4096 <= la'.
Proof.
  intros HL Hl H Hp Hends Hno.
  destruct (grab_loop_ok l s F true f la HL H Hp Hends Hno) as (b&f'&la'&s'&E&[G1 G2 G3 G4]&B1&B2&_&B4).
  exists f', la', s'. unfold memory_grab. rewrite E. repeat (split; [done|]).
  split; [|split; [|done]].
  - destruct B1 as [[_ [?|?]]|?]; done.
  - destruct B2 as [[_ [?|?]]|?]; done.
Qed.
End grab.

(** ** Examples *)

(** A search that takes the lowest node. *)
Definition find_lowest (s : mstate) (r : region) : option Z :=
  List.find (fun i => reservation_node_compare r (reg s i) =? 0) (reservations s).

Lemma compare_overlaps s lo hi i : (reservation_node_compare (Region lo hi) (reg s i) =? 0) = true <-> overlaps s lo hi i.
Proof.
  unfold reservation_node_compare, overlaps. cbn [r_start r_end]. fold (start_of s i) (end_of s i).
  destruct (Z.ltb_spec hi (start_of s i)); [split; [done|lia]|].
  destruct (Z.ltb_spec (end_of s i) lo); [split; [done|lia]|]. split; [lia|done].
Qed.

Lemma find_lowest_searches : searches find_lowest.
Proof.
  intros s lo hi _ _. unfold find_lowest. destruct (List.find _ _) as [i|] eqn:E.
  - apply find_some in E as [Hi Ho]. split; [now apply list_elem_of_In|now apply compare_overlaps].
  - intros i Hi Ho. apply list_elem_of_In in Hi. apply (find_none _ _ E) in Hi.
    apply compare_overlaps in Ho. congruence.
Qed.

(** The first three descriptors hold the regions [a], [b] and [c]. *)
Definition three (a b c : reservation) : mstate :=
  Mstate (<[0 := a]> (<[1 := b]> (<[2 := c]> (fun _ => Reservation (Region 0 0) memory_reservation_self false))))
    [0; 1; 2] pool_init 0.

Lemma three_ok a b c : used a = true -> used b = true -> used c = true ->
  0 <= r_start (rregion a) <= r_end (rregion a) -> r_end (rregion a) < r_start (rregion b) ->
  r_start (rregion b) <= r_end (rregion b) -> r_end (rregion b) < r_start (rregion c) ->
  r_start (rregion c) <= r_end (rregion c) -> r_end (rregion c) < 2 ^ 32 -> ok (three a b c).
Proof.
  intros. split.
  - unfold sorted, three. cbn [reservations].
    assert (Hac : r_end (rregion a) < r_start (rregion c)) by lia.
    apply StronglySorted_cons. split; [|apply StronglySorted_cons; split; [|apply StronglySorted_cons; split; constructor]].
    + apply Forall_cons. split; [exact H3|]. apply Forall_cons. split; [exact Hac|constructor].
    + apply Forall_cons. split; [exact H5|constructor].
  - assert (Hnode : forall i x, used x = true -> 0 <= i < 128 -> 0 <= r_start (rregion x) <= r_end (rregion x) ->
      r_end (rregion x) < 2 ^ 32 -> 0 <= i < MAX_RESERVATIONS /\ used x = true /\
      0 <= r_start (rregion x) <= r_end (rregion x) /\ r_end (rregion x) < 2 ^ 32) by done.
    intros i Hi. cbn in Hi. rewrite !elem_of_cons, elem_of_nil in Hi.
    destruct Hi as [->|[->|[->|[]]]]; [apply (Hnode 0 a)|apply (Hnode 1 b)|apply (Hnode 2 c)]; done || lia.
  - intros i Hi. cbn [reservation_pool reservations three]. rewrite !fn_at, !elem_of_cons.
    repeat (case_decide; [tauto|]). done.
Qed.

Definition res (lo hi : Z) (t : memory_reservation) : reservation := Reservation (Region lo hi) t true.

Definition sample : mstate :=
  three (res 0x1000 0x1fff memory_reservation_self) (res 0x3000 0x3fff memory_reservation_self)
    (res 0x9000 0x97ff memory_reservation_modules).

Lemma sample_ok : ok sample.
Proof. apply three_ok; done. Qed.

Lemma sample_cases i : i ∈ reservations sample -> i = 0 \/ i = 1 \/ i = 2.
Proof. cbn. rewrite !elem_of_cons, elem_of_nil. tauto. Qed.

(** The region from 0x4000 is next to the second reservation, of its type. *)
Theorem memory_reserve_reserves_witness :
  exists s' b, memory_reserve find_lowest sample 0x4000 0x4fff memory_reservation_self = Ret (s', b) /\
    (b = false <-> exists i, i ∈ reservations sample /\ overlaps sample 0x4000 0x4fff i) /\
    (b = false -> s' = sample) /\ (b = true -> adds sample s' 0x4000 0x4fff memory_reservation_self).
Proof.
  apply (memory_reserve_reserves find_lowest find_lowest_searches); [apply sample_ok|lia|lia|..].
  - exists 3. done.
  - intros i _ _. exists 1, 2. repeat split; cbn; set_solver.
  - intros l r (Hl&Hr&H1&H2&_). apply sample_cases in Hr. destruct Hr as [->|[->| ->]]; vm_compute in H2; discriminate H2.
Defined.

Theorem memory_reserve_at_edge_witness :
  memory_reserve find_lowest sample 0x9800 0x9fff memory_reservation_modules = Crash invalid_access.
Proof.
  apply (memory_reserve_at_edge find_lowest find_lowest_searches); [apply sample_ok|lia|lia|..].
  - intros i Hi. apply sample_cases in Hi. intros [H1 H2]. destruct Hi as [->|[->| ->]]; vm_compute in H1; now apply H1.
  - exists 2. split; [cbn; set_solver|now left].
  - left. intros i Hi. apply sample_cases in Hi. now destruct Hi as [->|[->| ->]].
Defined.

Theorem memory_reserve_forgets_witness :
  exists s', memory_reserve find_lowest sample 0x2000 0x2fff memory_reservation_self = Ret (s', true) /\
    forall u a, 0x3000 <= a <= 0x3fff -> ~ reserved s' u a.
Proof.
  apply (memory_reserve_forgets find_lowest find_lowest_searches sample 0x2000 0x2fff memory_reservation_self 0 1);
    [apply sample_ok|lia|lia|..].
  - repeat split; cbn; set_solver.
  - intros i Hi. apply sample_cases in Hi. intros [H1 H2].
    destruct Hi as [->|[->| ->]]; vm_compute in H1, H2; first [now apply H1|now apply H2].
Defined.


Definition looping : mstate :=
  three (res 0x1000 0x2000 memory_reservation_self) (res 0x13000 0x13fff memory_reservation_self)
    (res 0x19000 0x197ff memory_reservation_modules).

Theorem memory_add_loops_witness : memory_add find_lowest 1000 looping 0x2000 0x5fff = Crash out_of_fuel.
Proof.
  apply (memory_add_loops find_lowest find_lowest_searches looping 0x2000 0x5fff 0); try done.
  - now apply three_ok.
  - cbn. set_solver.
  - intros j Hj Hne [H1 H2]. cbn in Hj. rewrite !elem_of_cons, elem_of_nil in Hj.
    destruct Hj as [->|[->|[->|[]]]]; [done|..]; vm_compute in H2; now apply H2.
Defined.

Theorem memory_grab_gives_witness :
  exists f' la' s', memory_grab find_lowest (Z.to_nat (2 ^ 21)) sample 0 0 [(0x2000, 0x1000); (0x5000, 0x1000)] = Ret (f', la', s') /\
    (reservation_pool s' = reservation_pool sample /\ reservations s' = reservations sample) /\
    pool (frames s') (fun a => False \/ 4096 <= a /\ within [(0x2000, 0x1000); (0x5000, 0x1000)] a /\ ~ on_page sample (a / 4096)) /\
    u32 (memory_total s') = u32 (memory_total sample + (zalloc_memory (frames s') - zalloc_memory (frames sample))) /\
    (exists p, p ∈ [(0x2000, 0x1000); (0x5000, 0x1000)] /\ f' = p.1) /\
    (exists p, p ∈ [(0x2000, 0x1000); (0x5000, 0x1000)] /\ la' = p.1 + p.2 - 4096) /\
    forall p, p ∈ [(0x2000, 0x1000); (0x5000, 0x1000)] -> f' <= p.1 /\ p.1 + p.2 - 4096 <= la'.
Proof.
  apply (memory_grab_gives find_lowest find_lowest_searches _ ltac:(now rewrite Z2Nat.id) sample (fun _ => False));
    [|done|apply sample_ok|apply pool_init_ok| |now intros a _ []].
  - apply layout_cons; try done; [|apply layout_cons; try done; [|constructor]].
    + intros a Ha (p&Hp&Hr). apply list_elem_of_singleton in Hp as ->. cbn in Hr. lia.
    + intros a Ha (p&Hp&_). now apply not_elem_of_nil in Hp.
  - intros i Hi. apply sample_cases in Hi. now destruct Hi as [->|[->| ->]].
Defined.

End Reserve.
