(* ===== verification/Quadratic.v ===== *)
(** * Sums of two squares modulo a prime

    The number theory behind the probe sequence of [libhurd-ihash]: a prime
    that is 3 modulo 4 divides a sum of two squares only if it divides both.
    The proof takes Fermat's little theorem from MathComp; the statements are
    about integers. *)

From Stdlib Require Import ZArith Lia Znumtheory.
From mathcomp Require Import boot binomial.

Lemma Z_of_expn (a n : nat) : Z.of_nat (expn a n) = Z.pow (Z.of_nat a) (Z.of_nat n).
Proof.
  elim: n => [|n IH] //.
  rewrite expnS Nat2Z.inj_succ (Z.pow_succ_r _ _ (Nat2Z.is_nonneg n)).
  by rewrite -IH -Nat2Z.inj_mul.
Qed.

Lemma prime_of_Z (p : nat) : Znumtheory.prime (Z.of_nat p) -> prime p.
Proof.
  move=> Hp. have Hp1 : Z.lt 1 (Z.of_nat p) by case: Hp.
  apply/primeP; split; first by apply/ltP; lia.
  move=> d /dvdnP [k Hk].
  have Hd : Z.divide (Z.of_nat d) (Z.of_nat p) by exists (Z.of_nat k); rewrite Hk -Nat2Z.inj_mul.
  case: (Znumtheory.prime_divisors _ Hp _ Hd) => [|[|[]]] E; try lia.
  - apply/orP; left. apply/eqP. lia.
  - apply/orP; right. apply/eqP. lia.
Qed.

(** Fermat's little theorem over the integers. *)
Lemma fermat_Z (p a : Z) :
  Znumtheory.prime p -> Z.le 0 a -> ~ Z.divide p a -> Z.divide p (Z.sub (Z.pow a (Z.sub p 1)) 1).
Proof.
  move=> Hp Ha Hna. have Hp1 : Z.lt 1 p by case: Hp.
  have Hd : Z.divide p (Z.mul a (Z.sub (Z.pow a (Z.sub p 1)) 1)).
  { have Hpn : Z.of_nat (Z.to_nat p) = p by lia.
    have Han : Z.of_nat (Z.to_nat a) = a by lia.
    have Hpr : prime (Z.to_nat p) by apply: prime_of_Z; rewrite Hpn.
    have H := @fermat_little (Z.to_nat a) (Z.to_nat p) Hpr.
    have E1 := divn_eq (expn (Z.to_nat a) (Z.to_nat p)) (Z.to_nat p).
    have E2 := divn_eq (Z.to_nat a) (Z.to_nat p).
    rewrite H in E1.
    exists (Z.sub (Z.of_nat (divn (expn (Z.to_nat a) (Z.to_nat p)) (Z.to_nat p)))
                  (Z.of_nat (divn (Z.to_nat a) (Z.to_nat p)))).
    have E3 : Z.mul a (Z.pow a (Z.sub p 1)) = Z.of_nat (expn (Z.to_nat a) (Z.to_nat p)).
    { rewrite Z_of_expn Hpn Han -Z.pow_succ_r; [lia|congr Z.pow; lia]. }
    rewrite Z.mul_sub_distr_l E3 Z.mul_1_r.
    move: E1 E2. rewrite -!plusE -!multE. lia. }
  case: (Znumtheory.prime_mult _ Hp _ _ Hd) => //.
Qed.

(** A sum divides the sum of equal odd powers. *)
Lemma odd_power_sum (x y : Z) (m : nat) :
  Z.divide (Z.add x y) (Z.add (Z.pow x (2 * Z.of_nat m + 1)) (Z.pow y (2 * Z.of_nat m + 1))).
Proof.
  elim: m => [|m [c IH]]; first by (exists 1%Z; change (2 * Z.of_nat 0 + 1)%Z with 1%Z; rewrite !Z.pow_1_r; ring).
  rewrite Nat2Z.inj_succ. have -> : (2 * Z.succ (Z.of_nat m) + 1 = 2 * Z.of_nat m + 1 + 2)%Z by lia.
  rewrite (Z.pow_add_r x _ 2) ?(Z.pow_add_r y _ 2); try lia. set u := (Z.pow x (2 * Z.of_nat m + 1)) in IH *.
  set v := (Z.pow y (2 * Z.of_nat m + 1)) in IH *. rewrite !Z.pow_2_r.
  exists (Z.sub (Z.mul c (Z.mul x x)) (Z.mul v (Z.sub x y))).
  have -> : (u * (x * x) + v * (y * y) = (u + v) * (x * x) - v * (x - y) * (x + y))%Z by ring.
  rewrite IH. ring.
Qed.

Lemma sum_of_squares (p a b : Z) :
  Znumtheory.prime p -> Z.modulo p 4 = 3%Z -> Z.le 0 a -> Z.le 0 b ->
  Z.divide p (Z.add (Z.mul a a) (Z.mul b b)) -> Z.divide p a.
Proof.
  move=> Hp Hp4 Ha Hb Hd.
  case: (Znumtheory.Zdivide_dec p a) => // Hna. exfalso.
  have Hnb : ~ Z.divide p b.
  { move=> Hdb. apply: Hna.
    have : Z.divide p (Z.mul a a).
    { have -> : (a * a = (a * a + b * b) - b * b)%Z by ring.
      apply: Z.divide_sub_r => //. exact: Z.divide_mul_l. }
    by move/(Znumtheory.prime_mult _ Hp); case. }
  have Ep := Z.div_mod p 4. rewrite Hp4 in Ep.
  set m := Z.div p 4 in Ep. have Hp1 : Z.lt 1 p by case: Hp.
  have Em : (p - 1 = 2 * (2 * Z.of_nat (Z.to_nat m) + 1))%Z by lia.
  have Hs : Z.divide p (Z.add (Z.pow a (Z.sub p 1)) (Z.pow b (Z.sub p 1))).
  { rewrite Em !Z.pow_mul_r; try lia. rewrite !Z.pow_2_r.
    exact: Z.divide_trans Hd (odd_power_sum _ _ _). }
  have Hfa := fermat_Z _ _ Hp Ha Hna. have Hfb := fermat_Z _ _ Hp Hb Hnb.
  have H2 : Z.divide p 2.
  { have -> : (2 = (a ^ (p - 1) + b ^ (p - 1)) - (a ^ (p - 1) - 1) - (b ^ (p - 1) - 1))%Z by ring.
    by apply: Z.divide_sub_r => //; apply: Z.divide_sub_r. }
  have Hle : Z.le p 2 by apply: Z.divide_pos_le H2.
  have : p = 2%Z by lia. move=> Hp2. by rewrite Hp2 in Hp4.
Qed.
