(* ===== verification/Ihash.v ===== *)
(** * The integer hash: [libhurd-ihash]

    Open addressing with quadratic probing in both directions.  The state is
    [struct hurd_ihash] with the array of items, the calls made to the cleanup
    function and the location pointers written into the values' memory; the
    configuration [NO_MALLOC] and the outcome of [calloc] are arguments. *)

From Stdlib Require Znumtheory Sorting.Sorted.
From S2P Require Import Prelude.
From S2P Require Quadratic.

(** ** The data *)

Definition IHASH_EMPTY : Z := 0.
Definition IHASH_DELETED : Z := 2 ^ 32 - 1.
Definition HURD_IHASH_NO_LOCP : Z := - 2 ^ 31.
Definition HURD_IHASH_MAX_LOAD_DEFAULT : Z := 80.
Definition SIZE_MAX : Z := 2 ^ 32 - 1.

(** An item of either kind: [value] first, then [key]. *)
Record item := mk_item { value : Z; key : Z }.

Record hurd_ihash := mk_ihash {
  nr_items : Z;
  large : bool;
  items : list item;
  size : Z;
  locp_offset : Z;
  max_load : Z;
  cleanup : bool;               (* is there a cleanup function? *)
  cleaned : list Z;             (* the values it was called with *)
  locps : gmap Z Z              (* location pointers, by their address *)
}.

Definition ihash_sizes : list Z :=
  [3; 7; 19; 43; 103; 211; 431; 863; 1747; 3499; 7019; 14051; 28111; 56239; 112507; 225023;
   450067; 900139; 1800311; 3600659; 7201351; 14402743; 28805519; 57611039; 115222091;
   230444239; 460888499; 921777067; 1843554151; 3687108307; 7374216631; 14748433279;
   29496866579; 58993733159; 117987466379; 235974932759; 471949865531; 943899731087].

(** The size of a value pointer and a key, without padding. *)
Definition ITEM_SIZE (lrg : bool) : Z := if lrg then 12 else 8.

Definition ITEM (ht : hurd_ihash) (idx : Z) : exec item := access (items ht !! Z.to_nat idx).
Definition VALUE (ht : hurd_ihash) (idx : Z) : exec Z := it ← ITEM ht idx; Ret (value it).
Definition KEY (ht : hurd_ihash) (idx : Z) : exec Z := it ← ITEM ht idx; Ret (key it).

Definition set_items (ht : hurd_ihash) (l : list item) : hurd_ihash :=
  mk_ihash (nr_items ht) (large ht) l (size ht) (locp_offset ht) (max_load ht)
           (cleanup ht) (cleaned ht) (locps ht).

Definition set_nr_items (ht : hurd_ihash) (n : Z) : hurd_ihash :=
  mk_ihash (wrap 32 n) (large ht) (items ht) (size ht) (locp_offset ht) (max_load ht)
           (cleanup ht) (cleaned ht) (locps ht).

Definition index_empty (ht : hurd_ihash) (idx : Z) : exec bool :=
  v ← VALUE ht idx; Ret ((v =? IHASH_EMPTY) || (v =? IHASH_DELETED)).

Definition index_valid (ht : hurd_ihash) (idx k : Z) : exec bool :=
  e ← index_empty ht idx;
  if (e : bool) then Ret false else k' ← KEY ht idx; Ret (k' =? k).

(** ** Searching *)

(** The indices after the next one up and down. *)
Definition step_up (up_idx i sz : Z) : Z := u32 (up_idx + i) mod sz.
Definition step_down (down_idx i sz : Z) : Z :=
  let down_idx := if down_idx <? i then u32 (down_idx + sz) else down_idx in
  u32 (down_idx - i) mod sz.

(** [VALUE (ht, idx) == _HURD_IHASH_EMPTY || KEY (ht, idx) == key] *)
Definition stop_at (ht : hurd_ihash) (idx k : Z) : exec bool :=
  v ← VALUE ht idx;
  if v =? IHASH_EMPTY then Ret true else k' ← KEY ht idx; Ret (k' =? k).

Fixpoint find_loop (fuel : nat) (ht : hurd_ihash) (k idx i up_idx down_idx : Z) : exec Z :=
  match fuel with
  | O => Crash out_of_fuel
  | S fuel =>
      let up_idx := step_up up_idx i (size ht) in
      s ← stop_at ht up_idx k;
      if (s : bool) then Ret up_idx
      else
        let down_idx := step_down down_idx i (size ht) in
        s ← stop_at ht down_idx k;
        if (s : bool) then Ret down_idx
        else
          let i := u32 (i + 2) mod size ht in
          if i =? 0 then Ret idx else find_loop fuel ht k idx i up_idx down_idx
  end.

Definition find_index (fuel : nat) (ht : hurd_ihash) (k : Z) : exec Z :=
  let idx := k mod size ht in
  s ← stop_at ht idx k;
  if (s : bool) then Ret idx else find_loop fuel ht k idx 1 idx idx.

Definition hurd_ihash_find (fuel : nat) (ht : hurd_ihash) (k : Z) : exec Z :=
  if size ht =? 0 then Ret 0
  else
    idx ← find_index fuel ht k;
    v ← index_valid ht idx k;
    if (v : bool) then VALUE ht idx else Ret 0.

(** ** Changing the table *)

(** [ITEM (ht, idx)->value = v] *)
Definition set_value (ht : hurd_ihash) (idx v : Z) : exec hurd_ihash :=
  it ← ITEM ht idx; Ret (set_items ht (<[Z.to_nat idx := mk_item v (key it)]> (items ht))).

(** A location pointer is modelled by the index of the item it points to. *)
Definition locp_remove (ht : hurd_ihash) (locp : Z) (cl : bool) : exec hurd_ihash :=
  v ← VALUE ht locp;
  let ht := if cl && cleanup ht
            then mk_ihash (nr_items ht) (large ht) (items ht) (size ht) (locp_offset ht)
                   (max_load ht) (cleanup ht) (cleaned ht ++ [v]) (locps ht)
            else ht in
  ht ← set_value ht locp IHASH_DELETED;
  Ret (set_nr_items ht (nr_items ht - 1)).

(** The [do] loop of [replace_one]: the final [idx] and [first_free]. *)
Fixpoint replace_loop (fuel : nat) (ht : hurd_ihash) (k idx first_free i up_idx down_idx : Z)
    : exec (Z * Z) :=
  match fuel with
  | O => Crash out_of_fuel
  | S fuel =>
      let up_idx := step_up up_idx i (size ht) in
      s ← stop_at ht up_idx k;
      if (s : bool) then Ret (up_idx, first_free)
      else
        v ← VALUE ht up_idx;
        let first_free := if (first_free =? idx) && (v =? IHASH_DELETED) then up_idx else first_free in
        let down_idx := step_down down_idx i (size ht) in
        let down_idx := down_idx mod size ht in
        s ← stop_at ht down_idx k;
        if (s : bool) then Ret (down_idx, first_free)
        else
          v ← VALUE ht down_idx;
          let first_free :=
            if (first_free =? idx) && (v =? IHASH_DELETED) then down_idx else first_free in
          let i := u32 (i + 2) mod size ht in
          if i =? 0 then Ret (idx, first_free)
          else replace_loop fuel ht k idx first_free i up_idx down_idx
  end.

(** Storing the value and the key in a free slot. *)
Definition fill_slot (ht : hurd_ihash) (idx k v : Z) : exec hurd_ihash :=
  let ht := set_nr_items ht (nr_items ht + 1) in
  _ ← ITEM ht idx;
  let it := mk_item v (if large ht then k else u32 k) in
  let ht := set_items ht (<[Z.to_nat idx := it]> (items ht)) in
  Ret (if negb (locp_offset ht =? HURD_IHASH_NO_LOCP)
       then mk_ihash (nr_items ht) (large ht) (items ht) (size ht) (locp_offset ht) (max_load ht)
              (cleanup ht) (cleaned ht) (<[u32 (v + locp_offset ht) := idx]> (locps ht))
       else ht).

(** The result of [replace_one]: whether the item was added, the table, and
    [*had_value] and [*old_value], the latter only if there was one. *)
Record replaced := mk_replaced { added : bool; table : hurd_ihash; had_value : bool; old : option Z }.

(** The end of [replace_one]: the first free slot, or the one the search
    ended at, is filled if it is empty. *)
Definition replace_end (ht : hurd_ihash) (idx first_free k v : Z) (valid : bool) (o : option Z) : exec replaced :=
  e ← index_empty ht first_free;
  let first_free := if (e : bool) then first_free else idx in
  e ← index_empty ht first_free;
  if (e : bool) then
    ht ← fill_slot ht first_free k v;
    Ret (mk_replaced true ht valid o)
  else Ret (mk_replaced false ht valid o).

(** [want_old] tells whether [old_value] is not NULL. *)
Definition replace_one (fuel : nat) (ht : hurd_ihash) (k v : Z) (want_old : bool) : exec replaced :=
  let idx := k mod size ht in
  s ← stop_at ht idx k;
  '(idx, first_free) ← (if (s : bool) then Ret (idx, idx)
                        else replace_loop fuel ht k idx idx 1 idx idx);
  valid ← index_valid ht idx k;
  '(ht, o) ← (if (valid : bool) then
                ov ← VALUE ht idx;
                ht ← locp_remove ht idx want_old;
                Ret (ht, Some ov)
              else Ret (ht, None));
  replace_end ht idx first_free k v valid o.

(** The first size that [p] accepts. *)
Definition find_size (p : Z -> bool) : option Z := List.find p ihash_sizes.

Definition hurd_ihash_buffer_size (count : Z) (lrg : bool) (max_load_factor : Z) : Z :=
  let f := if max_load_factor =? 0 then HURD_IHASH_MAX_LOAD_DEFAULT else max_load_factor in
  let f := if 100 <? f then 100 else f in
  let f := if f <? 0 then 1 else f in
  let count := u32 (count * 100) / f in
  match find_size (fun s => count <=? s) with
  | None => SIZE_MAX
  | Some s => u32 (s * ITEM_SIZE lrg)
  end.

(** "We have to rehash the old entries." *)
Fixpoint rehash (fuel : nat) (ht : hurd_ihash) (l : list item) (want_old : bool) : exec hurd_ihash :=
  match l with
  | [] => Ret ht
  | it :: l =>
      if (value it =? IHASH_EMPTY) || (value it =? IHASH_DELETED) then rehash fuel ht l want_old
      else
        r ← replace_one fuel ht (key it) (value it) want_old;
        _ ← check (added r) assertion_failed;
        rehash fuel (table r) l want_old
  end.

(** "The hash table is too small, and we have to increase it."  [None] is the
    result [ENOMEM]. *)
Definition grow_and_replace (NO_MALLOC calloc_ok : bool) (fuel : nat) (ht : hurd_ihash) (k v : Z)
    (want_old : bool) : exec (option replaced) :=
  if NO_MALLOC then Ret None
  else
    let bytes := hurd_ihash_buffer_size (u32 (size ht + 1)) (large ht) (max_load ht) in
    if SIZE_MAX <=? bytes then Ret None
    else if negb calloc_ok then Ret None
    else
      let sz := bytes / ITEM_SIZE (large ht) in
      let new := mk_ihash 0 (large ht) (replicate (Z.to_nat sz) (mk_item 0 0)) sz (locp_offset ht)
                   (max_load ht) (cleanup ht) (cleaned ht) (locps ht) in
      new ← rehash fuel new (items ht) want_old;
      r ← replace_one fuel new k v want_old;
      _ ← check (added r) assertion_failed;
      Ret (Some r).

Definition hurd_ihash_replace (NO_MALLOC calloc_ok : bool) (fuel : nat) (ht : hurd_ihash) (k v : Z)
    (want_old : bool) : exec (option replaced) :=
  if negb (size ht =? 0)
     && (NO_MALLOC || (u32 (nr_items ht * 100) / size ht <=? u32 (max_load ht))) then
    r ← replace_one fuel ht k v want_old;
    if added r then Ret (Some r)
    else grow_and_replace NO_MALLOC calloc_ok fuel (table r) k v want_old
  else grow_and_replace NO_MALLOC calloc_ok fuel ht k v want_old.

Definition hurd_ihash_add (NO_MALLOC calloc_ok : bool) (fuel : nat) (ht : hurd_ihash) (k v : Z)
    : exec (option replaced) :=
  hurd_ihash_replace NO_MALLOC calloc_ok fuel ht k v false.

Definition hurd_ihash_remove (fuel : nat) (ht : hurd_ihash) (k : Z) : exec (hurd_ihash * Z) :=
  if negb (size ht =? 0) then
    idx ← find_index fuel ht k;
    v ← index_valid ht idx k;
    if (v : bool) then ht ← locp_remove ht idx true; Ret (ht, 1) else Ret (ht, 0)
  else Ret (ht, 0).

Definition hurd_ihash_locp_remove (ht : hurd_ihash) (locp : Z) : exec hurd_ihash :=
  locp_remove ht locp true.

(** ** Construction *)

Definition hurd_ihash_init_internal (lrg : bool) (locp_offs : Z) : hurd_ihash :=
  mk_ihash 0 lrg [] 0 locp_offs HURD_IHASH_MAX_LOAD_DEFAULT false [] ∅.

(** The loop that stops at the first size larger than [max_size]. *)
Fixpoint sizes_that_fit (max_size : Z) (l : list Z) : nat :=
  match l with
  | s :: l => if u64 max_size <? s then 0 else S (sizes_that_fit max_size l)
  | [] => 0
  end.

(** With a zeroed buffer.  The loop leaves [i] at the first size that is too
    large; with none before it, [ihash_sizes[i - 1]] is outside of the array. *)
Definition hurd_ihash_init_with_buffer (lrg : bool) (locp_offs bytes : Z) : exec hurd_ihash :=
  let max_size := i32 (bytes / ITEM_SIZE lrg) in
  let fits := sizes_that_fit max_size ihash_sizes in
  sz ← access (if bool_decide (fits = 0%nat) then None else ihash_sizes !! (fits - 1)%nat);
  let ht := hurd_ihash_init_internal lrg locp_offs in
  Ret (mk_ihash (nr_items ht) lrg (replicate (Z.to_nat (u32 sz)) (mk_item 0 0)) (u32 sz) locp_offs
         (max_load ht) (cleanup ht) (cleaned ht) (locps ht)).

Definition hurd_ihash_set_cleanup (ht : hurd_ihash) (c : bool) : hurd_ihash :=
  mk_ihash (nr_items ht) (large ht) (items ht) (size ht) (locp_offset ht) (max_load ht) c
           (cleaned ht) (locps ht).

Definition hurd_ihash_set_max_load (ht : hurd_ihash) (m : Z) : hurd_ihash :=
  mk_ihash (nr_items ht) (large ht) (items ht) (size ht) (locp_offset ht) m (cleanup ht)
           (cleaned ht) (locps ht).

(** [hurd_ihash_destroy]: the cleanup function is called for every value. *)
Definition hurd_ihash_iterate (ht : hurd_ihash) : list Z :=
  filter (fun v => ~ (v = IHASH_EMPTY \/ v = IHASH_DELETED)) (map value (items ht)).

Definition hurd_ihash_destroy (ht : hurd_ihash) : list Z :=
  if cleanup ht then cleaned ht ++ hurd_ihash_iterate ht else cleaned ht.

(** ** The probe sequence *)

(** Round [j] tries the slots [j * j] above and below the first one. *)
Fixpoint rounds (sz h j : Z) (n : nat) : list Z :=
  match n with
  | O => []
  | S n => (h + j * j) mod sz :: (h - j * j) mod sz :: rounds sz h (j + 1) n
  end.

Definition half (sz : Z) : Z := (sz - 1) / 2.
Definition probes (sz h : Z) : list Z := h :: rounds sz h 1 (Z.to_nat (half sz)).

(** An odd size whose double fits the index type. *)
Definition size_ok (sz : Z) : Prop := 3 <= sz < 2 ^ 31 /\ sz mod 2 = 1.

Lemma half_spec sz : size_ok sz -> sz = 2 * half sz + 1 /\ 1 <= half sz.
Proof.
  intros [Hs Ho]. unfold half. pose proof (Z.div_mod sz 2 ltac:(lia)) as E. rewrite Ho in E.
  replace (sz - 1) with (sz / 2 * 2) by lia. rewrite Z.div_mul by lia. lia.
Qed.

Lemma step_up_eq sz h j :
  size_ok sz -> 1 <= j <= half sz ->
  step_up ((h + (j - 1) * (j - 1)) mod sz) (2 * j - 1) sz = (h + j * j) mod sz.
Proof.
  intros Hs Hj. destruct (half_spec sz Hs) as [E _]. destruct Hs as [Hs _].
  unfold step_up. pose proof (Z.mod_pos_bound (h + (j - 1) * (j - 1)) sz ltac:(lia)).
  rewrite u32_small by lia. rewrite Z.add_mod_idemp_l by lia. f_equal. lia.
Qed.

Lemma step_down_eq sz h j :
  size_ok sz -> 1 <= j <= half sz ->
  step_down ((h - (j - 1) * (j - 1)) mod sz) (2 * j - 1) sz = (h - j * j) mod sz.
Proof.
  intros Hs Hj. destruct (half_spec sz Hs) as [E _]. destruct Hs as [Hs _].
  unfold step_down. pose proof (Z.mod_pos_bound (h - (j - 1) * (j - 1)) sz ltac:(lia)).
  set (d := (h - (j - 1) * (j - 1)) mod sz) in *.
  assert ((d - (2 * j - 1)) mod sz = (h - j * j) mod sz) as <-.
  { unfold d. rewrite Zminus_mod_idemp_l. f_equal. lia. }
  case_if.
  - rewrite (u32_small (d + sz)), u32_small by lia.
    replace (d + sz - (2 * j - 1)) with (d - (2 * j - 1) + 1 * sz) by lia. apply Z.mod_add. lia.
  - by rewrite u32_small by lia.
Qed.

Lemma step_i_eq sz j :
  size_ok sz -> 1 <= j <= half sz ->
  u32 (2 * j - 1 + 2) mod sz = if j =? half sz then 0 else 2 * (j + 1) - 1.
Proof.
  intros Hs Hj. destruct (half_spec sz Hs) as [E _]. destruct Hs as [Hs _].
  rewrite u32_small by lia. case_if.
  - replace (2 * j - 1 + 2) with (1 * sz) by lia. apply Z.mod_mul. lia.
  - rewrite Z.mod_small; lia.
Qed.

(** ** Tables *)

Definition live (it : item) : Prop := value it <> IHASH_EMPTY /\ value it <> IHASH_DELETED.

#[export] Instance live_dec it : Decision (live it).
Proof. unfold live. apply _. Defined.

(** Does the search for [k] stop at slot [p]? *)
Definition stops (l : list item) (k p : Z) : bool :=
  match l !! Z.to_nat p with
  | Some it => (value it =? IHASH_EMPTY) || (key it =? k)
  | None => false
  end.

Record table_ok (ht : hurd_ihash) : Prop := {
  to_size : size_ok (size ht);
  to_items : length (items ht) = Z.to_nat (size ht)
}.

Lemma ITEM_Ret ht p it : items ht !! Z.to_nat p = Some it -> ITEM ht p = Ret it.
Proof. intros H. unfold ITEM. by rewrite H. Qed.

Lemma slot_exists ht p : table_ok ht -> 0 <= p < size ht -> exists it, items ht !! Z.to_nat p = Some it.
Proof. intros [Hs Hl] Hp. apply lookup_lt_is_Some_2. rewrite Hl. lia. Qed.

Lemma stop_at_Ret ht p k : table_ok ht -> 0 <= p < size ht -> stop_at ht p k = Ret (stops (items ht) k p).
Proof.
  intros Ht Hp. destruct (slot_exists ht p Ht Hp) as [it Hit].
  unfold stop_at, VALUE, KEY, stops. rewrite (ITEM_Ret _ _ _ Hit), Hit. cbn [mbind exec_bind].
  by destruct (value it =? IHASH_EMPTY).
Qed.

Lemma mod_range a sz : size_ok sz -> 0 <= a mod sz < sz.
Proof. intros [? _]. apply Z.mod_pos_bound. lia. Qed.

#[local] Hint Resolve to_size mod_range : hurd.

Lemma rounds_range sz h j n p : size_ok sz -> p ∈ rounds sz h j n -> 0 <= p < sz.
Proof.
  intros Hs. revert j. induction n as [|n IH]; intros j; cbn; [by intros H%elem_of_nil|].
  intros [->|[->|H]%elem_of_cons]%elem_of_cons; eauto with hurd.
Qed.

Lemma probes_range sz h p : size_ok sz -> 0 <= h < sz -> p ∈ probes sz h -> 0 <= p < sz.
Proof. intros Hs Hh [->|H]%elem_of_cons; [done|by eapply rounds_range]. Qed.

Lemma find_loop_spec ht k idx fuel j n :
  table_ok ht -> 1 <= j -> j + Z.of_nat n = half (size ht) + 1 -> (0 < n <= fuel)%nat ->
  find_loop fuel ht k idx (2 * j - 1) ((idx + (j - 1) * (j - 1)) mod size ht)
    ((idx - (j - 1) * (j - 1)) mod size ht)
  = Ret (default idx (List.find (stops (items ht) k) (rounds (size ht) idx j n))).
Proof.
  intros Ht Hj. pose proof (to_size _ Ht) as Hs. revert j n Hj.
  induction fuel as [|fuel IH]; intros j n Hj Hn Hf; [lia|].
  destruct n as [|n]; [lia|]. cbn [find_loop rounds List.find].
  rewrite step_up_eq, step_down_eq by (try done; lia).
  rewrite (stop_at_Ret ht ((idx + j * j) mod size ht) k) by eauto with hurd. cbn [mbind exec_bind].
  destruct (stops _ _ ((idx + j * j) mod size ht)); [done|].
  rewrite (stop_at_Ret ht ((idx - j * j) mod size ht) k) by eauto with hurd. cbn [mbind exec_bind].
  destruct (stops _ _ ((idx - j * j) mod size ht)); [done|].
  rewrite step_i_eq by (try done; lia). destruct (Z.eqb_spec j (half (size ht))).
  - assert (n = 0%nat) as -> by lia. done.
  - replace (2 * (j + 1) - 1 =? 0) with false by (symmetry; apply Z.eqb_neq; lia).
    specialize (IH (j + 1) n ltac:(lia) ltac:(lia) ltac:(lia)).
    by replace (j + 1 - 1) with j in IH by lia.
Qed.

(** The search goes along the probe sequence, and ends at the first slot when
    it does not stop anywhere. *)
Lemma find_index_spec ht k fuel :
  table_ok ht -> half (size ht) <= Z.of_nat fuel ->
  find_index fuel ht k =
  Ret (default (k mod size ht) (List.find (stops (items ht) k) (probes (size ht) (k mod size ht)))).
Proof.
  intros Ht Hf. pose proof (to_size _ Ht) as Hs. destruct (half_spec _ Hs) as [_ Hh].
  unfold find_index, probes. cbn [List.find].
  rewrite stop_at_Ret by eauto with hurd. cbn [mbind exec_bind].
  destruct (stops _ _ _); [done|].
  pose proof (find_loop_spec ht k (k mod size ht) fuel 1 (Z.to_nat (half (size ht))) Ht
                ltac:(lia) ltac:(lia) ltac:(lia)) as H.
  cbn [Z.sub Z.mul Z.add Z.opp Z.pos_sub] in H. rewrite Z.add_0_r, Z.sub_0_r, Z.mod_mod in H
    by (destruct Hs; lia). exact H.
Qed.

(** ** The abstract map *)

Definition live_items (l : list item) : list item := filter live l.

Definition ihash_map (ht : hurd_ihash) : gmap Z Z :=
  list_to_map (map (fun it => (key it, value it)) (live_items (items ht))).

(** The slot where the search for [k] stops. *)
Definition first_stop (ht : hurd_ihash) (k : Z) : option Z :=
  List.find (stops (items ht) k) (probes (size ht) (k mod size ht)).

(** Keys that the items can hold. *)
Definition key_ok (ht : hurd_ihash) (k : Z) : Prop :=
  0 <= k < 2 ^ 64 /\ (large ht = false -> k < 2 ^ 32).

(** The invariant: the search for the key of a live item ends at that item,
    and the items are counted. *)
Record ihash_ok (ht : hurd_ihash) : Prop := {
  io_table : table_ok ht;
  io_first : forall p it, items ht !! p = Some it -> live it ->
    first_stop ht (key it) = Some (Z.of_nat p);
  io_count : nr_items ht = Z.of_nat (length (live_items (items ht)))
}.

Lemma live_unique ht p1 p2 it1 it2 :
  ihash_ok ht -> items ht !! p1 = Some it1 -> items ht !! p2 = Some it2 -> live it1 -> live it2 ->
  key it1 = key it2 -> p1 = p2.
Proof.
  intros Hok H1 H2 L1 L2 E. pose proof (io_first _ Hok _ _ H1 L1) as F1.
  pose proof (io_first _ Hok _ _ H2 L2) as F2. rewrite E, F2 in F1. injection F1 as F1. lia.
Qed.

Lemma NoDup_live_keys (l : list item) :
  (forall p1 p2 it1 it2, l !! p1 = Some it1 -> l !! p2 = Some it2 -> live it1 -> live it2 ->
     key it1 = key it2 -> p1 = p2) ->
  NoDup (map key (live_items l)).
Proof.
  induction l as [|it l IH]; intros Hu; [constructor|].
  assert (NoDup (map key (live_items l))) as Hnd.
  { apply IH. intros p1 p2 it1 it2 H1 H2 L1 L2 E.
    specialize (Hu (S p1) (S p2) it1 it2 H1 H2 L1 L2 E). lia. }
  unfold live_items in *. rewrite filter_cons. destruct (decide (live it)) as [L|]; [|done].
  cbn. constructor; [|done]. intros (it' & E & Hin)%list_elem_of_fmap.
  apply list_elem_of_filter in Hin as [L' [p Hp]%list_elem_of_lookup_1].
  by specialize (Hu 0%nat (S p) it it' eq_refl Hp L L' E).
Qed.

Lemma ihash_map_lookup ht k v :
  ihash_ok ht ->
  ihash_map ht !! k = Some v <-> exists p, items ht !! p = Some (mk_item v k) /\ live (mk_item v k).
Proof.
  intros Hok. unfold ihash_map. rewrite <- elem_of_list_to_map.
  - rewrite list_elem_of_fmap. split.
    + intros ([v' k'] & [= <- <-] & [L [p Hp]%list_elem_of_lookup_1]%list_elem_of_filter). by exists p.
    + intros (p & Hp & L). exists (mk_item v k). split; [done|].
      apply list_elem_of_filter. split; [done|]. by eapply list_elem_of_lookup_2.
  - change (map (fun it => (key it, value it)) (live_items (items ht)))
      with ((fun it => (key it, value it)) <$> live_items (items ht)).
    rewrite <- list_fmap_compose. apply (NoDup_live_keys (items ht)). intros ????. by apply live_unique.
Qed.

Lemma ihash_map_None ht k :
  ihash_ok ht -> ihash_map ht !! k = None <-> forall p it, items ht !! p = Some it -> live it -> key it <> k.
Proof.
  intros Hok. split.
  - intros Hn p [v k'] Hp L E. cbn in E. subst k'.
    assert (ihash_map ht !! k = Some v) as H by (apply ihash_map_lookup; eauto). congruence.
  - intros Hno. destruct (ihash_map ht !! k) as [v|] eqn:E; [|done].
    apply ihash_map_lookup in E as (p & Hp & L); [|done]. by destruct (Hno _ _ Hp L).
Qed.

Lemma index_empty_Ret ht p it :
  items ht !! Z.to_nat p = Some it -> index_empty ht p = Ret (negb (bool_decide (live it))).
Proof.
  intros H. unfold index_empty, VALUE. rewrite (ITEM_Ret _ _ _ H). cbn. f_equal.
  unfold live. destruct (Z.eqb_spec (value it) IHASH_EMPTY), (Z.eqb_spec (value it) IHASH_DELETED); cbn;
    [rewrite bool_decide_eq_false_2 by tauto..|rewrite bool_decide_eq_true_2 by tauto]; done.
Qed.

Lemma index_valid_Ret ht p it k :
  items ht !! Z.to_nat p = Some it -> index_valid ht p k = Ret (bool_decide (live it) && (key it =? k)).
Proof.
  intros H. unfold index_valid. rewrite (index_empty_Ret _ _ _ H). cbn.
  destruct (bool_decide (live it)); cbn; [|done]. unfold KEY. by rewrite (ITEM_Ret _ _ _ H).
Qed.

(** What a search finds: the live item of the key, or a slot that is not one. *)
Lemma find_index_valid ht k fuel :
  ihash_ok ht -> half (size ht) <= Z.of_nat fuel ->
  exists p it, find_index fuel ht k = Ret p /\ 0 <= p < size ht /\ items ht !! Z.to_nat p = Some it /\
    (bool_decide (live it) && (key it =? k)) = bool_decide (is_Some (ihash_map ht !! k)) /\
    (forall v, ihash_map ht !! k = Some v -> it = mk_item v k /\ live it).
Proof.
  intros Hok Hf. pose proof (io_table _ Hok) as Ht. pose proof (to_size _ Ht) as Hs.
  pose proof (mod_range k _ Hs) as Hk.
  set (p := default (k mod size ht) (first_stop ht k)).
  assert (0 <= p < size ht) as Hp.
  { unfold p. destruct (first_stop ht k) as [q|] eqn:E; [|done]. cbn.
    apply find_some in E as [E _]. apply list_elem_of_In in E. by eapply probes_range. }
  destruct (slot_exists ht p Ht Hp) as [it Hit]. exists p, it.
  split; [by apply find_index_spec|]. split; [done|]. split; [done|].
  assert (forall v, ihash_map ht !! k = Some v -> it = mk_item v k /\ live it) as Hsome.
  { intros v (q & Hq & L)%ihash_map_lookup; [|done]. pose proof (io_first _ Hok _ _ Hq L) as E. cbn [key] in E.
    unfold p in Hit. rewrite E in Hit. cbn in Hit. rewrite Nat2Z.id, Hq in Hit. by injection Hit as <-. }
  split; [|done]. destruct (ihash_map ht !! k) as [v|] eqn:E.
  - destruct (Hsome v eq_refl) as [-> L]. rewrite (bool_decide_eq_true_2 _ L). cbn.
    by rewrite Z.eqb_refl.
  - rewrite (bool_decide_eq_false_2 (is_Some None)) by (by intros []).
    destruct (bool_decide (live it)) eqn:L; [|done]. apply bool_decide_eq_true in L. cbn.
    apply Z.eqb_neq. by apply (proj1 (ihash_map_None _ _ Hok) E _ _ Hit).
Qed.

(** ** Updating a slot *)

Lemma live_items_insert (l : list item) p it it' :
  l !! p = Some it ->
  Z.of_nat (length (live_items (<[p := it']> l))) =
  Z.of_nat (length (live_items l)) - Z.b2z (bool_decide (live it)) + Z.b2z (bool_decide (live it')).
Proof.
  intros H. unfold live_items. rewrite (insert_take_drop l p it') by (by eapply lookup_lt_Some).
  rewrite <- (take_drop_middle l p it H) at 3.
  rewrite !filter_app, !filter_cons, !length_app.
  destruct (decide (live it)) as [L|L], (decide (live it')) as [L'|L'];
    rewrite ?(bool_decide_eq_true_2 _ L), ?(bool_decide_eq_false_2 _ L),
            ?(bool_decide_eq_true_2 _ L'), ?(bool_decide_eq_false_2 _ L'); cbn; lia.
Qed.

Lemma not_live_deleted k : ~ live (mk_item IHASH_DELETED k).
Proof. by intros [_ H]. Qed.

Lemma stops_insert_ne l p it k q :
  0 <= q -> Z.to_nat q <> p -> stops (<[p := it]> l) k q = stops l k q.
Proof. intros Hq Hne. unfold stops. by rewrite list_lookup_insert_ne by congruence. Qed.

Lemma stops_insert_eq l p it k q :
  (p < length l)%nat -> Z.to_nat q = p ->
  stops (<[p := it]> l) k q = (value it =? IHASH_EMPTY) || (key it =? k).
Proof. intros Hp <-. unfold stops. by rewrite list_lookup_insert_eq. Qed.

(** Marking a slot deleted changes no search. *)
Lemma stops_kill l p it k q :
  l !! p = Some it -> live it -> 0 <= q ->
  stops (<[p := mk_item IHASH_DELETED (key it)]> l) k q = stops l k q.
Proof.
  intros Hp [L _] Hq. destruct (decide (Z.to_nat q = p)) as [E|E]; [|by apply stops_insert_ne].
  rewrite stops_insert_eq by (try done; by eapply lookup_lt_Some).
  unfold stops. rewrite E, Hp. by rewrite (proj2 (Z.eqb_neq _ _) L).
Qed.

Lemma find_ext_in {A} (f g : A -> bool) l : (forall x, x ∈ l -> f x = g x) -> List.find f l = List.find g l.
Proof.
  induction l as [|x l IH]; intros H; [done|]. cbn. rewrite (H x) by left.
  destruct (g x); [done|]. apply IH. intros y Hy. apply H. by right.
Qed.

Lemma find_prefix (g : Z -> bool) l1 f l2 :
  g f = true -> (forall x, x ∈ l1 -> g x = true -> x = f) -> List.find g (l1 ++ f :: l2) = Some f.
Proof.
  intros Hf. induction l1 as [|x l1 IH]; cbn; intros H; [by rewrite Hf|].
  destruct (g x) eqn:E; [f_equal; apply (H x); [by left|done]|].
  apply IH. intros y Hy. apply H. by right.
Qed.

Lemma find_preserved (g g' : Z -> bool) l q :
  List.find g l = Some q -> g' q = true -> (forall x, x ∈ l -> g x = false -> g' x = false) ->
  List.find g' l = Some q.
Proof.
  induction l as [|x l IH]; cbn; [done|]. intros Hq Hg' H. destruct (g x) eqn:E.
  - injection Hq as ->. by rewrite Hg'.
  - rewrite (H x) by (by left || done). apply IH; try done. intros y Hy. apply H. by right.
Qed.

(** The table after [ht] in which only the items and their count differ. *)
Definition same_table (ht ht' : hurd_ihash) : Prop :=
  size ht' = size ht /\ large ht' = large ht /\ locp_offset ht' = locp_offset ht /\
  max_load ht' = max_load ht /\ cleanup ht' = cleanup ht.

Lemma kill_ok ht ht' p it :
  ihash_ok ht -> items ht !! p = Some it -> live it -> same_table ht ht' ->
  items ht' = <[p := mk_item IHASH_DELETED (key it)]> (items ht) -> nr_items ht' = nr_items ht - 1 ->
  ihash_ok ht' /\ ihash_map ht' = delete (key it) (ihash_map ht) /\
  (forall k q, 0 <= q -> stops (items ht') k q = stops (items ht) k q).
Proof.
  intros Hok Hp L (Es & _) Ei En. pose proof (io_table _ Hok) as [Hs Hl].
  assert (forall k q, 0 <= q -> stops (items ht') k q = stops (items ht) k q) as Hst
    by (intros k q Hq; rewrite Ei; by apply stops_kill).
  assert (ihash_ok ht') as Hok'.
  { constructor.
    - constructor; rewrite Es; [done|]. by rewrite Ei, length_insert.
    - intros q it' Hq L'. unfold first_stop. rewrite Es.
      rewrite (find_ext_in _ (stops (items ht) (key it'))).
      2: { intros x Hx. apply Hst. pose proof (probes_range _ _ _ Hs (mod_range (key it') _ Hs) Hx). lia. }
      apply (io_first _ Hok); [|done]. rewrite Ei in Hq. destruct (decide (q = p)) as [->|Hne].
      + rewrite list_lookup_insert_eq in Hq by (by eapply lookup_lt_Some). injection Hq as <-.
        by destruct (not_live_deleted (key it)).
      + by rewrite list_lookup_insert_ne in Hq.
    - rewrite En, (io_count _ Hok), Ei, (live_items_insert _ _ _ _ Hp).
      rewrite (bool_decide_eq_true_2 _ L), (bool_decide_eq_false_2 _ (not_live_deleted _)). cbn. lia. }
  split; [done|]. split; [|done]. apply map_eq. intros k. apply option_eq. intros v.
  rewrite lookup_delete_Some, !ihash_map_lookup by done. rewrite Ei. split.
  - intros (q & Hq & Lq). destruct (decide (q = p)) as [->|Hne].
    + rewrite list_lookup_insert_eq in Hq by (by eapply lookup_lt_Some). injection Hq as <- <-.
      by destruct (not_live_deleted (key it)).
    + rewrite list_lookup_insert_ne in Hq by done. split; [|by exists q].
      intros E. apply Hne. by apply (live_unique ht q p (mk_item v k) it).
  - intros (Hne & q & Hq & Lq). exists q. split; [|done]. rewrite list_lookup_insert_ne; [done|].
    intros ->. rewrite Hp in Hq. injection Hq as ->. done.
Qed.

(** The slot that [replace_one] fills: before it in the probe sequence of [k]
    the search does not stop. *)
Definition fill_point (ht : hurd_ihash) (k f : Z) : Prop :=
  exists l1 l2, probes (size ht) (k mod size ht) = l1 ++ f :: l2 /\
    forall x, x ∈ l1 -> stops (items ht) k x = false.

Lemma fill_ok ht ht' f it k v :
  ihash_ok ht -> fill_point ht k f -> items ht !! Z.to_nat f = Some it -> ~ live it ->
  ihash_map ht !! k = None -> live (mk_item v k) -> same_table ht ht' ->
  items ht' = <[Z.to_nat f := mk_item v k]> (items ht) -> nr_items ht' = nr_items ht + 1 ->
  ihash_ok ht' /\ ihash_map ht' = <[k := v]> (ihash_map ht).
Proof.
  intros Hok (l1 & l2 & Hpr & Hl1) Hf Lf Hk L (Es & _) Ei En. pose proof (io_table _ Hok) as [Hs Hl].
  assert (0 <= f) as Hf0.
  { eapply probes_range; [exact Hs|apply (mod_range k _ Hs)|]. rewrite Hpr. set_solver. }
  pose proof (lookup_lt_Some _ _ _ Hf) as Hlt.
  assert (ihash_ok ht') as Hok'.
  { constructor.
    - constructor; rewrite Es; [done|]. by rewrite Ei, length_insert.
    - intros q it' Hq L'. unfold first_stop. rewrite Es, Ei in *.
      destruct (decide (q = Z.to_nat f)) as [->|Hne].
      + rewrite list_lookup_insert_eq in Hq by done. injection Hq as <-. cbn [key].
        rewrite Z2Nat.id, Hpr by done. apply find_prefix.
        * rewrite stops_insert_eq by done. cbn. by rewrite Z.eqb_refl, orb_true_r.
        * intros x Hx Hst. assert (0 <= x) by (apply (probes_range (size ht) (k mod size ht) x Hs);
            [by apply mod_range|rewrite Hpr; set_solver]).
          destruct (decide (Z.to_nat x = Z.to_nat f)); [lia|].
          by rewrite stops_insert_ne, (Hl1 x Hx) in Hst by done.
      + rewrite list_lookup_insert_ne in Hq by done. pose proof (io_first _ Hok _ _ Hq L') as F.
        assert (key it' <> k) as Hkk by (by apply (proj1 (ihash_map_None _ _ Hok) Hk _ _ Hq L')).
        eapply find_preserved; [exact F| |].
        * rewrite stops_insert_ne by (try lia; rewrite Nat2Z.id; done).
          by apply find_some in F as [_ F].
        * intros x Hx Hst. assert (0 <= x) by (apply (probes_range (size ht) (key it' mod size ht) x Hs);
            [by apply mod_range|done]).
          destruct (decide (Z.to_nat x = Z.to_nat f)) as [E|E].
          -- rewrite stops_insert_eq by done. cbn. destruct L as [Lv _]. cbn in Lv.
             rewrite (proj2 (Z.eqb_neq _ _) Lv). apply Z.eqb_neq. congruence.
          -- by rewrite stops_insert_ne.
    - rewrite En, (io_count _ Hok), Ei, (live_items_insert _ _ _ _ Hf).
      rewrite (bool_decide_eq_true_2 _ L), (bool_decide_eq_false_2 _ Lf). cbn. lia. }
  split; [done|]. apply map_eq. intros k'. apply option_eq. intros v'.
  rewrite lookup_insert_Some, !ihash_map_lookup by done. rewrite Ei. split.
  - intros (q & Hq & Lq). destruct (decide (q = Z.to_nat f)) as [->|Hne].
    + rewrite list_lookup_insert_eq in Hq by done. injection Hq as <- <-. by left.
    + rewrite list_lookup_insert_ne in Hq by done. right. split; [|by exists q].
      intros ->. by apply (proj1 (ihash_map_None _ _ Hok) Hk _ _ Hq Lq).
  - intros [[<- <-]|(Hne & q & Hq & Lq)].
    + exists (Z.to_nat f). split; [|done]. by rewrite list_lookup_insert_eq.
    + exists q. split; [|done]. rewrite list_lookup_insert_ne; [done|]. intros <-.
      rewrite Hf in Hq. injection Hq as ->. done.
Qed.

(** ** [replace_one] *)

Definition deleted_at (l : list item) (p : Z) : bool :=
  match l !! Z.to_nat p with Some it => value it =? IHASH_DELETED | None => false end.

Lemma VALUE_Ret ht p : table_ok ht -> 0 <= p < size ht -> exists v, VALUE ht p = Ret v /\
  deleted_at (items ht) p = (v =? IHASH_DELETED).
Proof.
  intros Ht Hp. destruct (slot_exists ht p Ht Hp) as [it Hit]. exists (value it).
  unfold VALUE, deleted_at. by rewrite (ITEM_Ret _ _ _ Hit), Hit.
Qed.

(** What the loop has found after the probes [ps]: the slot it remembers is
    one it started with or a deleted one it has passed, and when it neither
    stops nor remembers one, there is no deleted one. *)
Definition scan_result (l : list item) (k idx ff ff' : Z) (ps : list Z) : Prop :=
  (ff' = ff \/ exists l1 l2, ps = l1 ++ ff' :: l2 /\ (forall x, x ∈ l1 -> stops l k x = false) /\
     deleted_at l ff' = true /\ stops l k ff' = false) /\
  (ff <> idx -> ff' = ff) /\
  (List.find (stops l k) ps = None -> ff' = idx ->
     forall x, x ∈ ps -> x <> idx -> deleted_at l x = false).

Lemma scan_result_nil l k idx ff : scan_result l k idx ff ff [].
Proof. split; [by left|]. split; [done|]. intros _ _ x H. by apply elem_of_nil in H. Qed.

Lemma scan_result_stop l k idx ff x ps : stops l k x = true -> scan_result l k idx ff ff (x :: ps).
Proof. intros H. split; [by left|]. split; [done|]. cbn. by rewrite H. Qed.

Lemma scan_result_cons l k idx ff ff' x ps :
  stops l k x = false ->
  scan_result l k idx (if (ff =? idx) && deleted_at l x then x else ff) ff' ps ->
  scan_result l k idx ff ff' (x :: ps).
Proof.
  intros Hx (H1 & H2 & H3). split; [|split].
  - destruct H1 as [->|(l1 & l2 & -> & Hl1 & Hd & Hst)].
    + case_if; [|by left]. right. exists [], ps. split; [done|]. split; [|done].
      intros y Hy. by apply elem_of_nil in Hy.
    + right. exists (x :: l1), l2. split; [done|]. split; [|done].
      intros y [->|Hy]%elem_of_cons; [done|by apply Hl1].
  - intros Hne. rewrite (proj2 (Z.eqb_neq _ _) Hne) in H2. by apply H2.
  - cbn. rewrite Hx. intros Hf E y [->|Hy]%elem_of_cons Hne; [|by apply H3].
    destruct (deleted_at l x); [|done]. rewrite andb_true_r in H2.
    destruct (Z.eqb_spec ff idx); [rewrite H2 in E by done; congruence|].
    rewrite H2 in E by done. congruence.
Qed.

Lemma replace_loop_spec ht k idx fuel ff j n :
  table_ok ht -> 1 <= j -> j + Z.of_nat n = half (size ht) + 1 -> (0 < n <= fuel)%nat ->
  exists ff', replace_loop fuel ht k idx ff (2 * j - 1) ((idx + (j - 1) * (j - 1)) mod size ht)
    ((idx - (j - 1) * (j - 1)) mod size ht)
  = Ret (default idx (List.find (stops (items ht) k) (rounds (size ht) idx j n)), ff') /\
  scan_result (items ht) k idx ff ff' (rounds (size ht) idx j n).
Proof.
  intros Ht. pose proof (to_size _ Ht) as Hs. revert ff j n.
  induction fuel as [|fuel IH]; intros ff j n Hj Hn Hf; [lia|].
  destruct n as [|n]; [lia|]. cbn [replace_loop rounds List.find].
  rewrite step_up_eq, step_down_eq by (try done; lia).
  set (up := (idx + j * j) mod size ht). set (down := (idx - j * j) mod size ht).
  assert (0 <= up < size ht) as Hup by by apply mod_range.
  assert (0 <= down < size ht) as Hdown by by apply mod_range.
  rewrite (Z.mod_small down) by done.
  rewrite (stop_at_Ret ht up k) by done. cbn [mbind exec_bind].
  destruct (stops _ _ up) eqn:Su; [exists ff; split; [done|by apply scan_result_stop]|].
  destruct (VALUE_Ret ht up Ht Hup) as (vu & -> & Eu). cbn [mbind exec_bind]. rewrite <- Eu.
  set (ff1 := if (ff =? idx) && deleted_at (items ht) up then up else ff).
  rewrite (stop_at_Ret ht down k) by done. cbn [mbind exec_bind].
  destruct (stops _ _ down) eqn:Sd.
  { exists ff1. split; [done|]. apply scan_result_cons; [done|]. by apply scan_result_stop. }
  destruct (VALUE_Ret ht down Ht Hdown) as (vd & -> & Ed). cbn [mbind exec_bind]. rewrite <- Ed.
  set (ff2 := if (ff1 =? idx) && deleted_at (items ht) down then down else ff1).
  rewrite step_i_eq by (try done; lia). destruct (Z.eqb_spec j (half (size ht))).
  - assert (n = 0%nat) as -> by lia. exists ff2. split; [done|].
    apply scan_result_cons; [done|]. apply scan_result_cons; [done|]. apply scan_result_nil.
  - replace (2 * (j + 1) - 1 =? 0) with false by (symmetry; apply Z.eqb_neq; lia).
    destruct (IH ff2 (j + 1) n ltac:(lia) ltac:(lia) ltac:(lia)) as (ff' & E & H).
    replace (j + 1 - 1) with j in E by lia. exists ff'. split; [exact E|].
    apply scan_result_cons; [done|]. by apply scan_result_cons.
Qed.

Lemma find_split (g : Z -> bool) l x :
  List.find g l = Some x -> exists l1 l2, l = l1 ++ x :: l2 /\ (forall y, y ∈ l1 -> g y = false) /\ g x = true.
Proof.
  induction l as [|y l IH]; cbn; [done|]. destruct (g y) eqn:E.
  - intros [= ->]. exists [], l. repeat split; try done. intros z Hz. by apply elem_of_nil in Hz.
  - intros (l1 & l2 & -> & H1 & H2)%IH. exists (y :: l1), l2. repeat split; try done.
    intros z [->|Hz]%elem_of_cons; [done|by apply H1].
Qed.

Lemma fill_point_home ht k : fill_point ht k (k mod size ht).
Proof. exists [], (rounds (size ht) (k mod size ht) 1 (Z.to_nat (half (size ht)))). split; [done|]. set_solver. Qed.

(** The two candidate slots that the search part of [replace_one] leaves. *)
Lemma scan_spec ht k fuel :
  table_ok ht -> half (size ht) <= Z.of_nat fuel ->
  exists idx ff,
    (s ← stop_at ht (k mod size ht) k;
     if (s : bool) then Ret (k mod size ht, k mod size ht)
     else replace_loop fuel ht k (k mod size ht) (k mod size ht) 1 (k mod size ht) (k mod size ht))
    = Ret (idx, ff) /\
    idx = default (k mod size ht) (first_stop ht k) /\ fill_point ht k idx /\ fill_point ht k ff /\
    (ff = k mod size ht \/ deleted_at (items ht) ff = true) /\
    (first_stop ht k = None -> ff = k mod size ht ->
       forall x, x ∈ probes (size ht) (k mod size ht) -> x <> k mod size ht ->
                 deleted_at (items ht) x = false).
Proof.
  intros Ht Hf. pose proof (to_size _ Ht) as Hs. destruct (half_spec _ Hs) as [_ Hh].
  set (h := k mod size ht). assert (0 <= h < size ht) as Hhr by by apply mod_range.
  rewrite stop_at_Ret by done. cbn [mbind exec_bind]. unfold first_stop. fold h.
  assert (forall o, (o = None \/ o = List.find (stops (items ht) k) (probes (size ht) h)) ->
            fill_point ht k (default h o)) as Hidx.
  { intros o [->|Ho]; [apply fill_point_home|]. destruct o as [x|]; [|apply fill_point_home].
    symmetry in Ho. apply find_split in Ho as (l1 & l2 & E & Hl1 & _). by exists l1, l2. }
  unfold probes in *. cbn [List.find] in *. destruct (stops (items ht) k h) eqn:Sh.
  - exists h, h. split; [done|]. split; [done|]. split; [by apply (Hidx None); left|].
    split; [apply fill_point_home|]. split; [by left|]. done.
  - destruct (replace_loop_spec ht k h fuel h 1 (Z.to_nat (half (size ht))) Ht ltac:(lia) ltac:(lia) ltac:(lia))
      as (ff & E & Hff & _ & Hnone).
    cbn [Z.sub Z.mul Z.add Z.opp Z.pos_sub] in E. rewrite Z.add_0_r, Z.sub_0_r, Z.mod_small in E by done.
    exists (default h (List.find (stops (items ht) k) (rounds (size ht) h 1 (Z.to_nat (half (size ht)))))), ff.
    split; [exact E|]. split; [done|]. split; [apply Hidx; by right|]. split; [|split].
    + destruct Hff as [->|(l1 & l2 & El & Hl1 & _)]; [apply fill_point_home|].
      exists (h :: l1), l2. unfold probes. fold h. rewrite El. split; [done|].
      intros x [->|Hx]%elem_of_cons; [done|by apply Hl1].
    + destruct Hff as [->|(l1 & l2 & El & Hl1 & Hd & _)]; [by left|by right].
    + intros Hn Eff x [->|Hx]%elem_of_cons Hne; [done|]. by apply Hnone.
Qed.

(** Filling the chosen slot. *)
Lemma fill_slot_ok ht f it k v :
  ihash_ok ht -> fill_point ht k f -> items ht !! Z.to_nat f = Some it -> ~ live it ->
  ihash_map ht !! k = None -> key_ok ht k -> live (mk_item v k) ->
  exists ht', fill_slot ht f k v = Ret ht' /\ ihash_ok ht' /\ ihash_map ht' = <[k := v]> (ihash_map ht) /\
    same_table ht ht' /\ cleaned ht' = cleaned ht.
Proof.
  intros Hok Hfp Hit Lit Hk [Hk0 Hk32] L. pose proof (io_table _ Hok) as [[Hs _] Hl].
  unfold fill_slot. change (ITEM (set_nr_items ht (nr_items ht + 1)) f) with (ITEM ht f).
  rewrite (ITEM_Ret _ _ _ Hit). cbn [mbind exec_bind].
  assert (wrap 32 (nr_items ht + 1) = nr_items ht + 1) as En.
  { apply wrap_small. rewrite (io_count _ Hok). pose proof (length_filter live (items ht)) as Hle.
    unfold live_items. lia. }
  assert ((if large ht then k else u32 k) = k) as Ek
    by (destruct (large ht); [done|apply u32_small; specialize (Hk32 eq_refl); lia]).
  eexists. split; [reflexivity|].
  match goal with |- ihash_ok ?t /\ _ => assert (same_table ht t /\ items t = <[Z.to_nat f := mk_item v k]> (items ht) /\
    nr_items t = nr_items ht + 1 /\ cleaned t = cleaned ht) as (H1 & H2 & H3 & H4) end.
  { unfold same_table. cbn [large set_nr_items set_items]. rewrite Ek.
    case_if; cbn; rewrite En; done. }
  destruct (fill_ok ht _ f it k v Hok Hfp Hit Lit Hk L H1 H2 H3). done.
Qed.

(** Removing the live item of a key. *)
Lemma locp_remove_ok ht p it b :
  ihash_ok ht -> items ht !! Z.to_nat p = Some it -> live it ->
  exists ht', locp_remove ht p b = Ret ht' /\ ihash_ok ht' /\
    ihash_map ht' = delete (key it) (ihash_map ht) /\ same_table ht ht' /\
    (forall k q, 0 <= q -> stops (items ht') k q = stops (items ht) k q) /\
    items ht' = <[Z.to_nat p := mk_item IHASH_DELETED (key it)]> (items ht) /\
    cleaned ht' = cleaned ht ++ (if b && cleanup ht then [value it] else []).
Proof.
  intros Hok Hit L. pose proof (io_table _ Hok) as [[Hs _] Hl].
  assert (1 <= nr_items ht <= size ht) as Hn.
  { rewrite (io_count _ Hok). pose proof (length_filter live (items ht)) as Hle.
    pose proof (live_items_insert _ _ _ (mk_item IHASH_DELETED (key it)) Hit) as Hli.
    rewrite (bool_decide_eq_true_2 _ L), (bool_decide_eq_false_2 _ (not_live_deleted _)) in Hli.
    unfold live_items in *. cbn in Hli. lia. }
  unfold locp_remove, VALUE. rewrite (ITEM_Ret _ _ _ Hit). cbn [mbind exec_bind].
  set (ht1 := if b && cleanup ht then _ else ht).
  assert (set_value ht1 p IHASH_DELETED =
    Ret (set_items ht1 (<[Z.to_nat p := mk_item IHASH_DELETED (key it)]> (items ht)))) as ->.
  { unfold set_value, ITEM, ht1. destruct (b && cleanup ht); cbn; by rewrite Hit. }
  cbn [mbind exec_bind].
  assert (wrap 32 (nr_items ht - 1) = nr_items ht - 1) as En by (apply wrap_small; lia).
  eexists. split; [reflexivity|].
  match goal with |- ihash_ok ?t /\ _ => assert (same_table ht t /\
    items t = <[Z.to_nat p := mk_item IHASH_DELETED (key it)]> (items ht) /\
    nr_items t = nr_items ht - 1 /\
    cleaned t = cleaned ht ++ (if b && cleanup ht then [value it] else [])) as (H1 & H2 & H3 & H4) end.
  { unfold same_table, ht1. destruct (b && cleanup ht); cbn; rewrite En, ?app_nil_r; done. }
  destruct (kill_ok ht _ _ it Hok Hit L H1 H2 H3) as (? & ? & ?). done.
Qed.

(** All the slots that a search for the key may look at are taken. *)
Definition probes_full (ht : hurd_ihash) (k : Z) : Prop :=
  forall x, x ∈ probes (size ht) (k mod size ht) -> exists it, items ht !! Z.to_nat x = Some it /\ live it.

Lemma scan_full ht k idx ff :
  ihash_ok ht -> idx = default (k mod size ht) (first_stop ht k) ->
  (ff = k mod size ht \/ deleted_at (items ht) ff = true) ->
  (first_stop ht k = None -> ff = k mod size ht ->
       forall x, x ∈ probes (size ht) (k mod size ht) -> x <> k mod size ht ->
                 deleted_at (items ht) x = false) ->
  ihash_map ht !! k = None ->
  (exists it, items ht !! Z.to_nat idx = Some it /\ live it) ->
  (exists it, items ht !! Z.to_nat ff = Some it /\ live it) -> probes_full ht k.
Proof.
  intros Hok Hidx Hff Hnone Hk (it & Hit & L) (it' & Hit' & L').
  pose proof (io_table _ Hok) as Ht. pose proof (to_size _ Ht) as Hs.
  assert (0 <= k mod size ht < size ht) as Hh by by apply mod_range.
  assert (first_stop ht k = None) as Hfs.
  { destruct (first_stop ht k) as [q|] eqn:E; [|done]. cbn in Hidx. subst q.
    apply find_some in E as [_ E]. unfold stops in E. rewrite Hit in E.
    apply orb_true_iff in E as [E|E]; zbool; [by destruct L|].
    by destruct (proj1 (ihash_map_None _ _ Hok) Hk _ _ Hit L). }
  assert (ff = k mod size ht) as Eff.
  { destruct Hff as [|Hd]; [done|]. unfold deleted_at in Hd. rewrite Hit' in Hd. zbool. by destruct L'. }
  intros x Hx. destruct (decide (x = k mod size ht)) as [->|Hne]; [rewrite Eff in Hit'; by exists it'|].
  specialize (Hnone Hfs Eff x Hx Hne).
  destruct (slot_exists ht x Ht (probes_range _ _ _ Hs Hh Hx)) as [itx Hitx]. exists itx. split; [done|].
  pose proof (find_none _ _ Hfs x (proj1 (list_elem_of_In _ _) Hx)) as Hst.
  unfold stops in Hst. rewrite Hitx in Hst. unfold deleted_at in Hnone. rewrite Hitx in Hnone.
  zbool. by split.
Qed.

(** What [replace_one] does. *)
Definition replaced_ok (ht : hurd_ihash) (k v : Z) (w : bool) (r : replaced) : Prop :=
  had_value r = bool_decide (is_Some (ihash_map ht !! k)) /\ old r = ihash_map ht !! k /\
  if added r then
    ihash_ok (table r) /\ ihash_map (table r) = <[k := v]> (ihash_map ht) /\ same_table ht (table r) /\
    cleaned (table r) = cleaned ht ++
      (if w && cleanup ht then from_option (fun v => [v]) [] (ihash_map ht !! k) else [])
  else table r = ht /\ ihash_map ht !! k = None /\ probes_full ht k.

Lemma fill_point_stops ht ht' k f :
  same_table ht ht' -> table_ok ht -> (forall k q, 0 <= q -> stops (items ht') k q = stops (items ht) k q) ->
  fill_point ht k f -> fill_point ht' k f.
Proof.
  intros (Es & _) [Hs _] Hst (l1 & l2 & E & Hl1). exists l1, l2. rewrite Es. split; [done|].
  intros x Hx. rewrite Hst; [by apply Hl1|].
  eapply probes_range; [exact Hs|apply (mod_range k _ Hs)|]. rewrite E. set_solver.
Qed.

Lemma replace_end_spec ht idx ff k v valid o it itf :
  ihash_ok ht -> fill_point ht k idx -> fill_point ht k ff ->
  items ht !! Z.to_nat idx = Some it -> items ht !! Z.to_nat ff = Some itf ->
  ihash_map ht !! k = None -> key_ok ht k -> live (mk_item v k) ->
  (live it /\ live itf /\ replace_end ht idx ff k v valid o = Ret (mk_replaced false ht valid o)) \/
  exists ht', replace_end ht idx ff k v valid o = Ret (mk_replaced true ht' valid o) /\
    ihash_ok ht' /\ ihash_map ht' = <[k := v]> (ihash_map ht) /\ same_table ht ht' /\ cleaned ht' = cleaned ht.
Proof.
  intros Hok Fi Ff Hit Hitf Hk Hko L. unfold replace_end.
  rewrite (index_empty_Ret _ _ _ Hitf). cbn [mbind exec_bind].
  destruct (bool_decide_reflect (live itf)) as [Lf|Lf]; cbn [negb].
  - rewrite (index_empty_Ret _ _ _ Hit). cbn [mbind exec_bind].
    destruct (bool_decide_reflect (live it)) as [Li|Li]; cbn [negb]; [by left|]. right.
    destruct (fill_slot_ok ht idx it k v Hok Fi Hit Li Hk Hko L) as (ht' & -> & H). by exists ht'.
  - rewrite (index_empty_Ret _ _ _ Hitf). cbn [mbind exec_bind].
    rewrite (bool_decide_eq_false_2 _ Lf). cbn [negb]. right.
    destruct (fill_slot_ok ht ff itf k v Hok Ff Hitf Lf Hk Hko L) as (ht' & -> & H). by exists ht'.
Qed.

Lemma replace_one_spec fuel ht k v w :
  ihash_ok ht -> key_ok ht k -> live (mk_item v k) -> half (size ht) <= Z.of_nat fuel ->
  exists r, replace_one fuel ht k v w = Ret r /\ replaced_ok ht k v w r.
Proof.
  intros Hok Hk L Hf. pose proof (io_table _ Hok) as Ht. pose proof (to_size _ Ht) as Hs.
  assert (0 <= k mod size ht < size ht) as Hh by by apply mod_range.
  destruct (scan_spec ht k fuel Ht Hf) as (idx & ff & E & Hidx & Fi & Ff & Hff & Hnone).
  assert (forall f, fill_point ht k f -> exists it, items ht !! Z.to_nat f = Some it) as Hslot.
  { intros f (l1 & l2 & El & _). apply slot_exists; [done|]. eapply probes_range; [done|exact Hh|].
    rewrite El. set_solver. }
  destruct (find_index_valid ht k fuel Hok Hf) as (p & it & Efi & _ & Hit & Hval & Hmap).
  assert (p = idx) as -> by (rewrite find_index_spec in Efi by done; unfold first_stop in Hidx; congruence).
  destruct (Hslot ff Ff) as [itf Hitf].
  unfold replace_one. rewrite stop_at_Ret in E |- * by done. cbn [mbind exec_bind] in E |- *. rewrite E.
  cbn [mbind exec_bind]. rewrite (index_valid_Ret _ _ _ _ Hit). cbn [mbind exec_bind]. rewrite Hval.
  destruct (ihash_map ht !! k) as [ov|] eqn:Ek.
  - destruct (Hmap ov eq_refl) as [-> Lo]. rewrite (bool_decide_eq_true_2 (is_Some (Some ov))) by done.
    unfold VALUE at 1. rewrite (ITEM_Ret _ _ _ Hit). cbn [mbind exec_bind].
    destruct (locp_remove_ok ht idx _ w Hok Hit Lo) as (ht1 & -> & Hok1 & Hm1 & Hst1 & Hstops1 & Hi1 & Hc1).
    cbn [mbind exec_bind key value] in *.
    assert (key_ok ht1 k) as Hk1 by (destruct Hst1 as (_ & El & _); unfold key_ok; by rewrite El).
    destruct (lookup_lt_is_Some_2 (items ht1) (Z.to_nat ff)) as [itf1 Hitf1];
      [rewrite Hi1, length_insert; by eapply lookup_lt_Some|].
    destruct (replace_end_spec ht1 idx ff k v true (Some ov) (mk_item IHASH_DELETED k) itf1)
      as [(Li & _)|(ht2 & -> & Hok2 & Hm2 & Hst2 & Hc2)]; try done;
      [by apply (fill_point_stops ht)|by apply (fill_point_stops ht)
      |rewrite Hi1; apply list_lookup_insert_eq; by eapply lookup_lt_Some
      |rewrite Hm1; apply lookup_delete_eq|by destruct (not_live_deleted k)|].
    eexists. split; [reflexivity|]. unfold replaced_ok. cbn. rewrite Ek. split; [done|]. split; [done|].
    split; [done|]. split; [by rewrite Hm2, Hm1, insert_delete_eq|].
    split; [|by rewrite Hc2, Hc1]. unfold same_table in *. intuition congruence.
  - rewrite (bool_decide_eq_false_2 (is_Some None)) by (by intros []). cbn [mbind exec_bind].
    destruct (replace_end_spec ht idx ff k v false None it itf)
      as [(Li & Lf & ->)|(ht2 & -> & Hok2 & Hm2 & Hst2 & Hc2)]; try done;
      (eexists; split; [reflexivity|]); unfold replaced_ok; cbn; rewrite Ek;
      (split; [by rewrite bool_decide_eq_false_2 by (by intros [])|]); (split; [done|]).
    + split; [done|]. split; [done|]. eapply scan_full; eauto.
    + split; [done|]. split; [done|]. split; [done|]. by destruct (w && cleanup ht); rewrite ?app_nil_r.
Qed.

(** ** The probe sequence visits every slot *)

Lemma mod_eq_divide a b n : 0 < n -> a mod n = b mod n -> (n | a - b).
Proof.
  intros Hn E. exists (a / n - b / n). rewrite !Z.mod_eq in E by lia. lia.
Qed.

Lemma prime_not_divide p x : Znumtheory.prime p -> 0 < x < p -> ~ (p | x).
Proof. intros Hp Hx [c Hc]. assert (0 < c) by nia. nia. Qed.

Section cover.
Context (sz h : Z) (Hp : Znumtheory.prime sz) (H4 : sz mod 4 = 3) (Hs : sz < 2 ^ 31).

Lemma prime_size_ok : size_ok sz.
Proof.
  destruct Hp as [H1 _]. pose proof (Z.div_mod sz 4 ltac:(lia)) as E. rewrite H4 in E.
  split; [|].
  - assert (0 <= sz / 4) by (apply Z.div_pos; lia). lia.
  - rewrite E. replace (4 * (sz / 4) + 3) with (1 + (2 * (sz / 4) + 1) * 2) by lia.
    by rewrite Z.mod_add.
Qed.

Lemma squares_distinct i j :
  1 <= i <= half sz -> 1 <= j <= half sz -> (sz | i * i - j * j) -> i = j.
Proof.
  intros Hi Hj Hd. destruct (half_spec _ prime_size_ok) as [E _].
  replace (i * i - j * j) with ((i - j) * (i + j)) in Hd by ring.
  apply (Znumtheory.prime_mult _ Hp) in Hd as [Hd|Hd].
  - destruct (Z.lt_trichotomy i j) as [|[|]]; [|done|].
    + apply Z.divide_opp_r in Hd. by apply prime_not_divide in Hd; [|done|lia].
    + by apply prime_not_divide in Hd; [|done|lia].
  - by apply prime_not_divide in Hd; [|done|lia].
Qed.

Lemma squares_sum i j : 1 <= i <= half sz -> 1 <= j <= half sz -> ~ (sz | i * i + j * j).
Proof.
  intros Hi Hj Hd%Quadratic.sum_of_squares; try done; try lia.
  destruct (half_spec _ prime_size_ok) as [E _]. by apply prime_not_divide in Hd; [|done|lia].
Qed.

Lemma elem_of_rounds j n x :
  x ∈ rounds sz h j n <->
  exists i, j <= i < j + Z.of_nat n /\ (x = (h + i * i) mod sz \/ x = (h - i * i) mod sz).
Proof.
  revert j. induction n as [|n IH]; intros j; cbn [rounds].
  - split; [by intros H%elem_of_nil|]. intros (i & Hi & _). lia.
  - rewrite !elem_of_cons, IH. split.
    + intros [->|[->|(i & Hi & H)]].
      * exists j. split; [lia|by left].
      * exists j. split; [lia|by right].
      * exists i. split; [lia|done].
    + intros (i & Hi & H). destruct (decide (i = j)) as [->|]; [tauto|].
      do 2 right. exists i. split; [lia|done].
Qed.

Lemma NoDup_rounds j n : 1 <= j -> j + Z.of_nat n <= half sz + 1 -> NoDup (rounds sz h j n).
Proof.
  pose proof prime_size_ok as [[H3 _] _].
  revert j. induction n as [|n IH]; intros j Hj Hn; cbn [rounds]; [constructor|].
  constructor; [|constructor; [|apply IH; lia]].
  - rewrite elem_of_cons, elem_of_rounds. intros [E|(i & Hi & [E|E])];
      apply mod_eq_divide in E; try lia.
    + replace (h + j * j - (h - j * j)) with (j * j + j * j) in E by ring.
      by apply squares_sum in E; [|lia|lia].
    + replace (h + j * j - (h + i * i)) with (j * j - i * i) in E by ring.
      apply squares_distinct in E; lia.
    + replace (h + j * j - (h - i * i)) with (j * j + i * i) in E by ring.
      by apply squares_sum in E; [|lia|lia].
  - rewrite elem_of_rounds. intros (i & Hi & [E|E]); apply mod_eq_divide in E; try lia.
    + replace (h - j * j - (h + i * i)) with (- (j * j + i * i)) in E by ring.
      apply Z.divide_opp_r in E. rewrite Z.opp_involutive in E. by apply squares_sum in E; [|lia|lia].
    + replace (h - j * j - (h - i * i)) with (i * i - j * j) in E by ring.
      apply squares_distinct in E; lia.
Qed.

Lemma probes_cover p : 0 <= h < sz -> 0 <= p < sz -> p ∈ probes sz h.
Proof.
  intros Hh Hpr. pose proof prime_size_ok as Hok. destruct (half_spec _ Hok) as [E Hhalf].
  assert (length (rounds sz h 1 (Z.to_nat (half sz))) = (2 * Z.to_nat (half sz))%nat) as Hlen.
  { generalize (Z.to_nat (half sz)), 1. intros n. induction n as [|n IH]; intros j; cbn; [done|]. rewrite IH. lia. }
  assert (NoDup (probes sz h)) as Hnd.
  { unfold probes. constructor; [|apply NoDup_rounds; lia]. rewrite elem_of_rounds.
    intros (i & Hi & E'). assert (sz | i * i) as Hd.
    { destruct E' as [E'|E']; rewrite <- (Z.mod_small h sz Hh) in E' at 1;
        apply mod_eq_divide in E'; try lia.
      - replace (h - (h + i * i)) with (- (i * i)) in E' by ring. by apply Z.divide_opp_r.
      - by replace (h - (h - i * i)) with (i * i) in E' by ring. }
    apply (Znumtheory.prime_mult _ Hp) in Hd as [Hd|Hd];
      (by apply prime_not_divide in Hd; [|done|lia]). }
  assert (probes sz h ⊆+ seqZ 0 sz) as Hsub.
  { apply NoDup_submseteq; [done|]. intros x Hx%probes_range; [|done|done]. apply elem_of_seqZ. lia. }
  apply submseteq_length_Permutation in Hsub.
  - rewrite Hsub. apply elem_of_seqZ. lia.
  - unfold probes. cbn. rewrite length_seqZ, Hlen. lia.
Qed.
End cover.

(** ** The sizes in the table are such primes *)

Fixpoint no_divisor (fuel : nat) (d p : Z) : bool :=
  match fuel with
  | O => false
  | S fuel => if p <? d * d then true
              else if p mod d =? 0 then false else no_divisor fuel (d + 1) p
  end.

Lemma no_divisor_spec fuel d p :
  no_divisor fuel d p = true -> 0 < d -> forall n, d <= n -> n * n <= p -> ~ (n | p).
Proof.
  revert d. induction fuel as [|fuel IH]; intros d; cbn; [done|].
  intros H Hd n Hn Hnp. case_if_in H; [nia|]. case_if_in H; [done|].
  destruct (decide (n = d)) as [->|]; [|apply (IH (d + 1)); [done|lia|lia|done]].
  intros Hdiv. by apply Z.mod_divide in Hdiv; [|lia].
Qed.

Lemma no_divisor_prime fuel p : 1 < p -> no_divisor fuel 2 p = true -> Znumtheory.prime p.
Proof.
  intros Hp H. apply Znumtheory.prime_alt. split; [done|]. intros n Hn [c Hc].
  pose proof (no_divisor_spec _ _ _ H ltac:(lia)) as Hno.
  destruct (Z.le_gt_cases n c).
  - apply (Hno n); [lia|nia|]. by exists c.
  - apply (Hno c); [nia|nia|]. exists n. lia.
Qed.

Definition size_good (s : Z) : Prop := Znumtheory.prime s /\ s mod 4 = 3 /\ s < 2 ^ 31.

Lemma ihash_sizes_good s : s ∈ ihash_sizes -> s < 2 ^ 31 -> size_good s.
Proof.
  intros Hs Hlt.
  assert (forallb (fun s => (2 ^ 31 <=? s) || ((1 <? s) && no_divisor (Z.to_nat 50000) 2 s && (s mod 4 =? 3)))
            ihash_sizes = true) as H by (vm_compute; reflexivity).
  rewrite forallb_forall in H. apply list_elem_of_In, H in Hs.
  apply orb_true_iff in Hs as [Hs|Hs]; zbool; [lia|]. split; [by eapply no_divisor_prime|done].
Qed.

Lemma size_good_ok s : size_good s -> size_ok s.
Proof. intros (H1 & H2 & H3). by apply prime_size_ok. Qed.

Lemma live_items_full (l : list item) :
  length (live_items l) = length l <-> forall p it, l !! p = Some it -> live it.
Proof.
  unfold live_items. induction l as [|x l IH]; [by split|]. rewrite filter_cons.
  pose proof (length_filter live l). destruct (decide (live x)) as [L|L]; cbn; split.
  - intros [= E] [|p] it Hp; cbn in Hp; [by injection Hp as <-|by eapply (proj1 IH E)].
  - intros Hall. f_equal. apply IH. intros p it Hp. by apply (Hall (S p)).
  - lia.
  - intros Hall. by destruct (L (Hall 0%nat x eq_refl)).
Qed.

(** With such a size a search that finds no room has looked at every slot. *)
Lemma probes_full_iff ht k :
  ihash_ok ht -> size_good (size ht) -> probes_full ht k <-> nr_items ht = size ht.
Proof.
  intros Hok (Hpr & H4 & Hlt). pose proof (io_table _ Hok) as [Hs Hl].
  rewrite (io_count _ Hok). destruct (id Hs) as [H3 _].
  assert (Z.of_nat (length (live_items (items ht))) = size ht <->
          length (live_items (items ht)) = length (items ht)) as -> by lia.
  rewrite live_items_full. split.
  - intros Hfull p it Hp. pose proof (lookup_lt_Some _ _ _ Hp).
    destruct (Hfull (Z.of_nat p)) as (it' & Hp' & L).
    + apply probes_cover; try done; [by apply mod_range|lia].
    + rewrite Nat2Z.id in Hp'. congruence.
  - intros Hall x Hx. destruct (slot_exists ht x (io_table _ Hok)) as [it Hit].
    { eapply probes_range; [exact Hs|by apply mod_range|exact Hx]. }
    exists it. split; [done|by eapply Hall].
Qed.

(** ** Growing *)

Lemma empty_table_ok lrg sz lo ml cl cld lp :
  size_ok sz ->
  let ht := mk_ihash 0 lrg (replicate (Z.to_nat sz) (mk_item 0 0)) sz lo ml cl cld lp in
  ihash_ok ht /\ ihash_map ht = ∅.
Proof.
  intros Hs ht. assert (live_items (items ht) = []) as E.
  { cbn. unfold live_items. induction (Z.to_nat sz) as [|n IH]; [done|]. cbn [replicate].
    rewrite filter_cons. rewrite decide_False by (by intros [H _]). done. }
  split; [|unfold ihash_map; by rewrite E]. constructor.
  - constructor; [done|]. cbn. by rewrite length_replicate.
  - intros p it [-> _]%lookup_replicate [H _]. done.
  - by rewrite E.
Qed.

Definition items_map (l : list item) : gmap Z Z :=
  list_to_map (map (fun it => (key it, value it)) (live_items l)).

Lemma live_items_cons it l : live_items (it :: l) = if decide (live it) then it :: live_items l else live_items l.
Proof. apply filter_cons. Qed.

(** The count of items is the size of the map. *)
Lemma nr_items_map ht : ihash_ok ht -> nr_items ht = Z.of_nat (base.size (ihash_map ht)).
Proof.
  intros Hok. rewrite (io_count _ Hok). unfold ihash_map. rewrite map_size_list_to_map.
  - by rewrite length_map.
  - change (map (fun it => (key it, value it)) (live_items (items ht)))
      with ((fun it => (key it, value it)) <$> live_items (items ht)).
    rewrite <- list_fmap_compose. apply (NoDup_live_keys (items ht)). intros ????. by apply live_unique.
Qed.

Lemma not_live_test it : ~ live it -> (value it =? IHASH_EMPTY) || (value it =? IHASH_DELETED) = true.
Proof.
  intros L. apply orb_true_iff. rewrite !Z.eqb_eq. unfold live in L.
  destruct (decide (value it = IHASH_EMPTY)); [by left|right].
  destruct (decide (value it = IHASH_DELETED)); tauto.
Qed.

Lemma key_ok_same ht ht' k : same_table ht ht' -> key_ok ht k -> key_ok ht' k.
Proof. intros (_ & El & _). unfold key_ok. by rewrite El. Qed.

Lemma same_table_trans a b c : same_table a b -> same_table b c -> same_table a c.
Proof. unfold same_table. intuition congruence. Qed.

Lemma items_map_cons it l : live it -> items_map (it :: l) = <[key it := value it]> (items_map l).
Proof. intros L. unfold items_map. rewrite live_items_cons, decide_True by done. done. Qed.

Lemma items_map_None l k : k ∉ map key (live_items l) -> items_map l !! k = None.
Proof.
  intros H. apply not_elem_of_list_to_map.
  change (map (fun it => (key it, value it)) (live_items l))
    with ((fun it => (key it, value it)) <$> live_items l).
  by rewrite <- list_fmap_compose.
Qed.

Lemma rehash_spec fuel w l nt :
  ihash_ok nt -> size_good (size nt) -> half (size nt) <= Z.of_nat fuel ->
  NoDup (map key (live_items l)) ->
  (forall it, it ∈ live_items l -> key_ok nt (key it) /\ ihash_map nt !! key it = None) ->
  nr_items nt + Z.of_nat (length (live_items l)) < size nt ->
  exists nt', rehash fuel nt l w = Ret nt' /\ ihash_ok nt' /\ same_table nt nt' /\
    ihash_map nt' = items_map l ∪ ihash_map nt /\ cleaned nt' = cleaned nt /\
    nr_items nt' = nr_items nt + Z.of_nat (length (live_items l)).
Proof.
  revert nt. induction l as [|it l IH]; intros nt Hok Hsz Hf Hnd Hkeys Hroom.
  { exists nt. cbn. repeat (split; [done|]). split; [by rewrite (left_id_L ∅ (∪))|]. split; [done|lia]. }
  rewrite live_items_cons in Hnd, Hkeys, Hroom. cbn [rehash].
  destruct (decide (live it)) as [L|L].
  - destruct (id L) as [L1 L2]. rewrite (proj2 (Z.eqb_neq _ _) L1), (proj2 (Z.eqb_neq _ _) L2). cbn [orb].
    destruct (Hkeys it ltac:(by left)) as [Hk Hnone]. cbn [map length] in Hnd, Hroom.
    apply NoDup_cons in Hnd as [Hnin Hnd].
    destruct (replace_one_spec fuel nt (key it) (value it) w Hok Hk) as (r & -> & _ & _ & Hr); [by destruct it|done|].
    cbn [mbind exec_bind]. destruct (added r).
    2: { destruct Hr as (_ & _ & Hfull). apply probes_full_iff in Hfull; [lia|done|done]. }
    destruct Hr as (Hok1 & Hm1 & Hst1 & Hc1). rewrite Hnone in Hc1. cbn in Hc1.
    cbn [check mbind exec_bind]. destruct (id Hst1) as (Es & El & _).
    assert (nr_items (table r) = nr_items nt + 1) as En.
    { rewrite (nr_items_map _ Hok1), (nr_items_map _ Hok), Hm1, map_size_insert_None by done. lia. }
    destruct (IH (table r)) as (nt' & -> & Hok' & Hst' & Hm' & Hc' & En'); try done; try (rewrite Es; done); try lia.
    { intros it' Hit'. destruct (Hkeys it' ltac:(by right)) as [Hk' Hn'].
      split; [by eapply key_ok_same|]. rewrite Hm1, lookup_insert_ne; [done|].
      intros E. apply Hnin. rewrite E. apply list_elem_of_fmap. by exists it'. }
    exists nt'. split; [done|]. split; [done|]. split; [by eapply same_table_trans|].
    split; [|split].
    + rewrite Hm', Hm1, items_map_cons by done. rewrite <- insert_union_l.
      symmetry. apply insert_union_r. by apply items_map_None.
    + rewrite Hc', Hc1. by destruct (w && cleanup nt); rewrite app_nil_r.
    + rewrite En', En, live_items_cons, decide_True by done. cbn. lia.
  - rewrite (not_live_test _ L). destruct (IH nt) as (nt' & -> & Hr); try done.
    exists nt'. split; [done|]. unfold items_map in *. by rewrite live_items_cons, decide_False.
Qed.

(** A table as the operations leave it: without slots, or as above with keys
    that the items can hold. *)
Definition ihash_inv (ht : hurd_ihash) : Prop :=
  (size ht = 0 /\ items ht = [] /\ nr_items ht = 0) \/
  (ihash_ok ht /\ size_good (size ht) /\ forall k v, ihash_map ht !! k = Some v -> key_ok ht k).

(** The load factor is a percentage, and the table is not so large that the
    size of the next one does not fit a word. *)
Definition growable (ht : hurd_ihash) : Prop :=
  0 <= size ht /\ (size ht + 1) * 100 < 2 ^ 32 /\ 1 <= max_load ht <= 100 /\
  (size ht + 1) * 100 / max_load ht <= 230444239.

Definition grown_size (ht : hurd_ihash) : Z :=
  hurd_ihash_buffer_size (u32 (size ht + 1)) (large ht) (max_load ht) / ITEM_SIZE (large ht).

Lemma ihash_sizes_sorted l1 s l2 x : ihash_sizes = l1 ++ s :: l2 -> x ∈ l2 -> s < x.
Proof.
  assert (Sorted.StronglySorted Z.lt ihash_sizes) as Hs.
  { apply Sorted.Sorted_StronglySorted; [intros ???; lia|]. unfold ihash_sizes. repeat constructor. }
  intros E Hx. rewrite E in Hs. clear E. induction l1 as [|y l1 IH]; cbn in Hs.
  - apply Sorted.StronglySorted_inv in Hs as [_ Hs]. rewrite Forall_forall in Hs. by apply Hs.
  - apply IH. by apply Sorted.StronglySorted_inv in Hs as [Hs _].
Qed.

Lemma grown_size_spec ht :
  growable ht ->
  hurd_ihash_buffer_size (u32 (size ht + 1)) (large ht) (max_load ht) < SIZE_MAX /\
  size ht < grown_size ht /\ size_good (grown_size ht).
Proof.
  intros (H0 & H32 & Hml & Hle). unfold grown_size, hurd_ihash_buffer_size.
  replace (max_load ht =? 0) with false by (symmetry; apply Z.eqb_neq; lia).
  replace (100 <? max_load ht) with false by (symmetry; apply Z.ltb_ge; lia).
  replace (max_load ht <? 0) with false by (symmetry; apply Z.ltb_ge; lia).
  rewrite (u32_small (size ht + 1)), u32_small by lia.
  set (count := (size ht + 1) * 100 / max_load ht) in *.
  assert (size ht + 1 <= count) as Hc.
  { apply Z.div_le_lower_bound; [lia|]. rewrite Z.mul_comm. apply Z.mul_le_mono_nonneg_l; lia. }
  assert (forall s, s ∈ ihash_sizes -> count <= s -> exists s', find_size (fun s => count <=? s) = Some s' /\
            s' ∈ ihash_sizes /\ count <= s' <= s) as Hfind.
  { intros s Hs Hcs. unfold find_size. destruct (List.find _ _) as [s'|] eqn:E.
    - exists s'. split; [done|]. apply find_split in E as (l1 & l2 & E & Hl1 & Hs'). zbool.
      split; [rewrite E; set_solver|]. split; [done|]. rewrite E in Hs.
      apply elem_of_app in Hs as [Hs|[->|Hs]%elem_of_cons]; [|lia|].
      + specialize (Hl1 _ Hs). zbool. lia.
      + pose proof (ihash_sizes_sorted _ _ _ _ E Hs). lia.
    - pose proof (find_none _ _ E s (proj1 (list_elem_of_In _ _) Hs)) as Hn. cbv beta in Hn. zbool. lia. }
  destruct (Hfind 230444239) as (s & -> & Hs & Hcs); [|lia|].
  { unfold ihash_sizes. apply list_elem_of_In. cbn. tauto. }
  assert (0 < ITEM_SIZE (large ht) <= 12) as HI by (destruct (large ht); cbn; lia).
  rewrite u32_small by nia. unfold SIZE_MAX. rewrite Z.div_mul by lia.
  split; [nia|]. split; [lia|]. apply ihash_sizes_good; [done|lia].
Qed.

(** What a successful [hurd_ihash_replace] leaves. *)
Definition replace_done (ht : hurd_ihash) (k v : Z) (w : bool) (r : replaced) : Prop :=
  added r = true /\ had_value r = bool_decide (is_Some (ihash_map ht !! k)) /\ old r = ihash_map ht !! k /\
  ihash_inv (table r) /\ ihash_map (table r) = <[k := v]> (ihash_map ht) /\
  cleaned (table r) = cleaned ht ++
    (if w && cleanup ht then from_option (fun v => [v]) [] (ihash_map ht !! k) else []).

Lemma inv_insert ht ht' k v :
  (forall k v, ihash_map ht !! k = Some v -> key_ok ht k) -> key_ok ht k -> same_table ht ht' ->
  ihash_map ht' = <[k := v]> (ihash_map ht) -> forall k v, ihash_map ht' !! k = Some v -> key_ok ht' k.
Proof.
  intros Hall Hk Hst Hm k' v'. rewrite Hm, lookup_insert_Some. intros [[<- _]|[_ H]];
    (eapply key_ok_same; [exact Hst|]); [done|by eapply Hall].
Qed.

Lemma replaced_done ht k v w r :
  replaced_ok ht k v w r -> added r = true -> size_good (size ht) ->
  (forall k v, ihash_map ht !! k = Some v -> key_ok ht k) -> key_ok ht k -> replace_done ht k v w r.
Proof.
  intros (H1 & H2 & H3) Ha Hsz Hall Hk. rewrite Ha in H3. destruct H3 as (Hok & Hm & Hst & Hc).
  repeat (split; [done|]). split; [|done]. right. split; [done|].
  split; [by destruct Hst as (-> & _)|]. by eapply inv_insert.
Qed.

Lemma grow_spec ht k v w fuel :
  ihash_inv ht -> growable ht -> key_ok ht k -> live (mk_item v k) ->
  half (grown_size ht) <= Z.of_nat fuel ->
  exists r, grow_and_replace false true fuel ht k v w = Ret (Some r) /\ replace_done ht k v w r.
Proof.
  intros Hinv Hg Hk L Hf. destruct (grown_size_spec ht Hg) as (Hb & Hgt & Hsz).
  pose proof (size_good_ok _ Hsz) as Hso. unfold grow_and_replace.
  rewrite (proj2 (Z.leb_gt _ _) Hb). cbn [negb]. fold (grown_size ht).
  set (new := mk_ihash 0 _ _ _ _ _ _ _ _).
  destruct (empty_table_ok (large ht) (grown_size ht) (locp_offset ht) (max_load ht) (cleanup ht)
              (cleaned ht) (locps ht) Hso) as [Hok0 Hm0]. fold new in Hok0, Hm0.
  assert (NoDup (map key (live_items (items ht))) /\
          (forall it, it ∈ live_items (items ht) -> key_ok ht (key it)) /\
          Z.of_nat (length (live_items (items ht))) <= size ht) as (Hnd & Hkeys & Hlen).
  { destruct Hinv as [(Es & -> & _)|(Hok & _ & Hall)].
    - split; [constructor|]. split; [by intros it H%elem_of_nil|cbn; lia].
    - split; [|split].
      + apply NoDup_live_keys. intros ????. by apply live_unique.
      + intros it [Lit [p Hp]%list_elem_of_lookup_1]%list_elem_of_filter.
        apply (Hall _ (value it)). apply ihash_map_lookup; [done|]. exists p. by destruct it.
      + destruct (io_table _ Hok) as [[? _] Hl]. pose proof (length_filter live (items ht)).
        unfold live_items. lia. }
  destruct (rehash_spec fuel w (items ht) new) as (nt & -> & Hokn & Hstn & Hmn & Hcn & Hnn); try done.
  { intros it Hit. split; [by apply Hkeys|]. by rewrite Hm0. }
  { cbn [nr_items size new]. lia. }
  assert (ihash_map nt = ihash_map ht) as Hmap by (rewrite Hmn, Hm0; apply (right_id_L ∅ (∪))).
  destruct (id Hstn) as (Es & El & _ & _ & Ecl). cbn [mbind exec_bind].
  destruct (replace_one_spec fuel nt k v w Hokn) as (r & -> & Hr); [by apply (key_ok_same new)|done|by rewrite Es|].
  cbn [mbind exec_bind].
  assert (added r = true) as Ha.
  { destruct (added r) eqn:E; [done|]. destruct Hr as (_ & _ & Hr). rewrite E in Hr.
    destruct Hr as (_ & _ & Hfull). apply probes_full_iff in Hfull; [|done|by rewrite Es].
    rewrite Es, Hnn in Hfull. cbn [nr_items size new] in Hfull. lia. }
  rewrite Ha. exists r. split; [done|].
  destruct (replaced_done nt k v w r Hr Ha) as (H1 & H2 & H3 & H4 & H5 & H6); [by rewrite Es|..].
  { rewrite Hmap. intros k' v' H'. apply (key_ok_same new); [done|].
    destruct Hinv as [(_ & E & _)|(_ & _ & Hall)]; [|by eapply Hall].
    unfold ihash_map in H'. by rewrite E in H'. }
  { by apply (key_ok_same new). }
  unfold replace_done. rewrite Hmap, Hcn, Ecl in *. done.
Qed.

(** ** Properties *)

(** C27: [hurd_ihash_find] returns the value that the table maps the key to,
    and NULL when there is none. *)
Theorem ihash_find_lookup ht k fuel :
  ihash_inv ht -> half (size ht) <= Z.of_nat fuel ->
  hurd_ihash_find fuel ht k = Ret (default 0 (ihash_map ht !! k)).
Proof.
  intros Hinv Hf. unfold hurd_ihash_find. destruct Hinv as [(-> & E & _)|(Hok & _)].
  - unfold ihash_map. by rewrite E.
  - destruct (to_size _ (io_table _ Hok)) as [Hs _]. rewrite (proj2 (Z.eqb_neq _ 0)) by lia.
    destruct (find_index_valid ht k fuel Hok Hf) as (p & it & -> & _ & Hit & Hval & Hmap).
    cbn [mbind exec_bind]. rewrite (index_valid_Ret _ _ _ _ Hit), Hval. cbn [mbind exec_bind].
    destruct (ihash_map ht !! k) as [v|] eqn:E; cbn; [|done].
    unfold VALUE. rewrite (ITEM_Ret _ _ _ Hit). cbn. by destruct (Hmap v eq_refl) as [-> _].
Qed.

(** C10: adding or replacing an item, in a build with [malloc] or without it,
    maps the key to the item and leaves all other keys alone, tells what was
    there before, and hands the old value to the cleanup function exactly when
    the caller asked for it; it fails with [ENOMEM] only when memory could not
    be had or, without [malloc], when every slot is taken (the table has no
    slots or as many items as slots, and the key is new); no assertion of the
    rehashing fails. *)
Theorem ihash_replace_inserts NO_MALLOC calloc_ok ht k v w fuel :
  ihash_inv ht -> growable ht -> key_ok ht k -> live (mk_item v k) ->
  half (size ht) <= Z.of_nat fuel -> half (grown_size ht) <= Z.of_nat fuel ->
  match hurd_ihash_replace NO_MALLOC calloc_ok fuel ht k v w with
  | Ret (Some r) => replace_done ht k v w r
  | Ret None => if NO_MALLOC then nr_items ht = size ht /\ ihash_map ht !! k = None
                else calloc_ok = false
  | Crash _ => False
  end.
Proof.
  intros Hinv Hg Hk L Hf Hfg.
  assert (forall ht', ht' = ht -> (NO_MALLOC = true -> nr_items ht = size ht /\ ihash_map ht !! k = None) ->
    match grow_and_replace NO_MALLOC calloc_ok fuel ht' k v w with
    | Ret (Some r) => replace_done ht k v w r
    | Ret None => if NO_MALLOC then nr_items ht = size ht /\ ihash_map ht !! k = None
                  else calloc_ok = false
    | Crash _ => False
    end) as Hgrow.
  { intros ? -> Hno. destruct NO_MALLOC; [by apply Hno|]. destruct calloc_ok.
    - by destruct (grow_spec ht k v w fuel Hinv Hg Hk L Hfg) as (r & -> & Hr).
    - unfold grow_and_replace. by case_if. }
  unfold hurd_ihash_replace. case_if; [|].
  2: { apply Hgrow; [done|]. intros ->. rewrite orb_true_l, andb_true_r in E.
       apply negb_false_iff, Z.eqb_eq in E. destruct Hinv as [(_ & Ei & ->)|(Hok & _)].
       - split; [done|]. unfold ihash_map. by rewrite Ei.
       - destruct (to_size _ (io_table _ Hok)). lia. }
  destruct Hinv as [(Es & _)|(Hok & Hsz & Hall)]; [zbool; lia|].
  destruct (replace_one_spec fuel ht k v w Hok Hk L Hf) as (r & -> & Hr). cbn [mbind exec_bind].
  destruct (added r) eqn:Ea; [by apply replaced_done|].
  destruct Hr as (_ & _ & Hr). rewrite Ea in Hr. destruct Hr as (Et & Hnone & Hfull).
  apply Hgrow; [done|]. intros _. split; [|done]. by apply (probes_full_iff ht k).
Qed.

(** C28: [hurd_ihash_remove] unmaps the key, hands its value to the cleanup
    function and returns 1 if there was one; otherwise it returns 0 and
    changes nothing. *)
Theorem ihash_remove_deletes ht k fuel :
  ihash_inv ht -> half (size ht) <= Z.of_nat fuel ->
  exists ht', hurd_ihash_remove fuel ht k = Ret (ht', Z.b2z (bool_decide (is_Some (ihash_map ht !! k)))) /\
    ihash_inv ht' /\ ihash_map ht' = delete k (ihash_map ht) /\
    cleaned ht' = cleaned ht ++
      (if cleanup ht then from_option (fun v => [v]) [] (ihash_map ht !! k) else []) /\
    (ihash_map ht !! k = None -> ht' = ht).
Proof.
  intros Hinv Hf. unfold hurd_ihash_remove. destruct (id Hinv) as [(-> & E & _)|(Hok & Hsz & Hall)].
  - exists ht. assert (ihash_map ht = ∅) as -> by (unfold ihash_map; by rewrite E). cbn.
    repeat split; try done. by destruct (cleanup ht); rewrite app_nil_r.
  - destruct (to_size _ (io_table _ Hok)) as [Hs _]. rewrite (proj2 (Z.eqb_neq _ 0)) by lia. cbn [negb].
    destruct (find_index_valid ht k fuel Hok Hf) as (p & it & -> & _ & Hit & Hval & Hmap).
    cbn [mbind exec_bind]. rewrite (index_valid_Ret _ _ _ _ Hit), Hval. cbn [mbind exec_bind].
    destruct (ihash_map ht !! k) as [v|] eqn:E.
    + destruct (Hmap v eq_refl) as [-> L].
      destruct (locp_remove_ok ht p _ true Hok Hit L) as (ht' & -> & Hok' & Hm & Hst & _ & _ & Hc).
      exists ht'. split; [done|]. split; [|split; [done|split; [done|done]]]. right. split; [done|].
      split; [by destruct Hst as (-> & _)|]. intros k' v'. rewrite Hm, lookup_delete_Some.
      intros [_ H']. eapply key_ok_same; [done|by eapply Hall].
    + exists ht. rewrite (bool_decide_eq_false_2 (is_Some None)) by (by intros []).
      split; [done|]. split; [done|]. rewrite delete_id by done. split; [done|].
      split; [by destruct (cleanup ht); rewrite app_nil_r|done].
Qed.

(** A table of three slots with the keys 4 and 1, which collide. *)
Definition sample_ht : hurd_ihash :=
  mk_ihash 2 false [mk_item 0 0; mk_item 400 4; mk_item 100 1] 3 HURD_IHASH_NO_LOCP 80 true [] ∅.

Lemma sample_ht_inv : ihash_inv sample_ht.
Proof.
  right. split; [|split].
  - constructor.
    + by constructor.
    + intros [|[|[|p]]] it Hp L; cbn in Hp; try done; injection Hp as <-; [by destruct L|vm_compute; reflexivity..].
    + reflexivity.
  - apply ihash_sizes_good; [by left|cbn; lia].
  - intros k v. assert (ihash_map sample_ht = {[4 := 400; 1 := 100]}) as -> by (vm_compute; reflexivity).
    unfold key_ok. intros [[<- _]|[_ [<- _]%lookup_singleton_Some]]%lookup_insert_Some; lia.
Qed.

Theorem ihash_find_lookup_witness : hurd_ihash_find 1 sample_ht 1 = Ret 100.
Proof. apply (ihash_find_lookup sample_ht 1 1 sample_ht_inv). vm_compute; congruence. Defined.

Theorem ihash_replace_inserts_witness :
  exists r, replace_done sample_ht 1 101 true r.
Proof.
  eexists. apply (ihash_replace_inserts true false sample_ht 1 101 true 10 sample_ht_inv);
    [unfold growable; vm_compute; intuition congruence
    |unfold key_ok; cbn; lia|by split|vm_compute; congruence..].
Defined.

Theorem ihash_remove_deletes_witness :
  exists ht', hurd_ihash_remove 1 sample_ht 4 = Ret (ht', 1) /\ ihash_inv ht' /\
    ihash_map ht' = delete 4 (ihash_map sample_ht) /\ cleaned ht' = [400] /\
    (Some 400 = None -> ht' = sample_ht).
Proof. apply (ihash_remove_deletes sample_ht 4 1 sample_ht_inv). vm_compute; congruence. Defined.
