(* ===== verification/BitArray.v ===== *)
(** * Bit arrays (libbitarray/bit-array.h)

    A bit array is an array of bytes.  The folio bitmap, the flags of the
    objects of a folio and the pages of user-space slabs are kept in bit
    arrays.  Bytes are integers from 0 to 255; the operations compute as the
    code does, with shifts and masks, and fail where the code accesses an
    element that the array does not have. *)

From S2P Require Import Prelude.

(** [array[i]] *)
Definition byte_at (a : list Z) (i : Z) : exec Z :=
  if i <? 0 then Crash invalid_access else access (a !! Z.to_nat i).

(** [array[i] = v] for an element that exists. *)
Definition set_byte (a : list Z) (i v : Z) : list Z := <[Z.to_nat i := u8 v]> a.

(** [1 << (bit & 0x7)] *)
Definition bit_mask (bit : Z) : Z := Z.shiftl 1 (Z.land bit 7).

Definition in_bounds (size bit : Z) : exec unit :=
  _ ← check (0 <=? bit) assertion_failed;
  check (bit <? size * 8) assertion_failed.

Definition bit_set (a : list Z) (size bit : Z) : exec (list Z * bool) :=
  _ ← in_bounds size bit;
  b ← byte_at a (bit / 8);
  if negb (Z.land b (bit_mask bit) =? 0) then Ret (a, false)
  else Ret (set_byte a (bit / 8) (Z.lor b (bit_mask bit)), true).

Definition bit_set_to (a : list Z) (size bit : Z) (value : bool) : exec (list Z) :=
  _ ← in_bounds size bit;
  b ← byte_at a (bit / 8);
  if value then Ret (set_byte a (bit / 8) (Z.lor b (bit_mask bit)))
  else Ret (set_byte a (bit / 8) (Z.land b (Z.lnot (bit_mask bit)))).

Definition bit_dealloc (a : list Z) (bit : Z) : exec (list Z) :=
  b ← byte_at a (bit / 8);
  _ ← check (negb (Z.land b (bit_mask bit) =? 0)) assertion_failed;
  Ret (set_byte a (bit / 8) (Z.land b (Z.lnot (bit_mask bit)))).

Definition bit_test (a : list Z) (bit : Z) : exec bool :=
  b ← byte_at a (bit / 8);
  Ret (negb (Z.land b (bit_mask bit) =? 0)).

Definition first_free_bit : list Z :=
  [0; 1; 0; 2; 0; 1; 0; 3; 0; 1; 0; 2; 0; 1; 0; -1].

Definition check_byte (byte : Z) : Z :=
  let b := nth (Z.to_nat (Z.land byte 15)) first_free_bit (-1) in
  if negb (b =? -1) then b else
  let b := nth (Z.to_nat (Z.shiftr byte 4)) first_free_bit (-1) in
  if negb (b =? -1) then 4 + b else -1.

(** The last part of [bit_alloc]: the bits of the start byte below the start
    bit. *)
Definition bit_alloc_tail (a : list Z) (start_bit byte : Z) : exec (list Z * Z) :=
  if negb (Z.land start_bit 7 =? 0) then
    x ← byte_at a byte;
    let b := u8 (Z.lor x (Z.lnot (Z.shiftl 1 (Z.land start_bit 7) - 1))) in
    let bit := check_byte b in
    if negb (bit =? -1) then
      Ret (set_byte a byte (Z.lor x (Z.shiftl 1 bit)), byte * 8 + bit)
    else Ret (a, -1)
  else Ret (a, -1).

(** The loop of [bit_alloc] from the label [check] on; [b] is what is tested
    for the byte [byte]. *)
Fixpoint bit_alloc_loop (fuel : nat) (a : list Z) (size start_bit byte b : Z)
  : exec (list Z * Z) :=
  match fuel with
  | O => Crash out_of_fuel
  | S fuel =>
      let bit := check_byte b in
      if negb (bit =? -1) then
        x ← byte_at a byte;
        Ret (set_byte a byte (Z.lor x (Z.shiftl 1 bit)), byte * 8 + bit)
      else
        let byte := byte + 1 in
        let byte := if byte =? size then 0 else byte in
        if negb (byte =? start_bit / 8) then
          b ← byte_at a byte;
          bit_alloc_loop fuel a size start_bit byte b
        else bit_alloc_tail a start_bit byte
  end.

(** [bit_alloc]: the array and the result, -1 or the bit; one round of the loop
    per byte suffices. *)
Definition bit_alloc (a : list Z) (size start_bit : Z) : exec (list Z * Z) :=
  _ ← in_bounds size start_bit;
  x ← byte_at a (start_bit / 8);
  let b := if negb (Z.land start_bit 7 =? 0)
           then Z.lor x (Z.shiftl 1 (Z.land start_bit 7) - 1) else x in
  bit_alloc_loop (Z.to_nat size) a size start_bit (start_bit / 8) b.

(** ** The bits of an array *)

Definition bytes_ok (a : list Z) : Prop := Forall (fun b => 0 <= b < 256) a.

Definition testb (a : list Z) (k : Z) : bool :=
  Z.testbit (nth (Z.to_nat (k / 8)) a 0) (k mod 8).

(** An array of [size] bytes. *)
Record array_ok (a : list Z) (size : Z) : Prop := ArrayOk {
  ao_bytes : bytes_ok a;
  ao_length : Z.of_nat (length a) = size
}.

(** [a'] is [a] with bit [k] set to [v]. *)
Definition set_to (a a' : list Z) (k : Z) (v : bool) : Prop :=
  forall j, 0 <= j -> testb a' j = if decide (j = k) then v else testb a j.

Lemma byte_at_Ret a size i :
  array_ok a size -> 0 <= i < size ->
  byte_at a i = Ret (nth (Z.to_nat i) a 0) /\ 0 <= nth (Z.to_nat i) a 0 < 256.
Proof.
  intros [Hb Hl] Hi. unfold byte_at. rewrite (proj2 (Z.ltb_ge i 0)) by lia.
  assert (Hlt : (Z.to_nat i < length a)%nat) by lia.
  destruct (lookup_lt_is_Some_2 a (Z.to_nat i) Hlt) as [x Hx].
  rewrite Hx. rewrite (nth_lookup_Some _ _ 0 _ Hx). split; [done|].
  exact (Forall_lookup_1 _ _ _ _ Hb Hx).
Qed.

Lemma land7 k : Z.land k 7 = k mod 8.
Proof. exact (land_mask k 3 ltac:(lia)). Qed.

Lemma bit_mask_testbit b k :
  negb (Z.land b (bit_mask k) =? 0) = Z.testbit b (k mod 8).
Proof.
  unfold bit_mask. rewrite land7, Z.shiftl_1_l.
  assert (0 <= k mod 8) by (apply Z.mod_pos_bound; lia).
  destruct (Z.testbit b (k mod 8)) eqn:E.
  - apply negb_true_iff, Z.eqb_neq. intros H0.
    assert (Ht : Z.testbit (Z.land b (2 ^ (k mod 8))) (k mod 8) = false)
      by (rewrite H0; apply Z.bits_0).
    rewrite Z.land_spec, E, Z.pow2_bits_true in Ht by done. done.
  - apply negb_false_iff, Z.eqb_eq. apply Z.bits_inj'. intros n Hn.
    rewrite Z.land_spec, Z.pow2_bits_eqb, Z.bits_0 by done.
    destruct (Z.eqb_spec (k mod 8) n) as [<-|]; [now rewrite E|now rewrite andb_false_r].
Qed.

(** A byte written back: which bits it has. *)
Lemma set_byte_ok a size i v :
  array_ok a size -> array_ok (set_byte a i v) size.
Proof.
  intros [Hb Hl]. split; [|unfold set_byte; now rewrite length_insert].
  apply Forall_insert; [done|]. apply (wrap_range 8). lia.
Qed.

Lemma testb_set_byte a size i v j :
  array_ok a size -> 0 <= i < size -> 0 <= j ->
  testb (set_byte a i v) j =
  if decide (j / 8 = i) then Z.testbit v (j mod 8) else testb a j.
Proof.
  intros [Hb Hl] Hi Hj. unfold testb, set_byte.
  assert (0 <= j / 8) by (apply Z.div_pos; lia).
  assert (Hm : 0 <= j mod 8 < 8) by (apply Z.mod_pos_bound; lia).
  case_decide as E.
  - rewrite E. erewrite nth_lookup_Some by (apply list_lookup_insert_eq; lia).
    unfold u8, wrap. now rewrite Z.mod_pow2_bits_low by lia.
  - rewrite !nth_lookup. rewrite list_lookup_insert_ne by lia. done.
Qed.

(** A bit number is a byte and a position in it. *)
Lemma bit_number j k : j = k <-> j / 8 = k / 8 /\ j mod 8 = k mod 8.
Proof.
  split; [intros ->; done|]. intros [H1 H2].
  rewrite (Z.div_mod j 8), (Z.div_mod k 8) by lia. congruence.
Qed.

(** Writing byte [k / 8] with bit [k mod 8] changed changes bit [k]. *)
Lemma set_to_byte a size k v f :
  array_ok a size -> 0 <= k < 8 * size ->
  (forall i, 0 <= i -> Z.testbit f i =
     if decide (i = k mod 8) then v else Z.testbit (nth (Z.to_nat (k / 8)) a 0) i) ->
  set_to a (set_byte a (k / 8) f) k v.
Proof.
  intros Ha Hk Hf j Hj.
  assert (0 <= k / 8 < size) by (split; [apply Z.div_pos|apply Z.div_lt_upper_bound]; lia).
  rewrite (testb_set_byte a size) by done.
  assert (0 <= j mod 8) by (apply Z.mod_pos_bound; lia).
  case_decide as E; [rewrite Hf by done; case_decide as E2|]; case_decide as E3;
    try done; rewrite bit_number in E3; try tauto.
  unfold testb. now rewrite E.
Qed.

Lemma testbit_lor_pow2 b p i :
  0 <= p -> 0 <= i -> Z.testbit (Z.lor b (2 ^ p)) i = if decide (i = p) then true else Z.testbit b i.
Proof.
  intros Hp Hi. rewrite Z.lor_spec, Z.pow2_bits_eqb by done.
  destruct (Z.eqb_spec p i) as [->|Hne]; case_decide; try done;
    [apply orb_true_r|apply orb_false_r].
Qed.

Lemma testbit_ldiff_pow2 b p i :
  0 <= p -> 0 <= i ->
  Z.testbit (Z.land b (Z.lnot (2 ^ p))) i = if decide (i = p) then false else Z.testbit b i.
Proof.
  intros Hp Hi. rewrite Z.land_spec, Z.lnot_spec, Z.pow2_bits_eqb by done.
  destruct (Z.eqb_spec p i) as [->|Hne]; case_decide; try done;
    [apply andb_false_r|apply andb_true_r].
Qed.

Lemma bit_index k size : 0 <= k < 8 * size -> 0 <= k / 8 < size /\ 0 <= k mod 8 < 8.
Proof.
  intros. split; [split; [apply Z.div_pos|apply Z.div_lt_upper_bound]; lia|].
  apply Z.mod_pos_bound. lia.
Qed.

Lemma in_bounds_Ret {A} size k (f : exec A) :
  0 <= k < 8 * size -> (_ ← in_bounds size k; f) = f.
Proof.
  intros H. unfold in_bounds, check.
  rewrite (proj2 (Z.leb_le 0 k)), (proj2 (Z.ltb_lt k (size * 8))) by lia. done.
Qed.

Lemma in_bounds_Crash {A} size k (f : exec A) :
  ~ (0 <= k < 8 * size) -> (_ ← in_bounds size k; f) = Crash assertion_failed.
Proof.
  intros H. unfold in_bounds, check.
  destruct (Z.leb_spec 0 k), (Z.ltb_spec k (size * 8)); try done. lia.
Qed.

Lemma bit_test_spec a size k :
  array_ok a size -> 0 <= k < 8 * size -> bit_test a k = Ret (testb a k).
Proof.
  intros Ha Hk. destruct (bit_index _ _ Hk) as [Hi _]. unfold bit_test.
  destruct (byte_at_Ret _ _ _ Ha Hi) as [-> _]. cbn. now rewrite bit_mask_testbit.
Qed.

Lemma bit_set_to_spec a size k v :
  array_ok a size -> 0 <= k < 8 * size ->
  exists a', bit_set_to a size k v = Ret a' /\ array_ok a' size /\ set_to a a' k v.
Proof.
  intros Ha Hk. destruct (bit_index _ _ Hk) as [Hi Hm]. unfold bit_set_to.
  rewrite in_bounds_Ret by done. destruct (byte_at_Ret _ _ _ Ha Hi) as [-> _]. cbn.
  unfold bit_mask. rewrite land7, Z.shiftl_1_l.
  destruct v; (eexists; split; [reflexivity|]; split; [now apply set_byte_ok|]);
    (eapply set_to_byte; [done..|]; intros i Hi'); [apply testbit_lor_pow2|apply testbit_ldiff_pow2]; lia.
Qed.

Lemma bit_set_spec a size k :
  array_ok a size -> 0 <= k < 8 * size ->
  exists a', bit_set a size k = Ret (a', negb (testb a k)) /\ array_ok a' size /\
             set_to a a' k true.
Proof.
  intros Ha Hk. destruct (bit_index _ _ Hk) as [Hi Hm]. unfold bit_set.
  rewrite in_bounds_Ret by done. destruct (byte_at_Ret _ _ _ Ha Hi) as [-> _]. cbn.
  rewrite bit_mask_testbit. fold (testb a k). destruct (testb a k) eqn:E.
  - exists a. split_and!; [done..|]. intros j Hj. case_decide; [now subst|done].
  - eexists. split; [reflexivity|]. split; [now apply set_byte_ok|].
    eapply set_to_byte; [done..|]. intros i Hi'.
    unfold bit_mask. rewrite land7, Z.shiftl_1_l. apply testbit_lor_pow2; lia.
Qed.

Lemma bit_dealloc_spec a size k :
  array_ok a size -> 0 <= k < 8 * size ->
  if testb a k
  then exists a', bit_dealloc a k = Ret a' /\ array_ok a' size /\ set_to a a' k false
  else bit_dealloc a k = Crash assertion_failed.
Proof.
  intros Ha Hk. destruct (bit_index _ _ Hk) as [Hi Hm]. unfold bit_dealloc.
  destruct (byte_at_Ret _ _ _ Ha Hi) as [-> _]. cbn.
  rewrite bit_mask_testbit. fold (testb a k). destruct (testb a k) eqn:E; [|done]. cbn.
  eexists. split; [reflexivity|]. split; [now apply set_byte_ok|].
  eapply set_to_byte; [done..|]. intros i Hi'.
  unfold bit_mask. rewrite land7, Z.shiftl_1_l. apply testbit_ldiff_pow2; lia.
Qed.

(** ** Finding a free bit *)

(** The table look-ups of [check_byte], for all bytes: the first zero bit. *)
Definition check_byte_ok (b : Z) : bool :=
  let r := check_byte b in
  if r =? -1 then b =? 255
  else (0 <=? r) && (r <? 8) && negb (Z.testbit b r) &&
       forallb (fun i => negb (Z.of_nat i <? r) || Z.testbit b (Z.of_nat i)) (seq 0 8).

Lemma check_bytes : forallb check_byte_ok (seqZ 0 256) = true.
Proof. vm_compute. reflexivity. Qed.

Lemma check_byte_spec b :
  0 <= b < 256 ->
  (check_byte b = -1 /\ forall i, 0 <= i < 8 -> Z.testbit b i = true) \/
  (0 <= check_byte b < 8 /\ Z.testbit b (check_byte b) = false /\
   forall i, 0 <= i < 8 -> Z.testbit b i = false -> check_byte b <= i).
Proof.
  intros Hb. assert (H := proj1 (forallb_forall _ _) check_bytes b).
  rewrite <- list_elem_of_In, elem_of_seqZ in H. specialize (H ltac:(lia)).
  unfold check_byte_ok in H. destruct (Z.eqb_spec (check_byte b) (-1)) as [E|E].
  - left. split; [done|]. apply Z.eqb_eq in H as ->. intros i Hi.
    change 255 with (Z.ones 8). apply Z.ones_spec_low. lia.
  - right. rewrite !andb_true_iff, negb_true_iff, forallb_forall in H.
    destruct H as [[[H1 H2] H3] H4]. zbool. split_and!; [lia|lia|done|].
    intros i Hi Hf. destruct (Z.le_gt_cases (check_byte b) i) as [|Hlt]; [done|].
    assert (Hs := H4 (Z.to_nat i)). rewrite in_seq, Z2Nat.id in Hs by lia.
    specialize (Hs ltac:(lia)). rewrite Hf, (proj2 (Z.ltb_lt _ _) Hlt) in Hs. done.
Qed.

Lemma log2_byte x : 0 <= x < 256 -> Z.log2 x < 8.
Proof.
  intros Hx. destruct (Z.eq_dec x 0) as [->|]; [reflexivity|].
  apply Z.log2_lt_pow2; lia.
Qed.

Lemma lor_byte x y : 0 <= x < 256 -> 0 <= y < 256 -> Z.lor x y < 256.
Proof.
  intros Hx Hy. assert (0 <= Z.lor x y) by (apply Z.lor_nonneg; lia).
  destruct (Z.eq_dec (Z.lor x y) 0) as [->|]; [done|].
  change 256 with (2 ^ 8). apply Z.log2_lt_pow2; [lia|].
  rewrite Z.log2_lor by lia. apply Z.max_lub_lt; now apply log2_byte.
Qed.

(** How far bit [k] is from the start bit, going up and around. *)
Definition distance (size start k : Z) : Z := (k - start) mod (8 * size).

(** Bit [i] of the [n]th byte after the one of the start bit. *)
Lemma distance_byte size start n i :
  0 < size -> 0 <= start < 8 * size -> 0 <= n < size -> 0 <= i < 8 ->
  distance size start (8 * ((start / 8 + n) mod size) + i) =
  if decide (n = 0 /\ i < start mod 8) then 8 * size + i - start mod 8
  else 8 * n + i - start mod 8.
Proof.
  intros Hs Hst Hn Hi. unfold distance.
  assert (Hm := Z.mod_pos_bound start 8 ltac:(lia)).
  assert (Hd := Z.div_mod start 8 ltac:(lia)).
  rewrite <- Z.mul_mod_distr_l by lia.
  replace (8 * (start / 8 + n) mod (8 * size)) with ((8 * (start / 8 + n)) mod (8 * size)) by done.
  rewrite <- Z.add_opp_r, <- Z.add_assoc, Z.add_mod_idemp_l by lia.
  replace (8 * (start / 8 + n) + (i + - start)) with (8 * n + i - start mod 8) by lia.
  case_decide as E.
  - destruct E as [-> E]. symmetry. apply (Z.mod_unique_pos _ _ (-1)); lia.
  - apply Z.mod_small. destruct (decide (n = 0)); [subst; lia|]. lia.
Qed.

(** Every bit is some bit of some byte on the way. *)
Lemma byte_on_the_way size start k :
  0 < size -> 0 <= start < 8 * size -> 0 <= k < 8 * size ->
  exists n, 0 <= n < size /\ k / 8 = (start / 8 + n) mod size /\
            k = 8 * ((start / 8 + n) mod size) + k mod 8.
Proof.
  intros Hs Hst Hk. exists ((k / 8 - start / 8) mod size).
  destruct (bit_index _ _ Hk) as [Hi _].
  assert (E : (start / 8 + (k / 8 - start / 8) mod size) mod size = k / 8).
  { rewrite Z.add_mod_idemp_r by lia. replace (start / 8 + _) with (k / 8) by lia.
    now apply Z.mod_small. }
  rewrite E. split_and!; [apply Z.mod_pos_bound; lia..|done|].
  apply Z.div_mod. lia.
Qed.

(** The outcome of an allocation: the free bit nearest to the start bit, going
    up and around, is now set; or there is none. *)
Inductive alloc_outcome (a : list Z) (size start : Z) : exec (list Z * Z) -> Prop :=
| alloc_none :
    (forall k, 0 <= k < 8 * size -> testb a k = true) ->
    alloc_outcome a size start (Ret (a, -1))
| alloc_bit a' r :
    0 <= r < 8 * size -> testb a r = false ->
    (forall k, 0 <= k < 8 * size -> testb a k = false ->
       distance size start r <= distance size start k) ->
    array_ok a' size -> set_to a a' r true ->
    alloc_outcome a size start (Ret (a', r)).

Section search.
Context (a : list Z) (size start : Z).
Context (Ha : array_ok a size) (Hstart : 0 <= start < 8 * size).

Let s := start mod 8.
Let nth_byte n := (start / 8 + n) mod size.

(** The bits before the [n]th byte have been tested: they are set. *)
Definition searched (n : Z) : Prop :=
  forall k, 0 <= k < 8 * size -> testb a k = false -> 8 * n - s <= distance size start k.

Lemma s_range : 0 <= s < 8.
Proof. apply Z.mod_pos_bound. lia. Qed.

Lemma nth_byte_range n : 0 <= n -> 0 <= nth_byte n < size.
Proof. intros. apply Z.mod_pos_bound. lia. Qed.

Lemma distance_nth n i :
  0 <= n < size -> 0 <= i < 8 ->
  distance size start (8 * nth_byte n + i) =
  if decide (n = 0 /\ i < s) then 8 * size + i - s else 8 * n + i - s.
Proof. intros Hn Hi. apply distance_byte; lia. Qed.

Lemma free_bit k :
  0 <= k < 8 * size -> exists n i, 0 <= n < size /\ 0 <= i < 8 /\
    k = 8 * nth_byte n + i /\
    distance size start k =
      if decide (n = 0 /\ i < s) then 8 * size + i - s else 8 * n + i - s.
Proof.
  intros Hk. destruct (byte_on_the_way size start k) as (n&Hn&_&E); [lia|done|done|].
  exists n, (k mod 8). assert (Hi : 0 <= k mod 8 < 8) by (apply Z.mod_pos_bound; lia).
  split_and!; [lia..|exact E|]. rewrite E at 1. apply distance_byte; lia.
Qed.

Lemma testb_byte n i :
  0 <= n -> 0 <= i < 8 ->
  testb a (8 * nth_byte n + i) = Z.testbit (nth (Z.to_nat (nth_byte n)) a 0) i.
Proof.
  intros Hn Hi. unfold testb.
  rewrite Z.add_comm, Z.mul_comm, Z.div_add, Z.mod_add by lia.
  rewrite Z.div_small, Z.mod_small by lia. done.
Qed.

Lemma nth_byte_inj n n' i i' :
  0 <= n < size -> 0 <= n' < size -> 0 <= i < 8 -> 0 <= i' < 8 ->
  8 * nth_byte n + i = 8 * nth_byte n' + i' -> nth_byte n = nth_byte n' /\ i = i'.
Proof. lia. Qed.

(** What the byte [b] that is tested for the [n]th byte contains. *)
Definition tested (n b : Z) : Prop :=
  0 <= b < 256 /\
  forall i, 0 <= i < 8 ->
    Z.testbit b i = if decide (n = 0 /\ i < s) then true
                    else testb a (8 * nth_byte n + i).

Lemma searched_next n b :
  0 <= n < size -> searched n -> tested n b -> check_byte b = -1 -> searched (n + 1).
Proof.
  intros Hn Hs [Hb Ht] Hc k Hk Hf. specialize (Hs k Hk Hf).
  assert (Hr := s_range). destruct (check_byte_spec b Hb) as [[_ Hall]|[? _]]; [|lia].
  destruct (free_bit k Hk) as (n'&i&Hn'&Hi&Ek&Ed). rewrite Ed in *.
  case_decide as E; [lia|].
  destruct (Z.lt_trichotomy n' n) as [?|[->|?]]; [lia| |lia].
  specialize (Hall i Hi). rewrite Ht in Hall by done.
  rewrite decide_False, <- Ek, Hf in Hall by done. done.
Qed.

(** Setting bit [i] of the [n]th byte. *)
Lemma allocated n i x :
  0 <= n < size -> 0 <= i < 8 -> x = nth (Z.to_nat (nth_byte n)) a 0 ->
  testb a (8 * nth_byte n + i) = false ->
  (forall k, 0 <= k < 8 * size -> testb a k = false ->
     distance size start (8 * nth_byte n + i) <= distance size start k) ->
  alloc_outcome a size start
    (Ret (set_byte a (nth_byte n) (Z.lor x (Z.shiftl 1 i)), nth_byte n * 8 + i)).
Proof.
  intros Hn Hi -> Hf Hmin. assert (Hr := nth_byte_range n ltac:(lia)).
  replace (nth_byte n * 8 + i) with (8 * nth_byte n + i) by lia.
  apply alloc_bit; [lia|done|done|now apply set_byte_ok|].
  assert (E1 : (8 * nth_byte n + i) / 8 = nth_byte n)
    by (rewrite Z.add_comm, Z.mul_comm, Z.div_add, Z.div_small by lia; lia).
  assert (E2 : (8 * nth_byte n + i) mod 8 = i)
    by (rewrite Z.add_comm, Z.mul_comm, Z.mod_add, Z.mod_small by lia; lia).
  assert (H := set_to_byte a size (8 * nth_byte n + i) true
                 (Z.lor (nth (Z.to_nat (nth_byte n)) a 0) (Z.shiftl 1 i)) Ha ltac:(lia)).
  rewrite E1, E2 in H. apply H.
  intros j Hj. rewrite Z.shiftl_1_l. apply testbit_lor_pow2; lia.
Qed.

Lemma found n b x :
  0 <= n < size -> searched n -> tested n b -> check_byte b <> -1 ->
  x = nth (Z.to_nat (nth_byte n)) a 0 ->
  alloc_outcome a size start
    (Ret (set_byte a (nth_byte n) (Z.lor x (Z.shiftl 1 (check_byte b))),
          nth_byte n * 8 + check_byte b)).
Proof.
  intros Hn Hs [Hb Ht] Hc Hx. assert (Hr := s_range).
  destruct (check_byte_spec b Hb) as [[? _]|(Hi&Hfree&Hmin)]; [lia|].
  rewrite Ht in Hfree by done. case_decide as E; [done|].
  apply allocated; try done. intros k Hk Hf.
  rewrite distance_nth by lia. rewrite decide_False by done.
  specialize (Hs k Hk Hf). destruct (free_bit k Hk) as (n'&i&Hn'&Hi'&Ek&Ed).
  rewrite Ed in *. case_decide as E'; [lia|].
  destruct (Z.lt_trichotomy n' n) as [?|[->|?]]; [lia| |lia].
  specialize (Hmin i Hi'). rewrite Ht in Hmin by done.
  rewrite decide_False, <- Ek in Hmin by done. specialize (Hmin Hf). lia.
Qed.

Lemma tail_spec :
  searched size -> alloc_outcome a size start (bit_alloc_tail a start (start / 8)).
Proof.
  intros Hs. assert (Hr := s_range). unfold bit_alloc_tail. rewrite land7. fold s.
  assert (Hlow : forall k, 0 <= k < 8 * size -> testb a k = false ->
            exists i, 0 <= i < s /\ k = 8 * nth_byte 0 + i /\
                      distance size start k = 8 * size + i - s).
  { intros k Hk Hf. specialize (Hs k Hk Hf).
    destruct (free_bit k Hk) as (n'&i&Hn'&Hi&Ek&Ed). rewrite Ed in *.
    case_decide as E; [|lia]. destruct E as [-> E]. exists i. split_and!; [lia|lia|done|done]. }
  destruct (Z.eqb_spec s 0) as [E0|E0]; cbn.
  { apply alloc_none. intros k Hk. destruct (testb a k) eqn:E; [done|].
    destruct (Hlow k Hk E) as (i&?&_). lia. }
  destruct (bit_index _ _ Hstart) as [Hi0 _].
  destruct (byte_at_Ret _ _ _ Ha Hi0) as [-> Hx]. cbn.
  set (x := nth (Z.to_nat (start / 8)) a 0) in *. rewrite Z.shiftl_1_l.
  set (b := u8 (Z.lor x (Z.lnot (2 ^ s - 1)))).
  assert (E8 : nth_byte 0 = start / 8)
    by (unfold nth_byte; rewrite Z.add_0_r; apply Z.mod_small; lia).
  assert (Hb : 0 <= b < 256) by (apply (wrap_range 8); lia).
  assert (Ht : forall i, 0 <= i < 8 ->
            Z.testbit b i = if decide (i < s) then testb a (8 * nth_byte 0 + i) else true).
  { intros i Hi. unfold b, u8, wrap. rewrite Z.mod_pow2_bits_low by lia.
    rewrite Z.lor_spec, Z.lnot_spec, mask_ones, testb_byte, E8 by lia. fold x.
    case_decide.
    - rewrite Z.ones_spec_low by lia. cbn. apply orb_false_r.
    - rewrite Z.ones_spec_high by lia. cbn. apply orb_true_r. }
  destruct (check_byte_spec b Hb) as [[-> Hall]|(Hi&Hfree&Hmin)]; cbn.
  - apply alloc_none. intros k Hk. destruct (testb a k) eqn:E; [done|].
    destruct (Hlow k Hk E) as (i&Hi&->&_). specialize (Hall i ltac:(lia)).
    rewrite Ht, decide_True, E in Hall by lia. done.
  - destruct (Z.eqb_spec (check_byte b) (-1)) as [|_]; [lia|]. cbn.
    rewrite Ht in Hfree by done. case_decide as Els; [|done].
    rewrite <- E8. apply allocated; [lia|done|now rewrite E8|done|].
    intros k Hk Hf. destruct (Hlow k Hk Hf) as (i&Hi'&Ek&Ed). rewrite Ed.
    rewrite distance_nth by lia. rewrite decide_True by lia.
    specialize (Hmin i ltac:(lia)). rewrite Ht, decide_True, <- Ek in Hmin by lia.
    specialize (Hmin Hf). lia.
Qed.

Lemma loop_spec fuel n b :
  0 <= n < size -> (Z.to_nat (size - n) <= fuel)%nat -> searched n -> tested n b ->
  alloc_outcome a size start (bit_alloc_loop fuel a size start (nth_byte n) b).
Proof.
  revert n b. induction fuel as [|fuel IH]; intros n b Hn Hf Hs Ht; [lia|]. cbn.
  assert (Hr := nth_byte_range n ltac:(lia)).
  destruct (Z.eqb_spec (check_byte b) (-1)) as [E|E]; cbn.
  2:{ destruct (byte_at_Ret _ _ _ Ha Hr) as [-> _]. cbn. now apply found. }
  assert (Hs' := searched_next n b Hn Hs Ht E).
  assert (En : (if nth_byte n + 1 =? size then 0 else nth_byte n + 1) = nth_byte (n + 1)).
  { unfold nth_byte at 3. rewrite Z.add_assoc, <- (Z.add_mod_idemp_l (start / 8 + n)) by lia.
    fold (nth_byte n). destruct (Z.eqb_spec (nth_byte n + 1) size) as [->|].
    - now rewrite Z.mod_same by lia.
    - rewrite Z.mod_small; lia. }
  rewrite En. destruct (bit_index _ _ Hstart) as [Hi0 _].
  destruct (Z.eqb_spec (nth_byte (n + 1)) (start / 8)) as [Ew|Ew]; cbn.
  - assert (n + 1 = size) as E1.
    { unfold nth_byte in Ew. destruct (decide (n + 1 = size)); [done|exfalso].
      destruct (Z.lt_ge_cases (start / 8 + (n + 1)) size) as [|].
      - rewrite Z.mod_small in Ew; lia.
      - replace ((start / 8 + (n + 1)) mod size) with (start / 8 + (n + 1) - size) in Ew;
          [lia|]. apply (Z.mod_unique_pos _ _ 1); lia. }
    rewrite Ew. apply tail_spec. now rewrite <- E1.
  - assert (n + 1 <> size).
    { intros E1. apply Ew. unfold nth_byte. rewrite E1, <- Z.add_mod_idemp_r, Z.mod_same by lia.
      rewrite Z.add_0_r. apply Z.mod_small. lia. }
    assert (Hr' := nth_byte_range (n + 1) ltac:(lia)).
    destruct (byte_at_Ret _ _ _ Ha Hr') as [-> Hx]. cbn.
    apply IH; [lia|lia|done|]. split; [done|]. intros i Hi.
    rewrite decide_False by lia. symmetry. apply testb_byte; lia.
Qed.

Lemma bit_alloc_ok : alloc_outcome a size start (bit_alloc a size start).
Proof.
  assert (Hr := s_range). destruct (bit_index _ _ Hstart) as [Hi0 _]. unfold bit_alloc.
  rewrite in_bounds_Ret by done. destruct (byte_at_Ret _ _ _ Ha Hi0) as [-> Hx]. cbn.
  rewrite land7. fold s. set (x := nth (Z.to_nat (start / 8)) a 0) in *.
  assert (E8 : start / 8 = nth_byte 0)
    by (unfold nth_byte; rewrite Z.add_0_r; symmetry; apply Z.mod_small; lia).
  rewrite E8.
  apply loop_spec; [lia|lia| |].
  { intros k Hk _. assert (0 <= distance size start k) by (apply Z.mod_pos_bound; lia). lia. }
  assert (Hbit : forall i, 0 <= i < 8 -> testb a (8 * nth_byte 0 + i) = Z.testbit x i).
  { intros i Hi. rewrite testb_byte, <- E8 by lia. done. }
  destruct (Z.eqb_spec s 0) as [E0|E0]; cbn.
  - split; [done|]. intros i Hi. rewrite decide_False, Hbit by lia. done.
  - rewrite Z.shiftl_1_l, mask_ones by lia. split.
    + assert (0 <= Z.lor x (Z.ones s)) by (apply Z.lor_nonneg; rewrite Z.ones_equiv; assert (0 < 2 ^ s) by (apply pow2_pos; lia); lia).
      split; [done|]. apply lor_byte; [done|]. rewrite Z.ones_equiv.
      assert (2 ^ s <= 2 ^ 7) by (apply pow2_le; lia). assert (0 < 2 ^ s) by (apply pow2_pos; lia).
      lia.
    + intros i Hi. rewrite Z.lor_spec, Hbit by done. case_decide.
      * rewrite Z.ones_spec_low by lia. apply orb_true_r.
      * rewrite Z.ones_spec_high by lia. apply orb_false_r.
Qed.

End search.

(** C23: [bit_alloc] returns the first free bit from the start bit upwards, going
    around at the end of the array, and sets it and no other bit; it returns -1
    and changes nothing exactly when every bit is set.  Its loop ends within
    one round per byte and no access is out of bounds.  A start bit outside of
    the array fails an assertion. *)
Theorem bit_alloc_first_free a size start :
  array_ok a size ->
  (0 <= start < 8 * size -> alloc_outcome a size start (bit_alloc a size start)) /\
  (~ 0 <= start < 8 * size -> bit_alloc a size start = Crash assertion_failed).
Proof.
  intros Ha. split; intros H; [now apply bit_alloc_ok|].
  unfold bit_alloc. now apply in_bounds_Crash.
Qed.

(** The single-bit operations on a bit of the array: [bit_test] reads it;
    [bit_set] sets it and says whether it was clear; [bit_set_to] writes it;
    [bit_dealloc] clears it and fails its assertion when it is clear already.
    Each changes that bit alone, and leaves an array of bytes. *)
Theorem bit_operations a size k v :
  array_ok a size -> 0 <= k < 8 * size ->
  bit_test a k = Ret (testb a k) /\
  (exists a', bit_set a size k = Ret (a', negb (testb a k)) /\ array_ok a' size /\
              set_to a a' k true) /\
  (exists a', bit_set_to a size k v = Ret a' /\ array_ok a' size /\ set_to a a' k v) /\
  (if testb a k
   then exists a', bit_dealloc a k = Ret a' /\ array_ok a' size /\ set_to a a' k false
   else bit_dealloc a k = Crash assertion_failed).
Proof.
  intros Ha Hk.
  split_and!; [eapply bit_test_spec|apply bit_set_spec|apply bit_set_to_spec|eapply bit_dealloc_spec];
    eauto.
Qed.

Lemma sample_array_ok : array_ok [255; 7] 2.
Proof. split; [|reflexivity]. repeat constructor; lia. Qed.

Theorem bit_alloc_first_free_witness :
  bit_alloc [255; 7] 2 4 = Ret ([255; 15], 11) /\
  alloc_outcome [255; 7] 2 4 (bit_alloc [255; 7] 2 4).
Proof.
  split; [reflexivity|].
  apply (proj1 (bit_alloc_first_free [255; 7] 2 4 sample_array_ok)). lia.
Defined.

Theorem bit_operations_witness : bit_test [255; 7] 11 = Ret false.
Proof.
  exact (proj1 (bit_operations [255; 7] 2 11 true sample_array_ok ltac:(lia))).
Defined.
