(* ===== verification/Ring.v ===== *)
(** * Doubly linked lists as lists: shared definitions

    The kernel's lists (viengoos/list.h) and wait queues (viengoos/object.c)
    and the thread queues of libpthread are intrusive doubly linked lists.
    This file holds what their proofs share: families of lists in which an
    element is linked once ([separated]), and, for the lists with a [next] and a
    [prev] pointer per element, the neighbours that an element of a list has
    ([ring]) and how they change when the list does. *)

From S2P Require Import Prelude.

(** ** Families of disjoint lists *)

Section separated.
Context {K : Type} `{!EqDecision K}.
Implicit Types (Q : K -> list Z) (p : K).

Record separated Q : Prop := Separated {
  sep_nodup : forall p, NoDup (Q p);
  sep_place : forall p p' t, t ∈ Q p -> t ∈ Q p' -> p = p'
}.

(** Replacing the contents of one place: the cases a lookup can be in. *)
Lemma elem_insert Q p0 l p u :
  u ∈ <[p0 := l]> Q p <-> (p = p0 /\ u ∈ l) \/ (p <> p0 /\ u ∈ Q p).
Proof.
  destruct (decide (p = p0)) as [->|Hp];
    [rewrite fn_lookup_insert|rewrite fn_lookup_insert_ne by done]; naive_solver.
Qed.

(** Contents may shrink at a place, or take in an element that is nowhere. *)
Lemma separated_insert Q p0 l :
  separated Q -> NoDup l ->
  (forall u p, u ∈ l -> p <> p0 -> u ∉ Q p) -> separated (<[p0 := l]> Q).
Proof.
  intros [Hnd Hpl] Hl Hd. split.
  - intros p. destruct (decide (p = p0)) as [->|Hp];
      [now rewrite fn_lookup_insert|now rewrite fn_lookup_insert_ne].
  - intros p p' u. rewrite !elem_insert.
    intros [[-> ?]|[? ?]] [[-> ?]|[? ?]]; [done| | |eauto]; exfalso; eapply Hd; eauto.
Qed.

Lemma separated_add Q p t l1 l2 :
  separated Q -> (forall p', t ∉ Q p') -> Q p = l1 ++ l2 ->
  separated (<[p := l1 ++ t :: l2]> Q).
Proof.
  intros H Ht E. apply separated_insert; [done| |].
  - rewrite <- Permutation_middle. constructor; [|rewrite <- E; apply H].
    rewrite <- E. apply Ht.
  - intros u p' Hu Hp Hup. rewrite <- Permutation_middle, elem_of_cons, <- E in Hu.
    destruct Hu as [->|Hu]; [exact (Ht _ Hup)|].
    apply Hp. eapply sep_place; eauto.
Qed.

Lemma separated_push Q p t :
  separated Q -> (forall p', t ∉ Q p') -> separated (<[p := t :: Q p]> Q).
Proof. intros. now apply (separated_add Q p t []). Qed.

Lemma separated_shrink Q p0 l :
  separated Q -> sublist l (Q p0) -> separated (<[p0 := l]> Q).
Proof.
  intros H Hl. apply separated_insert; [done| |].
  - eapply sublist_NoDup, Hl. apply H.
  - intros u p Hu Hp Hup. apply Hp.
    exact (sep_place _ H _ _ _ Hup (elem_of_sublist _ _ _ Hu Hl)).
Qed.

(** Who is linked after a push. *)
Lemma linked_push Q p t u :
  (exists p', u ∈ <[p := t :: Q p]> Q p') <-> u = t \/ exists p', u ∈ Q p'.
Proof.
  setoid_rewrite elem_insert. split.
  - intros [p' [[-> [?|?]%elem_of_cons]|[_ ?]]]; eauto.
  - intros [->|[p' Hp]]; [exists p; left; split; [done|left]|].
    destruct (decide (p' = p)) as [->|]; [exists p|exists p'; auto].
    left. split; [done|now right].
Qed.

End separated.

(** ** Neighbours *)

Record pos := Pos { p_next : option Z; p_prev : option Z }.

Definition hd_or (l : list Z) (o : option Z) : option Z :=
  match l with [] => o | x :: _ => Some x end.
Fixpoint last_or (l : list Z) (o : option Z) : option Z :=
  match l with [] => o | x :: l => last_or l (Some x) end.

(** The neighbours of [u] in the list [l], when [pv] comes before the list and
    [nx] after it. *)
Fixpoint ring (pv : option Z) (l : list Z) (nx : option Z) (u : Z) : option pos :=
  match l with
  | [] => None
  | x :: l => if decide (u = x) then Some (Pos (hd_or l nx) pv)
              else ring (Some x) l nx u
  end.

Lemma hd_or_app l1 l2 o : hd_or (l1 ++ l2) o = hd_or l1 (hd_or l2 o).
Proof. now destruct l1. Qed.

Lemma last_or_app l1 l2 o : last_or (l1 ++ l2) o = last_or l2 (last_or l1 o).
Proof. revert o. induction l1 as [|x l1 IH]; intros o; cbn; auto. Qed.

Lemma last_or_snoc l x o : last_or (l ++ [x]) o = Some x.
Proof. now rewrite last_or_app. Qed.

Lemma last_or_elem l o z : last_or l o = Some z -> z ∈ l \/ l = [] /\ o = Some z.
Proof.
  revert o. induction l as [|x l IH]; intros o; cbn; [auto|].
  intros [H|[-> [= ->]]]%IH; left; [now right|left].
Qed.

Lemma hd_or_elem l o z : hd_or l o = Some z -> z ∈ l \/ l = [] /\ o = Some z.
Proof. destruct l as [|x l]; cbn; [auto|]. intros [= ->]. left. left. Qed.

Lemma last_or_some l x o : is_Some (last_or (x :: l) o).
Proof. cbn. revert x. induction l as [|y l IH]; intros x; cbn; eauto. Qed.

(** The last element does not depend on what comes before a nonempty list. *)
Lemma last_or_irrel l o o' : l <> [] -> last_or l o = last_or l o'.
Proof. now destruct l. Qed.

Lemma last_or_default l t d : default d (last_or l (Some t)) = default t (last_or l None).
Proof.
  destruct l as [|x l]; [done|]. rewrite (last_or_irrel _ (Some t) None) by done.
  now destruct (last_or_some l x None) as [z ->].
Qed.

Lemma last_or_cons l t : last_or l (Some t) = Some (default t (last_or l None)).
Proof.
  rewrite <- (last_or_default l t t). destruct l as [|x l]; [done|].
  cbn. now destruct (last_or_some l x None) as [z Hz]; cbn in Hz; rewrite Hz.
Qed.

Lemma ring_Some pv l nx u : is_Some (ring pv l nx u) <-> u ∈ l.
Proof.
  revert pv. induction l as [|x l IH]; intros pv; cbn.
  - split; [intros [? ?]; done|intros []%not_elem_of_nil].
  - rewrite elem_of_cons. case_decide as E; [naive_solver|]. rewrite IH. naive_solver.
Qed.

Lemma ring_None pv l nx u : ring pv l nx u = None <-> u ∉ l.
Proof. rewrite <- (ring_Some pv l nx u), <- eq_None_not_Some. done. Qed.

Lemma ring_elem pv l nx u p : ring pv l nx u = Some p -> u ∈ l.
Proof. intros H. apply (ring_Some pv l nx). eauto. Qed.

Lemma ring_app pv l1 l2 nx u :
  ring pv (l1 ++ l2) nx u =
  match ring pv l1 (hd_or l2 nx) u with
  | Some p => Some p
  | None => ring (last_or l1 pv) l2 nx u
  end.
Proof.
  revert pv. induction l1 as [|x l1 IH]; intros pv; cbn; [done|].
  case_decide; [now rewrite hd_or_app|apply IH].
Qed.

(** Changing what comes after the list changes the last element only. *)
Lemma ring_nx pv l nx nx' u p :
  NoDup l -> ring pv l nx u = Some p ->
  ring pv l nx' u = Some (if decide (last_or l None = Some u)
                          then Pos nx' (p_prev p) else p).
Proof.
  revert pv. induction l as [|x l IH]; intros pv; cbn; [done|].
  intros [Hx Hnd]%NoDup_cons. destruct (decide (u = x)) as [E|E].
  - intros [= <-]. subst u. destruct l as [|y l]; cbn; [now rewrite decide_True|].
    rewrite decide_False; [done|]. intros H. apply Hx.
    destruct (last_or_elem l (Some y) x H) as [|[_ [= ->]]]; [now right|left].
  - intros H. rewrite (IH _ Hnd H). destruct l as [|y l]; [done|]. done.
Qed.

(** Changing what comes before the list changes the first element only. *)
Lemma ring_pv pv pv' l nx u p :
  ring pv l nx u = Some p ->
  ring pv' l nx u = Some (if decide (hd_or l None = Some u)
                          then Pos (p_next p) pv' else p).
Proof.
  destruct l as [|x l]; cbn; [done|]. destruct (decide (u = x)) as [E|E].
  - intros [= <-]. subst. now rewrite decide_True.
  - intros ->. rewrite decide_False; congruence.
Qed.

(** Where an element stands. *)
Lemma ring_mid pv l1 t l2 nx :
  t ∉ l1 -> ring pv (l1 ++ t :: l2) nx t = Some (Pos (hd_or l2 nx) (last_or l1 pv)).
Proof.
  intros H. rewrite ring_app. rewrite (proj2 (ring_None _ _ _ _) H). cbn.
  now rewrite decide_True.
Qed.

(** The neighbours that are given are elements, or what is around the list. *)
Lemma ring_next_elem pv l nx u p z :
  ring pv l nx u = Some p -> p_next p = Some z -> z ∈ l \/ nx = Some z.
Proof.
  revert pv. induction l as [|x l IH]; intros pv; cbn; [done|]. case_decide as E.
  - intros [= <-]. cbn. intros [H|[-> H]]%hd_or_elem; [left; now right|now right].
  - intros H Hz. destruct (IH _ H Hz); [left; now right|now right].
Qed.

Lemma ring_prev_elem pv l nx u p z :
  ring pv l nx u = Some p -> p_prev p = Some z -> z ∈ l \/ pv = Some z.
Proof.
  revert pv. induction l as [|x l IH]; intros pv; cbn; [done|]. case_decide as E.
  - intros [= <-]. auto.
  - intros H Hz. destruct (IH _ H Hz) as [|[= ->]]; [left; now right|left; left].
Qed.

(** Inserting an element, or, read backwards, removing it: its neighbours get a
    new neighbour, and nothing else changes. *)
Lemma ring_insert l1 t l2 u :
  NoDup (l1 ++ t :: l2) ->
  ring None (l1 ++ t :: l2) None u =
  if decide (u = t) then Some (Pos (hd_or l2 None) (last_or l1 None))
  else (fun p => Pos (if decide (last_or l1 None = Some u) then Some t else p_next p)
                     (if decide (hd_or l2 None = Some u) then Some t else p_prev p))
       <$> ring None (l1 ++ l2) None u.
Proof.
  intros Hnd. apply NoDup_app in Hnd as (Hn1&Hd&[Ht2 Hn2]%NoDup_cons).
  assert (Ht1 : t ∉ l1) by (intros H; apply (Hd _ H); left).
  case_decide as E; [subst; now apply ring_mid|].
  rewrite !ring_app. cbn [ring hd_or]. rewrite (decide_False (P := u = t)) by done.
  destruct (ring None l1 (hd_or l2 None) u) as [p|] eqn:E1.
  - rewrite (ring_nx _ _ _ (Some t) _ _ Hn1 E1). cbn.
    apply ring_elem in E1. rewrite (decide_False (P := hd_or l2 None = Some u)).
    + case_decide; [done|]. now destruct p.
    + intros [Hu|[_ ?]]%hd_or_elem; [|done]. apply (Hd _ E1). now right.
  - apply ring_None in E1. rewrite (proj2 (ring_None None l1 (Some t) u) E1).
    assert (Hl : last_or l1 None <> Some u) by (intros [Hu|[_ ?]]%last_or_elem; done).
    destruct (ring (last_or l1 None) l2 None u) as [p|] eqn:E2; cbn.
    + rewrite (ring_pv _ (Some t) _ _ _ _ E2), (decide_False (P := last_or l1 None = Some u)) by done.
      case_decide; [done|]. now destruct p.
    + apply ring_None in E2. now apply ring_None.
Qed.

Lemma NoDup_delete_mid (l1 : list Z) t l2 : NoDup (l1 ++ t :: l2) -> NoDup (l1 ++ l2).
Proof.
  rewrite <- Permutation_middle. now intros [_ ?]%NoDup_cons.
Qed.

Lemma last_or_insert l1 t l2 o : last_or (l1 ++ t :: l2) o = last_or l2 (Some t).
Proof. now rewrite last_or_app. Qed.


Lemma ring_after x l nx u p : ring (Some x) l nx u = Some p -> p_prev p <> None.
Proof.
  revert x. induction l as [|y l IH]; intros x; cbn; [done|].
  case_decide; [now intros [= <-]|eauto].
Qed.

(** The first element is the one with nothing before it, the last the one with
    nothing after it. *)
Lemma ring_first l nx u p :
  ring None l nx u = Some p -> p_prev p = None <-> hd_or l None = Some u.
Proof.
  destruct l as [|x l]; cbn; [done|]. case_decide as E.
  - intros [= <-]. subst. naive_solver.
  - intros H. apply ring_after in H. split; [done|]. congruence.
Qed.

Lemma ring_last pv l u p :
  NoDup l -> ring pv l None u = Some p -> p_next p = None <-> last_or l None = Some u.
Proof.
  revert pv. induction l as [|x l IH]; intros pv; cbn; [done|].
  intros [Hx Hnd]%NoDup_cons. destruct (decide (u = x)) as [E|E].
  - intros [= <-]. subst. cbn. destruct l as [|y l]; [done|]. cbn. split; [done|].
    intros [H|[_ [= ->]]]%last_or_elem; exfalso; apply Hx; [now right|left].
  - intros H. rewrite (IH _ Hnd H). destruct l as [|y l]; [done|]. done.
Qed.

Lemma last_or_split l u : last_or l None = Some u -> exists l', l = l' ++ [u].
Proof.
  destruct l as [|x l _] using rev_ind; [done|].
  rewrite last_or_snoc. intros [= ->]. eauto.
Qed.

(** The neighbours at the place where two lists meet. *)
Lemma ring_meet l1 l2 u p :
  NoDup (l1 ++ l2) -> ring None (l1 ++ l2) None u = Some p ->
  (last_or l1 None = Some u -> p_next p = hd_or l2 None) /\
  (hd_or l2 None = Some u -> p_prev p = last_or l1 None).
Proof.
  intros Hnd Hr. split; intros Hu.
  - apply last_or_split in Hu as [l' ->].
    rewrite <- app_assoc in Hr, Hnd. cbn in Hr, Hnd. rewrite ring_mid in Hr; [naive_solver|].
    apply NoDup_app in Hnd as (_&Hd&_). intros Hx. apply (Hd _ Hx). left.
  - destruct l2 as [|x l2]; [done|]. cbn in Hu. simplify_eq.
    rewrite ring_mid in Hr; [naive_solver|].
    apply NoDup_app in Hnd as (_&Hd&_). intros Hx. apply (Hd _ Hx). left.
Qed.
