(* ===== verification/KList.v ===== *)
(** * The kernel's linked lists (viengoos/list.h)

    An intrusive doubly linked list with a count.  The list's header points to
    the first node; the first node's [prev] pointer is marked (its low bit is
    set, a sentinel) and points to the last node, and the last node's [next]
    pointer is marked and points to the header.  The pointers of a node that is
    on no list are null.

    [rep m L] says that the memory [m] holds the lists [L]; each operation is
    proved to be the list operation it stands for, on all the lists at once. *)

From S2P Require Import Prelude Ring.

Module KList.

(** A pointer to a node or, marked, to a node or a header. *)
Inductive nptr :=
| Null
| Node (t : Z)
| Sentinel (x : Z).

#[export] Instance nptr_eq_dec : EqDecision nptr.
Proof. solve_decision. Defined.

(** [struct list_node] *)
Record list_node := ListNode { next : nptr; prev : nptr }.

(** [struct list], without its name *)
Record list_header := ListHeader { head : option Z; count : Z }.

Record lmem := Lmem { headers : Z -> list_header; nodes : Z -> list_node }.

Definition set_next (m : lmem) (t : Z) (v : nptr) : lmem :=
  Lmem (headers m) (<[t := ListNode v (prev (nodes m t))]> (nodes m)).
Definition set_prev (m : lmem) (t : Z) (v : nptr) : lmem :=
  Lmem (headers m) (<[t := ListNode (next (nodes m t)) v]> (nodes m)).
Definition set_header (m : lmem) (a : Z) (h : list_header) : lmem :=
  Lmem (<[a := h]> (headers m)) (nodes m).
Definition set_list_head (m : lmem) (a : Z) (v : option Z) : lmem :=
  set_header m a (ListHeader v (count (headers m a))).
Definition add_count (m : lmem) (a n : Z) : lmem :=
  set_header m a (ListHeader (head (headers m a)) (count (headers m a) + n)).

(** [LIST_SENTINEL_P] and [LIST_PTR]; [LIST_SENTINEL] is [Sentinel]. *)
Definition sentinel_p (p : nptr) : bool :=
  match p with Sentinel _ => true | _ => false end.
Definition list_ptr (p : nptr) : option Z :=
  match p with Null => None | Node t | Sentinel t => Some t end.
Definition null_p (p : nptr) : bool :=
  match p with Null => true | _ => false end.

Definition list_node_attached (m : lmem) (node : Z) : bool :=
  negb (null_p (next (nodes m node))).

Definition list_init (m : lmem) (a : Z) : lmem := set_header m a (ListHeader None 0).

Definition list_head (m : lmem) (a : Z) : option Z := head (headers m a).

(** The checks on a nonempty list: its last node. *)
Definition tail_of (m : lmem) (a h : Z) : exec Z :=
  _ ← check (sentinel_p (prev (nodes m h))) assertion_failed;
  access (list_ptr (prev (nodes m h))).

Definition list_tail (m : lmem) (a : Z) : exec (option Z) :=
  match head (headers m a) with
  | None => Ret None
  | Some h =>
      t ← tail_of m a h;
      _ ← check (bool_decide (list_ptr (next (nodes m t)) = Some a)) assertion_failed;
      Ret (Some t)
  end.

Definition list_next (m : lmem) (node : Z) : option Z :=
  match next (nodes m node) with Node t => Some t | _ => None end.
Definition list_prev (m : lmem) (node : Z) : option Z :=
  match prev (nodes m node) with Node t => Some t | _ => None end.

(** The loop of [list_count]: the nodes from [x] on. *)
Fixpoint count_from (fuel : nat) (m : lmem) (x : option Z) : exec Z :=
  match fuel with
  | O => Crash out_of_fuel
  | S fuel =>
      match x with
      | None => Ret 0
      | Some t => n ← count_from fuel m (list_next m t); Ret (1 + n)
      end
  end.

Definition list_count (fuel : nat) (m : lmem) (a : Z) : exec Z :=
  n ← count_from fuel m (list_head m a);
  _ ← check (n =? count (headers m a)) assertion_failed;
  Ret (count (headers m a)).

Definition unattached (m : lmem) (item : Z) : exec unit :=
  _ ← check (null_p (next (nodes m item))) assertion_failed;
  check (null_p (prev (nodes m item))) assertion_failed.

Definition check_tail (m : lmem) (a tail : Z) : exec unit :=
  _ ← check (sentinel_p (next (nodes m tail))) assertion_failed;
  check (bool_decide (list_ptr (next (nodes m tail)) = Some a)) assertion_failed.

Definition list_push (m : lmem) (a item : Z) : exec lmem :=
  _ ← unattached m item;
  m ← match head (headers m a) with
      | Some h =>
          tail ← tail_of m a h;
          _ ← check_tail m a tail;
          let m := set_next m item (Node h) in
          let m := set_prev m item (Sentinel tail) in
          Ret (set_prev m h (Node item))
      | None =>
          _ ← check (count (headers m a) =? 0) assertion_failed;
          let m := set_next m item (Sentinel a) in
          Ret (set_prev m item (Sentinel item))
      end;
  Ret (add_count (set_list_head m a (Some item)) a 1).

Definition list_queue (m : lmem) (a item : Z) : exec lmem :=
  _ ← unattached m item;
  m ← match head (headers m a) with
      | Some h =>
          tail ← tail_of m a h;
          _ ← check_tail m a tail;
          let m := set_next m item (Sentinel a) in
          let m := set_prev m item (Node tail) in
          let m := set_prev m h (Sentinel item) in
          Ret (set_next m tail (Node item))
      | None =>
          _ ← check (count (headers m a) =? 0) assertion_failed;
          let m := set_next m item (Sentinel a) in
          let m := set_prev m item (Sentinel item) in
          Ret (set_list_head m a (Some item))
      end;
  Ret (add_count m a 1).

Definition list_insert_after (m : lmem) (a item : Z) (node : option Z) : exec lmem :=
  _ ← unattached m item;
  match node with
  | None => list_push m a item
  | Some node =>
      let m := set_next m item (next (nodes m node)) in
      let m := set_next m node (Node item) in
      let m := set_prev m item (Node node) in
      m ← match next (nodes m item) with
          | Sentinel _ =>
              h ← access (head (headers m a));
              _ ← check (sentinel_p (prev (nodes m h))) assertion_failed;
              _ ← check (bool_decide (list_ptr (prev (nodes m h)) = Some node))
                    assertion_failed;
              Ret (set_prev m h (Sentinel item))
          | Node n => Ret (set_prev m n (Node item))
          | Null => Crash invalid_access
          end;
      Ret (add_count m a 1)
  end.

(** The walk of [list_unlink]'s assertion: where the list of [i] ends. *)
Fixpoint walk_end (fuel : nat) (m : lmem) (i : Z) : exec Z :=
  match fuel with
  | O => Crash out_of_fuel
  | S fuel =>
      match next (nodes m i) with
      | Sentinel x => Ret x
      | Node t => walk_end fuel m t
      | Null => Crash invalid_access
      end
  end.

(** The four cases of [list_unlink]. *)
Definition unlink_item (m : lmem) (a item : Z) : exec lmem :=
  match next (nodes m item), prev (nodes m item) with
  | Sentinel x, Sentinel _ =>
      _ ← check (count (headers m a) =? 1) assertion_failed;
      _ ← check (bool_decide (head (headers m a) = Some item)) assertion_failed;
      _ ← check (x =? a) assertion_failed;
      Ret (set_list_head m a None)
  | nx, Sentinel p =>
      _ ← check (sentinel_p (next (nodes m p))) assertion_failed;
      _ ← check (bool_decide (list_ptr (next (nodes m p)) = Some a)) assertion_failed;
      let m := set_list_head m a (list_ptr nx) in
      n ← access (list_ptr nx);
      Ret (set_prev m n (Sentinel p))
  | Sentinel x, pv =>
      _ ← check (x =? a) assertion_failed;
      h ← access (head (headers m a));
      p ← access (list_ptr pv);
      let m := set_prev m h (Sentinel p) in
      Ret (set_next m p (Sentinel x))
  | nx, pv =>
      n ← access (list_ptr nx);
      p ← access (list_ptr pv);
      let m := set_prev m n pv in
      Ret (set_next m p nx)
  end.

Definition list_unlink (fuel : nat) (m : lmem) (a item : Z) : exec lmem :=
  _ ← check (negb (null_p (next (nodes m item)))) assertion_failed;
  _ ← check (negb (null_p (prev (nodes m item)))) assertion_failed;
  e ← walk_end fuel m item;
  _ ← check (e =? a) assertion_failed;
  m ← unlink_item m a item;
  let m := set_next m item Null in
  let m := set_prev m item Null in
  Ret (add_count m a (-1)).

Definition list_move (m : lmem) (target source : Z) : exec lmem :=
  _ ← check (bool_decide (head (headers m target) = None)) assertion_failed;
  _ ← check (count (headers m target) =? 0) assertion_failed;
  let m := set_header m target (headers m source) in
  m ← match head (headers m target) with
      | Some h =>
          t ← access (list_ptr (prev (nodes m h)));
          Ret (set_next m t (Sentinel target))
      | None => Ret m
      end;
  Ret (set_header m source (ListHeader None 0)).

Definition list_join (m : lmem) (target source : Z) : exec lmem :=
  match head (headers m source) with
  | None => Ret m
  | Some sh =>
      match head (headers m target) with
      | None => list_move m target source
      | Some th =>
          tt ← access (list_ptr (prev (nodes m th)));
          let m := set_next m tt (Node sh) in
          st ← access (list_ptr (prev (nodes m sh)));
          let m := set_next m st (Sentinel target) in
          sources_tail ← access (list_ptr (prev (nodes m sh)));
          tt ← access (list_ptr (prev (nodes m th)));
          let m := set_prev m sh (Node tt) in
          let m := set_prev m th (Sentinel sources_tail) in
          let m := set_list_head m source None in
          let m := add_count m target (count (headers m source)) in
          Ret (set_header m source (ListHeader (head (headers m source)) 0))
      end
  end.

(** ** The representation *)

(** The pointers of a node with neighbours [p], on the list with header [a] and
    last node [lst]. *)
Definition enc (a : Z) (lst : option Z) (p : pos) : list_node :=
  ListNode (match p_next p with Some n => Node n | None => Sentinel a end)
    (match p_prev p with
     | Some n => Node n
     | None => match lst with Some z => Sentinel z | None => Null end
     end).

Record rep (m : lmem) (L : Z -> list Z) : Prop := Rep {
  rep_sep : separated L;
  rep_header : forall a, headers m a = ListHeader (hd_or (L a) None) (Z.of_nat (length (L a)));
  rep_node : forall a u p, ring None (L a) None u = Some p ->
    nodes m u = enc a (last_or (L a) None) p;
  rep_free : forall u, (forall a, u ∉ L a) -> nodes m u = ListNode Null Null
}.

(** What an operation on the list of [a] has to establish. *)
Lemma rep_change m m' L a l :
  rep m L -> separated (<[a := l]> L) ->
  headers m' a = ListHeader (hd_or l None) (Z.of_nat (length l)) ->
  (forall a', a' <> a -> headers m' a' = headers m a') ->
  (forall u p, ring None l None u = Some p -> nodes m' u = enc a (last_or l None) p) ->
  (forall u, u ∉ l -> nodes m' u = if decide (u ∈ L a) then ListNode Null Null else nodes m u) ->
  rep m' (<[a := l]> L).
Proof.
  intros [Hsep Hh Hn Hf] Hs' Ha Ha' Hl Ho. split; [done|..].
  - intros a'. rewrite fn_at. case_decide; [now subst|]. now rewrite Ha'.
  - intros a' u p. rewrite fn_at. case_decide as E; [subst; now apply Hl|].
    intros Hr. assert (Hu := ring_elem _ _ _ _ _ Hr).
    rewrite Ho, decide_False; [eauto|..].
    + intros Hx. apply E. eapply (sep_place _ Hsep); eauto.
    + intros Hx. apply E. eapply (sep_place _ Hs' a' a u); rewrite fn_at; now case_decide.
  - intros u Hu. assert (Hul : u ∉ l).
    { specialize (Hu a). rewrite fn_at in Hu. now case_decide. }
    rewrite Ho by done. case_decide as E; [done|]. apply Hf.
    intros a' Ha0. specialize (Hu a'). rewrite fn_at in Hu. case_decide; [now subst|done].
Qed.

Lemma rep_mid m L a l1 t l2 :
  rep m L -> L a = l1 ++ t :: l2 ->
  nodes m t = enc a (last_or l2 (Some t)) (Pos (hd_or l2 None) (last_or l1 None)).
Proof.
  intros H E. rewrite (rep_node _ _ H a t (Pos (hd_or l2 None) (last_or l1 None))).
  - rewrite E. now rewrite last_or_insert.
  - rewrite E. apply ring_mid. intros Ht.
    assert (Hnd := sep_nodup _ (rep_sep _ _ H) a). rewrite E in Hnd.
    apply NoDup_app in Hnd as (_&Hd&_). apply (Hd _ Ht). left.
Qed.

(** Inserting [t] between [l1] and [l2]: the memory that it takes. *)
Lemma rep_insert m m' L a l1 t l2 :
  rep m L -> L a = l1 ++ l2 -> (forall a', t ∉ L a') ->
  headers m' a = ListHeader (hd_or (l1 ++ t :: l2) None)
                   (Z.of_nat (length (l1 ++ t :: l2))) ->
  (forall a', a' <> a -> headers m' a' = headers m a') ->
  nodes m' t = enc a (last_or l2 (Some t)) (Pos (hd_or l2 None) (last_or l1 None)) ->
  (forall u, u <> t -> nodes m' u =
     ListNode (if decide (last_or l1 None = Some u) then Node t else next (nodes m u))
       (if decide (hd_or l2 None = Some u) then Node t
        else if decide (l2 = [] /\ hd_or l1 None = Some u) then Sentinel t
        else prev (nodes m u))) ->
  rep m' (<[a := l1 ++ t :: l2]> L).
Proof.
  intros H E Ht Hh Hh' Et Eu.
  assert (Hs := separated_add L a t l1 l2 (rep_sep _ _ H) Ht E).
  assert (Hnd := sep_nodup _ Hs a). rewrite fn_lookup_insert in Hnd.
  apply (rep_change m); [done..| |].
  - intros u p. rewrite ring_insert by done. destruct (decide (u = t)) as [->|Hne].
    { intros [= <-]. now rewrite Et, last_or_insert. }
    destruct (ring None (l1 ++ l2) None u) as [p0|] eqn:Er; [|done]. cbn. intros [= <-].
    rewrite Eu by done. rewrite <- E in Er. rewrite (rep_node _ _ H _ _ _ Er). rewrite E in *.
    assert (Hf := ring_first _ _ _ _ Er). unfold enc. cbn. f_equal; [now case_decide|].
    case_decide as E2; [done|]. rewrite last_or_insert, last_or_app.
    destruct (p_prev p0) as [q|] eqn:Eq.
    + rewrite decide_False; [done|]. intros [-> Hx]. rewrite app_nil_r in Hf.
      apply Hf in Hx. done.
    + assert (Hx : hd_or l1 None = Some u).
      { assert (Hx := proj1 Hf eq_refl). rewrite hd_or_app in Hx. now destruct l1. }
      case_decide as E3; [now destruct E3 as [-> _]|].
      rewrite (last_or_irrel l2 _ (Some t)); [done|]. naive_solver.
  - intros u Hu. rewrite Eu by set_solver.
    rewrite (decide_False (P := last_or l1 None = Some u))
      by (intros [?|[_ ?]]%last_or_elem; [set_solver|done]).
    rewrite (decide_False (P := hd_or l2 None = Some u))
      by (intros [?|[_ ?]]%hd_or_elem; [set_solver|done]).
    rewrite (decide_False (P := l2 = [] /\ _))
      by (intros [_ [?|[_ ?]]%hd_or_elem]; [set_solver|done]).
    rewrite decide_False by (rewrite E; set_solver). now destruct (nodes m u).
Qed.

(** Removing [t] from between [l1] and [l2]. *)
Lemma rep_remove m m' L a l1 t l2 :
  rep m L -> L a = l1 ++ t :: l2 ->
  headers m' a = ListHeader (hd_or (l1 ++ l2) None) (Z.of_nat (length (l1 ++ l2))) ->
  (forall a', a' <> a -> headers m' a' = headers m a') ->
  nodes m' t = ListNode Null Null ->
  (forall u, u <> t -> nodes m' u =
     ListNode (if decide (last_or l1 None = Some u) then next (nodes m t) else next (nodes m u))
       (if decide (hd_or l2 None = Some u) then prev (nodes m t)
        else if decide (l2 = [] /\ hd_or l1 None = Some u)
             then match last_or l1 None with Some z => Sentinel z | None => Null end
        else prev (nodes m u))) ->
  rep m' (<[a := l1 ++ l2]> L).
Proof.
  intros H E Hh Hh' Et Eu.
  assert (Hnd := sep_nodup _ (rep_sep _ _ H) a). rewrite E in Hnd.
  assert (Htn : t ∉ l1 ++ l2).
  { rewrite <- Permutation_middle in Hnd. now apply NoDup_cons in Hnd as [? _]. }
  apply (rep_change m); [done|..|done|done| |].
  - apply separated_shrink; [apply H|]. rewrite E.
    apply sublist_app; [done|]. now apply sublist_cons.
  - intros u p Hr. assert (Hne : u <> t) by (intros ->; apply Htn; eapply ring_elem; eauto).
    assert (Hold := ring_insert l1 t l2 u Hnd). rewrite decide_False, Hr in Hold by done.
    cbn in Hold. rewrite <- E in Hold. rewrite Eu by done.
    rewrite (rep_node _ _ H _ _ _ Hold), (rep_mid _ _ _ _ _ _ H E), E.
    assert (Hf := ring_first _ _ _ _ Hr). rewrite last_or_insert, last_or_app.
    destruct (ring_meet _ _ _ _ (NoDup_delete_mid _ _ _ Hnd) Hr) as [Hm1 Hm2].
    unfold enc. cbn. f_equal.
    + case_decide as E2; [now rewrite (Hm1 E2)|done].
    + destruct (decide (hd_or l2 None = Some u)) as [E2|E2].
      { rewrite (Hm2 E2). destruct (last_or l1 None); [done|].
        rewrite (last_or_irrel l2 _ None); [done|]. intros ->. done. }
      destruct (p_prev p) as [q|] eqn:Eq.
      * rewrite decide_False; [done|]. intros [-> Hx]. rewrite app_nil_r in Hf.
        apply Hf in Hx. done.
      * assert (Hx : hd_or l1 None = Some u).
        { assert (Hx := proj1 Hf eq_refl). rewrite hd_or_app in Hx. now destruct l1. }
        destruct (decide (l2 = [] /\ hd_or l1 None = Some u)) as [[-> _]|E3]; [done|].
        rewrite (last_or_irrel l2 (last_or l1 None) (Some t)); [done|]. naive_solver.
  - intros u Hu. destruct (decide (u = t)) as [->|Hne].
    { rewrite Et, decide_True; [done|]. rewrite E. set_solver. }
    rewrite Eu by done.
    rewrite (decide_False (P := last_or l1 None = Some u))
      by (intros [?|[_ ?]]%last_or_elem; [set_solver|done]).
    rewrite (decide_False (P := hd_or l2 None = Some u))
      by (intros [?|[_ ?]]%hd_or_elem; [set_solver|done]).
    rewrite (decide_False (P := l2 = [] /\ _))
      by (intros [_ [?|[_ ?]]%hd_or_elem]; [set_solver|done]).
    rewrite decide_False by (rewrite E; set_solver). now destruct (nodes m u).
Qed.

(** ** The operations *)

Lemma head_rep m L a : rep m L -> head (headers m a) = hd_or (L a) None.
Proof. intros H. now rewrite (rep_header _ _ H). Qed.

Lemma count_rep m L a : rep m L -> count (headers m a) = Z.of_nat (length (L a)).
Proof. intros H. now rewrite (rep_header _ _ H). Qed.

(** The first and the last node of a nonempty list. *)
Lemma first_last m L a h :
  rep m L -> hd_or (L a) None = Some h ->
  exists z, last_or (L a) None = Some z /\ prev (nodes m h) = Sentinel z /\
            next (nodes m z) = Sentinel a /\ h ∈ L a /\ z ∈ L a.
Proof.
  intros H Hh. destruct (L a) as [|x l] eqn:E; [done|]. cbn in Hh. simplify_eq.
  assert (Hs := last_or_some l h None). destruct Hs as [z Hz]. exists z. split; [done|].
  rewrite (rep_mid _ _ a [] h l H E). cbn in Hz |- *. rewrite Hz. split; [done|].
  assert (Hin : z ∈ h :: l) by (destruct (last_or_elem _ _ _ Hz) as [|[_ [= ->]]]; [now right|left]).
  split; [|split; [left|done]].
  apply (last_or_split (h :: l)) in Hz as [l' El].
  rewrite (rep_mid _ _ a l' z [] H) by (rewrite E; exact El). done.
Qed.

Lemma unattached_rep {A} m L t (k : exec A) :
  rep m L -> (forall a, t ∉ L a) -> (_ ← unattached m t; k) = k.
Proof. intros H Ht. unfold unattached. now rewrite (rep_free _ _ H t Ht). Qed.

Lemma tail_of_rep m L a h :
  rep m L -> hd_or (L a) None = Some h ->
  exists z, last_or (L a) None = Some z /\ tail_of m a h = Ret z /\
            check_tail m a z = Ret tt.
Proof.
  intros H Hh. destruct (first_last _ _ _ _ H Hh) as (z&Hz&Hp&Hn&_).
  exists z. split; [done|]. unfold tail_of, check_tail. rewrite Hp, Hn. cbn.
  now rewrite bool_decide_eq_true_2.
Qed.

(** Read the memory after a sequence of writes at known addresses. *)
Ltac nodes_at :=
  cbn -[length]; rewrite ?fn_at;
  repeat match goal with
  | |- context [@decide ?P _] =>
      (rewrite (decide_True (P := P)) by (split || idtac; congruence)) ||
      (rewrite (decide_False (P := P)) by (congruence || (intros [? ?]; congruence))) ||
      destruct (decide P)
  end; simplify_eq; cbn -[length];
  try done; try (match goal with |- nodes ?m ?u = _ => now destruct (nodes m u) end).

Lemma push_rep m L a t :
  rep m L -> (forall a', t ∉ L a') ->
  exists m', list_push m a t = Ret m' /\ rep m' (<[a := t :: L a]> L).
Proof.
  intros H Ht. unfold list_push. rewrite (unattached_rep m L) by done.
  rewrite (head_rep m L) by done.
  assert (Hfree := rep_free _ _ H t Ht). assert (Hta := Ht a).
  destruct (hd_or (L a) None) as [h|] eqn:Eh.
  - destruct (tail_of_rep m L a h H Eh) as (z&Hz&->&E2). cbn. rewrite E2. cbn.
    eexists. split; [reflexivity|].
    destruct (first_last _ _ _ _ H Eh) as (z'&Hz'&Hp&Hn&Hin&Hin').
    assert (h <> t) by congruence.
    destruct (L a) as [|x l] eqn:El; [done|]. cbn in Eh. simplify_eq.
    apply (rep_insert m _ L a [] t (h :: l)); try done.
    + nodes_at. rewrite (count_rep m L), El by done. cbn. f_equal. lia.
    + intros a' Ha'. nodes_at.
    + nodes_at. unfold enc. cbn in Hz |- *. now rewrite Hz.
    + intros u Hu. nodes_at.
  - rewrite (count_rep m L) by done.
    assert (E : L a = []) by (now destruct (L a)). rewrite E. cbn.
    eexists. split; [reflexivity|].
    apply (rep_insert m _ L a [] t []); try done.
    + nodes_at. now rewrite (count_rep m L), E by done.
    + intros a' Ha'. nodes_at.
    + nodes_at.
    + intros u Hu. nodes_at.
Qed.

Lemma queue_rep m L a t :
  rep m L -> (forall a', t ∉ L a') ->
  exists m', list_queue m a t = Ret m' /\ rep m' (<[a := L a ++ [t]]> L).
Proof.
  intros H Ht. unfold list_queue. rewrite (unattached_rep m L) by done.
  rewrite (head_rep m L) by done.
  assert (Hfree := rep_free _ _ H t Ht). assert (Hta := Ht a).
  destruct (hd_or (L a) None) as [h|] eqn:Eh.
  - destruct (tail_of_rep m L a h H Eh) as (z&Hz&->&E2). cbn. rewrite E2. cbn.
    eexists. split; [reflexivity|].
    destruct (first_last _ _ _ _ H Eh) as (z'&Hz'&Hp&Hn&Hin&Hin').
    assert (h <> t) by congruence. assert (z' = z) as -> by congruence.
    assert (z <> t) by congruence.
    apply (rep_insert m _ L a (L a) t []); try done.
    + now rewrite app_nil_r.
    + nodes_at. rewrite (count_rep m L) by done. rewrite length_app, (head_rep m L) by done.
      destruct (L a); [done|]. simplify_eq/=. f_equal. lia.
    + intros a' Ha'. nodes_at.
    + nodes_at. rewrite Hz. done.
    + intros u Hu. rewrite Hz, Eh. nodes_at.
  - rewrite (count_rep m L) by done.
    assert (E : L a = []) by (now destruct (L a)). rewrite E. cbn.
    eexists. split; [reflexivity|].
    apply (rep_insert m _ L a [] t []); try done.
    + nodes_at. now rewrite (count_rep m L), E by done.
    + intros a' Ha'. nodes_at.
    + nodes_at.
    + intros u Hu. nodes_at.
Qed.

(** Symbolic execution: the memory is read through the writes, and what is known
    of the nodes and the headers is used. *)
Ltac run :=
  repeat first
  [ progress (cbn -[length])
  | rewrite fn_at
  | match goal with
    | H : next (nodes ?m ?u) = _ |- context [next (nodes ?m ?u)] => rewrite H
    | H : prev (nodes ?m ?u) = _ |- context [prev (nodes ?m ?u)] => rewrite H
    | H : headers ?m ?u = _ |- context [headers ?m ?u] => rewrite H
    | |- context [@bool_decide ?P _] => rewrite (bool_decide_eq_true_2 P) by congruence
    | |- context [?x =? ?x] => rewrite (Z.eqb_refl x)
    end
  | match goal with
    | |- context [@decide ?P _] =>
        (rewrite (decide_True (P := P)) by (split || idtac; congruence)) ||
        (rewrite (decide_False (P := P)) by (congruence || (intros [? ?]; congruence))) ||
        destruct (decide P); simplify_eq
    end
  | match goal with H : nodes ?m ?u = _ |- context [nodes ?m ?u] => rewrite H end ].

Lemma insert_after_rep m L a t l1 n l2 :
  rep m L -> (forall a', t ∉ L a') -> L a = l1 ++ n :: l2 ->
  exists m', list_insert_after m a t (Some n) = Ret m' /\
             rep m' (<[a := l1 ++ n :: t :: l2]> L).
Proof.
  intros H Ht E. unfold list_insert_after. rewrite (unattached_rep m L) by done.
  assert (Hfree := rep_free _ _ H t Ht). assert (Hta := Ht a).
  assert (Hn := rep_mid _ _ _ _ _ _ H E).
  assert (Hnt : n <> t) by (intros ->; apply Hta; rewrite E; set_solver).
  assert (E' : L a = (l1 ++ [n]) ++ l2) by (rewrite E; now rewrite <- app_assoc).
  replace (l1 ++ n :: t :: l2) with ((l1 ++ [n]) ++ t :: l2) by now rewrite <- app_assoc.
  assert (Hlast : last_or (l1 ++ [n]) None = Some n) by apply last_or_snoc.
  assert (exists h, hd_or (l1 ++ [n]) None = Some h) as [h Ehl] by (destruct l1; cbn; eauto).
  assert (Eh : hd_or (L a) None = Some h) by (rewrite E; destruct l1; cbn in *; congruence).
  destruct (first_last _ _ _ _ H Eh) as (z&Hz&Hp&Hnz&Hin&_).
  assert (h <> t) by congruence.
  assert (Hh : headers m a = ListHeader (Some h)
                 (Z.of_nat (length ((l1 ++ [n]) ++ t :: l2)) - 1)).
  { rewrite (rep_header _ _ H), Eh, E', !length_app. cbn [length]. f_equal. lia. }
  assert (Hh' : hd_or ((l1 ++ [n]) ++ t :: l2) None = Some h)
    by (destruct l1; cbn in *; congruence).
  unfold enc in Hn. destruct l2 as [|x l2]; cbn in Hn.
  - assert (z = n) as -> by (rewrite E, last_or_insert in Hz; cbn in Hz; congruence).
    destruct (decide (h = n)) as [->|].
    all: eexists; (split; [run; reflexivity|]).
    all: apply (rep_insert m _ L a (l1 ++ [n]) t []); try done.
    all: rewrite ?Ehl, ?Hh', ?Hlast; intros; nodes_at.
    all: rewrite Hh; cbn -[length]; f_equal; lia.
  - assert (Hnd := sep_nodup _ (rep_sep _ _ H) a). rewrite E in Hnd, Hta.
    apply NoDup_app in Hnd as (_&_&[Hnx _]%NoDup_cons).
    assert (n <> x) by set_solver. assert (t <> x) by set_solver.
    eexists. split; [run; reflexivity|].
    apply (rep_insert m _ L a (l1 ++ [n]) t (x :: l2)); try done.
    all: rewrite ?Ehl, ?Hh', ?Hlast; intros; nodes_at.
    all: rewrite Hh; cbn -[length]; f_equal; lia.
Qed.
(** The walk of the assertion in [list_unlink] ends at the list's header. *)
Lemma walk_end_rep fuel m L a l1 u l2 :
  rep m L -> L a = l1 ++ u :: l2 -> (length l2 < fuel)%nat ->
  walk_end fuel m u = Ret a.
Proof.
  intros H. revert fuel l1 u. induction l2 as [|x l2 IH]; intros fuel l1 u E Hf;
    destruct fuel as [|fuel]; try (cbn in Hf; lia); cbn;
    rewrite (rep_mid _ _ _ _ _ _ H E); cbn; [done|].
  apply (IH fuel (l1 ++ [u])); [now rewrite <- app_assoc|]. cbn in Hf. lia.
Qed.

Ltac finish_node :=
  intros; run; try done;
  try (match goal with |- nodes ?m ?u = _ => now destruct (nodes m u) end);
  try (f_equal; rewrite ?length_app; cbn [length]; lia).

Lemma unlink_rep fuel m L a l1 t l2 :
  rep m L -> L a = l1 ++ t :: l2 -> (length l2 < fuel)%nat ->
  exists m', list_unlink fuel m a t = Ret m' /\ rep m' (<[a := l1 ++ l2]> L).
Proof.
  intros H E Hf. unfold list_unlink. rewrite (walk_end_rep _ _ _ _ _ _ _ H E Hf).
  assert (Ht := rep_mid _ _ _ _ _ _ H E). unfold enc in Ht.
  assert (Hnd := sep_nodup _ (rep_sep _ _ H) a). rewrite E in Hnd.
  assert (Hh := rep_header _ _ H a).
  assert (Hs : forall h, hd_or (l1 ++ [t]) None = Some h -> hd_or (L a) None = Some h).
  { intros h. rewrite E. now destruct l1. }
  assert (Hrm := fun m' => rep_remove m m' L a l1 t l2 H E). clear Hf.
  unfold unlink_item.
  destruct l1 as [|y l1 _] using rev_ind; destruct l2 as [|x l2].
  - rewrite E in Hh. eexists. split; [run; reflexivity|]. apply Hrm; finish_node.
  - destruct (first_last _ _ a t H) as (z&Hz&_&Hnz&_); [now apply Hs|].
    rewrite E in Hh, Hz. cbn in Hh, Ht, Hnd, Hz. rewrite Hz in Ht.
    apply NoDup_cons in Hnd as [Htl _].
    assert (z <> t).
    { intros ->. apply Htl. now destruct (last_or_elem _ _ _ Hz) as [|[_ [= ->]]]; [right|left]. }
    assert (t <> x) by set_solver.
    eexists. split; [run; reflexivity|]. apply Hrm; finish_node.
  - assert (exists h, hd_or (l1 ++ [y]) None = Some h) as [h Ehl] by (destruct l1; cbn; eauto).
    assert (Eh : hd_or (L a) None = Some h) by (rewrite E; destruct l1; cbn in *; congruence).
    destruct (first_last _ _ _ _ H Eh) as (z&Hz&Hp&Hnz&Hin&_).
    assert (z = t) as -> by (rewrite E, last_or_insert in Hz; cbn in Hz; congruence).
    rewrite last_or_snoc in Ht, Hrm. rewrite Eh in Hh. rewrite app_nil_r, Ehl in Hrm. rewrite app_nil_r.
    assert (y <> t /\ h <> t) as [? ?].
    { rewrite <- Permutation_middle, app_nil_r in Hnd. apply NoDup_cons in Hnd as [Hnd _].
      split; intros ->; apply Hnd; [set_solver|].
      destruct (hd_or_elem _ _ _ Ehl) as [|[_ ?]]; done. }
    rewrite E, length_app in Hh. cbn in Hh, Ht.
    destruct (decide (h = y)) as [->|].
    all: run; eexists; (split; [reflexivity|]); apply Hrm; finish_node.
  - rewrite last_or_snoc in Ht, Hrm.
    assert (t <> y /\ t <> x /\ y <> x) as (?&?&?).
    { rewrite <- app_assoc in Hnd. apply NoDup_app in Hnd as (_&_&Hnd). cbn in Hnd.
      rewrite !NoDup_cons in Hnd. set_solver. }
    rewrite E in Hh. cbn in Ht.
    eexists. split; [run; reflexivity|]. apply Hrm; finish_node.
    f_equal; [now destruct l1|rewrite !length_app; cbn [length]; lia].
Qed.

Lemma count_from_rep fuel m L a l1 l2 :
  rep m L -> L a = l1 ++ l2 -> (length l2 < fuel)%nat ->
  count_from fuel m (hd_or l2 None) = Ret (Z.of_nat (length l2)).
Proof.
  intros H. revert fuel l1. induction l2 as [|x l2 IH]; intros fuel l1 E Hf;
    destruct fuel as [|fuel]; try (cbn in Hf; lia); [done|]. cbn [count_from hd_or].
  assert (Hn : list_next m x = hd_or l2 None).
  { unfold list_next. rewrite (rep_mid _ _ _ _ _ _ H E). cbn. now destruct (hd_or l2 None). }
  rewrite Hn, (IH fuel (l1 ++ [x])); cbn [length] in *; [|now rewrite <- app_assoc|lia].
  cbn -[Z.of_nat]. f_equal. lia.
Qed.

Lemma list_count_rep fuel m L a :
  rep m L -> (length (L a) < fuel)%nat ->
  list_count fuel m a = Ret (Z.of_nat (length (L a))).
Proof.
  intros H Hf. unfold list_count, list_head. rewrite (head_rep m L) by done.
  rewrite (count_from_rep fuel m L a []) by done. cbn.
  rewrite (count_rep m L), Z.eqb_refl by done. done.
Qed.

(** Appending the list of [b] to the list of [a]: the memory that it takes. *)
Lemma rep_append m m' L a b :
  rep m L -> a <> b ->
  headers m' a = ListHeader (hd_or (L a ++ L b) None) (Z.of_nat (length (L a ++ L b))) ->
  headers m' b = ListHeader None 0 ->
  (forall c, c <> a -> c <> b -> headers m' c = headers m c) ->
  (forall u, nodes m' u =
     if decide (u ∈ L a ++ L b) then
       ListNode (if decide (last_or (L b) None = Some u) then Sentinel a
                 else if decide (last_or (L a) None = Some u)
                      then match hd_or (L b) None with Some x => Node x | None => Sentinel a end
                 else next (nodes m u))
         (if decide (hd_or (L a) (hd_or (L b) None) = Some u)
          then match last_or (L a ++ L b) None with Some z => Sentinel z | None => Null end
          else if decide (hd_or (L b) None = Some u)
               then match last_or (L a) None with Some z => Node z | None => Null end
          else prev (nodes m u))
     else nodes m u) ->
  rep m' (<[b := []]> (<[a := L a ++ L b]> L)).
Proof.
  intros [Hsep Hh Hn Hf] Hab Ha Hb Hc Hu.
  assert (Hnd : NoDup (L a ++ L b)).
  { apply NoDup_app. split; [apply Hsep|]. split; [|apply Hsep].
    intros x Hx Hx'. exact (Hab (sep_place _ Hsep _ _ _ Hx Hx')). }
  assert (Hat : forall c, <[b := []]> (<[a := L a ++ L b]> L) c =
    if decide (c = b) then [] else if decide (c = a) then L a ++ L b else L c).
  { intros c. now rewrite !fn_at. }
  assert (Hel : forall u c, u ∈ <[b := []]> (<[a := L a ++ L b]> L) c ->
    c <> b /\ (c = a /\ u ∈ L a ++ L b \/ c <> a /\ u ∈ L c)).
  { intros u c. rewrite Hat. repeat case_decide; set_solver. }
  split.
  - split.
    + intros c. rewrite Hat. repeat case_decide; [constructor|done|apply Hsep].
    + intros c c' u (?&[[-> Hc1]|[? Hc1]])%Hel (?&[[-> Hc2]|[? Hc2]])%Hel; [done| | |].
      * apply elem_of_app in Hc1 as [Hc1|Hc1]; [eapply (sep_place _ Hsep); eauto|].
        assert (Hx := sep_place _ Hsep _ _ _ Hc1 Hc2). congruence.
      * apply elem_of_app in Hc2 as [Hc2|Hc2]; [eapply (sep_place _ Hsep); eauto|].
        assert (Hx := sep_place _ Hsep _ _ _ Hc1 Hc2). congruence.
      * eapply (sep_place _ Hsep); eauto.
  - intros c. rewrite Hat. repeat case_decide; subst; [done|done|]. rewrite Hc by done. apply Hh.
  - intros c u p. rewrite Hat. destruct (decide (c = b)) as [->|Hcb]; [done|].
    destruct (decide (c = a)) as [->|Hca].
    2:{ intros Hr. assert (Hin := ring_elem _ _ _ _ _ Hr). rewrite Hu, decide_False; [now apply Hn|].
        intros [Hx|Hx]%elem_of_app; [apply Hca|apply Hcb]; eapply (sep_place _ Hsep); eauto. }
    intros Hr. rewrite Hu, decide_True by (eapply ring_elem; eauto).
    assert (Hf1 := ring_first _ _ _ _ Hr). assert (Hf2 := ring_last _ _ _ _ Hnd Hr).
    destruct (ring_meet _ _ _ _ Hnd Hr) as [Hm1 Hm2].
    apply NoDup_app in Hnd as (Hna&Hd&Hnb). rewrite hd_or_app in Hf1.
    assert (Hla : u ∉ L a -> last_or (L a) None <> Some u) by (intros ? [|[_ ?]]%last_or_elem; done).
    assert (Hlb : u ∉ L b -> last_or (L b) None <> Some u) by (intros ? [|[_ ?]]%last_or_elem; done).
    assert (Hhb : u ∉ L b -> hd_or (L b) None <> Some u) by (intros ? [|[_ ?]]%hd_or_elem; done).
    rewrite ring_app in Hr. destruct (ring None (L a) _ u) as [p'|] eqn:Er.
    + simplify_eq. assert (Hin := ring_elem _ _ _ _ _ Er).
      rewrite (Hn a u _ (ring_nx _ _ _ None _ _ Hna Er)).
      rewrite !(decide_False (P := _ (L b) None = Some u)) by (eauto using Hd).
      unfold enc. cbn. f_equal.
      * destruct (decide (last_or (L a) None = Some u)) as [E1|E1]; [now rewrite (Hm1 E1)|done].
      * destruct (decide (hd_or (L a) (hd_or (L b) None) = Some u)) as [E1|E1];
          [now rewrite (proj2 Hf1 E1)|].
        destruct (p_prev p) eqn:Ep; [|tauto]. case_decide; cbn; now rewrite ?Ep.
    + apply ring_None in Er. assert (Hin := ring_elem _ _ _ _ _ Hr).
      rewrite (Hn b u _ (ring_pv _ None _ _ _ _ Hr)).
      rewrite (decide_False (P := last_or (L a) None = Some u)) by eauto.
      rewrite last_or_app, (last_or_irrel _ _ None) in Hf2 by (intros E0; rewrite E0 in Hin; easy).
      unfold enc. cbn. f_equal.
      * destruct (decide (last_or (L b) None = Some u)) as [E1|E1]; [now rewrite (proj2 Hf2 E1)|].
        destruct (p_next p) eqn:Ep; [|tauto]. case_decide; cbn; now rewrite ?Ep.
      * destruct (decide (hd_or (L a) (hd_or (L b) None) = Some u)) as [E1|E1];
          [now rewrite (proj2 Hf1 E1)|].
        destruct (p_prev p) eqn:Ep; [|tauto].
        destruct (decide (hd_or (L b) None = Some u)) as [E2|E2]; [now rewrite <- (Hm2 E2)|].
        now rewrite ?Ep.
  - intros u Hx. rewrite Hu, decide_False; [apply Hf; intros c Hin|intros Hin].
    + destruct (decide (c = a)) as [->|]; [|destruct (decide (c = b)) as [->|]].
      * apply (Hx a). rewrite Hat, decide_False, decide_True by done. set_solver.
      * apply (Hx a). rewrite Hat, decide_False, decide_True by done. set_solver.
      * apply (Hx c). now rewrite Hat, !decide_False by done.
    + apply (Hx a). now rewrite Hat, decide_False, decide_True by done.
Qed.

Lemma rep_ext m L L' : rep m L -> (forall c, L' c = L c) -> rep m L'.
Proof.
  intros [[Hs1 Hs2] Hh Hn Hf] E. split; [split|..].
  - intros p. now rewrite E.
  - intros p p' t. rewrite !E. apply Hs2.
  - intros a. now rewrite E.
  - intros a u p. rewrite E. apply Hn.
  - intros u Hu. apply Hf. intros a. now rewrite <- E.
Qed.

Lemma move_rep m L a b :
  rep m L -> a <> b -> L a = [] ->
  exists m', list_move m a b = Ret m' /\ rep m' (<[b := []]> (<[a := L a ++ L b]> L)).
Proof.
  intros H Hab E. unfold list_move.
  assert (Ha := rep_header _ _ H a). assert (Hb := rep_header _ _ H b). rewrite E in Ha.
  destruct (hd_or (L b) None) as [h|] eqn:Eh.
  - destruct (first_last _ _ _ _ H Eh) as (z&Hz&Hp&Hn&Hin&Hin').
    eexists. split; [run; reflexivity|].
    apply (rep_append m); try done; rewrite ?E; cbn [app hd_or last_or]; rewrite ?Eh.
    1-3: intros; run; done.
    intros u. rewrite Hz. destruct (decide (u ∈ L b)) as [Hu|Hu].
    + finish_node. rewrite <- Hp. now destruct (nodes m u).
    + assert (u <> z) by congruence. now finish_node.
  - assert (Eb : L b = []) by (now destruct (L b)). rewrite Eb in Hb.
    eexists. split; [run; reflexivity|].
    apply (rep_append m); try done; rewrite ?E, ?Eb; try (intros; run; done).
    intros u. rewrite decide_False by set_solver. finish_node.
Qed.

Lemma join_rep m L a b :
  rep m L -> a <> b ->
  exists m', list_join m a b = Ret m' /\ rep m' (<[b := []]> (<[a := L a ++ L b]> L)).
Proof.
  intros H Hab. unfold list_join. rewrite !(head_rep m L) by done.
  destruct (hd_or (L b) None) as [h|] eqn:Eh.
  2:{ assert (Eb : L b = []) by (now destruct (L b)). eexists. split; [reflexivity|].
      apply (rep_ext _ _ _ H). intros c. rewrite Eb, app_nil_r, !fn_at.
      repeat case_decide; congruence. }
  destruct (hd_or (L a) None) as [h'|] eqn:Eh'; [|apply move_rep; [done..|now destruct (L a)]].
  assert (Ha := rep_header _ _ H a). assert (Hb := rep_header _ _ H b).
  destruct (first_last _ _ _ _ H Eh) as (z&Hz&Hp&Hn&Hin&Hin').
  destruct (first_last _ _ _ _ H Eh') as (z'&Hz'&Hp'&Hn'&Hin2&Hin2').
  assert (Hd : forall x y, x ∈ L b -> y ∈ L a -> x <> y).
  { intros x y Hx Hy ->. apply Hab. eapply (sep_place _ (rep_sep _ _ H)); eauto. }
  assert (h <> h' /\ h <> z' /\ z <> h' /\ z <> z') as (?&?&?&?) by eauto 10.
  assert (E1 : hd_or (L a) (hd_or (L b) None) = Some h')
    by (destruct (L a); [done|]; cbn in *; congruence).
  assert (E2 : hd_or (L a ++ L b) None = Some h') by (now rewrite hd_or_app).
  assert (E3 : last_or (L a ++ L b) None = Some z).
  { rewrite last_or_app, (last_or_irrel _ _ None); [done|]. intros E0. now rewrite E0 in Eh. }
  destruct (decide (h = z)) as [->|]; destruct (decide (h' = z')) as [->|].
  all: run; eexists; split; [reflexivity|].
  all: apply (rep_append m); try done; rewrite ?E1, ?E2, ?E3, ?Hz, ?Hz', ?Eh; try finish_node.
  all: try (exfalso; match goal with Hx : _ ∉ _ |- _ => apply Hx end; apply elem_of_app; auto; fail).
  all: rewrite Eh', length_app; f_equal; lia.
Qed.

(** The neighbours that the accessors return. *)
Lemma next_rep m L a u p :
  rep m L -> ring None (L a) None u = Some p ->
  list_next m u = p_next p /\ list_prev m u = p_prev p.
Proof.
  intros H Hr. unfold list_next, list_prev. rewrite (rep_node _ _ H _ _ _ Hr). unfold enc. cbn.
  split; [now destruct (p_next p)|]. destruct (p_prev p); [done|]. now destruct (last_or _ _).
Qed.

Lemma tail_rep m L a : rep m L -> list_tail m a = Ret (last_or (L a) None).
Proof.
  intros H. unfold list_tail. rewrite (head_rep m L) by done.
  destruct (hd_or (L a) None) as [h|] eqn:Eh; [|now destruct (L a)].
  destruct (tail_of_rep m L a h H Eh) as (z&Hz&->&_). cbn.
  destruct (first_last _ _ _ _ H Eh) as (z'&Hz'&_&Hn&_). assert (z' = z) as -> by congruence.
  now rewrite Hn, bool_decide_eq_true_2, Hz.
Qed.

Lemma attached_rep m L a u : rep m L -> u ∈ L a -> list_node_attached m u = true.
Proof.
  intros H (p&Hp)%(ring_Some None _ None). unfold list_node_attached.
  rewrite (rep_node _ _ H _ _ _ Hp). unfold enc. cbn. now destruct (p_next p).
Qed.

Lemma detached_rep m L u : rep m L -> (forall a, u ∉ L a) -> list_node_attached m u = false.
Proof. intros H Hu. unfold list_node_attached. now rewrite (rep_free _ _ H u Hu). Qed.

(** Headers that [list_init] has initialised and cleared nodes hold empty lists. *)
Definition cleared : lmem := Lmem (fun _ => ListHeader None 0) (fun _ => ListNode Null Null).

Lemma cleared_rep : rep cleared (fun _ => []).
Proof. split; [split; [constructor|set_solver]|done|done|done]. Qed.

(** ** What the operations promise *)

Inductive lop :=
| Push (a t : Z)
| Queue (a t : Z)
| InsertAfter (a t : Z) (node : option Z)
| Unlink (a t : Z)
| Move (a b : Z)
| Join (a b : Z).

Definition lrun (fuel : nat) (m : lmem) (o : lop) : exec lmem :=
  match o with
  | Push a t => list_push m a t
  | Queue a t => list_queue m a t
  | InsertAfter a t node => list_insert_after m a t node
  | Unlink a t => list_unlink fuel m a t
  | Move a b => list_move m a b
  | Join a b => list_join m a b
  end.

Inductive lspec (L : Z -> list Z) : lop -> (Z -> list Z) -> Prop :=
| SPush a t : (forall c, t ∉ L c) -> lspec L (Push a t) (<[a := t :: L a]> L)
| SQueue a t : (forall c, t ∉ L c) -> lspec L (Queue a t) (<[a := L a ++ [t]]> L)
| SInsertHead a t : (forall c, t ∉ L c) -> lspec L (InsertAfter a t None) (<[a := t :: L a]> L)
| SInsert a t l1 n l2 : (forall c, t ∉ L c) -> L a = l1 ++ n :: l2 ->
    lspec L (InsertAfter a t (Some n)) (<[a := l1 ++ n :: t :: l2]> L)
| SUnlink a l1 t l2 : L a = l1 ++ t :: l2 -> lspec L (Unlink a t) (<[a := l1 ++ l2]> L)
| SMove a b : a <> b -> L a = [] -> lspec L (Move a b) (<[b := []]> (<[a := L b]> L))
| SJoin a b : a <> b -> lspec L (Join a b) (<[b := []]> (<[a := L a ++ L b]> L)).

(** C18: The kernel's intrusive lists refine lists: starting from memory that
    represents the lists [L], every operation applied as its comment requires
    fails no assertion, makes no invalid access, and ends in memory that
    represents the lists that the operation promises, all other lists
    untouched; and in such memory the count, the tail, the neighbours and the
    attachment test are those of the lists. *)
Theorem klist_refines fuel m L o L' :
  rep m L -> lspec L o L' -> (forall a, (length (L a) < fuel)%nat) ->
  (exists m', lrun fuel m o = Ret m' /\ rep m' L') /\
  (forall a, list_head m a = hd_or (L a) None /\
             list_tail m a = Ret (last_or (L a) None) /\
             list_count fuel m a = Ret (Z.of_nat (length (L a)))) /\
  (forall a l1 u l2, L a = l1 ++ u :: l2 ->
     list_next m u = hd_or l2 None /\ list_prev m u = last_or l1 None /\
     list_node_attached m u = true) /\
  (forall u, (forall a, u ∉ L a) -> list_node_attached m u = false).
Proof.
  intros H Ho Hf. split; [|split; [|split]].
  - destruct Ho; cbn [lrun].
    + now apply push_rep.
    + now apply queue_rep.
    + unfold list_insert_after. rewrite (unattached_rep m L) by done. now apply push_rep.
    + now apply insert_after_rep.
    + apply unlink_rep; [done|done|]. specialize (Hf a).
      match goal with E : L a = _ |- _ => rewrite E, length_app in Hf; cbn in Hf; lia end.
    + match goal with E : L ?x = [] |- _ =>
        assert (Hm := move_rep m L x b H); rewrite E in Hm; now apply Hm end.
    + now apply join_rep.
  - intros a. split; [now apply (head_rep m L)|]. split; [now apply tail_rep|].
    now apply list_count_rep.
  - intros a l1 u l2 E. assert (Hu : u ∈ L a) by (rewrite E; set_solver).
    assert (Hnd := sep_nodup _ (rep_sep _ _ H) a). rewrite E in Hnd.
    apply NoDup_app in Hnd as (_&Hd&_).
    destruct (next_rep m L a u (Pos (hd_or l2 None) (last_or l1 None)) H) as [? ?].
    { rewrite E. apply ring_mid. intros Hx. apply (Hd _ Hx). left. }
    split; [done|]. split; [done|]. now apply (attached_rep m L a).
  - intros u Hu. now apply (detached_rep m L).
Qed.

Definition three : lmem :=
  Lmem (<[1 := ListHeader (Some 10) 3]> (headers cleared))
    (<[10 := ListNode (Node 11) (Sentinel 12)]> (<[11 := ListNode (Node 12) (Node 10)]>
       (<[12 := ListNode (Sentinel 1) (Node 11)]> (nodes cleared)))).

Lemma three_rep : rep three (<[1 := [10; 11; 12]]> (fun _ => [])).
Proof.
  apply (rep_change cleared); [apply cleared_rep| |done|..].
  - apply separated_insert; [apply (rep_sep _ _ cleared_rep)| |set_solver].
    rewrite !NoDup_cons. repeat split; try set_solver. constructor.
  - intros a' Ha'. unfold three. cbn [headers]. now rewrite fn_at, decide_False.
  - intros u p. cbn. rewrite !fn_at. repeat case_decide; simplify_eq; try done; now intros [= <-].
  - intros u Hu. cbn. rewrite !fn_at, !decide_False by set_solver. done.
Qed.

Lemma klist_refines_witness :
  exists m, list_unlink 9 three 1 11 = Ret m /\ rep m (<[1 := [10; 12]]> (<[1 := [10; 11; 12]]> (fun _ => []))).
Proof.
  refine (proj1 (klist_refines 9 three (<[1 := [10; 11; 12]]> (fun _ => [])) (Unlink 1 11) _ three_rep _ _)).
  - now apply (SUnlink _ 1 [10] 11 [12]).
  - intros a. rewrite fn_at. case_decide; cbn; lia.
Defined.

End KList.
