(* ===== verification/WaitQueue.v ===== *)
(** * Wait queues of kernel objects (viengoos/object.c, from line 955)

    Every object of the kernel has a queue of the threads that wait on it.  The
    queue is threaded through the thread objects by object identifiers: the
    object's folio says whether there is a queue ([wait_queue_p]) and names its
    first thread; a thread's [next] names the following thread, or the object
    when the thread is the tail, and its [prev] the preceding one, or the tail
    when the thread is the head; flags in the thread say whether it is queued,
    the head and the tail.  Objects are represented by their identifiers.

    [rep m Q] says that the memory [m] holds the queues [Q], an object's waiters
    in order.  The kernel's consistency check, a walk along the whole queue, is
    part of every operation; it is proved never to fail. *)

From S2P Require Import Prelude Ring KList.

Module WaitQueue.

(** The fields of [struct thread] that the wait queues use. *)
Record thread := Thread {
  wait_queue_p : bool;
  wait_queue_head : bool;
  wait_queue_tail : bool;
  wait_reason : Z;
  wait_reason_arg : Z;
  next : Z;
  prev : Z
}.

(** [THREAD_WAIT_FUTEX] and [THREAD_WAIT_DESTROY] *)
Definition THREAD_WAIT_FUTEX : Z := 0.
Definition THREAD_WAIT_DESTROY : Z := 1.

(** What an object is, as far as the queues care. *)
Inductive otype := TThread | TOther.

#[export] Instance otype_eq_dec : EqDecision otype.
Proof. solve_decision. Defined.

(** The memory: the objects there are, the threads' contents, for each object
    its folio's wait queue bit and head, and the kernel's list of the threads
    that wait on a futex, the list of header [FUTEX_WAITERS]. *)
Record wmem := Wmem {
  objects : Z -> option otype;
  threads : Z -> thread;
  queue_p : Z -> bool;
  queue : Z -> Z;
  waiters : KList.lmem
}.

Definition FUTEX_WAITERS : Z := 0.

Definition set_thread (m : wmem) (t : Z) (th : thread) : wmem :=
  Wmem (objects m) (<[t := th]> (threads m)) (queue_p m) (queue m) (waiters m).
Definition upd_thread (m : wmem) (t : Z) (f : thread -> thread) : wmem :=
  set_thread m t (f (threads m t)).
Definition set_queue_p (m : wmem) (o : Z) (b : bool) : wmem :=
  Wmem (objects m) (threads m) (<[o := b]> (queue_p m)) (queue m) (waiters m).
Definition set_queue (m : wmem) (o h : Z) : wmem :=
  Wmem (objects m) (threads m) (queue_p m) (<[o := h]> (queue m)) (waiters m).
Definition set_waiters (m : wmem) (l : KList.lmem) : wmem :=
  Wmem (objects m) (threads m) (queue_p m) (queue m) l.

Definition with_p (b : bool) (t : thread) : thread :=
  Thread b (wait_queue_head t) (wait_queue_tail t) (wait_reason t) (wait_reason_arg t)
    (next t) (prev t).
Definition with_head (b : bool) (t : thread) : thread :=
  Thread (wait_queue_p t) b (wait_queue_tail t) (wait_reason t) (wait_reason_arg t)
    (next t) (prev t).
Definition with_tail (b : bool) (t : thread) : thread :=
  Thread (wait_queue_p t) (wait_queue_head t) b (wait_reason t) (wait_reason_arg t)
    (next t) (prev t).
Definition with_next (x : Z) (t : thread) : thread :=
  Thread (wait_queue_p t) (wait_queue_head t) (wait_queue_tail t) (wait_reason t)
    (wait_reason_arg t) x (prev t).
Definition with_prev (x : Z) (t : thread) : thread :=
  Thread (wait_queue_p t) (wait_queue_head t) (wait_queue_tail t) (wait_reason t)
    (wait_reason_arg t) (next t) x.
Definition with_reason (r a : Z) (t : thread) : thread :=
  Thread (wait_queue_p t) (wait_queue_head t) (wait_queue_tail t) r a (next t) (prev t).

(** ** Finding objects *)

(** [object_find] as the queues see it; [None] is the null pointer. *)
Definition object_find (m : wmem) (oid : Z) : option Z :=
  match objects m oid with Some _ => Some oid | None => None end.

(** [assert (p)] for a pointer [p]. *)
Definition non_null (o : option Z) : exec Z :=
  match o with Some x => Ret x | None => Crash assertion_failed end.

Definition thread_p (m : wmem) (oid : Z) : bool := bool_decide (objects m oid = Some TThread).

(** Reading an object as a thread. *)
Definition get_thread (m : wmem) (oid : Z) : exec thread :=
  if thread_p m oid then Ret (threads m oid) else Crash invalid_access.

(** An object that has to be a thread and on a queue. *)
Definition find_waiter (m : wmem) (oid : Z) : exec Z :=
  t ← non_null (object_find m oid);
  _ ← check (thread_p m t) assertion_failed;
  _ ← check (wait_queue_p (threads m t)) assertion_failed;
  Ret t.

Definition object_wait_queue_head (m : wmem) (o : Z) : exec (option Z) :=
  if negb (queue_p m o) then Ret None
  else
    head ← find_waiter m (queue m o);
    _ ← check (wait_queue_head (threads m head)) assertion_failed;
    Ret (Some head).

Definition object_wait_queue_tail (m : wmem) (o : Z) : exec (option Z) :=
  head ← object_wait_queue_head m o;
  match head with
  | None => Ret None
  | Some head =>
      if wait_queue_tail (threads m head) then Ret (Some head)
      else
        tail ← find_waiter m (prev (threads m head));
        _ ← check (wait_queue_tail (threads m tail)) assertion_failed;
        Ret (Some tail)
  end.

Definition object_wait_queue_next (m : wmem) (t : Z) : exec (option Z) :=
  if wait_queue_tail (threads m t) then Ret None
  else
    n ← find_waiter m (next (threads m t));
    _ ← check (negb (wait_queue_head (threads m n))) assertion_failed;
    Ret (Some n).

Definition object_wait_queue_prev (m : wmem) (t : Z) : exec (option Z) :=
  if wait_queue_head (threads m t) then Ret None
  else
    p ← find_waiter m (prev (threads m t));
    _ ← check (negb (wait_queue_tail (threads m p))) assertion_failed;
    Ret (Some p).

(** ** The consistency check *)

(** One step along the queue: the body of the two loops. *)
Definition check_step (m : wmem) (last : Z) : exec Z :=
  t ← non_null (object_find m (next (threads m last)));
  th ← get_thread m t;
  _ ← check (wait_queue_p th) assertion_failed;
  _ ← check (negb (wait_queue_head th)) assertion_failed;
  _ ← check (bool_decide (object_find m (prev th) = Some last)) assertion_failed;
  Ret t.

Fixpoint check_to_tail (fuel : nat) (m : wmem) (last : Z) : exec Z :=
  match fuel with
  | O => Crash out_of_fuel
  | S fuel =>
      if wait_queue_tail (threads m last) then Ret last
      else t ← check_step m last; check_to_tail fuel m t
  end.

Fixpoint check_from_head (fuel : nat) (m : wmem) (last thread : Z) : exec unit :=
  match fuel with
  | O => Crash out_of_fuel
  | S fuel =>
      if last =? thread then Ret tt
      else
        _ ← check (negb (wait_queue_tail (threads m last))) assertion_failed;
        t ← check_step m last;
        check_from_head fuel m t thread
  end.

Definition object_wait_queue_check (fuel : nat) (m : wmem) (thread : Z) : exec unit :=
  if negb (wait_queue_p (threads m thread)) then Ret tt
  else
    last ← check_to_tail fuel m thread;
    _ ← check (wait_queue_tail (threads m last)) assertion_failed;
    o ← non_null (object_find m (next (threads m last)));
    _ ← check (queue_p m o) assertion_failed;
    head ← object_wait_queue_head m o;
    match head with
    | None => Ret tt
    | Some head =>
        _ ← check (wait_queue_head (threads m head)) assertion_failed;
        tail ← non_null (object_find m (prev (threads m head)));
        th ← get_thread m tail;
        _ ← check (wait_queue_tail th) assertion_failed;
        _ ← check (last =? tail) assertion_failed;
        check_from_head fuel m head thread
    end.

(** ** Enqueueing and dequeueing *)

Definition object_wait_queue_enqueue (fuel : nat) (m : wmem) (o t : Z) : exec wmem :=
  _ ← object_wait_queue_check fuel m t;
  _ ← check (negb (wait_queue_p (threads m t))) assertion_failed;
  oldhead ← object_wait_queue_head m o;
  m ← match oldhead with
      | Some oh =>
          _ ← check (wait_queue_head (threads m oh)) assertion_failed;
          let m := upd_thread m t (with_prev (prev (threads m oh))) in
          let m := upd_thread m oh (with_head false) in
          let m := upd_thread m oh (with_prev t) in
          let m := upd_thread m t (with_next oh) in
          Ret (upd_thread m t (with_tail false))
      | None =>
          let m := set_queue_p m o true in
          let m := upd_thread m t (with_prev t) in
          let m := upd_thread m t (with_tail true) in
          Ret (upd_thread m t (with_next o))
      end;
  let m := upd_thread m t (with_p true) in
  let m := upd_thread m t (with_head true) in
  let m := set_queue m o t in
  _ ← object_wait_queue_check fuel m t;
  Ret m.

(** Unlinking the tail of a queue. *)
Definition dequeue_tail (m : wmem) (t : Z) : exec wmem :=
  o ← non_null (object_find m (next (threads m t)));
  _ ← check (queue_p m o) assertion_failed;
  tl ← object_wait_queue_tail m o;
  _ ← check (bool_decide (tl = Some t)) assertion_failed;
  if wait_queue_head (threads m t) then
    _ ← check (bool_decide (object_find m (prev (threads m t)) = Some t)) assertion_failed;
    Ret (set_queue_p m o false)
  else
    head ← object_wait_queue_head m o;
    head ← access head;
    _ ← check (bool_decide (object_find m (prev (threads m head)) = Some t)) assertion_failed;
    let m := upd_thread m head (with_prev (prev (threads m t))) in
    p ← non_null (object_find m (prev (threads m t)));
    _ ← check (thread_p m p) assertion_failed;
    let m := upd_thread m p (with_tail true) in
    Ret (upd_thread m p (with_next (next (threads m t)))).

(** Unlinking a thread that is not the tail. *)
Definition dequeue_inner (m : wmem) (t : Z) : exec wmem :=
  n ← object_wait_queue_next m t;
  n ← non_null n;
  p ← non_null (object_find m (prev (threads m t)));
  _ ← check (thread_p m p) assertion_failed;
  m ← (if wait_queue_head (threads m t) then
         o ← non_null (object_find m (next (threads m p)));
         hd ← object_wait_queue_head m o;
         _ ← check (bool_decide (hd = Some t)) assertion_failed;
         let m := upd_thread m n (with_head true) in
         Ret (set_queue m o (next (threads m t)))
       else Ret (upd_thread m p (with_next (next (threads m t)))));
  Ret (upd_thread m n (with_prev (prev (threads m t)))).

Definition object_wait_queue_dequeue (fuel : nat) (m : wmem) (t : Z) : exec wmem :=
  _ ← check (wait_queue_p (threads m t)) assertion_failed;
  _ ← object_wait_queue_check fuel m t;
  m ← (if wait_queue_tail (threads m t) then dequeue_tail m t else dequeue_inner m t);
  let m := upd_thread m t (with_p false) in
  m ← (if wait_reason (threads m t) =? THREAD_WAIT_FUTEX then
         l ← KList.list_unlink fuel (waiters m) FUTEX_WAITERS t;
         Ret (set_waiters m l)
       else Ret m);
  _ ← object_wait_queue_check fuel m t;
  Ret m.

(** ** Waking the waiters of an object that is deallocated

    The loop of [folio_object_alloc], with
    [folio_object_wait_queue_for_each]: the next thread is looked up before the
    current one is dequeued. *)

Inductive reply := Destroyed | Efault.

Fixpoint wake_loop (fuel : nat) (m : wmem) (t : option Z) : exec (wmem * list (Z * reply)) :=
  match fuel with
  | O => Crash out_of_fuel
  | S fuel' =>
      match t with
      | None => Ret (m, [])
      | Some t =>
          nx ← object_wait_queue_next m t;
          m ← object_wait_queue_dequeue fuel m t;
          '(m', rs) ← wake_loop fuel' m nx;
          Ret (m', (t, if wait_reason (threads m t) =? THREAD_WAIT_DESTROY
                       then Destroyed else Efault) :: rs)
      end
  end.

Definition wake_waiters (fuel : nat) (m : wmem) (o : Z) : exec (wmem * list (Z * reply)) :=
  wake_loop fuel m (if queue_p m o then object_find m (queue m o) else None).

(** ** The representation *)

(** A queued thread with neighbours [p] on the queue of [o], whose last thread
    is [z]. *)
Definition enc (o z : Z) (p : pos) (r : Z * Z) : thread :=
  Thread true (bool_decide (p_prev p = None)) (bool_decide (p_next p = None)) r.1 r.2
    (default o (p_next p)) (default z (p_prev p)).

Definition last_waiter (l : list Z) : Z := default 0 (last_or l None).

Record rep (m : wmem) (Q : Z -> list Z) (R : Z -> Z * Z) : Prop := Rep {
  rep_sep : separated Q;
  rep_p : forall o, queue_p m o = bool_decide (Q o <> []);
  rep_queue : forall o h, hd_or (Q o) None = Some h -> queue m o = h;
  rep_obj : forall o, Q o <> [] -> objects m o <> None;
  rep_thread : forall o u, u ∈ Q o -> objects m u = Some TThread;
  rep_node : forall o u p, ring None (Q o) None u = Some p ->
    threads m u = enc o (last_waiter (Q o)) p (R u);
  rep_free : forall u, (forall o, u ∉ Q o) -> wait_queue_p (threads m u) = false;
  rep_reason : forall u, (wait_reason (threads m u), wait_reason_arg (threads m u)) = R u
}.

(** What an operation on the queue of [o] has to establish. *)
Lemma wq_change m m' Q R o l :
  rep m Q R -> separated (<[o := l]> Q) -> objects m' = objects m ->
  (forall o', queue_p m' o' = <[o := bool_decide (l <> [])]> (queue_p m) o') ->
  (forall h, hd_or l None = Some h -> queue m' o = h) ->
  (forall o', o' <> o -> queue m' o' = queue m o') ->
  (l <> [] -> objects m o <> None) ->
  (forall u, u ∈ l -> objects m u = Some TThread) ->
  (forall u p, ring None l None u = Some p -> threads m' u = enc o (last_waiter l) p (R u)) ->
  (forall u, u ∉ l -> threads m' u = if decide (u ∈ Q o) then with_p false (threads m u)
                                     else threads m u) ->
  rep m' (<[o := l]> Q) R.
Proof.
  intros [Hsep Hp Hq Ho Ht Hn Hf Hr] Hs' Hob Hp' Hq1 Hq2 Ho' Ht' Hl Hu. split; [done|..].
  - intros o'. rewrite Hp', !fn_at. case_decide; [done|]. apply Hp.
  - intros o' h. rewrite fn_at. case_decide; [subst; apply Hq1|]. rewrite Hq2 by done. apply Hq.
  - intros o'. rewrite fn_at, Hob. case_decide; [subst; apply Ho'|apply Ho].
  - intros o' u. rewrite fn_at, Hob. case_decide; [subst; apply Ht'|apply Ht].
  - intros o' u p. rewrite fn_at. case_decide as E; [subst; apply Hl|].
    intros Hr'. assert (Hin := ring_elem _ _ _ _ _ Hr').
    rewrite Hu, decide_False; [eauto|..].
    + intros Hx. apply E. eapply (sep_place _ Hsep); eauto.
    + intros Hx. apply E. eapply (sep_place _ Hs' o' o u); rewrite fn_at; now case_decide.
  - intros u Hn'. assert (Hul : u ∉ l) by (specialize (Hn' o); rewrite fn_at in Hn'; now case_decide).
    rewrite Hu by done. case_decide; [done|]. apply Hf.
    intros o'. specialize (Hn' o'). rewrite fn_at in Hn'. case_decide; [now subst|done].
  - intros u. destruct (ring None l None u) as [p|] eqn:E.
    + rewrite (Hl u p E). now destruct (R u).
    + apply ring_None in E. rewrite Hu by done. case_decide; apply Hr.
Qed.

Lemma wq_mid m Q R o l1 t l2 :
  rep m Q R -> Q o = l1 ++ t :: l2 ->
  threads m t = enc o (default t (last_or l2 None)) (Pos (hd_or l2 None) (last_or l1 None)) (R t).
Proof.
  intros H E. rewrite (rep_node _ _ _ H o t (Pos (hd_or l2 None) (last_or l1 None))).
  - unfold last_waiter. now rewrite E, last_or_insert, last_or_default.
  - rewrite E. apply ring_mid. intros Ht.
    assert (Hnd := sep_nodup _ (rep_sep _ _ _ H) o). rewrite E in Hnd.
    apply NoDup_app in Hnd as (_&Hd&_). apply (Hd _ Ht). left.
Qed.

Lemma find_Some m o : objects m o <> None -> object_find m o = Some o.
Proof. unfold object_find. now destruct (objects m o). Qed.

Lemma thread_found m t :
  objects m t = Some TThread -> object_find m t = Some t /\ thread_p m t = true.
Proof.
  intros H. unfold object_find, thread_p. rewrite H. split; [done|]. now apply bool_decide_eq_true_2.
Qed.

Lemma find_waiter_rep m t :
  objects m t = Some TThread -> wait_queue_p (threads m t) = true -> find_waiter m t = Ret t.
Proof.
  intros [H1 H2]%thread_found H3. unfold find_waiter. rewrite H1. cbn. now rewrite H2, H3.
Qed.

Lemma wq_head m Q R o : rep m Q R -> object_wait_queue_head m o = Ret (hd_or (Q o) None).
Proof.
  intros H. unfold object_wait_queue_head. rewrite (rep_p _ _ _ H).
  destruct (Q o) as [|h l] eqn:E; [now rewrite bool_decide_eq_false_2 by (intros []; done)|].
  rewrite bool_decide_eq_true_2 by done. cbn.
  assert (Hh := wq_mid m Q R o [] h l H E).
  rewrite (rep_queue _ _ _ H o h) by now rewrite E.
  rewrite find_waiter_rep; [|eapply (rep_thread _ _ _ H o); rewrite E; left|now rewrite Hh].
  cbn. now rewrite Hh.
Qed.

Lemma wq_next m Q R o l1 t l2 :
  rep m Q R -> Q o = l1 ++ t :: l2 -> object_wait_queue_next m t = Ret (hd_or l2 None).
Proof.
  intros H E. unfold object_wait_queue_next. rewrite (wq_mid _ _ _ _ _ _ _ H E).
  destruct l2 as [|n l2]; [done|]. cbn.
  assert (E' : Q o = (l1 ++ [t]) ++ n :: l2) by (rewrite E, <- ?app_assoc; done).
  assert (Hn := wq_mid _ _ _ _ _ _ _ H E').
  rewrite find_waiter_rep; [|eapply (rep_thread _ _ _ H o); rewrite E; set_solver|now rewrite Hn].
  cbn. rewrite Hn. cbn. now rewrite last_or_snoc.
Qed.

Lemma wq_prev m Q R o l1 t l2 :
  rep m Q R -> Q o = l1 ++ t :: l2 -> object_wait_queue_prev m t = Ret (last_or l1 None).
Proof.
  intros H E. unfold object_wait_queue_prev. rewrite (wq_mid _ _ _ _ _ _ _ H E).
  destruct l1 as [|p l1 _] using rev_ind; [done|]. rewrite last_or_snoc. cbn.
  assert (E' : Q o = l1 ++ p :: t :: l2) by (rewrite E, <- ?app_assoc; done).
  assert (Hp := wq_mid _ _ _ _ _ _ _ H E').
  rewrite find_waiter_rep; [|eapply (rep_thread _ _ _ H o); rewrite E; set_solver|now rewrite Hp].
  cbn. now rewrite Hp.
Qed.

Lemma wq_tail m Q R o : rep m Q R -> object_wait_queue_tail m o = Ret (last_or (Q o) None).
Proof.
  intros H. unfold object_wait_queue_tail. rewrite (wq_head m Q R) by done.
  destruct (Q o) as [|h l] eqn:E; [done|]. cbn [hd_or mbind exec_bind].
  assert (Hh := wq_mid m Q R o [] h l H E). rewrite Hh. cbn.
  destruct l as [|x l _] using rev_ind; [done|].
  rewrite !last_or_app. cbn. rewrite hd_or_app. destruct (hd_or l _) eqn:El; [|now destruct l].
  cbn. assert (E' : Q o = (h :: l) ++ x :: []) by (now rewrite E).
  assert (Hx := wq_mid _ _ _ _ _ _ _ H E').
  rewrite find_waiter_rep; [|eapply (rep_thread _ _ _ H o); rewrite E; set_solver|now rewrite Hx].
  cbn. now rewrite Hx.
Qed.

(** ** The check passes *)

Lemma check_step_rep m Q R o l1 t x l2 :
  rep m Q R -> Q o = l1 ++ t :: x :: l2 -> check_step m t = Ret x.
Proof.
  intros H E. unfold check_step. rewrite (wq_mid _ _ _ _ _ _ _ H E). cbn.
  assert (E' : Q o = (l1 ++ [t]) ++ x :: l2) by (rewrite E, <- ?app_assoc; done).
  assert (Hx := wq_mid _ _ _ _ _ _ _ H E').
  destruct (thread_found m x) as [H1 H2]; [eapply (rep_thread _ _ _ H o); rewrite E; set_solver|].
  destruct (thread_found m t) as [H3 _]; [eapply (rep_thread _ _ _ H o); rewrite E; set_solver|].
  rewrite H1. cbn. unfold get_thread. rewrite H2, Hx. cbn. rewrite last_or_snoc. cbn.
  rewrite H3. now rewrite bool_decide_eq_true_2.
Qed.

Lemma check_to_tail_rep fuel m Q R o l1 t l2 :
  rep m Q R -> Q o = l1 ++ t :: l2 -> (length l2 < fuel)%nat ->
  check_to_tail fuel m t = Ret (default t (last_or l2 None)).
Proof.
  intros H. revert fuel l1 t. induction l2 as [|x l2 IH]; intros fuel l1 t E Hf;
    destruct fuel as [|fuel]; try (cbn in Hf; lia); cbn [check_to_tail];
    rewrite (wq_mid _ _ _ _ _ _ _ H E); cbn; [done|].
  rewrite (check_step_rep _ _ _ _ _ _ _ _ H E). cbn.
  rewrite (IH fuel (l1 ++ [t])); [|now rewrite <- app_assoc|cbn in Hf; lia].
  cbn. now rewrite last_or_default.
Qed.

Lemma check_from_head_rep fuel m Q R o l0 h t l2 :
  rep m Q R -> Q o = l0 ++ h :: l2 ->
  t ∈ h :: l2 -> (length l2 < fuel)%nat -> check_from_head fuel m h t = Ret tt.
Proof.
  intros H. revert fuel l0 h. induction l2 as [|x l2 IH]; intros fuel l0 h E Ht Hf;
    destruct fuel as [|fuel]; try (cbn in Hf; lia); cbn [check_from_head].
  - apply list_elem_of_singleton in Ht as ->. now rewrite Z.eqb_refl.
  - destruct (Z.eqb_spec h t) as [|Hne]; [done|].
    rewrite (wq_mid _ _ _ _ _ _ _ H E). cbn. rewrite (check_step_rep _ _ _ _ _ _ _ _ H E). cbn.
    apply (IH fuel (l0 ++ [h])); [now rewrite <- app_assoc| |cbn in Hf; lia].
    apply elem_of_cons in Ht as [->|Ht]; [done|exact Ht].
Qed.

Lemma last_thread m Q R o z :
  rep m Q R -> last_or (Q o) None = Some z ->
  exists pv, threads m z = enc o z (Pos None pv) (R z) /\ objects m z = Some TThread.
Proof.
  intros H [l E]%last_or_split. exists (last_or l None).
  split; [exact (wq_mid _ _ _ _ l z [] H E)|].
  eapply (rep_thread _ _ _ H o). rewrite E. set_solver.
Qed.

Lemma head_thread m Q R o h :
  rep m Q R -> hd_or (Q o) None = Some h ->
  exists nx z, threads m h = enc o z (Pos nx None) (R h) /\ objects m h = Some TThread /\
               last_or (Q o) None = Some z.
Proof.
  intros H Hh. destruct (Q o) as [|x l] eqn:E; [done|]. cbn in Hh. simplify_eq.
  eexists _, _. split; [exact (wq_mid _ _ _ _ [] h l H E)|].
  split; [eapply (rep_thread _ _ _ H o); rewrite E; left|].
  apply last_or_cons.
Qed.

Lemma check_in fuel m Q R o t :
  rep m Q R -> t ∈ Q o -> (length (Q o) <= fuel)%nat ->
  object_wait_queue_check fuel m t = Ret tt.
Proof.
  intros H Ht Hf. unfold object_wait_queue_check.
  apply list_elem_of_split in Ht as (l1&l2&E). rewrite (wq_mid _ _ _ _ _ _ _ H E). cbn.
  rewrite E, length_app in Hf. cbn in Hf.
  rewrite (check_to_tail_rep _ _ _ _ _ _ _ _ H E) by lia. cbn.
  assert (Hz : last_or (Q o) None = Some (default t (last_or l2 None))).
  { rewrite E, last_or_insert. apply last_or_cons. }
  set (z := default t (last_or l2 None)) in *.
  destruct (last_thread _ _ _ _ _ H Hz) as (pv&Ez&Oz). rewrite Ez. cbn.
  assert (Hne : Q o <> []) by (rewrite E; now destruct l1).
  rewrite (find_Some m o) by (now apply (rep_obj _ _ _ H)). cbn.
  rewrite (rep_p _ _ _ H), bool_decide_eq_true_2 by done. cbn.
  rewrite (wq_head m Q R) by done.
  destruct (hd_or (Q o) None) as [h|] eqn:Eh; [|done].
  destruct (head_thread _ _ _ _ _ H Eh) as (nx&z'&Eh'&Oh&Hz'). assert (z' = z) as -> by congruence.
  cbn. rewrite Eh'. cbn. destruct (thread_found m z Oz) as [-> Hp]. cbn.
  unfold get_thread. rewrite Hp. cbn. rewrite Ez. cbn. rewrite Z.eqb_refl. cbn.
  destruct (Q o) as [|h' l] eqn:E2; [done|]. cbn in Eh. simplify_eq.
  apply (check_from_head_rep _ _ _ _ _ [] _ _ l H E2); [rewrite E; set_solver|].
  apply (f_equal length) in E. rewrite length_app in E. cbn in E. lia.
Qed.

Lemma check_free fuel m t :
  wait_queue_p (threads m t) = false -> object_wait_queue_check fuel m t = Ret tt.
Proof. intros E. unfold object_wait_queue_check. now rewrite E. Qed.

(** ** Enqueueing *)

(** Read the memory after a sequence of writes. *)
Ltac reads :=
  cbn; rewrite ?fn_at;
  repeat match goal with
  | |- context [@decide ?P _] =>
      (rewrite (decide_True (P := P)) by (split || idtac; congruence)) ||
      (rewrite (decide_False (P := P)) by (congruence || (intros [? ?]; congruence))) ||
      (destruct (decide P); simplify_eq)
  end; cbn; try done.

(** Pushing [t] on the queue of [o]: the memory that it takes. *)
Lemma wq_push m m' Q R o t :
  rep m Q R -> (forall o', t ∉ Q o') -> objects m t = Some TThread -> objects m o <> None ->
  objects m' = objects m ->
  (forall o', queue_p m' o' = <[o := true]> (queue_p m) o') ->
  queue m' = <[o := t]> (queue m) ->
  threads m' t = enc o (default t (last_or (Q o) None)) (Pos (hd_or (Q o) None) None) (R t) ->
  (forall u, u <> t -> threads m' u =
     if decide (hd_or (Q o) None = Some u) then with_prev t (with_head false (threads m u))
     else threads m u) ->
  rep m' (<[o := t :: Q o]> Q) R.
Proof.
  intros H Ht Ot Oo Hob Hp Hq Et Eu.
  assert (Hs := separated_push Q o t (rep_sep _ _ _ H) Ht).
  assert (Hnd := sep_nodup _ Hs o). rewrite fn_lookup_insert in Hnd.
  apply (wq_change m); try done.
  - now intros h [= <-]; rewrite Hq, fn_lookup_insert.
  - intros o' Ho'. now rewrite Hq, fn_lookup_insert_ne.
  - intros u [->|Hu]%elem_of_cons; [done|exact (rep_thread _ _ _ H _ _ Hu)].
  - intros u p Hr. assert (Hr2 := ring_insert [] t (Q o) u Hnd). cbn [app last_or] in Hr2.
    rewrite Hr in Hr2. destruct (decide (u = t)) as [->|Hne].
    { simplify_eq. rewrite Et. unfold last_waiter. cbn. now rewrite last_or_default. }
    destruct (ring None (Q o) None u) as [p0|] eqn:Er; [|done]. cbn in Hr2. simplify_eq.
    rewrite Eu, (rep_node _ _ _ H _ _ _ Er) by done. unfold last_waiter. cbn.
    rewrite last_or_default. assert (Hf := ring_first _ _ _ _ Er).
    destruct (last_or (Q o) None) as [z|] eqn:Ez; [|destruct (Q o) as [|y l]; [done|];
      cbn in Ez; now rewrite last_or_cons in Ez].
    rewrite (decide_False (P := None = Some u)) by done.
    destruct (decide (hd_or (Q o) None = Some u)) as [E1|E1].
    + done.
    + destruct (p_prev p0) eqn:E2; [|tauto]. unfold enc. cbn. now rewrite E2.
  - intros u [Hu Hu']%not_elem_of_cons. rewrite Eu by done. rewrite !decide_False; [done|done|].
    intros [?|[_ ?]]%hd_or_elem; done.
Qed.

Lemma wq_enqueue fuel m Q R o t :
  rep m Q R -> (forall o', t ∉ Q o') -> objects m t = Some TThread -> objects m o <> None ->
  (length (Q o) < fuel)%nat ->
  exists m', object_wait_queue_enqueue fuel m o t = Ret m' /\ rep m' (<[o := t :: Q o]> Q) R /\
             waiters m' = waiters m /\ objects m' = objects m.
Proof.
  intros H Ht Ot Oo Hf. unfold object_wait_queue_enqueue.
  assert (Hp := rep_free _ _ _ H t Ht). rewrite check_free, Hp, (wq_head m Q R) by done. cbn.
  assert (Hrt := rep_reason _ _ _ H t).
  destruct (hd_or (Q o) None) as [h|] eqn:Eh.
  - destruct (head_thread _ _ _ _ _ H Eh) as (nx&z&Ez&Oh&Hz).
    assert (Hh : h ∈ Q o) by (destruct (hd_or_elem _ _ _ Eh) as [|[_ ?]]; done).
    assert (h <> t) by (intros ->; now apply (Ht o)).
    cbn. rewrite Ez. cbn.
    match goal with |- context [object_wait_queue_check _ ?m1 _] => set (m' := m1) end.
    assert (Hr : rep m' (<[o := t :: Q o]> Q) R).
    { apply (wq_push m); try done.
      - intros o'. subst m'. cbn. rewrite fn_at. case_decide as E; [|done].
        subst. rewrite (rep_p _ _ _ H). apply bool_decide_eq_true_2. now intros E0; rewrite E0 in Eh.
      - subst m'. reads. rewrite Hz, Eh. cbn. unfold enc. rewrite <- Hrt. done.
      - intros u Hu. subst m'. rewrite Eh. reads. }
    rewrite (check_in _ _ _ _ o _ Hr); [|rewrite fn_at, decide_True by done; left
      |rewrite fn_at, decide_True by done; cbn; lia].
    cbn. eauto.
  - cbn.
    match goal with |- context [object_wait_queue_check _ ?m1 _] => set (m' := m1) end.
    assert (E : Q o = []) by (now destruct (Q o)).
    assert (Hr : rep m' (<[o := t :: Q o]> Q) R).
    { apply (wq_push m); try done.
      - subst m'. rewrite E. reads. unfold enc. rewrite <- Hrt. done.
      - intros u Hu. subst m'. rewrite Eh. reads. }
    rewrite (check_in _ _ _ _ o _ Hr); [|rewrite fn_at, decide_True by done; left
      |rewrite fn_at, decide_True by done; cbn; lia].
    cbn. eauto.
Qed.

(** ** Dequeueing *)

(** Removing [t] from between [l1] and [l2]: the memory that it takes.  The
    neighbours inherit the links and the flags of [t]. *)
Lemma wq_remove m m' Q R o l1 t l2 :
  rep m Q R -> Q o = l1 ++ t :: l2 -> objects m' = objects m ->
  (forall o', queue_p m' o' = <[o := bool_decide (l1 ++ l2 <> [])]> (queue_p m) o') ->
  (forall h, hd_or (l1 ++ l2) None = Some h -> queue m' o = h) ->
  (forall o', o' <> o -> queue m' o' = queue m o') ->
  threads m' t = with_p false (threads m t) ->
  (forall u, u <> t -> threads m' u =
     (if decide (last_or l1 None = Some u)
      then fun x => with_next (next (threads m t)) (with_tail (wait_queue_tail (threads m t)) x)
      else id)
     ((if decide (hd_or l2 None = Some u)
       then fun x => with_prev (prev (threads m t)) (with_head (wait_queue_head (threads m t)) x)
       else if decide (l2 = [] /\ hd_or l1 None = Some u) then with_prev (prev (threads m t))
       else id) (threads m u))) ->
  rep m' (<[o := l1 ++ l2]> Q) R.
Proof.
  intros H E Hob Hp Hq1 Hq2 Et Eu.
  assert (Hnd := sep_nodup _ (rep_sep _ _ _ H) o). rewrite E in Hnd.
  assert (Htn : t ∉ l1 ++ l2).
  { rewrite <- Permutation_middle in Hnd. now apply NoDup_cons in Hnd as [? _]. }
  assert (Ht := wq_mid _ _ _ _ _ _ _ H E).
  apply (wq_change m); try done.
  - apply separated_shrink; [apply H|]. rewrite E.
    apply sublist_app; [done|]. now apply sublist_cons.
  - intros _. apply (rep_obj _ _ _ H). rewrite E. now destruct l1.
  - intros u Hu. apply (rep_thread _ _ _ H o). rewrite E. set_solver.
  - intros u p Hr. assert (Hne : u <> t) by (intros ->; apply Htn; eapply ring_elem; eauto).
    assert (Hold := ring_insert l1 t l2 u Hnd). rewrite decide_False, Hr in Hold by done.
    cbn in Hold. rewrite <- E in Hold.
    rewrite Eu, (rep_node _ _ _ H _ _ _ Hold), Ht by done. clear Eu Et.
    unfold last_waiter. rewrite E, last_or_insert, last_or_cons, last_or_app. cbn.
    assert (Hf := ring_first _ _ _ _ Hr).
    assert (Hl := ring_last _ _ _ _ (NoDup_delete_mid _ _ _ Hnd) Hr).
    destruct (ring_meet _ _ _ _ (NoDup_delete_mid _ _ _ Hnd) Hr) as [Hm1 Hm2].
    assert (Hz : l2 <> [] -> default 0 (last_or l2 (last_or l1 None)) = default t (last_or l2 None)).
    { destruct l2 as [|x l2]; [done|]. intros _. cbn. now rewrite last_or_cons. }
    destruct p as [nx pv]. cbn in *. unfold enc. cbn.
    assert (E1 : default (default t (last_or l2 None))
       (if decide (hd_or l2 None = Some u) then last_or l1 None
        else if decide (l2 = [] /\ hd_or l1 None = Some u) then last_or l1 None else pv)
       = default (default 0 (last_or l2 (last_or l1 None))) pv).
    { destruct (decide (hd_or l2 None = Some u)) as [D2|D2].
      { rewrite (Hm2 D2), Hz; [done|]. now intros E0; rewrite E0 in D2. }
      destruct (decide (l2 = [] /\ hd_or l1 None = Some u)) as [[-> D3]|D3].
      { rewrite app_nil_r in Hf. rewrite (proj2 Hf D3). cbn.
        destruct l1 as [|y l1]; [done|]. cbn. now rewrite last_or_cons. }
      destruct pv; [done|]. cbn. destruct l2 as [|x l2]; [|now rewrite Hz].
      exfalso. apply D3. split; [done|]. rewrite app_nil_r in Hf. now apply Hf. }
    rewrite <- E1. clear E1.
    destruct (decide (last_or l1 None = Some u)) as [D1|D1]; [pose proof (Hm1 D1) as ->|];
      (destruct (decide (hd_or l2 None = Some u)) as [D2|D2]; [pose proof (Hm2 D2) as ->; done|];
       destruct (decide (l2 = [] /\ hd_or l1 None = Some u)) as [D3|D3]; [|done]);
      destruct D3 as [-> D3]; rewrite app_nil_r in Hf; pose proof (proj2 Hf D3) as ->; done.
  - intros u Hu. destruct (decide (u = t)) as [->|Hne].
    { rewrite Et, decide_True; [done|]. rewrite E. set_solver. }
    rewrite Eu by done.
    rewrite (decide_False (P := last_or l1 None = Some u))
      by (intros [?|[_ ?]]%last_or_elem; [set_solver|done]).
    rewrite (decide_False (P := hd_or l2 None = Some u))
      by (intros [?|[_ ?]]%hd_or_elem; [set_solver|done]).
    rewrite (decide_False (P := l2 = [] /\ _))
      by (intros [_ [?|[_ ?]]%hd_or_elem]; [set_solver|done]).
    rewrite decide_False by (rewrite E; set_solver). done.
Qed.

Lemma find_upd m t f o : object_find (upd_thread m t f) o = object_find m o.
Proof. done. Qed.

Lemma thread_p_upd m t f o : thread_p (upd_thread m t f) o = thread_p m o.
Proof. done. Qed.

Lemma dequeue_tail_rep m Q R o l1 t :
  rep m Q R -> Q o = l1 ++ [t] ->
  exists m', dequeue_tail m t = Ret m' /\ waiters m' = waiters m /\ objects m' = objects m /\
    rep (upd_thread m' t (with_p false)) (<[o := l1]> Q) R.
Proof.
  intros H E. unfold dequeue_tail.
  assert (Ht := wq_mid _ _ _ _ _ _ _ H E). cbn in Ht.
  assert (Hne : Q o <> []) by (rewrite E; now destruct l1).
  assert (Hrm := fun m' => wq_remove m m' Q R o l1 t [] H E). rewrite app_nil_r in Hrm.
  rewrite Ht. cbn [next enc default p_next].
  rewrite (find_Some m o) by (now apply (rep_obj _ _ _ H)). cbn.
  rewrite (rep_p _ _ _ H), (bool_decide_eq_true_2 (Q o <> [])) by done. cbn.
  rewrite (wq_tail m Q R), E, last_or_snoc by done. cbn.
  rewrite (bool_decide_eq_true_2 (Some t = Some t)) by done. cbn.
  destruct (thread_found m t) as [Ft _]; [apply (rep_thread _ _ _ H o); rewrite E; set_solver|].
  destruct l1 as [|y l1 _] using rev_ind.
  - cbn. rewrite Ft, (bool_decide_eq_true_2 (Some t = Some t)) by done. cbn.
    eexists. split; [done|]. split; [done|]. split; [done|]. apply Hrm; try done.
    all: intros; reads.
  - rewrite last_or_snoc in *. cbn. rewrite (wq_head m Q R) by done.
    assert (exists h, hd_or (l1 ++ [y]) None = Some h) as [h Eh] by (destruct l1; cbn; eauto).
    assert (Eh' : hd_or (Q o) None = Some h) by (rewrite E; destruct l1; cbn in *; congruence).
    rewrite Eh'. cbn. destruct (head_thread _ _ _ _ _ H Eh') as (nx&z&Ez&Oh&Hz).
    assert (z = t) as -> by (rewrite E, last_or_snoc in Hz; congruence).
    rewrite Ez. cbn. rewrite Ft, (bool_decide_eq_true_2 (Some t = Some t)) by done. cbn.
    assert (y <> t /\ h <> t) as [? ?].
    { assert (Hnd := sep_nodup _ (rep_sep _ _ _ H) o). rewrite E in Hnd.
      apply NoDup_app in Hnd as (_&Hd&_). split; intros ->; apply (Hd t); try left.
      - set_solver.
      - now destruct (hd_or_elem _ _ _ Eh) as [|[? ?]]. }
    destruct (thread_found m y) as [Fy Py]; [apply (rep_thread _ _ _ H o); rewrite E; set_solver|].
    rewrite find_upd. cbn. rewrite !fn_at, !(decide_False (P := t = h)), Ht by done. cbn.
    rewrite Fy. cbn. rewrite thread_p_upd, Py. cbn.
    eexists. split; [done|]. split; [done|]. split; [done|]. apply Hrm; try done.
    + intros o'. cbn. rewrite fn_at. case_decide as E0; [|done].
      subst. rewrite (rep_p _ _ _ H). rewrite !bool_decide_eq_true_2; [done| |done]. now destruct l1.
    + cbn. intros h' Eh2. apply (rep_queue _ _ _ H). congruence.
    + reads.
    + intros u Hu. rewrite Eh. destruct (decide (h = y)) as [->|]; reads; now rewrite Ht.
Qed.

Lemma dequeue_inner_rep m Q R o l1 t x l2 :
  rep m Q R -> Q o = l1 ++ t :: x :: l2 ->
  exists m', dequeue_inner m t = Ret m' /\ waiters m' = waiters m /\ objects m' = objects m /\
    rep (upd_thread m' t (with_p false)) (<[o := l1 ++ x :: l2]> Q) R.
Proof.
  intros H E. unfold dequeue_inner.
  assert (Ht := wq_mid _ _ _ _ _ _ _ H E). cbn in Ht.
  assert (Hne : Q o <> []) by (rewrite E; now destruct l1).
  assert (Hrm := fun m' => wq_remove m m' Q R o l1 t (x :: l2) H E).
  rewrite (wq_next m Q R o l1 t (x :: l2)) by done. cbn.
  assert (Hnd := sep_nodup _ (rep_sep _ _ _ H) o). rewrite E in Hnd.
  assert (t <> x) by (apply NoDup_app in Hnd as (_&_&Hnd); rewrite !NoDup_cons in Hnd; set_solver).
  rewrite Ht in *. destruct l1 as [|y l1 _] using rev_ind.
  - cbn. set (z := default t (last_or l2 (Some x))) in *.
    assert (Hz : last_or (Q o) None = Some z).
    { rewrite E. cbn. unfold z. now rewrite last_or_cons. }
    destruct (last_thread _ _ _ _ _ H Hz) as (pv&Ez&Oz).
    destruct (thread_found m z Oz) as [Fz Pz]. rewrite Fz. cbn. rewrite Pz, Ez. cbn.
    rewrite (find_Some m o) by (now apply (rep_obj _ _ _ H)). cbn.
    rewrite (wq_head m Q R), E by done. cbn. rewrite (bool_decide_eq_true_2 (Some t = Some t)) by done.
    cbn. eexists. split; [done|]. split; [done|]. split; [done|]. apply Hrm; try done.
    all: intros; reads; rewrite ?Ht; cbn in *; try congruence.
    rewrite (rep_p _ _ _ H). now apply bool_decide_eq_true_2.
  - rewrite last_or_snoc in *. cbn.
    assert (y <> t /\ y <> x) as [? ?].
    { rewrite <- app_assoc in Hnd. apply NoDup_app in Hnd as (_&_&Hnd). cbn in Hnd.
      rewrite !NoDup_cons in Hnd. set_solver. }
    destruct (thread_found m y) as [Fy Py]; [apply (rep_thread _ _ _ H o); rewrite E; set_solver|].
    rewrite Fy. cbn. rewrite Py. cbn.
    assert (Ex : Q o = ((l1 ++ [y]) ++ [t]) ++ x :: l2) by (rewrite E, <- ?app_assoc; done).
    assert (Ey : Q o = l1 ++ y :: t :: x :: l2) by (rewrite E, <- ?app_assoc; done).
    apply (wq_mid _ _ _ _ _ _ _ H) in Ex. apply (wq_mid _ _ _ _ _ _ _ H) in Ey.
    rewrite last_or_snoc in Ex. cbn in Ex, Ey.
    assert (Hh : forall h, hd_or ((l1 ++ [y]) ++ x :: l2) None = Some h -> hd_or (Q o) None = Some h)
      by (rewrite E; now destruct l1).
    eexists. split; [done|]. split; [done|]. split; [done|]. apply Hrm; try done.
    all: intros; reads; rewrite ?Ht, ?Ex, ?Ey; try done.
    + rewrite (rep_p _ _ _ H). rewrite !bool_decide_eq_true_2; [done| |done]. now destruct l1.
    + apply (rep_queue _ _ _ H). auto.
Qed.

Lemma wq_dequeue fuel m Q R F o l1 t l2 w1 w2 :
  rep m Q R -> Q o = l1 ++ t :: l2 -> (length (Q o) <= fuel)%nat ->
  KList.rep (waiters m) F ->
  ((R t).1 = THREAD_WAIT_FUTEX -> F FUTEX_WAITERS = w1 ++ t :: w2 /\ (length w2 < fuel)%nat) ->
  exists m', object_wait_queue_dequeue fuel m t = Ret m' /\
    rep m' (<[o := l1 ++ l2]> Q) R /\ objects m' = objects m /\
    KList.rep (waiters m') (if decide ((R t).1 = THREAD_WAIT_FUTEX)
                            then <[FUTEX_WAITERS := w1 ++ w2]> F else F).
Proof.
  intros H E Hf HF Hw. unfold object_wait_queue_dequeue.
  assert (Ht := wq_mid _ _ _ _ _ _ _ H E).
  rewrite (check_in _ _ _ _ o _ H) by (rewrite ?E; try set_solver; rewrite <- E; lia).
  assert (Hp : wait_queue_p (threads m t) = true) by (now rewrite Ht).
  rewrite Hp. cbn [mbind exec_bind check].
  assert (exists m1, (if wait_queue_tail (threads m t) then dequeue_tail m t else dequeue_inner m t)
    = Ret m1 /\ waiters m1 = waiters m /\ objects m1 = objects m /\
      rep (upd_thread m1 t (with_p false)) (<[o := l1 ++ l2]> Q) R) as (m1&E1&Ew&Eo&Hr).
  { rewrite Ht. destruct l2 as [|x l2]; cbn.
    - rewrite app_nil_r. now apply dequeue_tail_rep.
    - now apply dequeue_inner_rep. }
  rewrite E1. cbn [mbind exec_bind].
  assert (Hrt : wait_reason (threads (upd_thread m1 t (with_p false)) t) = (R t).1)
    by (now rewrite <- (rep_reason _ _ _ Hr t)).
  rewrite Hrt. assert (Hc : forall l, object_wait_queue_check fuel
    (set_waiters (upd_thread m1 t (with_p false)) l) t = Ret tt).
  { intros l. apply check_free. cbn. now rewrite fn_at, decide_True. }
  destruct (Z.eqb_spec (R t).1 THREAD_WAIT_FUTEX) as [Er|Er].
  - rewrite decide_True by done. destruct (Hw Er) as [EF Hfw].
    destruct (KList.unlink_rep fuel _ _ _ _ _ _ HF EF Hfw) as (l'&El&Hl).
    cbn [waiters upd_thread set_thread]. rewrite Ew, El. cbn [mbind exec_bind]. rewrite Hc.
    eexists. split; [reflexivity|]. split; [|split; [exact Eo|exact Hl]].
    destruct Hr. now split.
  - rewrite decide_False by done. cbn [mbind exec_bind].
    rewrite check_free by (cbn; now rewrite fn_at, decide_True).
    eexists. split; [reflexivity|]. split; [exact Hr|]. split; [exact Eo|]. cbn. now rewrite Ew.
Qed.

(** Representations are compared pointwise. *)
Lemma wq_ext m Q Q' R R' :
  rep m Q R -> (forall o, Q' o = Q o) -> (forall u, R' u = R u) -> rep m Q' R'.
Proof.
  intros [[Hs1 Hs2] Hp Hq Ho Ht Hn Hf Hr] E ER. split; [split|..]; try done.
  - intros o. now rewrite E.
  - intros o o' t. rewrite !E. apply Hs2.
  - intros o. now rewrite E.
  - intros o. rewrite E. apply Hq.
  - intros o. rewrite E. apply Ho.
  - intros o u. rewrite E. apply Ht.
  - intros o u p. rewrite E, ER. apply Hn.
  - intros u Hu. apply Hf. intros o. rewrite <- E. apply Hu.
  - intros u. rewrite ER. apply Hr.
Qed.

(** ** Waking all waiters *)

(** The threads that wait on a futex are on the kernel's list of them. *)
Definition listed (Q : Z -> list Z) (R : Z -> Z * Z) (F : Z -> list Z) (o : Z) : Prop :=
  forall u, u ∈ Q o -> (R u).1 = THREAD_WAIT_FUTEX -> u ∈ F FUTEX_WAITERS.

Definition reply_of (R : Z -> Z * Z) (t : Z) : reply :=
  if (R t).1 =? THREAD_WAIT_DESTROY then Destroyed else Efault.

(** Dequeueing a thread whose place on the list of futex waiters is not known. *)
Lemma dequeue_listed fuel m Q R F o l1 t l2 :
  rep m Q R -> Q o = l1 ++ t :: l2 -> KList.rep (waiters m) F -> listed Q R F o ->
  (length (Q o) <= fuel)%nat -> (length (F FUTEX_WAITERS) <= fuel)%nat ->
  exists m' F', object_wait_queue_dequeue fuel m t = Ret m' /\
    rep m' (<[o := l1 ++ l2]> Q) R /\ objects m' = objects m /\
    KList.rep (waiters m') F' /\ (length (F' FUTEX_WAITERS) <= fuel)%nat /\
    (forall u, u ∈ F' FUTEX_WAITERS <->
       u ∈ F FUTEX_WAITERS /\ ~ (u = t /\ (R t).1 = THREAD_WAIT_FUTEX)) /\
    (forall c, c <> FUTEX_WAITERS -> F' c = F c).
Proof.
  intros H E HF Hl Hf Hw.
  destruct (decide ((R t).1 = THREAD_WAIT_FUTEX)) as [Er|Er].
  - assert (Ht : t ∈ F FUTEX_WAITERS) by (apply Hl; [rewrite E; set_solver|done]).
    apply list_elem_of_split in Ht as (w1&w2&EF).
    destruct (wq_dequeue fuel m Q R F o l1 t l2 w1 w2 H E Hf HF) as (m'&E1&Hr&Eo&HF').
    { intros _. split; [done|]. rewrite EF, length_app in Hw. cbn in Hw. lia. }
    rewrite decide_True in HF' by done.
    exists m', (<[FUTEX_WAITERS := w1 ++ w2]> F). repeat (split; [done|]).
    rewrite fn_lookup_insert. split; [rewrite EF, length_app in Hw; rewrite length_app; cbn in Hw; lia|].
    split; [|intros c Hc; now rewrite fn_lookup_insert_ne]. intros u. rewrite EF.
    assert (Hnd := KList.rep_sep _ _ HF). apply sep_nodup with (p := FUTEX_WAITERS) in Hnd.
    rewrite EF, <- Permutation_middle in Hnd. apply NoDup_cons in Hnd as [Hnd _].
    rewrite <- Permutation_middle. rewrite elem_of_cons. naive_solver.
  - destruct (wq_dequeue fuel m Q R F o l1 t l2 [] [] H E Hf HF) as (m'&E1&Hr&Eo&HF'); [done|].
    rewrite decide_False in HF' by done. exists m', F. repeat (split; [done|]). split; [naive_solver|done].
Qed.

Lemma wake_loop_rep fuel m Q R F o l :
  rep m Q R -> Q o = l -> KList.rep (waiters m) F -> listed Q R F o ->
  (length l < fuel)%nat -> (length (F FUTEX_WAITERS) < fuel - length l)%nat ->
  exists m' F', wake_loop fuel m (hd_or l None) = Ret (m', map (fun t => (t, reply_of R t)) l) /\
    rep m' (<[o := []]> Q) R /\ objects m' = objects m /\ KList.rep (waiters m') F' /\
    (forall u, u ∈ F' FUTEX_WAITERS <->
       u ∈ F FUTEX_WAITERS /\ ~ (u ∈ l /\ (R u).1 = THREAD_WAIT_FUTEX)).
Proof.
  revert fuel m Q F. induction l as [|t l IH]; intros fuel m Q F H E HF Hl Hf Hw;
    destruct fuel as [|fuel]; try (cbn in Hf; lia); cbn [wake_loop hd_or].
  - exists m, F. split; [done|]. split; [|split; [done|split; [done|set_solver]]].
    apply (wq_ext _ _ _ _ _ H); [|done]. intros o'. rewrite fn_at. case_decide; congruence.
  - cbn [length] in Hf, Hw. rewrite (wq_next m Q R o [] t l) by done.
    destruct (dequeue_listed (S fuel) m Q R F o [] t l H E HF Hl) as (m1&F1&E1&Hr&Eo&HF1&Hw1&HF1'&_);
      [rewrite E; cbn; lia|lia|].
    cbn [mbind exec_bind]. rewrite E1. cbn [mbind exec_bind app] in Hr |- *.
    destruct (IH fuel m1 (<[o := l]> Q) F1 Hr) as (m2&F2&E2&Hr2&Eo2&HF2&HF2');
      [apply fn_lookup_insert|done| |lia| |].
    + intros u. rewrite fn_lookup_insert. intros Hu Hru. apply HF1'.
      split; [apply Hl; [rewrite E; now right|done]|]. intros [-> _].
      assert (Hnd := sep_nodup _ (rep_sep _ _ _ H) o). rewrite E in Hnd.
      now apply NoDup_cons in Hnd as [Hnd _].
    + assert (Hs : (length (F1 FUTEX_WAITERS) <= length (F FUTEX_WAITERS))%nat); [|lia].
      apply submseteq_length, NoDup_submseteq; [apply (KList.rep_sep _ _ HF1)|].
      intros u Hu. now apply HF1'.
    + rewrite E2. cbn [mbind exec_bind]. exists m2, F2. split.
      { cbn [map]. unfold reply_of at 2. now rewrite <- (rep_reason _ _ _ Hr t). }
      split; [apply (wq_ext _ _ _ _ _ Hr2); [intros o'; rewrite !fn_at; now case_decide|done]|].
      split; [congruence|]. split; [done|]. intros u. rewrite HF2', HF1', elem_of_cons.
      naive_solver.
Qed.

Lemma wake_waiters_rep fuel m Q R F o :
  rep m Q R -> KList.rep (waiters m) F -> listed Q R F o ->
  (length (F FUTEX_WAITERS) + length (Q o) < fuel)%nat ->
  exists m' F', wake_waiters fuel m o = Ret (m', map (fun t => (t, reply_of R t)) (Q o)) /\
    rep m' (<[o := []]> Q) R /\ objects m' = objects m /\ KList.rep (waiters m') F' /\
    (forall u, u ∈ F' FUTEX_WAITERS <->
       u ∈ F FUTEX_WAITERS /\ ~ (u ∈ Q o /\ (R u).1 = THREAD_WAIT_FUTEX)).
Proof.
  intros H HF Hl Hf. unfold wake_waiters.
  assert (Hh : (if queue_p m o then object_find m (queue m o) else None) = hd_or (Q o) None).
  { rewrite (rep_p _ _ _ H). destruct (Q o) as [|h l] eqn:E.
    - now rewrite bool_decide_eq_false_2 by (intros []; done).
    - rewrite bool_decide_eq_true_2 by done.
      rewrite (rep_queue _ _ _ H o h) by now rewrite E.
      destruct (thread_found m h) as [-> _]; [|done].
      apply (rep_thread _ _ _ H o). rewrite E. left. }
  rewrite Hh. apply (wake_loop_rep _ _ _ _ F); [done..| |]; lia.
Qed.

(** ** What the queues promise *)

(** The objects that exist, and nothing waited on. *)
Definition idle (objs : Z -> option otype) : wmem :=
  Wmem objs (fun _ => Thread false false false 0 0 0 0) (fun _ => false) (fun _ => 0) KList.cleared.

Lemma idle_rep objs : rep (idle objs) (fun _ => []) (fun _ => (0, 0)).
Proof.
  split; try done.
  - split; [constructor|set_solver].
  - set_solver.
Qed.

(** C17: The wait queues refine lists of threads.  From memory that represents
    the queues [Q], enqueueing a thread that is on no queue puts it in front of
    the object's waiters, and dequeueing a thread removes it wherever it stands
    (and takes it off the kernel's list of futex waiters when it waits on a
    futex); all other queues are untouched, no assertion fails, and the walk of
    the consistency check ends.  The accessors return the list's first, last and
    neighbouring threads. *)
Theorem wait_queue_operations fuel m Q R F :
  rep m Q R -> KList.rep (waiters m) F ->
  (forall o, (length (Q o) < fuel)%nat) -> (length (F FUTEX_WAITERS) <= fuel)%nat ->
  (forall o t, (forall o', t ∉ Q o') -> objects m t = Some TThread -> objects m o <> None ->
     exists m', object_wait_queue_enqueue fuel m o t = Ret m' /\ rep m' (<[o := t :: Q o]> Q) R /\
                waiters m' = waiters m) /\
  (forall o l1 t l2, Q o = l1 ++ t :: l2 -> listed Q R F o ->
     object_wait_queue_head m o = Ret (hd_or (Q o) None) /\
     object_wait_queue_tail m o = Ret (last_or (Q o) None) /\
     object_wait_queue_next m t = Ret (hd_or l2 None) /\
     object_wait_queue_prev m t = Ret (last_or l1 None) /\
     object_wait_queue_check fuel m t = Ret tt /\
     exists m' F', object_wait_queue_dequeue fuel m t = Ret m' /\
       rep m' (<[o := l1 ++ l2]> Q) R /\ KList.rep (waiters m') F' /\
       (forall u, u ∈ F' FUTEX_WAITERS <->
          u ∈ F FUTEX_WAITERS /\ ~ (u = t /\ (R t).1 = THREAD_WAIT_FUTEX))).
Proof.
  intros H HF Hf Hw. split.
  - intros o t Ht Ot Oo. destruct (wq_enqueue fuel m Q R o t) as (m'&?&?&?&_); eauto.
  - intros o l1 t l2 E Hl. specialize (Hf o).
    destruct (dequeue_listed fuel m Q R F o l1 t l2) as (m'&F'&?&?&?&?&?&?&?); try done; [lia|].
    split; [now apply (wq_head m Q R)|]. split; [now apply (wq_tail m Q R)|].
    split; [now apply (wq_next m Q R o l1 t l2)|]. split; [now apply (wq_prev m Q R o l1 t l2)|].
    split; [apply (check_in _ _ _ _ o _ H); [rewrite E; set_solver|lia]|]. eauto 10.
Qed.

(** Deallocating an object wakes each of its waiters exactly once, in the
    order of the queue: those that wait for the object's destruction are told
    so, the others get a fault; afterwards nobody waits on the object, the
    waiters of other objects still wait, and only futex waiters of this object
    have left the kernel's list of futex waiters. *)
Theorem object_death_wakes_all fuel m Q R F o :
  rep m Q R -> KList.rep (waiters m) F -> listed Q R F o ->
  (length (F FUTEX_WAITERS) + length (Q o) < fuel)%nat ->
  exists m' F', wake_waiters fuel m o = Ret (m', map (fun t => (t, reply_of R t)) (Q o)) /\
    rep m' (<[o := []]> Q) R /\ KList.rep (waiters m') F' /\
    (forall u, u ∈ F' FUTEX_WAITERS <->
       u ∈ F FUTEX_WAITERS /\ ~ (u ∈ Q o /\ (R u).1 = THREAD_WAIT_FUTEX)).
Proof.
  intros H HF Hl Hf. destruct (wake_waiters_rep fuel m Q R F o H HF Hl Hf) as (m'&F'&?&?&_&?&?).
  eauto 10.
Qed.

(** Threads 10 and 11 wait on object 1, thread 11 for its destruction. *)
Definition two_waiting : wmem :=
  let t10 := Thread true false true THREAD_WAIT_FUTEX 8 1 11 in
  let t11 := Thread true true false THREAD_WAIT_DESTROY 0 10 10 in
  Wmem (fun o => if (10 <=? o) then Some TThread else Some TOther)
    (<[10 := t10]> (<[11 := t11]> (fun _ => Thread false false false 0 0 0 0)))
    (<[1 := true]> (fun _ => false)) (<[1 := 11]> (fun _ => 0))
    (KList.Lmem (<[FUTEX_WAITERS := KList.ListHeader (Some 10) 1]> (KList.headers KList.cleared))
       (<[10 := KList.ListNode (KList.Sentinel FUTEX_WAITERS) (KList.Sentinel 10)]>
          (KList.nodes KList.cleared))).

Definition two_Q : Z -> list Z := <[1 := [11; 10]]> (fun _ => []).
Definition two_R : Z -> Z * Z := <[10 := (0, 8)]> (<[11 := (1, 0)]> (fun _ => (0, 0))).
Definition two_F : Z -> list Z := <[FUTEX_WAITERS := [10]]> (fun _ => []).

Lemma two_rep : rep two_waiting two_Q two_R /\ KList.rep (waiters two_waiting) two_F /\
  listed two_Q two_R two_F 1 /\ (forall o, (length (two_Q o) < 4)%nat).
Proof.
  split; [|split; [|split]].
  - split; unfold two_Q, two_R.
    + apply separated_insert; [split; [constructor|set_solver]| |set_solver].
      rewrite !NoDup_cons. repeat split; try set_solver. constructor.
    + intros o. cbn. rewrite !fn_at. now case_decide.
    + intros o h. cbn. rewrite !fn_at. case_decide; naive_solver.
    + intros o _. cbn. now case_if.
    + intros o u. rewrite fn_at. case_decide; [|set_solver]. cbn.
      intros [->|[->|Hu]%elem_of_cons]%elem_of_cons; [done|done|set_solver].
    + intros o u p. rewrite fn_at. case_decide; [subst|done]. cbn. rewrite !fn_at.
      repeat case_decide; simplify_eq; intros [= <-]; done.
    + intros u Hu. cbn. rewrite !fn_at. specialize (Hu 1). rewrite fn_at, decide_True in Hu by done.
      rewrite !decide_False by set_solver. done.
    + intros u. cbn. rewrite !fn_at. repeat case_decide; done.
  - apply (KList.rep_change KList.cleared); [apply KList.cleared_rep| |done|..].
    + apply separated_insert; [apply (KList.rep_sep _ _ KList.cleared_rep)| |set_solver].
      apply NoDup_singleton.
    + intros a' Ha'. cbn [two_waiting waiters KList.headers]. now rewrite fn_at, decide_False.
    + intros u p. cbn. rewrite !fn_at. repeat case_decide; simplify_eq; try done; now intros [= <-].
    + intros u Hu. cbn. rewrite !fn_at, !decide_False by set_solver. done.
  - intros u. unfold two_Q, two_F. rewrite !fn_at. cbn.
    intros [->|[->|Hu]%elem_of_cons]%elem_of_cons; [done|left|set_solver].
  - intros o. unfold two_Q. rewrite fn_at. case_decide; cbn; lia.
Qed.

Lemma wait_queue_operations_witness :
  exists m F', object_wait_queue_dequeue 4 two_waiting 10 = Ret m /\
    rep m (<[1 := [11]]> two_Q) two_R /\ KList.rep (waiters m) F' /\ 10 ∉ F' FUTEX_WAITERS.
Proof.
  destruct two_rep as (H&HF&Hl&Hf).
  destruct (wait_queue_operations 4 two_waiting two_Q two_R two_F H HF Hf) as [_ Hd]; [vm_compute; lia|].
  destruct (Hd 1 [11] 10 [] eq_refl Hl) as (_&_&_&_&_&m&F'&?&?&?&Hu).
  exists m, F'. split; [done|]. split; [done|]. split; [done|]. rewrite Hu. naive_solver.
Defined.

Lemma object_death_wakes_all_witness :
  exists m, wake_waiters 9 two_waiting 1 = Ret (m, [(11, Destroyed); (10, Efault)]) /\
            rep m (<[1 := []]> two_Q) two_R.
Proof.
  destruct two_rep as (H&HF&Hl&Hf).
  destruct (object_death_wakes_all 9 two_waiting two_Q two_R two_F 1 H HF Hl) as (m&F'&E&Hr&_);
    [vm_compute; lia|]. exists m. split; [exact E|exact Hr].
Defined.

End WaitQueue.
