(* ===== verification/Futex.v ===== *)
(** * Futexes (the RM_futex request of viengoos/server.c)

    The kernel's server answers futex requests of user threads with the wait
    queues: a waiting thread is on the wait queue of the page that holds the
    futex, with the byte offset of the futex in its wait reason.  Waking and
    requeueing walk the page's queue.  A request names pages by capabilities; here
    they are already resolved to objects.

    [futex] is the whole request.  Its replies to other threads are the list of
    the threads woken. *)

From S2P Require Import Prelude Ring KList WaitQueue.

Module Futex.
Import WaitQueue.

(** The wait queues, and the words of user memory: page and byte offset. *)
Record kernel := Kernel { wq : wmem; word : Z -> Z -> Z }.

Definition FUTEX_WAIT : Z := 0.
Definition FUTEX_WAKE : Z := 1.
Definition FUTEX_WAKE_OP : Z := 2.
Definition FUTEX_CMP_REQUEUE : Z := 3.

Inductive ferror := EWOULDBLOCK | EINVAL | EAGAIN | ENOSYS.
Inductive answer := NoReply | Error (e : ferror) | Value (n : Z).

(** ** Waking and requeueing *)

Definition waits_at (off : Z) (th : thread) : bool :=
  (wait_reason th =? THREAD_WAIT_FUTEX) && (wait_reason_arg th =? off).

Definition enqueue_at (fuel : nat) (m : wmem) (o : option Z) (t : Z) : exec wmem :=
  match o with
  | Some o => object_wait_queue_enqueue fuel m o t
  | None => Crash assertion_failed
  end.

(** The loop of [wake]; [t] is the next thread, [woken] the replies so far. *)
Fixpoint wake_from (fuel : nat) (m : wmem) (t : option Z) (to_wake offset1 to_requeue : Z)
    (o2 : option Z) (offset2 count : Z) : exec (wmem * Z * list Z) :=
  match fuel with
  | O => Crash out_of_fuel
  | S fuel' =>
      match t with
      | None => Ret (m, count, [])
      | Some t =>
          nx ← object_wait_queue_next m t;
          if waits_at offset1 (threads m t) then
            if count <? to_wake then
              m ← object_wait_queue_dequeue fuel m t;
              if (count + 1 =? to_wake) && (to_requeue =? 0) then Ret (m, count + 1, [t])
              else
                '(m, n, ws) ← wake_from fuel' m nx to_wake offset1 to_requeue o2 offset2 (count + 1);
                Ret (m, n, t :: ws)
            else
              m ← object_wait_queue_dequeue fuel m t;
              let m := upd_thread m t
                         (fun th => with_reason (wait_reason th) offset2 th) in
              m ← enqueue_at fuel m o2 t;
              if to_requeue - 1 =? 0 then Ret (m, count + 1, [])
              else wake_from fuel' m nx to_wake offset1 (to_requeue - 1) o2 offset2 (count + 1)
          else wake_from fuel' m nx to_wake offset1 to_requeue o2 offset2 count
      end
  end.

Definition wake (fuel : nat) (m : wmem) (to_wake o1 offset1 to_requeue : Z) (o2 : option Z)
    (offset2 : Z) : exec (wmem * Z * list Z) :=
  h ← object_wait_queue_head m o1;
  wake_from fuel m h to_wake offset1 to_requeue o2 offset2 0.

(** ** The third value of a request *)

Definition cmparg (v : Z) : Z := swrap 12 v.
Definition oparg (v : Z) : Z := swrap 12 (Z.shiftr v 12).
Definition cmp (v : Z) : Z := swrap 4 (Z.shiftr v 24).
Definition op_of (v : Z) : Z := swrap 4 (Z.shiftr v 28).

(** The operation on the second word. *)
Definition apply_op (op old arg : Z) : Z :=
  if op =? 0 then arg                                 (* FUTEX_OP_SET *)
  else if op =? 1 then i32 (old + arg)                (* FUTEX_OP_ADD *)
  else if op =? 2 then i32 (old + arg)                (* FUTEX_OP_OR *)
  else if op =? 3 then Z.land old (Z.lnot arg)        (* FUTEX_OP_ANDN *)
  else if op =? 4 then Z.lxor old arg                 (* FUTEX_OP_XOR *)
  else old.

(** The comparison; without a case the variable is read uninitialised. *)
Definition comparison (c old arg : Z) : option bool :=
  if c =? 0 then Some (old =? arg)
  else if c =? 1 then Some (negb (old =? arg))
  else if c =? 2 then Some (old <? arg)
  else if c =? 3 then Some (old <=? arg)
  else if c =? 4 then Some (arg <? old)
  else if c =? 5 then Some (arg <=? old)
  else None.

Definition set_word (k : kernel) (o off v : Z) : kernel :=
  Kernel (wq k) (<[o := <[off := v]> (word k o)]> (word k)).
Definition set_wq (k : kernel) (m : wmem) : kernel := Kernel m (word k).

(** ** The request *)

Definition do_wait (fuel : nat) (k : kernel) (thread o1 offset1 val1 : Z) (timeout : bool)
    : exec (kernel * answer * list Z) :=
  if negb (word k o1 offset1 =? val1) then Ret (k, Error EWOULDBLOCK, [])
  else if timeout then Crash panicked
  else
    let m := upd_thread (wq k) thread (with_reason THREAD_WAIT_FUTEX offset1) in
    m ← object_wait_queue_enqueue fuel m o1 thread;
    l ← KList.list_queue (waiters m) FUTEX_WAITERS thread;
    Ret (set_wq k (set_waiters m l), NoReply, []).

Definition do_wake (fuel : nat) (k : kernel) (o1 offset1 val1 : Z)
    : exec (kernel * answer * list Z) :=
  if val1 <=? 0 then Ret (k, Error EINVAL, [])
  else
    '(m, count, ws) ← wake fuel (wq k) val1 o1 offset1 0 None 0;
    Ret (set_wq k m, Value count, ws).

Definition do_wake_op (fuel : nat) (k : kernel) (o1 offset1 val2 o2 offset2 val3 : Z)
    : exec (kernel * answer * list Z) :=
  let oldval := word k o2 offset2 in
  let k := set_word k o2 offset2 (apply_op (op_of val3) oldval (oparg val3)) in
  '(m, _, ws) ← wake fuel (wq k) 1 o1 offset1 0 None 0;
  b ← access (comparison (cmp val3) oldval (cmparg val3));
  '(m, ws) ← (if (b : bool) then
                '(m, _, ws2) ← wake fuel m val2 o2 offset2 0 None 0;
                Ret (m, ws ++ ws2)
              else Ret (m, ws));
  Ret (set_wq k m, Value 0, ws).

Definition do_cmp_requeue (fuel : nat) (k : kernel) (o1 offset1 val1 val2 o2 offset2 val3 : Z)
    : exec (kernel * answer * list Z) :=
  if negb (word k o1 offset1 =? val3) then Ret (k, Error EAGAIN, [])
  else
    '(m, count, ws) ← wake fuel (wq k) val1 o1 offset1 val2 (Some o2) offset2;
    Ret (set_wq k m, Value count, ws).

Definition futex (fuel : nat) (k : kernel) (thread op o1 offset1 val1 : Z) (timeout : bool)
    (val2 o2 offset2 val3 : Z) : exec (kernel * answer * list Z) :=
  if op =? FUTEX_WAIT then do_wait fuel k thread o1 offset1 val1 timeout
  else if op =? FUTEX_WAKE then do_wake fuel k o1 offset1 val1
  else if op =? FUTEX_WAKE_OP then do_wake_op fuel k o1 offset1 val2 o2 offset2 val3
  else if op =? FUTEX_CMP_REQUEUE then do_cmp_requeue fuel k o1 offset1 val1 val2 o2 offset2 val3
  else Ret (k, Error ENOSYS, []).

(** ** What the walk of a queue picks *)

(** The first [n] elements that satisfy [f], and all the others. *)
Fixpoint picks (n : nat) (f : Z -> bool) (l : list Z) : list Z * list Z :=
  match l with
  | [] => ([], [])
  | x :: l' =>
      if f x then
        match n with
        | O => ([], l)
        | S n => let '(a, b) := picks n f l' in (x :: a, b)
        end
      else let '(a, b) := picks n f l' in (a, x :: b)
  end.

Definition here (R : Z -> Z * Z) (off u : Z) : bool :=
  bool_decide (R u = (THREAD_WAIT_FUTEX, off)).

Lemma picks_ext n f g l : (forall x, x ∈ l -> f x = g x) -> picks n f l = picks n g l.
Proof.
  revert n. induction l as [|x l IH]; intros n H; cbn; [done|].
  rewrite (H x) by left. assert (H' : forall y, y ∈ l -> f y = g y) by (intros; apply H; now right).
  destruct (g x); [destruct n as [|n]; [done|]|]; now rewrite IH.
Qed.

Lemma picks_0 f l : picks 0 f l = ([], l).
Proof. induction l as [|x l IH]; cbn; [done|]. rewrite IH. now destruct (f x). Qed.

(** What is picked and what is left make up the list. *)
Lemma picks_perm n f l : (picks n f l).1 ++ (picks n f l).2 ≡ₚ l.
Proof.
  revert n. induction l as [|x l IH]; intros n; cbn; [done|].
  destruct (f x).
  - destruct n as [|n]; [done|]. specialize (IH n). destruct (picks n f l). cbn in *. now constructor.
  - specialize (IH n). destruct (picks n f l). cbn in *. rewrite <- Permutation_middle. now constructor.
Qed.

Lemma picks_sat n f l u : u ∈ (picks n f l).1 -> f u = true.
Proof.
  revert n. induction l as [|x l IH]; intros n; cbn; [set_solver|].
  destruct (f x) eqn:E.
  - destruct n as [|n]; [set_solver|]. specialize (IH n). destruct (picks n f l). cbn in *.
    rewrite elem_of_cons. intros [->|?]; auto.
  - specialize (IH n). destruct (picks n f l). cbn in *. auto.
Qed.

(** Picking at most as many as there are is picking all. *)
Lemma picks_all n m f l : (length l <= n)%nat -> (length l <= m)%nat -> picks n f l = picks m f l.
Proof.
  revert n m. induction l as [|x l IH]; intros n m Hn Hm; cbn in *; [done|].
  destruct (f x); [destruct n as [|n], m as [|m]; try lia|]; rewrite (IH n m) by lia; done.
Qed.

Lemma picks_sublist n f l : sublist (picks n f l).2 l.
Proof.
  revert n. induction l as [|x l IH]; intros n; cbn; [constructor|].
  destruct (f x).
  - destruct n as [|n]; [done|]. specialize (IH n). destruct (picks n f l). cbn in *. now constructor.
  - specialize (IH n). destruct (picks n f l). cbn in *. now constructor.
Qed.

(** ** The walk *)

(** Changing the reason of a thread that is on no queue. *)
Lemma wq_reason m Q R t r a :
  rep m Q R -> (forall o, t ∉ Q o) ->
  rep (upd_thread m t (with_reason r a)) Q (<[t := (r, a)]> R).
Proof.
  intros [Hs Hp Hq Ho Ht Hn Hf Hr] Hfree. split; try done.
  - intros o u p Hu. assert (u <> t) by (intros ->; apply ring_elem in Hu; now apply (Hfree o)).
    cbn. rewrite !fn_at, !decide_False by done. now apply Hn.
  - intros u Hu. cbn. rewrite fn_at. case_decide; subst; cbn; now apply Hf.
  - intros u. cbn. rewrite !fn_at. case_decide; [done|]. apply Hr.
Qed.

Lemma waits_at_here m Q R off t :
  rep m Q R -> waits_at off (threads m t) = here R off t.
Proof.
  intros H. unfold waits_at, here. assert (Hr := rep_reason _ _ _ H t). rewrite <- Hr.
  apply Bool.eq_iff_eq_true. rewrite andb_true_iff, !Z.eqb_eq, bool_decide_eq_true.
  split; [intros [-> ->]; done|intros [= -> ->]; done].
Qed.

(** A walk of [fuel] steps that does not stop because enough threads were moved. *)
Definition unending (fuel : nat) (to_wake to_requeue count : Z) : Prop :=
  to_requeue < 0 \/ Z.of_nat fuel < to_requeue \/ to_requeue = 0 /\ to_wake <= count.

Lemma wake_from_same fuel m t tw off1 k1 k2 o2 off2 count :
  unending fuel tw k1 count -> unending fuel tw k2 count ->
  wake_from fuel m t tw off1 k1 o2 off2 count = wake_from fuel m t tw off1 k2 o2 off2 count.
Proof.
  unfold unending. revert m t k1 k2 count. induction fuel as [|fuel IH]; intros m t k1 k2 count H1 H2; [done|].
  cbn [wake_from]. destruct t as [t|]; [|done]. destruct (object_wait_queue_next m t) as [nx|]; [|done].
  cbn [mbind exec_bind]. destruct (waits_at off1 (threads m t)); [|apply IH; lia].
  destruct (Z.ltb_spec count tw).
  - destruct (object_wait_queue_dequeue _ m t) as [m1|]; [|done]. cbn [mbind exec_bind].
    rewrite (proj2 (Z.eqb_neq k1 0)), (proj2 (Z.eqb_neq k2 0)), andb_false_r by lia. now rewrite (IH m1 nx k1 k2) by lia.
  - destruct (object_wait_queue_dequeue _ m t) as [m1|]; [|done]. cbn [mbind exec_bind].
    destruct (enqueue_at _ _ o2 t) as [m2|]; [|done]. cbn [mbind exec_bind].
    rewrite (proj2 (Z.eqb_neq (k1 - 1) 0)), (proj2 (Z.eqb_neq (k2 - 1) 0)) by lia. apply IH; lia.
Qed.

Section walk.
Context (o1 off1 o2 off2 : Z) (oo : option Z).
Context (Hne : o2 <> o1).

(** The outcome of a walk that wakes [a] and requeues [c], and leaves [d]. *)
Definition walked (m : wmem) (Q : Z -> list Z) (R : Z -> Z * Z) (F : Z -> list Z)
    (l1 a c d : list Z) (m' : wmem) : Prop :=
  exists Q' R' F',
    rep m' Q' R' /\ KList.rep (waiters m') F' /\ objects m' = objects m /\
    (forall o, Q' o = (if decide (o = o2) then rev c ++ Q o2
                       else if decide (o = o1) then l1 ++ d else Q o)) /\
    (forall u, R' u = (if decide (u ∈ c) then (THREAD_WAIT_FUTEX, off2) else R u)) /\
    (forall u, u ∈ F' FUTEX_WAITERS <-> (u ∈ F FUTEX_WAITERS /\ (u ∉ a) /\ (u ∉ c))) /\
    (forall i, i <> FUTEX_WAITERS -> F' i = F i).

Lemma listed_dequeued Q R F (F' : Z -> list Z) t l1 l2 :
  listed Q R F o1 -> Q o1 = l1 ++ t :: l2 -> NoDup (Q o1) ->
  (forall u, u ∈ F' FUTEX_WAITERS <->
     u ∈ F FUTEX_WAITERS /\ ~ (u = t /\ (R t).1 = THREAD_WAIT_FUTEX)) ->
  forall u, u ∈ l1 ++ l2 -> (R u).1 = THREAD_WAIT_FUTEX -> u ∈ F' FUTEX_WAITERS.
Proof.
  intros Hl E Hnd HF u Hu Hr. apply HF. split.
  - apply Hl; [rewrite E; set_solver|done].
  - intros [-> _]. rewrite E, <- Permutation_middle in Hnd. now apply NoDup_cons in Hnd as [Hnd _].
Qed.

Lemma wake_from_spec fuel m Q R F l1 l2 n kk tw count :
  tw = count + Z.of_nat n \/ (n = 0%nat /\ tw <= count) ->
  rep m Q R -> Q o1 = l1 ++ l2 -> KList.rep (waiters m) F -> listed Q R F o1 ->
  ((0 < kk)%nat -> oo = Some o2 /\ objects m o2 <> None /\
                   (length (Q o2) + 2 * length l2 < fuel)%nat) ->
  (0 < n \/ 0 < kk)%nat -> (length (Q o1) + length l2 < fuel)%nat ->
  (length (F FUTEX_WAITERS) + length l2 < fuel)%nat ->
  let ab := picks n (here R off1) l2 in
  let cd := picks kk (here R off1) ab.2 in
  exists m', wake_from fuel m (hd_or l2 None) tw off1 (Z.of_nat kk) oo off2 count
    = Ret (m', count + Z.of_nat (length ab.1) + Z.of_nat (length cd.1), ab.1) /\
    walked m Q R F l1 ab.1 cd.1 cd.2 m'.
Proof.
  revert fuel m Q R F l1 n kk count.
  induction l2 as [|x l2 IH]; intros fuel m Q R F l1 n kk count Htw H E HF Hl Hoo Hnk Hf1 Hf3;
    cbv zeta in *; destruct fuel as [|fuel]; try (cbn in *; lia); cbn [wake_from hd_or].
  - exists m. split; [cbn; do 3 f_equal; lia|]. exists Q, R, F.
    repeat (split; [done|]). split; [|split; [done|split; [set_solver|done]]].
    intros o. cbn. repeat case_decide; subst; [done|congruence|done].
  - rewrite (wq_next m Q R o1 l1 x l2) by done. cbn [mbind exec_bind].
    rewrite (waits_at_here m Q R) by done. cbn [picks].
    assert (Hnd := sep_nodup _ (rep_sep _ _ _ H) o1).
    destruct (here R off1 x) eqn:Ex.
    2:{ (* not a waiter of this futex *)
        destruct (IH fuel m Q R F (l1 ++ [x]) n kk count) as (m'&E1&Q'&R'&F'&HQ);
          rewrite <- ?app_assoc; try done; try (cbn in *; lia).
        { intros Hk. destruct (Hoo Hk) as (?&?&?). repeat split; try done. cbn in *. lia. }
        destruct (picks n (here R off1) l2) as [a b]. cbn [fst snd picks] in *. rewrite Ex.
        destruct (picks kk (here R off1) b) as [c d]. cbn [fst snd] in *.
        exists m'. split; [exact E1|]. exists Q', R', F'. now rewrite <- app_assoc in HQ. }
    assert (HRx : (R x).1 = THREAD_WAIT_FUTEX) by (now apply bool_decide_eq_true_1 in Ex as ->).
    destruct (dequeue_listed (S fuel) m Q R F o1 l1 x l2 H E HF Hl)
      as (m1&F1&E1&Hr1&Eo1&HF1&Hw1&HF1'&Hc1); [cbn in *; lia|cbn in *; lia|].
    assert (HF1u : forall u, u ∈ F1 FUTEX_WAITERS <-> u ∈ F FUTEX_WAITERS /\ u <> x) by naive_solver.
    assert (Hl1 := listed_dequeued _ _ _ _ _ _ _ Hl E Hnd HF1').
    assert (Hlen : (length (F1 FUTEX_WAITERS) <= length (F FUTEX_WAITERS))%nat).
    { apply submseteq_length, NoDup_submseteq; [apply (KList.rep_sep _ _ HF1)|].
      intros u Hu. now apply HF1u. }
    assert (Hxl : x ∉ l1 ++ l2).
    { rewrite E, <- Permutation_middle in Hnd. now apply NoDup_cons in Hnd as [? _]. }
    destruct n as [|n].
    + (* requeue *)
      destruct kk as [|kk]; [lia|]. cbn [fst snd picks]. rewrite Ex.
      replace (count <? tw) with false by (symmetry; apply Z.ltb_ge; lia).
      rewrite E1. cbn [mbind exec_bind].
      destruct (Hoo ltac:(lia)) as (->&Ho&Hf2).
      assert (Hx1 : forall o, x ∉ <[o1 := l1 ++ l2]> Q o).
      { intros o [[-> Hx]|[Ho1 Hx]]%elem_insert; [done|]. apply Ho1.
        eapply (sep_place _ (rep_sep _ _ _ H)); [exact Hx|]. rewrite E. set_solver. }
      assert (Hr2 := wq_reason _ _ _ x THREAD_WAIT_FUTEX off2 Hr1 Hx1).
      assert (Hw : wait_reason (threads m1 x) = THREAD_WAIT_FUTEX).
      { assert (Hrr := rep_reason _ _ _ Hr1 x). rewrite <- Hrr in HRx. exact HRx. }
      assert (Eu : upd_thread m1 x (fun th => with_reason (wait_reason th) off2 th)
                 = upd_thread m1 x (with_reason THREAD_WAIT_FUTEX off2)).
      { unfold upd_thread. now rewrite Hw. }
      rewrite Eu. cbn [enqueue_at].
      destruct (wq_enqueue (S fuel) _ _ _ o2 x Hr2 Hx1) as (m2&E2&Hr3&Ew2&Eo2).
      { change (objects m1 x = Some TThread). rewrite Eo1. apply (rep_thread _ _ _ H o1). rewrite E. set_solver. }
      { change (objects m1 o2 <> None). now rewrite Eo1. }
      { rewrite fn_lookup_insert_ne by done. lia. }
      rewrite E2. cbn [mbind exec_bind].
      rewrite fn_lookup_insert_ne in Hr3 by done.
      assert (HF2 : KList.rep (waiters m2) F1) by (now rewrite Ew2).
      assert (Eom : objects m2 = objects m) by (rewrite Eo2; exact Eo1).
      destruct kk as [|kk].
      * cbn [Z.of_nat]. replace (Z.of_nat 1 - 1 =? 0) with true by done. rewrite picks_0. cbn [fst snd].
        exists m2. split; [cbn; do 3 f_equal; lia|].
        eexists _, _, F1. split; [exact Hr3|]. split; [done|]. split; [done|].
        split; [|split].
        -- intros o. rewrite !fn_at. cbn. repeat case_decide; subst; done.
        -- intros u. rewrite fn_at. repeat case_decide; subst; set_solver.
        -- split; [|exact Hc1]. intros u. rewrite HF1u. set_solver.
      * replace (Z.of_nat (S (S kk)) - 1 =? 0) with false by (symmetry; apply Z.eqb_neq; lia).
        replace (Z.of_nat (S (S kk)) - 1) with (Z.of_nat (S kk)) by lia.
        set (R2 := <[x := (THREAD_WAIT_FUTEX, off2)]> R) in *.
        destruct (IH fuel m2 (<[o2 := x :: Q o2]> (<[o1 := l1 ++ l2]> Q)) R2 F1 l1 0%nat (S kk)
                    (count + 1)) as (m3&E3&Q3&R3&F3&Hr'&HF'&Ho'&HQ'&HR'&HFu'&Hc3); try done.
        { right. split; [done|lia]. }
        { rewrite fn_lookup_insert_ne by done. apply fn_lookup_insert. }
        { intros u. rewrite fn_lookup_insert_ne, fn_lookup_insert by done. intros Hu. unfold R2.
          rewrite fn_at, decide_False by (intros ->; now apply Hxl). now apply Hl1. }
        { intros _. split; [done|]. split; [now rewrite Eom|].
          rewrite fn_lookup_insert. cbn in *. lia. }
        { lia. }
        { rewrite fn_lookup_insert_ne, fn_lookup_insert by done. rewrite E, !length_app in Hf1.
          rewrite length_app. cbn in *. lia. }
        { cbn in *. lia. }
        assert (Ep : picks (S kk) (here R2 off1) (picks 0 (here R2 off1) l2).2
                   = picks (S kk) (here R off1) l2).
        { rewrite picks_0. apply picks_ext. intros y Hy. unfold here, R2.
          rewrite fn_at, decide_False; [done|]. intros ->. apply Hxl. set_solver. }
        rewrite picks_0 in E3, HFu'. cbn [fst snd] in E3, HFu'. rewrite picks_0 in Ep. cbn [snd] in Ep.
        rewrite picks_0 in HQ', HR'. cbn [snd] in HQ', HR'. rewrite Ep in *.
        destruct (picks (S kk) (here R off1) l2) as [c d]. cbn [fst snd] in *.
        exists m3. split; [rewrite E3; cbn [length]; do 3 f_equal; lia|].
        exists Q3, R3, F3. split; [done|]. split; [done|]. split; [congruence|].
        split; [|split].
        -- intros o. rewrite HQ', !fn_at. cbn [rev]. rewrite <- app_assoc.
           repeat case_decide; subst; done.
        -- intros u. rewrite HR'. unfold R2. rewrite fn_at. repeat case_decide; subst; set_solver.
        -- split; [intros u; rewrite HFu', HF1u; set_solver|].
           intros i Hi. rewrite Hc3 by done. now apply Hc1.
    + (* wake *)
      replace (count <? tw) with true by (symmetry; apply Z.ltb_lt; lia).
      rewrite E1. cbn [mbind exec_bind].
      destruct (decide (n = 0 /\ kk = 0)%nat) as [[-> ->]|Hgo].
      * replace (count + 1 =? tw) with true by (symmetry; apply Z.eqb_eq; lia).
        cbn [andb Z.of_nat Z.eqb]. rewrite picks_0. cbn [fst snd]. rewrite picks_0.
        exists m1. split; [cbn; do 3 f_equal; lia|].
        exists (<[o1 := l1 ++ l2]> Q), R, F1. repeat (split; [done|]).
        split; [|split; [done|split; [intros u; rewrite HF1u; set_solver|done]]].
        intros o. rewrite fn_at. cbn. repeat case_decide; subst; [done|done..].
      * replace ((count + 1 =? tw) && (Z.of_nat kk =? 0)) with false
          by (symmetry; apply andb_false_iff; rewrite !Z.eqb_neq; lia).
        destruct (IH fuel m1 (<[o1 := l1 ++ l2]> Q) R F1 l1 n kk (count + 1))
          as (m2&E2&Q2&R2&F2&Hr'&HF'&Ho'&HQ'&HR'&HFu'&Hc3); try done.
        { left. lia. }
        { apply fn_lookup_insert. }
        { intros u. rewrite fn_lookup_insert. apply Hl1. }
        { intros Hk. destruct (Hoo Hk) as (?&?&?). split; [done|]. split; [now rewrite Eo1|].
          rewrite fn_lookup_insert_ne by done. cbn in *. lia. }
        { lia. }
        { rewrite fn_lookup_insert. rewrite E, !length_app in Hf1.
          rewrite length_app. cbn in *. lia. }
        { cbn in *. lia. }
        destruct (picks n (here R off1) l2) as [a b]. cbn [fst snd] in *.
        destruct (picks kk (here R off1) b) as [c d]. cbn [fst snd] in *.
        exists m2. split; [rewrite E2; cbn [length mbind exec_bind]; do 3 f_equal; lia|].
        exists Q2, R2, F2. split; [done|]. split; [done|]. split; [congruence|].
        split; [|split; [done|]].
        -- intros o. rewrite HQ', !fn_at. repeat case_decide; subst; done.
        -- split; [intros u; rewrite HFu', HF1u; set_solver|].
           intros i Hi. rewrite Hc3 by done. now apply Hc1.
Qed.

End walk.

(** ** The requests *)

(** The kernel's view is consistent: the queues are represented, and the list of
    futex waiters has exactly the queued threads that wait on a futex. *)
Record inv (k : kernel) (Q : Z -> list Z) (R : Z -> Z * Z) (F : Z -> list Z) : Prop := Inv {
  inv_rep : rep (wq k) Q R;
  inv_list : KList.rep (waiters (wq k)) F;
  inv_only : forall i, i <> FUTEX_WAITERS -> F i = [];
  inv_waiters : forall u, u ∈ F FUTEX_WAITERS <->
    (exists o, u ∈ Q o) /\ (R u).1 = THREAD_WAIT_FUTEX
}.

(** Fuel for walks along the queues and the list. *)
Definition roomy (fuel : nat) (Q F : Z -> list Z) : Prop :=
  forall o o', (length (Q o) + 2 * length (Q o') + length (F FUTEX_WAITERS) < fuel)%nat.

Lemma inv_listed k Q R F o : inv k Q R F -> listed Q R F o.
Proof. intros H u Hu Hr. apply (inv_waiters _ _ _ _ H). eauto. Qed.

(** Who still waits when [a] has left the queue of [o1] and [b] is left. *)
Lemma waiters_left (Q : Z -> list Z) (P : Z -> Prop) (o1 : Z) a b c u :
  separated Q -> a ++ b ≡ₚ Q o1 -> c = [] ->
  ((exists o, u ∈ Q o) /\ P u) /\ (u ∉ a) /\ (u ∉ c) <-> (exists o, u ∈ <[o1 := b]> Q o) /\ P u.
Proof.
  intros Hs Hp ->.
  assert (Hin : u ∈ a \/ u ∈ b <-> u ∈ Q o1) by (rewrite <- Hp; set_solver).
  assert (Hd : u ∈ b -> u ∉ a).
  { intros Hb Ha. assert (Hnd := sep_nodup _ Hs o1). rewrite <- Hp in Hnd.
    apply NoDup_app in Hnd as (_&Hd&_). exact (Hd u Ha Hb). }
  split.
  - intros [[[o Ho] HP] [Ha _]]. split; [|done]. destruct (decide (o = o1)) as [->|Hne].
    + exists o1. rewrite fn_lookup_insert. tauto.
    + exists o. now rewrite fn_lookup_insert_ne.
  - intros [[o [[-> Hb]|[Hne Ho]]%elem_insert] HP].
    + split; [split; [exists o1; tauto|done]|]. split; [tauto|set_solver].
    + split; [split; [now exists o|done]|]. split; [|set_solver].
      intros Ha. apply Hne. eapply (sep_place _ Hs); [exact Ho|tauto].
Qed.

Lemma wake_spec fuel k Q R F o1 off1 n :
  inv k Q R F -> 0 < n -> roomy fuel Q F ->
  let ab := picks (Z.to_nat n) (here R off1) (Q o1) in
  exists m' F', wake fuel (wq k) n o1 off1 0 None 0 = Ret (m', Z.of_nat (length ab.1), ab.1) /\
    inv (set_wq k m') (<[o1 := ab.2]> Q) R F' /\ objects m' = objects (wq k) /\
    (length (F' FUTEX_WAITERS) <= length (F FUTEX_WAITERS))%nat.
Proof.
  intros H Hn Hf ab. assert (Hr := inv_rep _ _ _ _ H). specialize (Hf o1 o1).
  destruct (wake_from_spec o1 off1 (o1 + 1) 0 None ltac:(lia) fuel (wq k) Q R F [] (Q o1)
              (Z.to_nat n) 0 n 0) as (m'&E&Q'&R'&F'&Hr'&HF'&Ho'&HQ'&HR'&HFu&Hc); try done; try lia.
  { now apply (inv_list _ _ _ _ H). }
  { now apply (inv_listed k). }
  rewrite picks_0 in E, HFu, HR', HQ'. fold ab in E, HFu, HQ'. cbn [fst snd length rev app] in *.
  unfold wake. rewrite (wq_head _ Q R) by done. cbn [mbind exec_bind].
  change (Z.of_nat 0) with 0 in E. rewrite E.
  exists m', F'. split; [do 3 f_equal; lia|].
  assert (HQ : forall o, Q' o = <[o1 := ab.2]> Q o).
  { intros o. rewrite HQ', fn_at. repeat case_decide; subst; try done; lia. }
  split; [|split; [done|]].
  - split; cbn.
    + apply (wq_ext _ _ _ _ _ Hr'); [intros o; now rewrite HQ|intros u; now rewrite HR'].
    + done.
    + intros i Hi. rewrite Hc by done. now apply (inv_only _ _ _ _ H).
    + intros u. rewrite HFu, (inv_waiters _ _ _ _ H). apply (waiters_left Q (fun u => (R u).1 = THREAD_WAIT_FUTEX)); [apply (rep_sep _ _ _ Hr)|apply picks_perm|done].
  - apply submseteq_length, NoDup_submseteq; [apply (KList.rep_sep _ _ HF')|].
    intros u Hu. now apply HFu.
Qed.

Lemma wait_spec fuel k Q R F t o1 off1 :
  inv k Q R F -> (forall o, t ∉ Q o) -> objects (wq k) t = Some TThread ->
  objects (wq k) o1 <> None -> roomy fuel Q F ->
  exists k', do_wait fuel k t o1 off1 (word k o1 off1) false = Ret (k', NoReply, []) /\
    inv k' (<[o1 := t :: Q o1]> Q) (<[t := (THREAD_WAIT_FUTEX, off1)]> R)
      (<[FUTEX_WAITERS := F FUTEX_WAITERS ++ [t]]> F) /\ word k' = word k.
Proof.
  intros [Hr HF Ho Hw] Ht Ot Oo Hf. unfold do_wait. rewrite Z.eqb_refl. cbn [negb].
  assert (Hr1 := wq_reason _ _ _ t THREAD_WAIT_FUTEX off1 Hr Ht).
  destruct (wq_enqueue fuel _ _ _ o1 t Hr1 Ht Ot Oo) as (m1&E1&Hr2&Ew&Eo).
  { specialize (Hf o1 o1). lia. }
  rewrite E1. cbn [mbind exec_bind]. cbn in Ew.
  assert (HtF : forall i, t ∉ F i).
  { intros i Hi. destruct (decide (i = FUTEX_WAITERS)) as [->|Hne]; [|now rewrite Ho in Hi].
    apply Hw in Hi as [[o Hi] _]. now apply (Ht o). }
  destruct (KList.queue_rep (waiters (wq k)) F FUTEX_WAITERS t HF HtF) as (l'&El&HF').
  rewrite Ew, El. cbn [mbind exec_bind]. eexists. split; [done|]. split; [|done]. split; cbn.
  - destruct Hr2. now split.
  - done.
  - intros i Hi. rewrite fn_lookup_insert_ne by done. auto.
  - intros u. rewrite fn_lookup_insert, elem_of_app, list_elem_of_singleton, Hw.
    rewrite (linked_push Q o1 t u), fn_at. case_decide as E; [subst; naive_solver|]. naive_solver.
Qed.

(** Dequeueing a thread that waits on a futex and is not on the kernel's list. *)
Lemma dequeue_unlisted fuel m Q R F o t :
  rep m Q R -> t ∈ Q o -> (R t).1 = THREAD_WAIT_FUTEX -> KList.rep (waiters m) F ->
  (forall i, t ∉ F i) -> (length (Q o) <= fuel)%nat ->
  object_wait_queue_dequeue fuel m t = Crash assertion_failed.
Proof.
  intros H Ht HR HF Hn Hf. unfold object_wait_queue_dequeue.
  rewrite (check_in _ _ _ _ o _ H) by done.
  apply list_elem_of_split in Ht as (l1&l2&E).
  assert (Et := wq_mid _ _ _ _ _ _ _ H E).
  assert (Hp : wait_queue_p (threads m t) = true) by (now rewrite Et).
  rewrite Hp. cbn [mbind exec_bind check].
  assert (exists m1, (if wait_queue_tail (threads m t) then dequeue_tail m t else dequeue_inner m t)
    = Ret m1 /\ waiters m1 = waiters m /\ objects m1 = objects m /\
      rep (upd_thread m1 t (with_p false)) (<[o := l1 ++ l2]> Q) R) as (m1&E1&Ew&Eo&Hr).
  { rewrite Et. destruct l2 as [|x l2]; cbn.
    - rewrite app_nil_r. now apply dequeue_tail_rep.
    - now apply dequeue_inner_rep. }
  rewrite E1. cbn [mbind exec_bind].
  assert (Hrt : wait_reason (threads (upd_thread m1 t (with_p false)) t) = (R t).1)
    by (now rewrite <- (rep_reason _ _ _ Hr t)).
  rewrite Hrt, HR. cbn [Z.eqb THREAD_WAIT_FUTEX]. cbn [waiters upd_thread set_thread]. rewrite Ew.
  unfold KList.list_unlink. now rewrite (KList.rep_free _ _ HF t Hn).
Qed.

(** A walk that may wake nobody and has no queue to put a waiter on. *)
Lemma wake_from_crash fuel m Q R F o1 off1 l1 l2 tw count off2 :
  rep m Q R -> KList.rep (waiters m) F -> listed Q R F o1 -> Q o1 = l1 ++ l2 -> tw <= count ->
  (exists u, u ∈ l2 /\ here R off1 u = true) ->
  (length (Q o1) + length l2 < fuel)%nat -> (length (F FUTEX_WAITERS) + length l2 < fuel)%nat ->
  wake_from fuel m (hd_or l2 None) tw off1 0 None off2 count = Crash assertion_failed.
Proof.
  intros H HF Hl. revert fuel l1. induction l2 as [|x l2 IH]; intros fuel l1 E Hc Hu Hf1 Hf2;
    destruct fuel as [|fuel]; try (cbn in *; lia); cbn [wake_from hd_or].
  - destruct Hu as (u&Hu&_). set_solver.
  - rewrite (wq_next m Q R o1 l1 x l2) by done. cbn [mbind exec_bind].
    rewrite (waits_at_here m Q R) by done. destruct (here R off1 x) eqn:Ex.
    + replace (count <? tw) with false by (symmetry; apply Z.ltb_ge; lia).
      destruct (dequeue_listed (S fuel) m Q R F o1 l1 x l2 H E HF Hl) as (m1&F1&E1&_);
        [cbn in *; lia..|]. rewrite E1. done.
    + apply (IH fuel (l1 ++ [x])); rewrite <- ?app_assoc; try done; try (cbn in *; lia).
      destruct Hu as (u&Hu&Hh). exists u. split; [|done].
      apply elem_of_cons in Hu as [->|Hu]; [congruence|done].
Qed.

(** The outcome of a requeue: the threads [a] woken, [c] moved to the queue of
    [o2] with offset [off2], [d] left. *)
Definition requeued (k k' : kernel) (Q : Z -> list Z) (R : Z -> Z * Z) (F : Z -> list Z)
    (o1 o2 off2 : Z) (a c d : list Z) (Q' : Z -> list Z) (R' : Z -> Z * Z) (F' : Z -> list Z) : Prop :=
  rep (wq k') Q' R' /\ KList.rep (waiters (wq k')) F' /\ word k' = word k /\
  (forall o, Q' o = (if decide (o = o2) then rev c ++ Q o2
                     else if decide (o = o1) then d else Q o)) /\
  (forall u, R' u = (if decide (u ∈ c) then (THREAD_WAIT_FUTEX, off2) else R u)) /\
  (forall u, u ∈ F' FUTEX_WAITERS <-> (u ∈ F FUTEX_WAITERS /\ (u ∉ a) /\ (u ∉ c))) /\
  (forall i, i <> FUTEX_WAITERS -> F' i = []).

(** How many of [len] waiters FUTEX_CMP_REQUEUE may move: all of them when its second
    count is negative, or when it is 0 and none is to be woken. *)
Definition movable (val1 val2 : Z) (len : nat) : nat :=
  if (val2 <? 0) || ((val1 <=? 0) && (val2 =? 0)) then len else Z.to_nat val2.

Lemma wake_from_movable fuel m Q R F o1 off1 o2 off2 val1 val2 :
  rep m Q R -> KList.rep (waiters m) F -> listed Q R F o1 -> o2 <> o1 -> objects m o2 <> None ->
  roomy fuel Q F ->
  let ab := picks (Z.to_nat val1) (here R off1) (Q o1) in
  let cd := picks (movable val1 val2 (length (Q o1))) (here R off1) ab.2 in
  exists m', wake_from fuel m (hd_or (Q o1) None) val1 off1 val2 (Some o2) off2 0
    = Ret (m', Z.of_nat (length ab.1 + length cd.1), ab.1) /\
    walked o1 o2 off2 m Q R F [] ab.1 cd.1 cd.2 m'.
Proof.
  intros H HF Hl Hne Ho Hf ab cd. assert (Hf1 := Hf o1 o1). assert (Hf2 := Hf o2 o1).
  assert (Hlen : (length ab.2 <= length (Q o1))%nat) by apply sublist_length, picks_sublist.
  assert (Hgo : forall kk, (0 < Z.to_nat val1 \/ 0 < kk)%nat ->
    exists m', wake_from fuel m (hd_or (Q o1) None) val1 off1 (Z.of_nat kk) (Some o2) off2 0
      = Ret (m', Z.of_nat (length ab.1 + length (picks kk (here R off1) ab.2).1), ab.1) /\
      walked o1 o2 off2 m Q R F [] ab.1 (picks kk (here R off1) ab.2).1 (picks kk (here R off1) ab.2).2 m').
  { intros kk Hk. destruct (wake_from_spec o1 off1 o2 off2 (Some o2) Hne fuel m Q R F [] (Q o1)
      (Z.to_nat val1) kk val1 0) as (m'&E&HW); try done; try lia.
    { intros _. split; [done|]. split; [done|]. lia. }
    fold ab in E, HW. exists m'. split; [|done]. rewrite E. do 3 f_equal. lia. }
  assert (Hcases : unending fuel val1 val2 0 /\ movable val1 val2 (length (Q o1)) = length (Q o1) \/
    0 <= val2 /\ (0 < val1 \/ 0 < val2) /\ movable val1 val2 (length (Q o1)) = Z.to_nat val2).
  { unfold unending, movable. case_if; zbool; [left|right]; (split; [lia|]); [done|]. split; [lia|done]. }
  destruct Hcases as [[Hu Em]|(H2&H12&Em)]; subst cd; rewrite Em.
  - rewrite (wake_from_same fuel _ _ val1 off1 val2 (Z.of_nat (S fuel))) by (done || (unfold unending; lia)).
    rewrite (picks_all (length (Q o1)) (S fuel)) by lia. apply Hgo. lia.
  - specialize (Hgo (Z.to_nat val2)). rewrite Z2Nat.id in Hgo by done. apply Hgo. lia.
Qed.

Lemma requeue_spec fuel k Q R F t o1 off1 val1 val2 o2 off2 tm :
  inv k Q R F -> o2 <> o1 -> objects (wq k) o2 <> None -> roomy fuel Q F ->
  let ab := picks (Z.to_nat val1) (here R off1) (Q o1) in
  let cd := picks (movable val1 val2 (length (Q o1))) (here R off1) ab.2 in
  exists k' Q' R' F',
    futex fuel k t FUTEX_CMP_REQUEUE o1 off1 val1 tm val2 o2 off2 (word k o1 off1)
      = Ret (k', Value (Z.of_nat (length ab.1 + length cd.1)), ab.1) /\
    requeued k k' Q R F o1 o2 off2 ab.1 cd.1 cd.2 Q' R' F'.
Proof.
  intros H Hne Oo Hf ab cd. assert (Hr := inv_rep _ _ _ _ H).
  unfold futex. cbn [Z.eqb FUTEX_WAIT FUTEX_WAKE FUTEX_WAKE_OP FUTEX_CMP_REQUEUE Pos.eqb].
  unfold do_cmp_requeue. rewrite Z.eqb_refl. cbn [negb].
  destruct (wake_from_movable fuel (wq k) Q R F o1 off1 o2 off2 val1 val2)
    as (m'&E&Q'&R'&F'&Hr'&HF'&Ho'&HQ'&HR'&HFu&Hc); try done.
  { now apply (inv_list _ _ _ _ H). }
  { now apply (inv_listed k). }
  unfold wake. rewrite (wq_head _ Q R) by done. cbn [mbind exec_bind]. rewrite E. cbn [mbind exec_bind].
  exists (set_wq k m'), Q', R', F'. split; [done|].
  split; [done|]. split; [done|]. split; [done|]. split; [done|]. split; [done|]. split; [done|].
  intros i Hi. rewrite Hc by done. now apply (inv_only _ _ _ _ H).
Qed.

(** Waking at the place where threads were moved to. *)
Lemma wake_requeued fuel k k' Q R F o1 o2 off2 a c d Q' R' F' n off t tm val2 ox offx val3 :
  requeued k k' Q R F o1 o2 off2 a c d Q' R' F' -> c <> [] -> off = off2 -> 0 < n ->
  (length c + length (Q o2) < fuel)%nat ->
  futex fuel k' t FUTEX_WAKE o2 off n tm val2 ox offx val3 = Crash assertion_failed.
Proof.
  intros (Hr&HF&_&HQ&HR&HFu&Hi) Hc -> Hn Hf.
  unfold futex. cbn [Z.eqb FUTEX_WAIT FUTEX_WAKE Pos.eqb]. unfold do_wake.
  rewrite (proj2 (Z.leb_gt n 0)) by done. unfold wake.
  destruct c as [|x c _] using rev_ind; [done|].
  assert (E : Q' o2 = [] ++ x :: rev c ++ Q o2).
  { rewrite HQ, decide_True by done. now rewrite rev_app_distr. }
  assert (Hx : R' x = (THREAD_WAIT_FUTEX, off2)).
  { rewrite HR, decide_True; [done|]. set_solver. }
  rewrite (wq_head _ Q' R') by done. rewrite E. cbn [hd_or app mbind exec_bind].
  destruct fuel as [|fuel]; [lia|]. cbn [wake_from].
  rewrite (wq_next _ _ _ _ _ _ _ Hr E). cbn [mbind exec_bind].
  rewrite (waits_at_here _ _ _ off2 x Hr). unfold here. rewrite bool_decide_eq_true_2 by done.
  rewrite (proj2 (Z.ltb_lt 0 n)) by done.
  rewrite (dequeue_unlisted _ _ Q' R' F' o2 x); [done|done| |now rewrite Hx|done| |].
  - rewrite E. left.
  - intros i Hin. destruct (decide (i = FUTEX_WAITERS)) as [->|Hne]; [|now rewrite Hi in Hin].
    apply HFu in Hin as (_&_&Hin). apply Hin. set_solver.
  - rewrite E. rewrite length_app in Hf. cbn in *. rewrite length_app, length_rev. lia.
Qed.

(** C36: FUTEX_CMP_REQUEUE from one page to another one in memory, in a kernel whose
    wait queues and list of futex waiters are consistent ([inv]) and with enough fuel
    for walks along them: when the word still has the expected value, the first
    [val1] waiters of the futex are woken (none if [val1] is negative), the next
    [val2] are moved to the second page's queue with the second offset (in front,
    the last one moved first), the others stay queued in their order, and the reply
    is the number of woken and moved threads.  A negative [val2] moves all
    that are left, and so does 0 if [val1] is not positive; 0 with a positive
    [val1] moves none.  With another value of the word the request fails with
    EAGAIN and changes nothing. *)
Theorem futex_requeue fuel k Q R F t o1 off1 val1 val2 o2 off2 val3 tm :
  inv k Q R F -> o2 <> o1 -> objects (wq k) o2 <> None -> roomy fuel Q F ->
  if word k o1 off1 =? val3 then
    let ab := picks (Z.to_nat val1) (here R off1) (Q o1) in
    let cd := picks (movable val1 val2 (length (Q o1))) (here R off1) ab.2 in
    exists k' Q' R' F',
      futex fuel k t FUTEX_CMP_REQUEUE o1 off1 val1 tm val2 o2 off2 val3
        = Ret (k', Value (Z.of_nat (length ab.1 + length cd.1)), ab.1) /\
      requeued k k' Q R F o1 o2 off2 ab.1 cd.1 cd.2 Q' R' F'
  else futex fuel k t FUTEX_CMP_REQUEUE o1 off1 val1 tm val2 o2 off2 val3 = Ret (k, Error EAGAIN, []).
Proof.
  intros H Hne Oo Hf. destruct (Z.eqb_spec (word k o1 off1) val3) as [<-|Hv].
  - now apply requeue_spec.
  - unfold futex. cbn [Z.eqb FUTEX_WAIT FUTEX_WAKE FUTEX_WAKE_OP FUTEX_CMP_REQUEUE Pos.eqb].
    unfold do_cmp_requeue. now apply Z.eqb_neq in Hv as ->.
Qed.

(** A requeued thread is not put back on the kernel's list of futex waiters,
    from which dequeueing a futex waiter unlinks it: after a FUTEX_CMP_REQUEUE
    that moved a thread, the next FUTEX_WAKE at the place it was moved to fails
    an assertion of the kernel. *)
Theorem requeued_waiter_panics fuel k Q R F t o1 off1 val1 val2 o2 off2 tm n :
  inv k Q R F -> o2 <> o1 -> objects (wq k) o2 <> None -> roomy fuel Q F ->
  0 <= val1 -> 0 < val2 -> 0 < n ->
  (picks (Z.to_nat val2) (here R off1) (picks (Z.to_nat val1) (here R off1) (Q o1)).2).1 <> [] ->
  exists k' count ws,
    futex fuel k t FUTEX_CMP_REQUEUE o1 off1 val1 tm val2 o2 off2 (word k o1 off1)
      = Ret (k', Value count, ws) /\
    futex fuel k' t FUTEX_WAKE o2 off2 n tm 0 0 0 0 = Crash assertion_failed.
Proof.
  intros H Hne Oo Hf H1 H2 Hn Hc.
  assert (Em : movable val1 val2 (length (Q o1)) = Z.to_nat val2).
  { unfold movable. rewrite (proj2 (Z.ltb_ge val2 0)), (proj2 (Z.eqb_neq val2 0)), andb_false_r by lia. done. }
  destruct (requeue_spec fuel k Q R F t o1 off1 val1 val2 o2 off2 tm) as (k'&Q'&R'&F'&E&Hq); try done.
  rewrite Em in E, Hq.
  eexists k', _, _. split; [exact E|].
  apply (wake_requeued fuel k k' Q R F o1 o2 off2 _ _ _ Q' R' F' n _ _ _ _ _ _ _ Hq Hc); [done|done|].
  assert (Hp := picks_perm (Z.to_nat val2) (here R off1)
                 (picks (Z.to_nat val1) (here R off1) (Q o1)).2).
  assert (Hp1 := picks_perm (Z.to_nat val1) (here R off1) (Q o1)).
  apply Permutation_length in Hp, Hp1. rewrite length_app in Hp, Hp1.
  specialize (Hf o2 o1). lia.
Qed.

(** FUTEX_WAKE_OP whose comparison holds, with a count that is not positive
    and a thread waiting at the second address: the kernel tries to requeue the
    thread on the null object, and fails an assertion. *)
Theorem wake_op_zero_panics fuel k Q R F t o1 off1 val1 tm val2 o2 off2 val3 :
  inv k Q R F -> o2 <> o1 -> roomy fuel Q F -> val2 <= 0 ->
  comparison (cmp val3) (word k o2 off2) (cmparg val3) = Some true ->
  (exists u, u ∈ Q o2 /\ here R off2 u = true) ->
  futex fuel k t FUTEX_WAKE_OP o1 off1 val1 tm val2 o2 off2 val3 = Crash assertion_failed.
Proof.
  intros H Hne Hf Hv Hc Hu. unfold futex.
  cbn [Z.eqb FUTEX_WAIT FUTEX_WAKE FUTEX_WAKE_OP Pos.eqb]. unfold do_wake_op. cbn [wq set_word].
  destruct (wake_spec fuel k Q R F o1 off1 1 H) as (m'&F'&E&Hi&Ho&Hl); [lia|done|].
  rewrite E. cbn [mbind exec_bind]. rewrite Hc. cbn [access mbind exec_bind].
  assert (Hr := inv_rep _ _ _ _ Hi). cbn in Hr. unfold wake. rewrite (wq_head _ _ _ o2 Hr).
  cbn [mbind exec_bind]. specialize (Hf o2 o2).
  rewrite (wake_from_crash fuel m' _ R F' o2 off2 [] _ val2 0 0 Hr (inv_list _ _ _ _ Hi)
             (inv_listed _ _ _ _ o2 Hi)); try done; rewrite ?fn_lookup_insert_ne by done; try done; lia.
Qed.

(** C22: in a kernel whose wait queues and list of futex waiters are consistent
    ([inv]), with enough fuel for walks along them.  FUTEX_WAIT by a thread that is on
    no queue, on a page in memory: when the word no longer has the value the caller
    saw, the request fails with EWOULDBLOCK and changes nothing; when it has, and
    no timeout is given, the caller is put in front of the page's queue and on the
    kernel's list, with the futex's offset as its reason, and gets no reply; with a
    timeout the kernel panics (timeouts are not supported).  FUTEX_WAKE with a
    positive count wakes exactly the first so many threads of the page's queue that
    wait at this offset, replies with their number, and leaves all other waiters
    queued in their order; a count that is not positive is EINVAL.  Except for that
    panic both end, fail no assertion, and keep the queues, the list of futex
    waiters and the user's memory consistent. *)
Theorem futex_wait_wake fuel k Q R F o1 off1 val1 :
  inv k Q R F -> roomy fuel Q F ->
  (forall t tm val2 o2 off2 val3,
     (forall o, t ∉ Q o) -> objects (wq k) t = Some TThread -> objects (wq k) o1 <> None ->
     if word k o1 off1 =? val1 then
       if (tm : bool) then futex fuel k t FUTEX_WAIT o1 off1 val1 tm val2 o2 off2 val3 = Crash panicked
       else exists k', futex fuel k t FUTEX_WAIT o1 off1 val1 tm val2 o2 off2 val3 = Ret (k', NoReply, []) /\
         inv k' (<[o1 := t :: Q o1]> Q) (<[t := (THREAD_WAIT_FUTEX, off1)]> R)
           (<[FUTEX_WAITERS := F FUTEX_WAITERS ++ [t]]> F) /\ word k' = word k
     else futex fuel k t FUTEX_WAIT o1 off1 val1 tm val2 o2 off2 val3 = Ret (k, Error EWOULDBLOCK, [])) /\
  (forall t tm val2 o2 off2 val3,
     if 0 <? val1 then
       let ab := picks (Z.to_nat val1) (here R off1) (Q o1) in
       exists k' F', futex fuel k t FUTEX_WAKE o1 off1 val1 tm val2 o2 off2 val3
           = Ret (k', Value (Z.of_nat (length ab.1)), ab.1) /\
         inv k' (<[o1 := ab.2]> Q) R F' /\ word k' = word k
     else futex fuel k t FUTEX_WAKE o1 off1 val1 tm val2 o2 off2 val3 = Ret (k, Error EINVAL, [])).
Proof.
  intros H Hf. split.
  - intros t tm val2 o2 off2 val3 Ht Ot Oo. destruct (Z.eqb_spec (word k o1 off1) val1) as [<-|Hne].
    + destruct tm; [|now apply wait_spec]. unfold futex. cbn [Z.eqb FUTEX_WAIT]. unfold do_wait. now rewrite Z.eqb_refl.
    + unfold futex. cbn [Z.eqb FUTEX_WAIT]. unfold do_wait. now apply Z.eqb_neq in Hne as ->.
  - intros t tm val2 o2 off2 val3. unfold futex. cbn [Z.eqb FUTEX_WAIT FUTEX_WAKE Pos.eqb].
    unfold do_wake. rewrite Z.leb_antisym. destruct (Z.ltb_spec 0 val1) as [Hv|Hv]; [|done].
    cbn [negb]. cbv zeta.
    destruct (wake_spec fuel k Q R F o1 off1 val1 H Hv Hf) as (m'&F'&E&Hi&_).
    rewrite E. cbn [mbind exec_bind]. eauto 10.
Qed.

(** ** Samples *)

Definition at_rest : kernel :=
  Kernel (idle (fun o => if 10 <=? o then Some TThread else Some TOther)) (fun _ _ => 0).

Lemma at_rest_inv : inv at_rest (fun _ => []) (fun _ => (0, 0)) (fun _ => []).
Proof.
  split; [apply idle_rep|apply KList.cleared_rep|done|]. intros u. split; [set_solver|].
  intros [[o Ho] _]. set_solver.
Qed.

Definition blocked (k : kernel) (t o off : Z) : kernel :=
  match do_wait 20 k t o off (word k o off) false with Ret (k', _, _) => k' | Crash _ => k end.

Lemma blocked_inv k Q R F t o off :
  inv k Q R F -> (forall o, t ∉ Q o) -> objects (wq k) t = Some TThread ->
  objects (wq k) o <> None -> roomy 20 Q F ->
  inv (blocked k t o off) (<[o := t :: Q o]> Q) (<[t := (THREAD_WAIT_FUTEX, off)]> R)
    (<[FUTEX_WAITERS := F FUTEX_WAITERS ++ [t]]> F).
Proof.
  intros H Ht Ot Oo Hf. destruct (wait_spec 20 k Q R F t o off H Ht Ot Oo Hf) as (k'&E&Hi&_).
  unfold blocked. now rewrite E.
Qed.

(** Thread 10 waits on the futex at offset 8 of page 1. *)
Definition one_blocked : kernel := blocked at_rest 10 1 8.
Definition one_Q : Z -> list Z := <[1 := [10]]> (fun _ => []).
Definition one_R : Z -> Z * Z := <[10 := (THREAD_WAIT_FUTEX, 8)]> (fun _ => (0, 0)).
Definition one_F : Z -> list Z := <[FUTEX_WAITERS := [10]]> (fun _ => []).

Lemma one_inv : inv one_blocked one_Q one_R one_F.
Proof.
  apply (blocked_inv at_rest (fun _ => []) (fun _ => (0, 0)) (fun _ => []));
    [apply at_rest_inv|set_solver|done|done|intros o o'; cbn; lia].
Qed.

Lemma one_roomy : roomy 20 one_Q one_F.
Proof.
  intros o o'. unfold one_Q, one_F. rewrite !fn_at.
  rewrite (decide_True (P := FUTEX_WAITERS = FUTEX_WAITERS)) by done.
  repeat case_decide; cbn; lia.
Qed.

Lemma futex_wait_wake_witness :
  (exists k', futex 20 one_blocked 11 FUTEX_WAIT 1 8 0 false 0 0 0 0 = Ret (k', NoReply, [])) /\
  (exists k', futex 20 one_blocked 11 FUTEX_WAKE 1 8 5 false 0 0 0 0 = Ret (k', Value 1, [10])).
Proof.
  split.
  - destruct (futex_wait_wake 20 one_blocked one_Q one_R one_F 1 8 0 one_inv one_roomy) as [Hw _].
    destruct (Hw 11 false 0 0 0 0) as (k'&E&_); [|done|done|eauto].
    intros o. unfold one_Q. rewrite fn_at. case_decide; set_solver.
  - destruct (futex_wait_wake 20 one_blocked one_Q one_R one_F 1 8 5 one_inv one_roomy) as [_ Hw].
    destruct (Hw 11 false 0 0 0 0) as (k'&F'&E&_). exists k'. exact E.
Defined.

Lemma futex_requeue_witness :
  exists k' Q' R' F', futex 20 one_blocked 11 FUTEX_CMP_REQUEUE 1 8 0 false 3 2 4 0 = Ret (k', Value 1, []) /\
    requeued one_blocked k' one_Q one_R one_F 1 2 4 [] [10] [] Q' R' F'.
Proof.
  apply (futex_requeue 20 one_blocked one_Q one_R one_F 11 1 8 0 3 2 4 0 false one_inv);
    try done; [apply one_roomy].
Defined.

Lemma requeued_waiter_panics_witness :
  exists k' count ws,
    futex 20 one_blocked 11 FUTEX_CMP_REQUEUE 1 8 0 false 3 2 4 0 = Ret (k', Value count, ws) /\
    futex 20 k' 11 FUTEX_WAKE 2 4 1 false 0 0 0 0 = Crash assertion_failed.
Proof.
  apply (requeued_waiter_panics 20 one_blocked one_Q one_R one_F 11 1 8 0 3 2 4 false 1 one_inv);
    try done; [apply one_roomy].
Defined.

(** Comparison for equality with 0, operation set to 0. *)
Lemma wake_op_zero_panics_witness :
  futex 20 one_blocked 11 FUTEX_WAKE_OP 2 4 0 false 0 1 8 0 = Crash assertion_failed.
Proof.
  apply (wake_op_zero_panics 20 one_blocked one_Q one_R one_F 11 2 4 0 false 0 1 8 0 one_inv);
    try done; [apply one_roomy|]. exists 10. split; [left|done].
Defined.

End Futex.
