(* ===== verification/Claim.v ===== *)
(** * Claiming memory: who pays for an object (viengoos/object.c, activity.h)

    Every in-memory object is accounted to an activity, and activities form a
    tree.  [object_desc_claim] moves an object from the activity that has it to
    the one that claims it (or to none, when the object is destroyed): it takes
    the object off the list or tree of its owner that its state says, adjusts
    the owner's counters and those of all its ancestors, and puts it on the
    claimer's.  The lists are the kernel's intrusive lists; the tree of the
    objects with a priority is represented by the set of its nodes.

    [inv] is what the counters mean: an activity's local count is the number of
    its objects that are not clean eviction candidates, its total count the sum
    over its descendants, and every object is where its state says.  It is
    proved that claiming preserves it and that none of the assertions that the
    kernel makes about the counters fails. *)

From S2P Require Import Prelude Ring KList.

Module Claim.

Record policy := Policy { discardable : bool; priority : Z }.

Definition OBJECT_PRIORITY_LRU : Z := 0.

(** The part of [struct object_desc] that claiming reads and writes. *)
Record object_desc := Desc {
  owner : option Z;               (* activity *)
  pol : policy;
  eviction_candidate : bool;
  dirty : bool;
  age : Z
}.

(** [struct activity]; the statistics are those of the current period. *)
Record activity := Activity {
  parent : option Z;
  priorities : gset Z;
  priorities_count : Z;
  frames_local : Z;
  frames_total : Z;
  frames_pending_eviction : Z;
  free_bad_karma : Z;
  free_goal : Z;
  free_allocations : Z;
  free_initial_allocation : Z;
  frames_excluded : Z;
  claimed : Z;
  disowned : Z
}.

(** The lists of an activity, and the two lists of the kernel. *)
Inductive alist := Active | Inactive | EvictionClean | EvictionDirty.

Definition hdr (k : alist) (a : Z) : Z :=
  4 * a + match k with Active => 0 | Inactive => 1 | EvictionClean => 2 | EvictionDirty => 3 end.
Definition laundry : Z := 0.
Definition available : Z := 1.

(** The kernel: activities, descriptors, the memory of the activities' lists
    (through [activity_node]), that of the kernel's lists (through
    [laundry_node] and [available_node]), and the root activity. *)
Record kstate := Kstate {
  acts : Z -> activity;
  descs : Z -> object_desc;
  alists : KList.lmem;
  klists : KList.lmem;
  root_activity : Z
}.

Definition set_act (s : kstate) (a : Z) (x : activity) : kstate :=
  Kstate (<[a := x]> (acts s)) (descs s) (alists s) (klists s) (root_activity s).
Definition upd_act (s : kstate) (a : Z) (f : activity -> activity) : kstate :=
  set_act s a (f (acts s a)).
Definition set_desc (s : kstate) (d : Z) (x : object_desc) : kstate :=
  Kstate (acts s) (<[d := x]> (descs s)) (alists s) (klists s) (root_activity s).
Definition set_alists (s : kstate) (l : KList.lmem) : kstate :=
  Kstate (acts s) (descs s) l (klists s) (root_activity s).
Definition set_klists (s : kstate) (l : KList.lmem) : kstate :=
  Kstate (acts s) (descs s) (alists s) l (root_activity s).

(** Updates of single fields, on unsigned 32-bit counters. *)
Definition on_priorities (p : gset Z) (n : Z) (x : activity) : activity :=
  Activity (parent x) p (priorities_count x + n) (frames_local x) (frames_total x)
    (frames_pending_eviction x) (free_bad_karma x) (free_goal x) (free_allocations x)
    (free_initial_allocation x) (frames_excluded x) (claimed x) (disowned x).
Definition add_local (n : Z) (x : activity) : activity :=
  Activity (parent x) (priorities x) (priorities_count x) (u32 (frames_local x + n)) (frames_total x)
    (frames_pending_eviction x) (free_bad_karma x) (free_goal x) (free_allocations x)
    (free_initial_allocation x) (frames_excluded x) (claimed x) (disowned x).
Definition add_total (n : Z) (x : activity) : activity :=
  Activity (parent x) (priorities x) (priorities_count x) (frames_local x) (u32 (frames_total x + n))
    (frames_pending_eviction x) (free_bad_karma x) (free_goal x) (free_allocations x)
    (free_initial_allocation x) (frames_excluded x) (claimed x) (disowned x).
Definition add_pending (n : Z) (x : activity) : activity :=
  Activity (parent x) (priorities x) (priorities_count x) (frames_local x) (frames_total x)
    (u32 (frames_pending_eviction x + n)) (free_bad_karma x) (free_goal x) (free_allocations x)
    (free_initial_allocation x) (frames_excluded x) (claimed x) (disowned x).
Definition add_excluded (n : Z) (x : activity) : activity :=
  Activity (parent x) (priorities x) (priorities_count x) (frames_local x) (frames_total x)
    (frames_pending_eviction x) (free_bad_karma x) (free_goal x) (free_allocations x)
    (free_initial_allocation x) (u32 (frames_excluded x + n)) (claimed x) (disowned x).
Definition set_goal (karma goal allocations : Z) (x : activity) : activity :=
  Activity (parent x) (priorities x) (priorities_count x) (frames_local x) (frames_total x)
    (frames_pending_eviction x) karma goal allocations
    (free_initial_allocation x) (frames_excluded x) (claimed x) (disowned x).
Definition add_stats (objects : Z) (x : activity) : activity :=
  Activity (parent x) (priorities x) (priorities_count x) (frames_local x) (frames_total x)
    (frames_pending_eviction x) (free_bad_karma x) (free_goal x) (free_allocations x)
    (free_initial_allocation x) (frames_excluded x)
    (if 0 <? objects then u32 (claimed x + objects) else claimed x)
    (if 0 <? objects then disowned x else u32 (disowned x - objects)).

(** ** Ancestors and charging *)

(** [activity_for_each_ancestor]: the code [f] at [a] and each of its ancestors. *)
Fixpoint for_each_ancestor (fuel : nat) (f : activity -> exec activity) (s : kstate) (a : Z)
    : exec kstate :=
  match fuel with
  | O => Crash out_of_fuel
  | S fuel =>
      x ← f (acts s a);
      let s := set_act s a x in
      match parent (acts s a) with
      | None => _ ← check (a =? root_activity s) assertion_failed; Ret s
      | Some p => for_each_ancestor fuel f s p
      end
  end.

Definition activity_charge (fuel : nat) (s : kstate) (a objects : Z) : exec kstate :=
  _ ← (if objects <? 0 then check (- objects <=? frames_local (acts s a)) assertion_failed
       else Ret tt);
  let s := upd_act s a (add_local objects) in
  for_each_ancestor fuel
    (fun x =>
       _ ← (if objects <? 0 then check (- objects <=? frames_total x) assertion_failed else Ret tt);
       Ret (add_stats objects (add_total objects x))) s a.

Definition object_age (d : object_desc) (referenced : bool) : object_desc :=
  Desc (owner d) (pol d) (eviction_candidate d) (dirty d)
    (let a := Z.shiftr (age d) 1 in if referenced then Z.lor a 128 else a).

Definition object_active (d : object_desc) : bool := negb (age d =? 0).

(** ** Claiming *)

(** The assertion on an activity's counters. *)
Definition check_counts (fuel : nat) (s : kstate) (a : Z) : exec unit :=
  n1 ← KList.list_count fuel (alists s) (hdr Active a);
  n2 ← KList.list_count fuel (alists s) (hdr Inactive a);
  n3 ← KList.list_count fuel (alists s) (hdr EvictionDirty a);
  check (u32 (priorities_count (acts s a) + n1 + n2 + n3) =? frames_local (acts s a))
    assertion_failed.

Definition check_owner (fuel : nat) (s : kstate) (a : option Z) (b : bool) : exec unit :=
  match a with
  | Some a => if b then check_counts fuel s a else Ret tt
  | None => Ret tt
  end.

(** Candidates that are to be written before their frame is reused. *)
Definition to_write (x : object_desc) : bool := dirty x && negb (discardable (pol x)).

(** Taking descriptor [d] off the lists of its owner [b]. *)
Definition disconnect (fuel : nat) (s : kstate) (act : option Z) (d b : Z) (update : bool)
    : exec kstate :=
  let x := descs s d in
  let moves := negb (bool_decide (act = Some b)) in
  if eviction_candidate x then
    if to_write x then
      kl ← KList.list_unlink fuel (klists s) laundry d;
      al ← KList.list_unlink fuel (alists s) (hdr EvictionDirty b) d;
      let s := set_alists (set_klists s kl) al in
      if update then
        let s := if moves then upd_act s b (add_local (-1)) else s in
        for_each_ancestor fuel
          (fun x => Ret (add_pending (-1) (if moves then add_total (-1) x else x))) s b
      else Ret s
    else
      kl ← KList.list_unlink fuel (klists s) available d;
      al ← KList.list_unlink fuel (alists s) (hdr EvictionClean b) d;
      Ret (set_alists (set_klists s kl) al)
  else
    s ← (if negb (priority (pol x) =? OBJECT_PRIORITY_LRU) then
           _ ← check (bool_decide (d ∈ priorities (acts s b))) invalid_access;
           Ret (upd_act s b (fun y => on_priorities (priorities y ∖ {[d]}) (-1) y))
         else
           al ← KList.list_unlink fuel (alists s)
                  (hdr (if object_active x then Active else Inactive) b) d;
           Ret (set_alists s al));
    if moves && update then activity_charge fuel s b (-1) else Ret s.

(** The owner [b] of [d] loses a frame: does it meet its goal? *)
Definition lose_frame (fuel : nat) (s : kstate) (act : option Z) (d b : Z) (update : bool)
    : exec kstate :=
  let x := descs s d in
  let g := free_goal (acts s b) in
  if (negb (bool_decide (act = Some b)) || (eviction_candidate x && negb (to_write x)))
     && update && negb (g =? 0) then
    let s := upd_act s b (fun y => set_goal (free_bad_karma y) (g - 1) (free_allocations y) y) in
    if g - 1 =? 0 then
      let n := free_initial_allocation (acts s b) in
      s ← for_each_ancestor fuel (fun y => Ret (add_excluded (- n) y)) s b;
      Ret (upd_act s b (fun y => set_goal (free_bad_karma y) (free_goal y) 0 y))
    else Ret s
  else Ret s.

(** The claimer [a] of [d] gets a frame: is it out of free allocations? *)
Definition gain_frame (fuel : nat) (s : kstate) (a : Z) : exec kstate :=
  s ← activity_charge fuel s a 1;
  let x := acts s a in
  if negb (free_allocations x =? 0) then
    let s := upd_act s a (set_goal (free_bad_karma x) (free_goal x) (free_allocations x - 1)) in
    if free_allocations x - 1 =? 0 then
      let s := if negb (free_goal x =? 0)
               then upd_act s a (fun y => set_goal 8 (free_goal y) (free_allocations y) y) else s in
      s ← for_each_ancestor fuel
            (fun y => Ret (add_excluded (- free_initial_allocation x) y)) s a;
      Ret (upd_act s a (fun y => set_goal (free_bad_karma y) 0 (free_allocations y) y))
    else Ret s
  else Ret s.

(** Putting [d] on the lists of [a]. *)
Definition assign (fuel : nat) (s : kstate) (a d : Z) (p : policy) (update : bool) : exec kstate :=
  let x := descs s d in
  let y := object_age (Desc (owner x) (Policy (discardable (pol x)) (priority p))
                         (eviction_candidate x) (dirty x) (age x)) true in
  let s := set_desc s d y in
  s ← (if negb (priority p =? OBJECT_PRIORITY_LRU) then
         Ret (upd_act s a (fun z => on_priorities (priorities z ∪ {[d]}) 1 z))
       else
         al ← KList.list_push (alists s) (hdr Active a) d;
         Ret (set_alists s al));
  s ← (if (negb (bool_decide (Some a = owner y)) || (eviction_candidate y && negb (to_write y)))
          && update
       then gain_frame fuel s a else Ret s);
  Ret (set_desc s d (Desc (Some a) (Policy (discardable p) (priority p)) false (dirty y) (age y))).

Definition object_desc_claim (fuel : nat) (s : kstate) (act : option Z) (d : Z) (p : policy)
    (update : bool) : exec kstate :=
  let x := descs s d in
  _ ← check (bool_decide (owner x <> None) || bool_decide (act <> None)) assertion_failed;
  _ ← check_owner fuel s (owner x) update;
  _ ← check_owner fuel s act true;
  s ← (if bool_decide (owner x = act) && negb (eviction_candidate x)
          && (priority (pol x) =? priority p) then
         Ret (set_desc s d (Desc (owner x) (Policy (discardable p) (priority (pol x)))
                              (eviction_candidate x) (dirty x) (age x)))
       else
         s ← match owner x with
             | Some b =>
                 s ← disconnect fuel s act d b update;
                 lose_frame fuel s act d b update
             | None => Ret s
             end;
         match act with
         | None => Ret s
         | Some a => assign fuel s a d p update
         end);
  _ ← check_owner fuel s (owner (descs s d)) update;
  _ ← check_owner fuel s act update;
  Ret s.

(** ** What the lists and the counters mean *)

(** The list, the tree and the kernel's list that a descriptor is on. *)
Definition key (x : object_desc) : option Z :=
  match owner x with
  | None => None
  | Some a =>
      if eviction_candidate x then Some (hdr (if to_write x then EvictionDirty else EvictionClean) a)
      else if priority (pol x) =? OBJECT_PRIORITY_LRU
           then Some (hdr (if object_active x then Active else Inactive) a)
      else None
  end.
Definition tkey (x : object_desc) : option Z :=
  match owner x with
  | None => None
  | Some a =>
      if eviction_candidate x || (priority (pol x) =? OBJECT_PRIORITY_LRU) then None else Some a
  end.
Definition wkey (x : object_desc) : option Z :=
  match owner x with
  | None => None
  | Some _ => if eviction_candidate x then Some (if to_write x then laundry else available) else None
  end.

Definition len (L : Z -> list Z) (h : Z) : Z := Z.of_nat (length (L h)).

(** The objects of an activity that count. *)
Definition cnt (L : Z -> list Z) (s : kstate) (a : Z) : Z :=
  Z.of_nat (size (priorities (acts s a))) + len L (hdr Active a) + len L (hdr Inactive a)
  + len L (hdr EvictionDirty a).

(** One frame more that activity [e] is charged for. *)
Definition extra (e : option Z) (a : Z) : Z := if decide (e = Some a) then 1 else 0.

Lemma hdr_inj k k' a a' : hdr k a = hdr k' a' -> k = k' /\ a = a'.
Proof. unfold hdr. destruct k, k'; split; (lia || reflexivity || (exfalso; lia)). Qed.

Ltac decs :=
  repeat match goal with
  | |- context [@decide ?P _] =>
      first [ rewrite (decide_True (P := P)) by congruence
            | rewrite (decide_False (P := P)) by (congruence || (intros [? ?]%hdr_inj; congruence))
            | lazymatch P with hdr _ ?x = hdr _ ?y => destruct (decide (x = y)) end
            | destruct (decide P) ]
  end.

(** ** Sums *)

Lemma zsum_cons x l : zsum (x :: l) = x + zsum l.
Proof. done. Qed.

Lemma zsum_le (f g : Z -> Z) l : (forall x, x ∈ l -> f x <= g x) -> zsum (map f l) <= zsum (map g l).
Proof.
  induction l as [|x l IH]; intros H; [done|]. cbn [map]. rewrite !zsum_cons.
  assert (f x <= g x) by (apply H; left).
  assert (zsum (map f l) <= zsum (map g l)) by (apply IH; intros; apply H; now right). lia.
Qed.

Lemma zsum_ext (f g : Z -> Z) l : (forall x, x ∈ l -> f x = g x) -> zsum (map f l) = zsum (map g l).
Proof.
  intros H. apply Z.le_antisymm; apply zsum_le; intros x Hx; now rewrite H.
Qed.

Lemma zsum_zero l : zsum (map (fun _ : Z => 0) l) = 0.
Proof. induction l as [|x l IH]; [done|]. cbn [map]. now rewrite zsum_cons, IH. Qed.

Lemma zsum_change (f g : Z -> Z) l b :
  NoDup l -> b ∈ l -> (forall x, x ∈ l -> x <> b -> g x = f x) ->
  zsum (map g l) = zsum (map f l) - f b + g b.
Proof.
  intros Hnd Hb. apply list_elem_of_split in Hb as (l1&l2&->).
  rewrite <- Permutation_middle in Hnd. apply NoDup_cons in Hnd as [Hn _]. intros H.
  rewrite !map_app, !zsum_app. cbn [map]. rewrite !zsum_cons.
  rewrite (zsum_ext g f l1), (zsum_ext g f l2); [lia|..]; intros x Hx; apply H; set_solver.
Qed.

(** A summand is at most the sum. *)
Lemma zsum_ge (f : Z -> Z) l x : (forall y, y ∈ l -> 0 <= f y) -> x ∈ l -> f x <= zsum (map f l).
Proof.
  intros H Hx. apply list_elem_of_split in Hx as (l1&l2&->).
  rewrite map_app, zsum_app. cbn [map]. rewrite zsum_cons.
  assert (forall l, (forall y, y ∈ l -> 0 <= f y) -> 0 <= zsum (map f l)) as Hp.
  { intros l Hl. rewrite <- (zsum_zero l). now apply zsum_le. }
  assert (0 <= zsum (map f l1)) by (apply Hp; set_solver).
  assert (0 <= zsum (map f l2)) by (apply Hp; set_solver). lia.
Qed.

Section accounting.
(** The activities, and for each the chain of its ancestors, itself first. *)
Context (As : list Z) (ch : Z -> list Z).

(** The sum of [g] over the descendants of [a]. *)
Definition tot (g : Z -> Z) (a : Z) : Z :=
  zsum (map (fun b => if decide (a ∈ ch b) then g b else 0) As).

Record tree (s : kstate) : Prop := Tree {
  t_nodup : NoDup As;
  t_chain : forall a, a ∈ As ->
    ch a = a :: match parent (acts s a) with None => [] | Some p => ch p end;
  t_root : forall a, a ∈ As -> parent (acts s a) = None -> a = root_activity s;
  t_parent : forall a p, a ∈ As -> parent (acts s a) = Some p -> p ∈ As;
  t_distinct : forall a, a ∈ As -> NoDup (ch a)
}.

(** The invariant; [X] is a descriptor that is on no list (its owner is being
    changed), [e] an activity charged for one frame more than it has. *)
Record inv (X e : option Z) (s : kstate) (L W : Z -> list Z) : Prop := Inv {
  i_tree : tree s;
  i_lists : KList.rep (alists s) L;
  i_klists : KList.rep (klists s) W;
  i_owner : forall d a, X <> Some d -> owner (descs s d) = Some a -> a ∈ As;
  i_key : forall d h, d ∈ L h <-> X <> Some d /\ key (descs s d) = Some h;
  i_tkey : forall d a, a ∈ As ->
    d ∈ priorities (acts s a) <-> X <> Some d /\ tkey (descs s d) = Some a;
  i_wkey : forall d h, d ∈ W h <-> X <> Some d /\ wkey (descs s d) = Some h;
  i_pcount : forall a, a ∈ As -> priorities_count (acts s a) = Z.of_nat (size (priorities (acts s a)));
  i_local : forall a, a ∈ As -> frames_local (acts s a) = cnt L s a + extra e a;
  i_total : forall a, a ∈ As ->
    frames_total (acts s a) = tot (fun b => cnt L s b + extra e b) a;
  i_pending : forall a, a ∈ As ->
    frames_pending_eviction (acts s a) = tot (fun b => len L (hdr EvictionDirty b)) a
}.

(** ** Sums over the descendants *)

Lemma tot_change g g' b n a :
  NoDup As -> b ∈ As -> (forall x, x ∈ As -> g' x = g x + if decide (x = b) then n else 0) ->
  tot g' a = tot g a + if decide (a ∈ ch b) then n else 0.
Proof.
  intros Hnd Hb H. unfold tot.
  rewrite (zsum_change (fun b => if decide (a ∈ ch b) then g b else 0)
             (fun b => if decide (a ∈ ch b) then g' b else 0) As b Hnd Hb).
  - rewrite H, (decide_True (P := b = b)) by done. case_decide; lia.
  - intros x Hx Hne. rewrite H by done. case_decide; [|done].
    rewrite (decide_False (P := x = b)) by done. lia.
Qed.

Lemma tot_same g g' a : (forall x, x ∈ As -> g' x = g x) -> tot g' a = tot g a.
Proof. intros H. apply zsum_ext. intros x Hx. case_decide; [now apply H|done]. Qed.

Lemma tot_le g a : (forall x, x ∈ As -> 0 <= g x) -> 0 <= tot g a <= zsum (map g As).
Proof.
  intros H. split.
  - rewrite <- (zsum_zero As). apply zsum_le. intros x Hx. case_decide; [now apply H|lia].
  - apply zsum_le. intros x Hx. case_decide; [lia|now apply H].
Qed.

Lemma tot_ge g a b :
  (forall x, x ∈ As -> 0 <= g x) -> b ∈ As -> a ∈ ch b -> g b <= tot g a.
Proof.
  intros H Hb Ha. unfold tot.
  assert (Hg := zsum_ge (fun b => if decide (a ∈ ch b) then g b else 0) As b).
  cbn beta in Hg. rewrite decide_True in Hg by done. apply Hg; [|done].
  intros y Hy. case_decide; [now apply H|lia].
Qed.

(** ** Walking up the tree *)

Lemma chain_in s a b : tree s -> a ∈ As -> b ∈ ch a -> b ∈ As.
Proof.
  intros T Ha. remember (length (ch a)) as n eqn:En. revert a Ha En.
  induction n as [|n IH]; intros a Ha En Hb.
  - now destruct (ch a) eqn:E; [apply not_elem_of_nil in Hb|].
  - rewrite (t_chain _ T a Ha) in Hb, En. apply elem_of_cons in Hb as [->|Hb]; [done|].
    destruct (parent (acts s a)) as [p|] eqn:Ep; [|set_solver].
    apply (IH p); [now apply (t_parent _ T a)|cbn in En; congruence|done].
Qed.

Lemma chain_self s a : tree s -> a ∈ As -> a ∈ ch a.
Proof. intros T Ha. rewrite (t_chain _ T a Ha). left. Qed.

Lemma for_each_ancestor_spec fuel f F s a :
  tree s -> a ∈ As -> (length (ch a) <= fuel)%nat ->
  (forall x, x ∈ ch a -> f (acts s x) = Ret (F (acts s x))) ->
  (forall x, parent (F x) = parent x) ->
  exists s', for_each_ancestor fuel f s a = Ret s' /\
    (forall x, acts s' x = if decide (x ∈ ch a) then F (acts s x) else acts s x) /\
    descs s' = descs s /\ alists s' = alists s /\ klists s' = klists s /\
    root_activity s' = root_activity s.
Proof.
  intros T Ha Hf HF Hp. assert (Hin : forall x, x ∈ ch a -> x ∈ As) by (intros; now apply (chain_in s a)).
  assert (Hnd := t_distinct _ T a Ha).
  assert (Hgen : forall s1, (forall x, x ∈ ch a -> acts s1 x = acts s x) ->
    root_activity s1 = root_activity s ->
    exists s', for_each_ancestor fuel f s1 a = Ret s' /\
    (forall x, acts s' x = if decide (x ∈ ch a) then F (acts s1 x) else acts s1 x) /\
    descs s' = descs s1 /\ alists s' = alists s1 /\ klists s' = klists s1 /\
    root_activity s' = root_activity s1); [|now apply (Hgen s)].
  clear Hin. remember (length (ch a)) as n eqn:En.
  revert fuel Hf a Ha En HF Hnd.
  induction n as [|n IH]; intros fuel Hf a Ha En HF Hnd s1 H1 Hr1;
    assert (Ec := t_chain _ T a Ha).
  - rewrite Ec in En. done.
  - destruct fuel as [|fuel]; [lia|]. cbn [for_each_ancestor].
    assert (Haa : a ∈ ch a) by (rewrite Ec; left).
    rewrite H1, HF by done. cbn [mbind exec_bind].
    assert (Ep : parent (acts (set_act s1 a (F (acts s a))) a) = parent (acts s a)).
    { cbn. rewrite fn_lookup_insert. apply Hp. }
    rewrite Ep. destruct (parent (acts s a)) as [p|] eqn:Epa.
    + rewrite Ec in En, HF, Hnd, H1 |- *. apply NoDup_cons in Hnd as [Hna Hnd].
      destruct (IH fuel ltac:(lia) p (t_parent _ T a p Ha Epa) ltac:(cbn in En; congruence))
        with (s1 := set_act s1 a (F (acts s a))) as (s'&E'&Hs'&Hd&Hal&Hkl&Hr).
      * intros x Hx. apply HF. now right.
      * done.
      * intros x Hx. cbn. rewrite fn_lookup_insert_ne by (intros ->; done). apply H1. now right.
      * done.
      * exists s'. split; [exact E'|]. split; [|auto].
        intros x. rewrite Hs'. cbn. rewrite fn_at.
        assert (acts s1 a = acts s a) by (apply H1; left).
        destruct (decide (x = a)) as [->|Hne].
        -- rewrite decide_False, decide_True by (done || left). congruence.
        -- destruct (decide (x ∈ ch p)) as [Hx|Hx].
           ++ rewrite decide_True by (now right). done.
           ++ rewrite decide_False; [done|]. now intros [|]%elem_of_cons.
    + rewrite (t_root _ T a Ha Epa). cbn. rewrite Hr1, Z.eqb_refl. cbn.
      eexists. split; [reflexivity|]. cbn. split; [|auto].
      rewrite <- (t_root _ T a Ha Epa). rewrite Ec. intros x. rewrite fn_at.
      assert (acts s1 a = acts s a) by (apply H1; now rewrite Ec; left).
      destruct (decide (x = a)) as [->|Hne].
      * rewrite decide_True by left. congruence.
      * rewrite decide_False; [done|]. set_solver.
Qed.

Lemma tree_same s s' :
  tree s -> (forall a, a ∈ As -> parent (acts s' a) = parent (acts s a)) ->
  root_activity s' = root_activity s -> tree s'.
Proof.
  intros [H1 H2 H3 H4 H5] Hp Hr. split; [done|..|done].
  - intros a Ha. rewrite Hp by done. now apply H2.
  - intros a Ha. rewrite Hp, Hr by done. now apply H3.
  - intros a p Ha. rewrite Hp by done. now apply H4.
Qed.

(** ** The lists *)

(** Unlinking and pushing, in terms of who is on which list. *)
Lemma unlink_key fuel m L h d :
  KList.rep m L -> d ∈ L h -> (length (L h) <= fuel)%nat ->
  exists m' L', KList.list_unlink fuel m h d = Ret m' /\ KList.rep m' L' /\
    (forall u h', u ∈ L' h' <-> u ∈ L h' /\ u <> d) /\
    (forall h', len L' h' = len L h' - if decide (h' = h) then 1 else 0).
Proof.
  intros H Hd Hf. assert (Hd' := Hd). apply list_elem_of_split in Hd as (l1&l2&E).
  destruct (KList.unlink_rep fuel m L h l1 d l2 H E) as (m'&Em&Hr).
  { rewrite E, length_app in Hf. cbn in Hf. lia. }
  assert (Hs := KList.rep_sep _ _ H). assert (Hnd := sep_nodup _ Hs h).
  rewrite E, <- Permutation_middle in Hnd. apply NoDup_cons in Hnd as [Hn _].
  exists m', (<[h := l1 ++ l2]> L). split; [done|]. split; [done|]. split.
  - intros u h'. rewrite elem_insert. split.
    + intros [[-> Hu]|[Hne Hu]].
      * rewrite E. split; [set_solver|]. intros ->. done.
      * split; [done|]. intros ->. apply Hne. eapply (sep_place _ Hs); eauto.
    + intros [Hu Hne]. destruct (decide (h' = h)) as [->|]; [left|now right].
      split; [done|]. rewrite E in Hu. set_solver.
  - intros h'. unfold len. rewrite fn_at. case_decide; [subst|lia].
    rewrite E, !length_app. cbn. lia.
Qed.

Lemma push_key m L h d :
  KList.rep m L -> (forall h', d ∉ L h') ->
  exists m' L', KList.list_push m h d = Ret m' /\ KList.rep m' L' /\
    (forall u h', u ∈ L' h' <-> u ∈ L h' \/ u = d /\ h' = h) /\
    (forall h', len L' h' = len L h' + if decide (h' = h) then 1 else 0).
Proof.
  intros H Hd. destruct (KList.push_rep m L h d H Hd) as (m'&Em&Hr).
  exists m', (<[h := d :: L h]> L). split; [done|]. split; [done|]. split.
  - intros u h'. rewrite elem_insert, elem_of_cons.
    destruct (decide (h' = h)) as [->|]; naive_solver.
  - intros h'. unfold len. rewrite fn_at. case_decide; [subst; cbn; lia|lia].
Qed.

(** What being on a list says about a descriptor. *)
Lemma listed X e s L W u k a : inv X e s L W -> u ∈ L (hdr k a) ->
  owner (descs s u) = Some a /\
  match k with
  | Active => eviction_candidate (descs s u) = false /\ object_active (descs s u) = true
  | Inactive => eviction_candidate (descs s u) = false /\ object_active (descs s u) = false
  | EvictionClean => eviction_candidate (descs s u) = true /\ to_write (descs s u) = false
  | EvictionDirty => eviction_candidate (descs s u) = true /\ to_write (descs s u) = true
  end.
Proof.
  intros H [_ Hk]%(i_key _ _ _ _ _ H). unfold key in Hk.
  destruct (owner (descs s u)) as [b|]; [|done].
  destruct (eviction_candidate (descs s u)); [|destruct (_ =? _); [|done]];
    injection Hk as [<- ->]%hdr_inj; split; try done.
  - now destruct (to_write (descs s u)).
  - now destruct (object_active (descs s u)).
Qed.

Lemma treed X e s L W u a : inv X e s L W -> a ∈ As -> u ∈ priorities (acts s a) ->
  owner (descs s u) = Some a /\ eviction_candidate (descs s u) = false /\
  (priority (pol (descs s u)) =? OBJECT_PRIORITY_LRU) = false.
Proof.
  intros H Ha [_ Hk]%(i_tkey _ _ _ _ _ H u a Ha). unfold tkey in Hk.
  destruct (owner (descs s u)) as [b|]; [|done].
  destruct (eviction_candidate (descs s u)); [done|].
  destruct (_ =? _); [done|]. cbn in Hk. now split; [congruence|].
Qed.

(** The kernel's node of an object is attached exactly when it is a candidate. *)
Lemma off_kernel s L W u h : inv None None s L W -> eviction_candidate (descs s u) = false -> u ∉ W h.
Proof.
  intros H Ec [_ Hw]%(i_wkey _ _ _ _ _ H). unfold wkey in Hw. rewrite Ec in Hw.
  now destruct (owner (descs s u)).
Qed.

(** ** Changing the invariant *)

(** Activity [b] gains [n] frames and [n'] dirty eviction candidates. *)
Lemma inv_change X e s L W X' e' s' L' W' b n n' :
  inv X e s L W -> b ∈ As ->
  (forall a, parent (acts s' a) = parent (acts s a)) -> root_activity s' = root_activity s ->
  KList.rep (alists s') L' -> KList.rep (klists s') W' ->
  (forall d a, X' <> Some d -> owner (descs s' d) = Some a -> a ∈ As) ->
  (forall d h, d ∈ L' h <-> X' <> Some d /\ key (descs s' d) = Some h) ->
  (forall d a, a ∈ As ->
     d ∈ priorities (acts s' a) <-> X' <> Some d /\ tkey (descs s' d) = Some a) ->
  (forall d h, d ∈ W' h <-> X' <> Some d /\ wkey (descs s' d) = Some h) ->
  (forall a, a ∈ As ->
     priorities_count (acts s' a) = Z.of_nat (size (priorities (acts s' a)))) ->
  (forall a, a ∈ As ->
     cnt L' s' a + extra e' a = cnt L s a + extra e a + if decide (a = b) then n else 0) ->
  (forall a, a ∈ As ->
     len L' (hdr EvictionDirty a) = len L (hdr EvictionDirty a) + if decide (a = b) then n' else 0) ->
  (forall a, a ∈ As ->
     frames_local (acts s' a) = frames_local (acts s a) + (if decide (a = b) then n else 0) /\
     frames_total (acts s' a) = frames_total (acts s a) + (if decide (a ∈ ch b) then n else 0) /\
     frames_pending_eviction (acts s' a)
       = frames_pending_eviction (acts s a) + (if decide (a ∈ ch b) then n' else 0)) ->
  inv X' e' s' L' W'.
Proof.
  intros [T Hl Hk Ho Hkey Htk Hwk Hpc Hloc Htot Hpen] Hb Hp Hr Hl' Hk' Ho' Hkey' Htk' Hwk' Hpc'
    Hcnt Hlen Hfr.
  assert (Hnd := t_nodup _ T).
  split; try done.
  - eapply tree_same; eauto.
  - intros a Ha. destruct (Hfr a Ha) as (->&_&_). rewrite Hloc, Hcnt by done. lia.
  - intros a Ha. destruct (Hfr a Ha) as (_&->&_). rewrite Htot by done.
    rewrite (tot_change (fun b => cnt L s b + extra e b) (fun b => cnt L' s' b + extra e' b) b n); auto.
  - intros a Ha. destruct (Hfr a Ha) as (_&_&->). rewrite Hpen by done.
    rewrite (tot_change (fun b => len L (hdr EvictionDirty b))
               (fun b => len L' (hdr EvictionDirty b)) b n'); auto.
Qed.

(** Bounds that the invariant gives, when all frames fit in a word. *)
Definition fits (e : option Z) (s : kstate) (L : Z -> list Z) (n : Z) : Prop :=
  zsum (map (fun b => cnt L s b + extra e b) As) + n < 2 ^ 32.

Lemma cnt_nonneg L s a : 0 <= cnt L s a.
Proof. unfold cnt, len. lia. Qed.

Lemma extra_range e a : 0 <= extra e a <= 1.
Proof. unfold extra. case_decide; lia. Qed.

Lemma extra_None a : extra None a = 0.
Proof. unfold extra. now rewrite decide_False. Qed.

Lemma inv_bounds X e s L W n a b :
  inv X e s L W -> fits e s L n -> b ∈ As -> a ∈ ch b ->
  0 <= frames_local (acts s b) /\ frames_local (acts s b) <= frames_total (acts s a) /\
  frames_total (acts s a) + n < 2 ^ 32 /\ frames_local (acts s b) + n < 2 ^ 32 /\
  len L (hdr EvictionDirty b) <= frames_pending_eviction (acts s a) /\
  frames_pending_eviction (acts s a) <= frames_total (acts s a).
Proof.
  intros H Hf Hb Ha. assert (Ha' : a ∈ As) by (eapply chain_in; eauto; apply H).
  assert (Hpos : forall x, x ∈ As -> 0 <= cnt L s x + extra e x).
  { intros x _. assert (H1 := cnt_nonneg L s x). assert (H2 := extra_range e x). lia. }
  assert (Hpos' : forall x, x ∈ As -> 0 <= len L (hdr EvictionDirty x)) by (intros; unfold len; lia).
  rewrite (i_local _ _ _ _ _ H b Hb), (i_total _ _ _ _ _ H a Ha'), (i_pending _ _ _ _ _ H a Ha').
  assert (H1 := tot_ge (fun b => cnt L s b + extra e b) a b Hpos Hb Ha). cbn beta in H1.
  assert (H2 := tot_le (fun b => cnt L s b + extra e b) a Hpos).
  assert (H3 := tot_ge (fun b => len L (hdr EvictionDirty b)) a b Hpos' Hb Ha). cbn beta in H3.
  assert (H4 : tot (fun b => len L (hdr EvictionDirty b)) a <= tot (fun b => cnt L s b + extra e b) a).
  { apply zsum_le. intros x _. case_decide; [|lia]. assert (H4 := extra_range e x).
    unfold cnt, len. lia. }
  assert (H5 := Hpos b Hb). unfold fits in Hf. lia.
Qed.

(** ** Charging *)

Lemma charge_spec fuel s b n :
  tree s -> b ∈ As -> (length (ch b) <= fuel)%nat ->
  (n < 0 -> - n <= frames_local (acts s b) /\ forall a, a ∈ ch b -> - n <= frames_total (acts s a)) ->
  exists s', activity_charge fuel s b n = Ret s' /\
    (forall x, acts s' x =
       let y := if decide (x = b) then add_local n (acts s x) else acts s x in
       if decide (x ∈ ch b) then add_stats n (add_total n y) else y) /\
    descs s' = descs s /\ alists s' = alists s /\ klists s' = klists s /\
    root_activity s' = root_activity s.
Proof.
  intros T Hb Hf Hn. unfold activity_charge.
  assert (Hc : (if n <? 0 then check (- n <=? frames_local (acts s b)) assertion_failed else Ret tt)
    = Ret tt).
  { destruct (Z.ltb_spec n 0); [|done]. destruct (Hn ltac:(done)) as [H1 _].
    now rewrite (proj2 (Z.leb_le _ _) H1). }
  rewrite Hc. cbn [mbind exec_bind].
  set (s1 := upd_act s b (add_local n)).
  assert (Es1 : forall x, acts s1 x = if decide (x = b) then add_local n (acts s x) else acts s x).
  { intros x. unfold s1, upd_act. cbn. rewrite fn_at. case_decide; now subst. }
  assert (T1 : tree s1).
  { apply (tree_same s); [done| |done]. intros a _. rewrite Es1. now case_decide. }
  destruct (for_each_ancestor_spec fuel
    (fun x => _ ← (if n <? 0 then check (- n <=? frames_total x) assertion_failed else Ret tt);
              Ret (add_stats n (add_total n x)))
    (fun x => add_stats n (add_total n x)) s1 b T1 Hb Hf) as (s'&E&Ha&Hr); [|done|].
  - intros x Hx. destruct (Z.ltb_spec n 0); [|done]. destruct (Hn ltac:(done)) as [_ H2].
    assert (Et : frames_total (acts s1 x) = frames_total (acts s x)) by (rewrite Es1; now case_decide).
    rewrite Et, (proj2 (Z.leb_le _ _) (H2 x Hx)). done.
  - exists s'. split; [exact E|]. split; [|exact Hr]. intros x. rewrite Ha, Es1. done.
Qed.

(** ** Taking an object from its owner *)

(** Enough fuel for the lists and the chains of ancestors. *)
Definition roomy (fuel : nat) (L W : Z -> list Z) : Prop :=
  (forall h, length (L h) + 1 < fuel)%nat /\ (forall h, length (W h) < fuel)%nat /\
  (forall a, a ∈ As -> (length (ch a) < fuel)%nat).

(** The owner is charged for one frame more than it has when it is the claimer
    and its count was not changed. *)
Definition kept (act : option Z) (b : Z) (x : object_desc) : option Z :=
  if decide (act = Some b) then
    if eviction_candidate x && negb (to_write x) then None else Some b
  else None.

Lemma u32_add x n : 0 <= x + n < 2 ^ 32 -> u32 (x + n) = x + n.
Proof. intros. now apply u32_small. Qed.

(** Charging moves the extra frame. *)
Lemma charge_inv fuel X e e' s L W b n :
  inv X e s L W -> b ∈ As -> (length (ch b) <= fuel)%nat ->
  (n = 1 \/ n = -1 /\ e = Some b) -> fits e s L (Z.max n 0) ->
  (forall a, extra e' a = extra e a + if decide (a = b) then n else 0) ->
  exists s', activity_charge fuel s b n = Ret s' /\ inv X e' s' L W /\
    descs s' = descs s /\ alists s' = alists s /\ root_activity s' = root_activity s /\
    (forall a, priorities (acts s' a) = priorities (acts s a)).
Proof.
  intros H Hb Hf Hn Hfit He. assert (T := i_tree _ _ _ _ _ H).
  assert (Hbd : forall a, a ∈ ch b -> _) by exact (fun a => inv_bounds _ _ _ _ _ _ a b H Hfit Hb).
  assert (Hl : n = -1 -> 1 <= frames_local (acts s b)).
  { intros ->. destruct Hn as [?|[_ ->]]; [done|]. rewrite (i_local _ _ _ _ _ H b Hb).
    unfold extra. rewrite decide_True by done. assert (Hp := cnt_nonneg L s b). lia. }
  destruct (charge_spec fuel s b n T Hb Hf) as (s'&E&Ha&Hd&Hal&Hkl&Hr).
  { intros Hneg. split; [lia|]. intros a Hab. specialize (Hbd a Hab). lia. }
  assert (Hpr : forall a, priorities (acts s' a) = priorities (acts s a) /\
    priorities_count (acts s' a) = priorities_count (acts s a) /\ parent (acts s' a) = parent (acts s a) /\
    frames_pending_eviction (acts s' a) = frames_pending_eviction (acts s a)).
  { intros a. rewrite Ha. cbv zeta. decs; done. }
  exists s'. split; [exact E|]. split; [|split; [done|split; [done|split; [done|apply Hpr]]]].
  apply (inv_change X e s L W _ _ _ _ _ b n 0 H Hb); try congruence.
  - intros a. apply Hpr.
  - rewrite Hal. apply H.
  - rewrite Hkl. apply H.
  - rewrite Hd. apply (i_owner _ _ _ _ _ H).
  - intros u h. rewrite Hd. apply (i_key _ _ _ _ _ H).
  - intros u a Hin. rewrite Hd. destruct (Hpr a) as (->&_). now apply (i_tkey _ _ _ _ _ H).
  - intros u h. rewrite Hd. apply (i_wkey _ _ _ _ _ H).
  - intros a Hin. destruct (Hpr a) as (->&->&_). now apply (i_pcount _ _ _ _ _ H).
  - intros a _. unfold cnt. destruct (Hpr a) as (->&_). rewrite He. lia.
  - intros a _. decs; lia.
  - intros a Hin. destruct (Hpr a) as (_&_&_&->). rewrite Ha. cbv zeta.
    assert (Hbb := Hbd b (chain_self s b T Hb)).
    destruct (decide (a ∈ ch b)) as [Hab|Hab]; [specialize (Hbd a Hab)|];
      destruct (decide (a = b)) as [->|]; cbn; rewrite ?u32_add; lia.
Qed.

(** What [disconnect] is to establish. *)
Definition disconnected (s : kstate) (L W : Z -> list Z) (act : option Z) (d b : Z)
    (r : exec kstate) : Prop :=
  exists s1 L1 W1, r = Ret s1 /\ inv (Some d) (kept act b (descs s d)) s1 L1 W1 /\
    descs s1 = descs s /\ root_activity s1 = root_activity s /\
    (forall a, a ∈ As -> cnt L1 s1 a + extra (kept act b (descs s d)) a <= cnt L s a) /\
    (forall h, len L1 h <= len L h) /\ (forall h, len W1 h <= len W h).

Section disconnect.
Context (fuel : nat) (s : kstate) (L W : Z -> list Z) (act : option Z) (d b : Z).
Context (H : inv None None s L W) (Eo : owner (descs s d) = Some b).
Context (Hfit : fits None s L 0) (Hroom : roomy fuel L W).

Lemma owner_in : b ∈ As.
Proof. eapply (i_owner _ _ _ _ _ H); [|exact Eo]. done. Qed.

Lemma kept_extra a :
  eviction_candidate (descs s d) && negb (to_write (descs s d)) = false ->
  extra (kept act b (descs s d)) a =
  if decide (a = b) then (if negb (bool_decide (act = Some b)) then 0 else 1) else 0.
Proof.
  intros Ec. unfold kept, extra. rewrite Ec. destruct (decide (act = Some b)).
  - rewrite bool_decide_eq_true_2 by done. decs; done.
  - rewrite bool_decide_eq_false_2 by done. decs; done.
Qed.

(** The invariant for any state in which [d] is on no list and no tree. *)
Lemma removed s1 L1 W1 e1 n n' :
  descs s1 = descs s -> root_activity s1 = root_activity s ->
  (forall a, parent (acts s1 a) = parent (acts s a)) ->
  KList.rep (alists s1) L1 -> KList.rep (klists s1) W1 ->
  (forall u h, u ∈ L1 h <-> u ∈ L h /\ u <> d) ->
  (forall u h, u ∈ W1 h <-> u ∈ W h /\ u <> d) ->
  (forall u a, a ∈ As -> u ∈ priorities (acts s1 a) <-> u ∈ priorities (acts s a) /\ u <> d) ->
  (forall a, a ∈ As -> priorities_count (acts s1 a) = Z.of_nat (size (priorities (acts s1 a)))) ->
  (forall a, a ∈ As -> cnt L1 s1 a + extra e1 a = cnt L s a + if decide (a = b) then n else 0) ->
  (forall a, len L1 (hdr EvictionDirty a)
    = len L (hdr EvictionDirty a) + if decide (a = b) then n' else 0) ->
  (forall a, a ∈ As ->
     frames_local (acts s1 a) = frames_local (acts s a) + (if decide (a = b) then n else 0) /\
     frames_total (acts s1 a) = frames_total (acts s a) + (if decide (a ∈ ch b) then n else 0) /\
     frames_pending_eviction (acts s1 a)
       = frames_pending_eviction (acts s a) + (if decide (a ∈ ch b) then n' else 0)) ->
  inv (Some d) e1 s1 L1 W1.
Proof.
  intros Hd Hr Hp Hl Hk HL HW Ht Hpc Hc Hn Hf.
  apply (inv_change None None s L W _ _ _ _ _ b n n' H owner_in); auto.
  - intros u a Hu. rewrite Hd. now apply (i_owner _ _ _ _ _ H).
  - intros u h. rewrite HL, (i_key _ _ _ _ _ H u h), Hd. naive_solver.
  - intros u a Ha. rewrite Ht, (i_tkey _ _ _ _ _ H u a Ha), Hd by done. naive_solver.
  - intros u h. rewrite HW, (i_wkey _ _ _ _ _ H u h), Hd. naive_solver.
  - intros a Ha. rewrite Hc, extra_None by done. lia.
Qed.

Lemma no_tree : tkey (descs s d) = None ->
  forall u a, a ∈ As -> u ∈ priorities (acts s a) <-> u ∈ priorities (acts s a) /\ u <> d.
Proof.
  intros Ht u a Ha. split; [|now intros []]. intros Hu. split; [done|]. intros ->.
  apply (i_tkey _ _ _ _ _ H d a Ha) in Hu as [_ Hu]. congruence.
Qed.

(** Unlinking [d] from the list that its state names. *)
Lemma unlink_local h : key (descs s d) = Some h ->
  exists m' L', KList.list_unlink fuel (alists s) h d = Ret m' /\ KList.rep m' L' /\
    (forall u h', u ∈ L' h' <-> u ∈ L h' /\ u <> d) /\
    (forall h', len L' h' = len L h' - if decide (h' = h) then 1 else 0) /\ 1 <= len L h.
Proof.
  intros Hk. assert (Hin : d ∈ L h) by (now apply (i_key _ _ _ _ _ H)).
  destruct Hroom as (Hf&_&_). specialize (Hf h).
  destruct (unlink_key fuel (alists s) L h d (i_lists _ _ _ _ _ H) Hin) as (m&L'&?&?&?&?); [lia|].
  exists m, L'. do 4 (split; [done|]). unfold len. destruct (L h); [set_solver|cbn; lia].
Qed.

Lemma unlink_kernel h : wkey (descs s d) = Some h ->
  exists m' W', KList.list_unlink fuel (klists s) h d = Ret m' /\ KList.rep m' W' /\
    (forall u h', u ∈ W' h' <-> u ∈ W h' /\ u <> d) /\
    (forall h', len W' h' = len W h' - if decide (h' = h) then 1 else 0).
Proof.
  intros Hk. assert (Hin : d ∈ W h) by (now apply (i_wkey _ _ _ _ _ H)).
  destruct Hroom as (_&Hf&_). specialize (Hf h).
  destruct (unlink_key fuel (klists s) W h d (i_klists _ _ _ _ _ H) Hin) as (m&W'&?&?&?&?); [lia|].
  exists m, W'. auto.
Qed.

Lemma disconnect_clean :
  eviction_candidate (descs s d) = true -> to_write (descs s d) = false ->
  disconnected s L W act d b (disconnect fuel s act d b true).
Proof.
  intros Ec Ew. unfold disconnect. cbv zeta. rewrite Ec, Ew.
  destruct (unlink_kernel available) as (kl&W1&Ek&HkW&HW1&HlW);
    [unfold wkey; now rewrite Eo, Ec, Ew|].
  destruct (unlink_local (hdr EvictionClean b)) as (al&L1&El&HkL&HL1&HlL&_);
    [unfold key; now rewrite Eo, Ec, Ew|].
  rewrite Ek. cbn [mbind exec_bind]. rewrite El. cbn [mbind exec_bind].
  assert (Hkp : kept act b (descs s d) = None).
  { unfold kept. rewrite Ec, Ew. now destruct (decide (act = Some b)). }
  assert (Hc : forall a, cnt L1 (set_alists (set_klists s kl) al) a = cnt L s a).
  { intros a. unfold cnt. rewrite !HlL. cbn. decs; lia. }
  eexists _, L1, W1. split; [reflexivity|]. rewrite Hkp.
  split; [|split; [done|split; [done|split; [|split]]]].
  - apply (removed _ _ _ None 0 0); auto.
    + apply no_tree. unfold tkey. now rewrite Eo, Ec.
    + apply (i_pcount _ _ _ _ _ H).
    + intros a _. rewrite extra_None, Hc. decs; lia.
    + intros a. rewrite HlL. decs; lia.
    + intros a _. cbn. decs; lia.
  - intros a _. rewrite extra_None, Hc. lia.
  - intros h. rewrite HlL. decs; lia.
  - intros h. rewrite HlW. decs; lia.
Qed.

(** The counters of a dirty candidate's owner and its ancestors. *)
Lemma dirty_walk s0 (mv : bool) :
  acts s0 = acts s -> root_activity s0 = root_activity s ->
  let s2 := if mv then upd_act s0 b (add_local (-1)) else s0 in
  exists s1, for_each_ancestor fuel
      (fun x => Ret (add_pending (-1) (if mv then add_total (-1) x else x))) s2 b = Ret s1 /\
    (forall x, acts s1 x =
       let y := if decide (x = b) then (if mv then add_local (-1) (acts s x) else acts s x)
                else acts s x in
       if decide (x ∈ ch b) then add_pending (-1) (if mv then add_total (-1) y else y) else y) /\
    descs s1 = descs s0 /\ alists s1 = alists s0 /\ klists s1 = klists s0 /\
    root_activity s1 = root_activity s.
Proof.
  intros Ha0 Hr0 s2. assert (Hb := owner_in).
  assert (Es2 : forall x, acts s2 x = if decide (x = b) then
    (if mv then add_local (-1) (acts s x) else acts s x) else acts s x).
  { intros x. unfold s2. destruct mv; cbn; rewrite ?fn_at, Ha0; decs; now subst. }
  assert (T2 : tree s2).
  { apply (tree_same s); [apply H| |unfold s2; now destruct mv].
    intros a _. rewrite Es2. decs; now destruct mv. }
  destruct Hroom as (_&_&Hf). specialize (Hf b Hb).
  destruct (for_each_ancestor_spec fuel
    (fun x => Ret (add_pending (-1) (if mv then add_total (-1) x else x)))
    (fun x => add_pending (-1) (if mv then add_total (-1) x else x)) s2 b T2 Hb)
    as (s1&E1&Ha1&Hd1&Hal1&Hkl1&Hr1); [lia|done|now destruct mv|].
  exists s1. split; [exact E1|]. split; [intros x; now rewrite Ha1, Es2|].
  rewrite Hd1, Hal1, Hkl1, Hr1. unfold s2. now destruct mv.
Qed.

Lemma disconnect_dirty :
  eviction_candidate (descs s d) = true -> to_write (descs s d) = true ->
  disconnected s L W act d b (disconnect fuel s act d b true).
Proof.
  intros Ec Ew. unfold disconnect. cbv zeta. rewrite Ec, Ew.
  destruct (unlink_kernel laundry) as (kl&W1&Ek&HkW&HW1&HlW);
    [unfold wkey; now rewrite Eo, Ec, Ew|].
  destruct (unlink_local (hdr EvictionDirty b)) as (al&L1&El&HkL&HL1&HlL&Hl1);
    [unfold key; now rewrite Eo, Ec, Ew|].
  rewrite Ek. cbn [mbind exec_bind]. rewrite El. cbn [mbind exec_bind].
  set (mv := negb (bool_decide (act = Some b))).
  destruct (dirty_walk (set_alists (set_klists s kl) al) mv)
    as (s1&E1&Ha1&Hd1&Hal1&Hkl1&Hr1); [done..|].
  assert (Hpr : forall a, priorities (acts s1 a) = priorities (acts s a) /\
    priorities_count (acts s1 a) = priorities_count (acts s a) /\ parent (acts s1 a) = parent (acts s a)).
  { intros a. rewrite Ha1. cbv zeta. decs; now destruct mv. }
  set (e := kept act b (descs s d)).
  assert (Hx : forall a, extra e a = if decide (a = b) then (if mv then 0 else 1) else 0).
  { intros a. apply kept_extra. now rewrite Ew, andb_false_r. }
  assert (Hc : forall a, cnt L1 s1 a + extra e a
    = cnt L s a + if decide (a = b) then (if mv then -1 else 0) else 0).
  { intros a. rewrite Hx. unfold cnt. rewrite !HlL. destruct (Hpr a) as (->&_&_).
    decs; destruct mv; lia. }
  exists s1, L1, W1. split; [exact E1|].
  split; [|split; [done|split; [done|split; [|split]]]].
  - apply (removed _ _ _ _ (if mv then -1 else 0) (-1)); auto; try congruence.
    + intros a. apply Hpr.
    + now rewrite Hal1.
    + now rewrite Hkl1.
    + intros u a. destruct (Hpr a) as (->&_). apply no_tree. unfold tkey. now rewrite Eo, Ec.
    + intros a. destruct (Hpr a) as (->&->&_). apply (i_pcount _ _ _ _ _ H).
    + intros a. rewrite HlL. decs; lia.
    + intros a Ha. rewrite Ha1. cbv zeta. assert (Hb := owner_in).
      assert (Hloc := i_local _ _ _ _ _ H b Hb). rewrite extra_None in Hloc. unfold cnt, len in *.
      assert (Hq : a ∈ ch b -> _) by exact (inv_bounds _ _ _ _ _ 0 a b H Hfit Hb).
      assert (Hbb := inv_bounds _ _ _ _ _ 0 b b H Hfit Hb (chain_self s b (i_tree _ _ _ _ _ H) Hb)).
      unfold len in Hq, Hbb. destruct (decide (a ∈ ch b)) as [Hab|Hab]; [specialize (Hq Hab)|];
        destruct (decide (a = b)) as [->|]; destruct mv; cbn; rewrite ?u32_add; lia.
  - intros a _. rewrite Hc. decs; destruct mv; lia.
  - intros h. rewrite HlL. decs; lia.
  - intros h. rewrite HlW. decs; lia.
Qed.

(** Off the tree or the LRU list, before the charge is given back. *)
Definition off (r : exec kstate) : Prop :=
  exists s2 L2, r = Ret s2 /\ inv (Some d) (Some b) s2 L2 W /\ descs s2 = descs s /\
    root_activity s2 = root_activity s /\
    (forall a, cnt L2 s2 a + extra (Some b) a = cnt L s a) /\ (forall h, len L2 h <= len L h).

Lemma extra_Some a : extra (Some b) a = if decide (a = b) then 1 else 0.
Proof. unfold extra. decs; done. Qed.

Lemma off_list : eviction_candidate (descs s d) = false ->
  priority (pol (descs s d)) = OBJECT_PRIORITY_LRU ->
  off (al ← KList.list_unlink fuel (alists s)
         (hdr (if object_active (descs s d) then Active else Inactive) b) d;
       Ret (set_alists s al)).
Proof.
  intros Ec Ep.
  destruct (unlink_local (hdr (if object_active (descs s d) then Active else Inactive) b))
    as (al&L1&El&HkL&HL1&HlL&Hl1); [unfold key; now rewrite Eo, Ec, Ep|].
  rewrite El. cbn [mbind exec_bind].
  assert (Hc : forall a, cnt L1 (set_alists s al) a + extra (Some b) a = cnt L s a).
  { intros a. rewrite extra_Some. unfold cnt. rewrite !HlL. cbn.
    destruct (object_active (descs s d)); decs; lia. }
  eexists _, L1. split; [reflexivity|]. split; [|split; [done|split; [done|split; [done|]]]].
  - assert (Hnt : tkey (descs s d) = None) by (unfold tkey; now rewrite Eo, Ec, Ep).
    assert (Hnw : wkey (descs s d) = None) by (unfold wkey; now rewrite Eo, Ec).
    apply (removed _ _ _ _ 0 0); auto.
    + apply (i_klists _ _ _ _ _ H).
    + intros u h. split; [|now intros []]. intros Hu. split; [done|]. intros ->.
      apply (i_wkey _ _ _ _ _ H) in Hu as [_ Hu]. congruence.
    + now apply no_tree.
    + apply (i_pcount _ _ _ _ _ H).
    + intros a _. rewrite Hc. decs; lia.
    + intros a. rewrite HlL. destruct (object_active (descs s d)); decs; lia.
    + intros a _. cbn. decs; lia.
  - intros h. rewrite HlL. decs; lia.
Qed.

Lemma off_tree : eviction_candidate (descs s d) = false ->
  priority (pol (descs s d)) <> OBJECT_PRIORITY_LRU ->
  off (_ ← check (bool_decide (d ∈ priorities (acts s b))) invalid_access;
       Ret (upd_act s b (fun y => on_priorities (priorities y ∖ {[d]}) (-1) y))).
Proof.
  intros Ec Ep. assert (Hb := owner_in). apply Z.eqb_neq in Ep.
  assert (Hd : d ∈ priorities (acts s b)).
  { apply (i_tkey _ _ _ _ _ H d b Hb). split; [done|]. unfold tkey. now rewrite Eo, Ec, Ep. }
  assert (Hnk : key (descs s d) = None) by (unfold key; now rewrite Eo, Ec, Ep).
  assert (Hnw : wkey (descs s d) = None) by (unfold wkey; now rewrite Eo, Ec).
  rewrite (bool_decide_eq_true_2 (d ∈ priorities (acts s b))) by done. cbn [mbind exec_bind check].
  set (s2 := upd_act s b (fun y => on_priorities (priorities y ∖ {[d]}) (-1) y)).
  assert (Ha : forall a, acts s2 a =
    if decide (a = b) then on_priorities (priorities (acts s b) ∖ {[d]}) (-1) (acts s b) else acts s a).
  { intros a. unfold s2, upd_act. cbn. now rewrite fn_at. }
  assert (Hsz : Z.of_nat (size (priorities (acts s b) ∖ {[d]})) = Z.of_nat (size (priorities (acts s b))) - 1).
  { assert (Hin := proj2 (singleton_subseteq_l d (priorities (acts s b))) Hd).
    rewrite size_difference by done. apply subseteq_size in Hin. rewrite size_singleton in *. lia. }
  assert (Hc : forall a, cnt L s2 a + extra (Some b) a = cnt L s a).
  { intros a. rewrite extra_Some. unfold cnt. rewrite Ha. decs; subst; cbn; lia. }
  exists s2, L. split; [reflexivity|]. split; [|split; [done|split; [done|split; [done|lia]]]].
  apply (removed _ _ _ _ 0 0); auto; try apply H.
  - intros a. rewrite Ha. decs; now subst.
  - intros u h. split; [|now intros []]. intros Hu. split; [done|]. intros ->.
    apply (i_key _ _ _ _ _ H) in Hu as [_ Hu]. congruence.
  - intros u h. split; [|now intros []]. intros Hu. split; [done|]. intros ->.
    apply (i_wkey _ _ _ _ _ H) in Hu as [_ Hu]. congruence.
  - intros u a Hin. rewrite Ha. destruct (decide (a = b)) as [->|Hne]; [cbn; set_solver|].
    split; [|now intros []]. intros Hu. split; [done|]. intros ->.
    apply (i_tkey _ _ _ _ _ H d a Hin) in Hu as [_ Hu]. unfold tkey in Hu.
    rewrite Eo, Ec, Ep in Hu. cbn in Hu. congruence.
  - intros a Hin. assert (Hpc := i_pcount _ _ _ _ _ H a Hin). rewrite Ha. decs; subst; cbn; lia.
  - intros a _. rewrite Hc. decs; lia.
  - intros a. decs; lia.
  - intros a _. rewrite Ha. decs; subst; cbn; lia.
Qed.

Lemma disconnect_resident :
  eviction_candidate (descs s d) = false ->
  disconnected s L W act d b (disconnect fuel s act d b true).
Proof.
  intros Ec. unfold disconnect. cbv zeta. rewrite Ec, andb_true_r. assert (Hb := owner_in).
  assert (Hoff : off (if negb (priority (pol (descs s d)) =? OBJECT_PRIORITY_LRU) then
           _ ← check (bool_decide (d ∈ priorities (acts s b))) invalid_access;
           Ret (upd_act s b (fun y => on_priorities (priorities y ∖ {[d]}) (-1) y))
         else
           al ← KList.list_unlink fuel (alists s)
                  (hdr (if object_active (descs s d) then Active else Inactive) b) d;
           Ret (set_alists s al))).
  { destruct (Z.eqb_spec (priority (pol (descs s d))) OBJECT_PRIORITY_LRU); cbn [negb];
      [now apply off_list|now apply off_tree]. }
  destruct Hoff as (s2&L2&->&H2&Hd2&Hr2&Hc2&Hl2). cbn [mbind exec_bind].
  unfold disconnected. assert (Hk : kept act b (descs s d) = if decide (act = Some b) then Some b else None).
  { unfold kept. now rewrite Ec. }
  rewrite Hk. destruct (decide (act = Some b)) as [Ea|Ea].
  - rewrite bool_decide_eq_true_2 by done. cbn [negb]. exists s2, L2, W.
    split; [reflexivity|]. split; [done|]. split; [done|]. split; [done|].
    split; [intros a _; now rewrite Hc2|split; [done|lia]].
  - rewrite bool_decide_eq_false_2 by done. cbn [negb].
    destruct Hroom as (_&_&Hf). specialize (Hf b Hb).
    destruct (charge_inv fuel (Some d) (Some b) None s2 L2 W b (-1) H2 Hb) as (s1&->&H1&Hd1&_&Hr1&Hp1);
      [lia|now right| | |].
    + unfold fits. cbn. unfold fits in Hfit. erewrite zsum_ext; [exact Hfit|].
      intros a _. cbn beta. rewrite Hc2, extra_None. lia.
    + intros a. rewrite extra_None, extra_Some. decs; lia.
    + exists s1, L2, W. split; [reflexivity|]. split; [done|]. split; [congruence|].
      split; [congruence|]. split; [|auto with lia].
      intros a _. rewrite extra_None. assert (Hq := Hc2 a). assert (Hx := extra_range (Some b) a).
      unfold cnt in *. rewrite Hp1. lia.
Qed.

Lemma disconnect_ok : disconnected s L W act d b (disconnect fuel s act d b true).
Proof.
  destruct (eviction_candidate (descs s d)) eqn:Ec; [|now apply disconnect_resident].
  destruct (to_write (descs s d)) eqn:Ew; [now apply disconnect_dirty|now apply disconnect_clean].
Qed.

End disconnect.

(** ** Frames and goals *)

(** The fields that the invariant is about. *)
Definition core (x : activity) : option Z * gset Z * Z * Z * Z * Z :=
  (parent x, priorities x, priorities_count x, frames_local x, frames_total x,
   frames_pending_eviction x).

Record alike (s s' : kstate) : Prop := Alike {
  al_core : forall a, core (acts s' a) = core (acts s a);
  al_descs : descs s' = descs s;
  al_alists : alists s' = alists s;
  al_klists : klists s' = klists s;
  al_root : root_activity s' = root_activity s
}.

Lemma alike_refl s : alike s s.
Proof. done. Qed.

Lemma alike_trans s1 s2 s3 : alike s1 s2 -> alike s2 s3 -> alike s1 s3.
Proof. intros [] []. split; try congruence. Qed.

Lemma alike_upd s a f : (forall x, core (f x) = core x) -> alike s (upd_act s a f).
Proof. intros Hf. split; try done. intros x. cbn. rewrite fn_at. decs; subst; auto. Qed.

Lemma alike_tree s s' : alike s s' -> tree s -> tree s'.
Proof.
  intros A T. apply (tree_same s s' T); [|apply A]. intros a _.
  assert (Hc := al_core _ _ A a). unfold core in Hc. congruence.
Qed.

Lemma alike_inv X e s s' L W : alike s s' -> inv X e s L W -> inv X e s' L W.
Proof.
  intros A H. assert (Hc : forall a, _) by exact (al_core _ _ A). unfold core in Hc.
  destruct A as [_ Ed El Ek Er].
  split; rewrite ?Ed, ?El, ?Ek; try apply H.
  - apply (tree_same s); [apply H| |done]. intros a _. specialize (Hc a). congruence.
  - intros u a Ha. replace (priorities (acts s' a)) with (priorities (acts s a)) by (specialize (Hc a); congruence).
    now apply (i_tkey _ _ _ _ _ H).
  - intros a Ha. assert (Hp := i_pcount _ _ _ _ _ H a Ha). specialize (Hc a). congruence.
  - intros a Ha. assert (Hp := i_local _ _ _ _ _ H a Ha). unfold cnt in *. specialize (Hc a). congruence.
  - intros a Ha. assert (Hp := i_total _ _ _ _ _ H a Ha).
    rewrite (tot_same (fun b => cnt L s b + extra e b)).
    + specialize (Hc a). congruence.
    + intros x _. unfold cnt. specialize (Hc x). congruence.
  - intros a Ha. assert (Hp := i_pending _ _ _ _ _ H a Ha). specialize (Hc a). congruence.
Qed.

Lemma alike_ancestors fuel f s a :
  tree s -> a ∈ As -> (length (ch a) <= fuel)%nat -> (forall x, core (f x) = core x) ->
  exists s', for_each_ancestor fuel (fun x => Ret (f x)) s a = Ret s' /\ alike s s'.
Proof.
  intros T Ha Hf Hc.
  destruct (for_each_ancestor_spec fuel (fun x => Ret (f x)) f s a T Ha Hf) as (s'&E&Hs&?&?&?&?); [done| |].
  - intros x. specialize (Hc x). unfold core in Hc. congruence.
  - exists s'. split; [done|]. split; try done. intros x. rewrite Hs. decs; auto.
Qed.

Lemma lose_frame_ok fuel s act d b :
  tree s -> b ∈ As -> (length (ch b) <= fuel)%nat ->
  exists s', lose_frame fuel s act d b true = Ret s' /\ alike s s'.
Proof.
  intros T Hb Hf. unfold lose_frame. cbv zeta.
  destruct (_ && _ && _); [|exists s; split; [done|apply alike_refl]].
  set (s1 := upd_act s b _). assert (A1 : alike s s1) by (now apply alike_upd).
  destruct (_ =? 0); [|now exists s1].
  destruct (alike_ancestors fuel (add_excluded (- free_initial_allocation (acts s1 b))) s1 b)
    as (s2&->&A2); [now apply (alike_tree s)|done..|].
  cbn [mbind exec_bind]. eexists. split; [reflexivity|].
  apply (alike_trans s s1); [done|]. apply (alike_trans s1 s2); [done|]. now apply alike_upd.
Qed.

Lemma gain_frame_ok fuel s a :
  tree s -> a ∈ As -> (length (ch a) <= fuel)%nat ->
  exists s1 s', activity_charge fuel s a 1 = Ret s1 /\ gain_frame fuel s a = Ret s' /\ alike s1 s'.
Proof.
  intros T Ha Hf. destruct (charge_spec fuel s a 1 T Ha Hf) as (s1&E&H1&_&_&_&Hr1); [lia|].
  assert (T1 : tree s1).
  { apply (tree_same s); [done| |done]. intros x _. rewrite H1. cbv zeta. decs; done. }
  exists s1. unfold gain_frame. rewrite E. cbn [mbind exec_bind].
  destruct (negb _); [|now exists s1].
  set (x := acts s1 a). set (s2 := upd_act s1 a _).
  assert (A2 : alike s1 s2) by (now apply alike_upd).
  destruct (_ =? 0); [|now exists s2].
  set (s3 := if negb (free_goal x =? 0) then _ else s2).
  assert (A3 : alike s1 s3).
  { unfold s3. destruct (negb _); [|done]. apply (alike_trans s1 s2); [done|now apply alike_upd]. }
  destruct (alike_ancestors fuel (add_excluded (- free_initial_allocation x)) s3 a)
    as (s4&->&A4); [now apply (alike_tree s1)|done..|].
  cbn [mbind exec_bind]. eexists. split; [done|]. split; [done|].
  apply (alike_trans s1 s3); [done|]. apply (alike_trans s3 s4); [done|]. now apply alike_upd.
Qed.

(** ** Giving an object to its claimer *)

Lemma aged_active x : object_active (object_age x true) = true.
Proof.
  unfold object_active. cbn. destruct (Z.eqb_spec (Z.lor (Z.shiftr (age x) 1) 128) 0) as [E|]; [|done].
  apply Z.lor_eq_0_iff in E as [_ E]. done.
Qed.

(** The descriptor of an object that [a] claimed. *)
Definition claimed_desc (x : object_desc) (a : Z) (p : policy) : object_desc :=
  Desc (Some a) (Policy (discardable p) (priority p)) false (dirty x)
    (Z.lor (Z.shiftr (age x) 1) 128).

Section assign.
Context (fuel : nat) (s : kstate) (L W : Z -> list Z) (a d : Z) (p : policy) (e : option Z).
Context (H : inv (Some d) e s L W) (Ha : a ∈ As).
Context (Hfit : fits e s L 1) (Hroom : roomy fuel L W).

Lemma lonely h : d ∉ L h.
Proof. intros Hd. now apply (i_key _ _ _ _ _ H) in Hd as [? _]. Qed.

Lemma lonely_tree x : x ∈ As -> d ∉ priorities (acts s x).
Proof. intros Hx Hd. now apply (i_tkey _ _ _ _ _ H) in Hd as [? _]. Qed.

(** Where [d] is put. *)
Lemma placed s0 :
  acts s0 = acts s -> alists s0 = alists s ->
  let y := claimed_desc (descs s d) a p in
  exists s1 L1, (if negb (priority p =? OBJECT_PRIORITY_LRU) then
         Ret (upd_act s0 a (fun z => on_priorities (priorities z ∪ {[d]}) 1 z))
       else
         al ← KList.list_push (alists s0) (hdr Active a) d;
         Ret (set_alists s0 al)) = Ret s1 /\
    KList.rep (alists s1) L1 /\ descs s1 = descs s0 /\ klists s1 = klists s0 /\
    root_activity s1 = root_activity s0 /\
    (forall u h, u ∈ L1 h <-> u ∈ L h \/ u = d /\ key y = Some h) /\
    (forall u x, u ∈ priorities (acts s1 x) <-> u ∈ priorities (acts s x) \/ u = d /\ tkey y = Some x) /\
    (forall x, cnt L1 s1 x = cnt L s x + if decide (x = a) then 1 else 0) /\
    (forall x, len L1 (hdr EvictionDirty x) = len L (hdr EvictionDirty x)) /\
    (forall h, len L1 h <= len L h + 1) /\
    (forall x, x ∈ As -> priorities_count (acts s1 x) = Z.of_nat (size (priorities (acts s1 x)))) /\
    (forall x, exists q n, acts s1 x = on_priorities q n (acts s x)).
Proof.
  intros Ea El y. unfold y, key, tkey. cbn [owner claimed_desc eviction_candidate pol priority orb].
  assert (Hact : object_active (claimed_desc (descs s d) a p) = true) by apply (aged_active (descs s d)).
  rewrite Hact.
  assert (Hid : forall x, on_priorities (priorities x) 0 x = x).
  { intros []. unfold on_priorities. cbn. now rewrite Z.add_0_r. }
  destruct (priority p =? OBJECT_PRIORITY_LRU); cbn [negb].
  - destruct (push_key (alists s) L (hdr Active a) d (i_lists _ _ _ _ _ H) lonely)
      as (al&L1&E&HL&HL1&Hl). rewrite El, E. cbn [mbind exec_bind].
    eexists _, L1. split; [reflexivity|]. cbn. rewrite Ea.
    do 4 (split; [done|]). split; [|split; [|split; [|split; [|split; [|split]]]]].
    + intros u h. rewrite HL1. naive_solver.
    + naive_solver.
    + intros x. unfold cnt. rewrite !Hl. cbn. rewrite Ea. decs; lia.
    + intros x. rewrite Hl. decs; lia.
    + intros h. rewrite Hl. decs; lia.
    + apply (i_pcount _ _ _ _ _ H).
    + intros x. eexists _, _. symmetry. apply Hid.
  - set (s1 := upd_act s0 a _). exists s1, L.
    assert (Hs1 : forall x, acts s1 x = if decide (x = a)
      then on_priorities (priorities (acts s a) ∪ {[d]}) 1 (acts s a) else acts s x).
    { intros x. unfold s1, upd_act. cbn. now rewrite fn_at, Ea. }
    assert (Hsz : size (priorities (acts s a) ∪ {[d]}) = (size (priorities (acts s a)) + 1)%nat).
    { rewrite size_union, size_singleton; [done|]. apply disjoint_singleton_r. now apply lonely_tree. }
    split; [done|]. split; [cbn; rewrite El; apply H|]. do 3 (split; [done|]).
    split; [|split; [|split; [|split; [|split; [|split]]]]].
    + naive_solver.
    + intros u x. rewrite Hs1. destruct (decide (x = a)) as [->|]; cbn; [|naive_solver].
      rewrite elem_of_union, elem_of_singleton. naive_solver.
    + intros x. unfold cnt. rewrite Hs1. destruct (decide (x = a)) as [->|]; cbn; lia.
    + done.
    + lia.
    + intros x Hx. assert (Hp := i_pcount _ _ _ _ _ H x Hx). rewrite Hs1.
      destruct (decide (x = a)) as [->|]; cbn; lia.
    + intros x. rewrite Hs1. destruct (decide (x = a)) as [->|]; [eauto|].
      eexists _, _. symmetry. apply Hid.
Qed.

(** The charge for an object that is new to [a], after it was put on a list. *)
Lemma charged s1 L1 (c : bool) :
  tree s1 -> (forall x, exists q n, acts s1 x = on_priorities q n (acts s x)) ->
  exists s2, (if c then gain_frame fuel s1 a else Ret s1) = Ret s2 /\
    descs s2 = descs s1 /\ alists s2 = alists s1 /\ klists s2 = klists s1 /\
    root_activity s2 = root_activity s1 /\
    (forall x, priorities (acts s2 x) = priorities (acts s1 x) /\
       priorities_count (acts s2 x) = priorities_count (acts s1 x) /\
       parent (acts s2 x) = parent (acts s x) /\ cnt L1 s2 x = cnt L1 s1 x) /\
    (forall x, x ∈ As ->
       let n := if c then 1 else 0 in
       frames_local (acts s2 x) = frames_local (acts s x) + (if decide (x = a) then n else 0) /\
       frames_total (acts s2 x) = frames_total (acts s x) + (if decide (x ∈ ch a) then n else 0) /\
       frames_pending_eviction (acts s2 x) = frames_pending_eviction (acts s x)).
Proof.
  intros T1 H1. destruct Hroom as (_&_&Hf). specialize (Hf a Ha). destruct c.
  - destruct (gain_frame_ok fuel s1 a T1 Ha) as (s2&s3&E2&->&A); [lia|].
    destruct (charge_spec fuel s1 a 1 T1 Ha) as (s2'&E2'&H2&Hd2&Hl2&Hk2&Hr2); [lia|lia|].
    rewrite E2' in E2. injection E2 as ->. assert (Hc : forall x, _) by exact (al_core _ _ A).
    unfold core in Hc. destruct A as [_ Ed El Ek Er].
    exists s3. split; [done|]. do 4 (split; [congruence|]). split.
    + intros x. specialize (Hc x). destruct (H1 x) as (q&n&Hq). rewrite H2, Hq in Hc. cbv zeta in Hc.
      unfold cnt. rewrite Hq. destruct (decide (x = a)), (decide (x ∈ ch a)); cbn in Hc |- *;
        injection Hc as -> -> -> _ _ _; done.
    + intros x Hx n. specialize (Hc x). destruct (H1 x) as (q&m&Hq). rewrite H2, Hq in Hc. cbv zeta in Hc.
      assert (Hb := inv_bounds _ _ _ _ _ 1 a a H Hfit Ha (chain_self s a (i_tree _ _ _ _ _ H) Ha)).
      assert (Hq' : x ∈ ch a -> _) by exact (inv_bounds _ _ _ _ _ 1 x a H Hfit Ha).
      destruct (decide (x ∈ ch a)) as [Hin|]; [specialize (Hq' Hin)|];
        destruct (decide (x = a)) as [->|]; cbn in Hc; injection Hc as _ _ _ -> -> ->;
        subst n; cbn; rewrite ?u32_add; lia.
  - exists s1. do 5 (split; [done|]). split.
    + intros x. destruct (H1 x) as (q&n&->). done.
    + intros x _ n. destruct (H1 x) as (q&m&->). subst n. cbn. decs; lia.
Qed.

Lemma assign_ok :
  let x := descs s d in
  (forall b, extra e b + (if (negb (bool_decide (Some a = owner x))
                             || (eviction_candidate x && negb (to_write x)))
                          then (if decide (b = a) then 1 else 0) else 0)
             = if decide (b = a) then 1 else 0) ->
  exists s' L', assign fuel s a d p true = Ret s' /\ inv None None s' L' W /\
    (forall u, descs s' u = if decide (u = d) then claimed_desc x a p else descs s u) /\
    (forall h, len L' h <= len L h + 1) /\
    (forall b, cnt L' s' b = cnt L s b + if decide (b = a) then 1 else 0).
Proof.
  intros x He. unfold assign. cbv zeta.
  set (y := object_age _ true). set (s0 := set_desc s d y).
  destruct (placed s0) as (s1&L1&->&HL1&Hd1&Hk1&Hr1&HuL&Hut&Hc&Hl&Hl1&Hp&Hq); [done..|].
  cbn [mbind exec_bind]. rewrite andb_true_r.
  change (to_write y) with (to_write x). change (owner y) with (owner x).
  change (eviction_candidate y) with (eviction_candidate x).
  set (c := negb (bool_decide (Some a = owner x)) || _) in *.
  assert (T1 : tree s1).
  { apply (tree_same s); [apply H| |exact Hr1]. intros b _. now destruct (Hq b) as (q&n&->). }
  destruct (charged s1 L1 c T1 Hq) as (s2&->&Hd2&Hl2&Hk2&Hr2&Hs2&Hf2). cbn [mbind exec_bind].
  eexists _, L1. split; [reflexivity|].
  change (Desc (Some a) _ false _ _) with (claimed_desc x a p).
  assert (Hdesc : forall u, descs (set_desc s2 d (claimed_desc x a p)) u =
    if decide (u = d) then claimed_desc x a p else descs s u).
  { intros u. cbn. rewrite Hd2, Hd1. unfold s0. cbn. rewrite !fn_at. now decs. }
  assert (Hcnt : forall b, cnt L1 (set_desc s2 d (claimed_desc x a p)) b
    = cnt L s b + if decide (b = a) then 1 else 0).
  { intros b. rewrite <- Hc. apply (Hs2 b). }
  split; [|split; [exact Hdesc|split; [exact Hl1|exact Hcnt]]].
  apply (inv_change (Some d) e s L W _ _ _ _ _ a (if c then 1 else 0) 0 H Ha).
  - intros b. apply Hs2.
  - cbn. now rewrite Hr2, Hr1.
  - cbn. now rewrite Hl2.
  - cbn. rewrite Hk2, Hk1. apply H.
  - intros u b _. rewrite Hdesc. destruct (decide (u = d)) as [->|]; [now intros [= <-]|].
    intros Hu. eapply (i_owner _ _ _ _ _ H); [|exact Hu]. congruence.
  - intros u h. rewrite HuL, (i_key _ _ _ _ _ H u h), Hdesc. destruct (decide (u = d)); naive_solver.
  - intros u b Hb. cbn [set_desc acts]. destruct (Hs2 b) as (->&_).
    rewrite Hut, (i_tkey _ _ _ _ _ H u b Hb), Hdesc.
    destruct (decide (u = d)); naive_solver.
  - intros u h. rewrite (i_wkey _ _ _ _ _ H u h), Hdesc. destruct (decide (u = d)); naive_solver.
  - intros b Hb. cbn [set_desc acts]. destruct (Hs2 b) as (->&->&_). now apply Hp.
  - intros b _. rewrite Hcnt, extra_None. specialize (He b). destruct c; decs; lia.
  - intros b _. rewrite Hl. decs; lia.
  - intros b Hb. specialize (Hf2 b Hb). cbv zeta in Hf2. cbn [set_desc acts].
    destruct (decide (b ∈ ch a)); lia.
Qed.

End assign.

(** ** The kernel's assertions *)

Lemma counts_ok fuel X s L W n a :
  inv X None s L W -> fits None s L n -> 0 <= n -> a ∈ As ->
  (forall k, k <> EvictionClean -> (length (L (hdr k a)) < fuel)%nat) ->
  check_counts fuel s a = Ret tt.
Proof.
  intros H Hfit Hn Ha Hf. unfold check_counts.
  rewrite !(KList.list_count_rep fuel _ L) by (apply H || now apply Hf). cbn [mbind exec_bind].
  assert (Hb := inv_bounds _ _ _ _ _ n a a H Hfit Ha (chain_self s a (i_tree _ _ _ _ _ H) Ha)).
  assert (Hl := i_local _ _ _ _ _ H a Ha). rewrite extra_None in Hl. unfold cnt, len in Hl.
  rewrite (i_pcount _ _ _ _ _ H a Ha), u32_small by lia.
  rewrite (proj2 (Z.eqb_eq _ _)) by lia. done.
Qed.

Lemma owner_ok fuel X s L W n (b : option Z) (c : bool) :
  inv X None s L W -> fits None s L n -> 0 <= n -> (forall a, b = Some a -> a ∈ As) ->
  (forall h, length (L h) < fuel)%nat -> check_owner fuel s b c = Ret tt.
Proof.
  intros H Hfit Hn Hb Hf. destruct b as [a|]; [|done]. cbn. destruct c; [|done].
  apply (counts_ok fuel X s L W n); auto.
Qed.

Lemma fits_le e e' s s' L L' n n' :
  fits e s L n -> (forall a, a ∈ As -> cnt L' s' a + extra e' a <= cnt L s a + extra e a) ->
  n' <= n -> fits e' s' L' n'.
Proof.
  unfold fits. intros H Hc Hn.
  assert (Hz := zsum_le (fun b => cnt L' s' b + extra e' b) (fun b => cnt L s b + extra e b) As Hc). lia.
Qed.

(** One object more for [a]. *)
Lemma fits_grow s s' L L' (a : Z) n :
  NoDup As -> a ∈ As -> fits None s L (n + 1) ->
  (forall b, b ∈ As -> cnt L' s' b <= cnt L s b + if decide (b = a) then 1 else 0) ->
  fits None s' L' n.
Proof.
  unfold fits. intros Hnd Ha H Hc.
  assert (Hz := zsum_change (fun b => cnt L s b + extra None b)
    (fun b => cnt L s b + extra None b + if decide (b = a) then 1 else 0) As a Hnd Ha).
  cbn beta in Hz. rewrite (decide_True (P := a = a)) in Hz by done.
  assert (Hle := zsum_le (fun b => cnt L' s' b + extra None b)
    (fun b => cnt L s b + extra None b + if decide (b = a) then 1 else 0) As). cbn beta in Hle.
  rewrite Hz in Hle.
  - assert (Hfin := Hle ltac:(intros b Hb; specialize (Hc b Hb); lia)). lia.
  - intros b _ Hne. rewrite decide_False by done. lia.
Qed.

(** An object without an owner is on no list. *)
Lemma inv_fresh s L W d : inv None None s L W -> owner (descs s d) = None -> inv (Some d) None s L W.
Proof.
  intros H Eo.
  assert (Hk : key (descs s d) = None) by (unfold key; now rewrite Eo).
  assert (Ht : tkey (descs s d) = None) by (unfold tkey; now rewrite Eo).
  assert (Hw : wkey (descs s d) = None) by (unfold wkey; now rewrite Eo).
  split; try apply H.
  - intros u a _. now apply (i_owner _ _ _ _ _ H).
  - intros u h. rewrite (i_key _ _ _ _ _ H u h). split; [|naive_solver]. intros [_ Hu].
    split; [|done]. intros [= ->]. congruence.
  - intros u a Ha. rewrite (i_tkey _ _ _ _ _ H u a Ha). split; [|naive_solver]. intros [_ Hu].
    split; [|done]. intros [= ->]. congruence.
  - intros u h. rewrite (i_wkey _ _ _ _ _ H u h). split; [|naive_solver]. intros [_ Hu].
    split; [|done]. intros [= ->]. congruence.
Qed.

(** Setting the policy of an object that is not a candidate moves nothing. *)
Lemma inv_discardable s L W d p :
  inv None None s L W -> eviction_candidate (descs s d) = false ->
  let x := descs s d in
  inv None None (set_desc s d (Desc (owner x) (Policy (discardable p) (priority (pol x)))
                                (eviction_candidate x) (dirty x) (age x))) L W.
Proof.
  intros H Ec x. set (s' := set_desc s d _).
  assert (Hs : forall u, owner (descs s' u) = owner (descs s u) /\ key (descs s' u) = key (descs s u) /\
    tkey (descs s' u) = tkey (descs s u) /\ wkey (descs s' u) = wkey (descs s u)).
  { intros u. unfold s'. cbn. rewrite fn_at. destruct (decide (u = d)) as [->|]; [|done].
    unfold key, tkey, wkey, x. cbn. rewrite Ec. destruct (owner (descs s d)); done. }
  split; try apply H.
  - apply (tree_same s); [apply H|done..].
  - intros u a _ Hu. destruct (Hs u) as (E&_). rewrite E in Hu. now apply (i_owner _ _ _ _ _ H u).
  - intros u h. destruct (Hs u) as (_&->&_). apply H.
  - intros u a Ha. destruct (Hs u) as (_&_&->&_). now apply (i_tkey _ _ _ _ _ H).
  - intros u h. destruct (Hs u) as (_&_&_&->). apply H.
Qed.

(** ** The specification of [object_desc_claim] *)

(** What a claim leaves in a descriptor. *)
Definition after_claim (x : object_desc) (act : option Z) (p : policy) : object_desc :=
  match act with
  | None => x
  | Some a =>
      if bool_decide (owner x = Some a) && negb (eviction_candidate x) && (priority (pol x) =? priority p)
      then Desc (owner x) (Policy (discardable p) (priority (pol x))) (eviction_candidate x) (dirty x) (age x)
      else claimed_desc x a p
  end.

Lemma moved fuel s L W act d p :
  inv None None s L W -> fits None s L 1 -> roomy fuel L W ->
  match act with Some a => a ∈ As | None => owner (descs s d) <> None end ->
  exists s' L' W',
    (s1 ← match owner (descs s d) with
          | Some b =>
              s1 ← disconnect fuel s act d b true;
              lose_frame fuel s1 act d b true
          | None => Ret s
          end;
     match act with None => Ret s1 | Some a => assign fuel s1 a d p true end) = Ret s' /\
    inv (match act with Some _ => None | None => Some d end) None s' L' W' /\
    (forall u, descs s' u = match act with
       | Some a => if decide (u = d) then claimed_desc (descs s d) a p else descs s u
       | None => descs s u end) /\
    (forall h, len L' h <= len L h + 1) /\ fits None s' L' 0.
Proof.
  intros H Hfit Hroom Hact.
  assert (Hoff : exists s1 L1 W1, match owner (descs s d) with
          | Some b =>
              s1 ← disconnect fuel s act d b true;
              lose_frame fuel s1 act d b true
          | None => Ret s
          end = Ret s1 /\
    inv (Some d) (match owner (descs s d) with Some b => kept act b (descs s d) | None => None end) s1 L1 W1 /\
    descs s1 = descs s /\
    (forall a, a ∈ As -> cnt L1 s1 a
       + extra (match owner (descs s d) with Some b => kept act b (descs s d) | None => None end) a
       <= cnt L s a) /\
    (forall h, len L1 h <= len L h) /\ (forall h, len W1 h <= len W h)).
  { destruct (owner (descs s d)) as [b|] eqn:Eo.
    - assert (Hfit0 : fits None s L 0) by (eapply fits_le; eauto; lia).
      destruct (disconnect_ok fuel s L W act d b H Eo Hfit0 Hroom) as (s1&L1&W1&->&H1&Hd1&_&Hc&Hl&Hw).
      cbn [mbind exec_bind]. assert (Hb := owner_in s L W d b H Eo).
      destruct (lose_frame_ok fuel s1 act d b) as (s2&->&A); [apply H1|done| |].
      { destruct Hroom as (_&_&Hf). specialize (Hf b Hb). lia. }
      exists s2, L1, W1. split; [done|]. split; [now apply (alike_inv _ _ s1)|].
      split; [rewrite (al_descs _ _ A); done|]. split; [|done]. intros a Ha. specialize (Hc a Ha).
      assert (Hca := al_core _ _ A a). unfold core in Hca. unfold cnt in *. congruence.
    - exists s, L, W. split; [done|]. split; [now apply inv_fresh|]. split; [done|].
      split; [|done]. intros a _. rewrite extra_None. lia. }
  destruct Hoff as (s1&L1&W1&->&H1&Hd1&Hc1&Hl1&Hw1). cbn [mbind exec_bind].
  destruct act as [a|].
  - set (e := match owner (descs s d) with Some b => _ | None => None end) in *.
    destruct (assign_ok fuel s1 L1 W1 a d p e H1 Hact) as (s2&L2&->&H2&Hd2&Hl2&Hc2).
    + eapply fits_le; [exact Hfit| |lia]. intros b Hb. rewrite extra_None. specialize (Hc1 b Hb). lia.
    + destruct Hroom as (Hf1&Hf2&Hf3). unfold len in *. split; [|split; [|done]]; intros h.
      * specialize (Hf1 h). specialize (Hl1 h). lia.
      * specialize (Hf2 h). specialize (Hw1 h). lia.
    + intros b. rewrite Hd1. unfold e. destruct (owner (descs s d)) as [c|];
        [|rewrite bool_decide_eq_false_2, extra_None by done; cbn; lia].
      unfold kept. destruct (decide (Some a = Some c)) as [[= <-]|Hne].
      * rewrite bool_decide_eq_true_2 by done. unfold extra. cbn [negb orb].
        destruct (eviction_candidate _ && _); decs; try lia; congruence.
      * rewrite bool_decide_eq_false_2 by done. cbn [negb orb]. rewrite extra_None. lia.
    + exists s2, L2, W1. split; [done|]. split; [done|]. rewrite Hd1 in Hd2. split; [done|].
      split; [intros h; specialize (Hl2 h); specialize (Hl1 h); lia|].
      apply (fits_grow s s2 L L2 a 0 (t_nodup _ (i_tree _ _ _ _ _ H)) Hact Hfit). intros b Hb.
      rewrite Hc2. specialize (Hc1 b Hb). assert (Hx := extra_range e b). lia.
  - exists s1, L1, W1. split; [done|].
    assert (He : match owner (descs s d) with Some b => kept None b (descs s d) | None => None end = None).
    { now destruct (owner (descs s d)). }
    rewrite He in H1, Hc1. split; [done|]. split; [now rewrite Hd1|].
    split; [intros h; specialize (Hl1 h); lia|]. eapply fits_le; [exact Hfit| |lia].
    intros a Ha. specialize (Hc1 a Ha). rewrite extra_None. rewrite extra_None in Hc1. lia.
Qed.

(** The specification, for the clients of this file. *)
Lemma claim_ok fuel s L W act d p :
  inv None None s L W -> fits None s L 1 -> roomy fuel L W ->
  match act with Some a => a ∈ As | None => owner (descs s d) <> None end ->
  exists s' L' W', object_desc_claim fuel s act d p true = Ret s' /\
    inv (match act with Some _ => None | None => Some d end) None s' L' W' /\
    descs s' d = after_claim (descs s d) act p /\
    (forall u, u <> d -> descs s' u = descs s u).
Proof.
  intros H Hfit Hroom Hact. unfold object_desc_claim. cbv zeta.
  assert (Hfits : fits None s L 0) by (eapply fits_le; eauto; lia).
  assert (HfL : forall h, (length (L h) + 1 < fuel)%nat) by (now destruct Hroom).
  assert (HfL0 : forall h, (length (L h) < fuel)%nat) by (intros h; specialize (HfL h); lia).
  assert (Hin : forall a, act = Some a -> a ∈ As) by (now intros a ->).
  assert (Hown : forall a, owner (descs s d) = Some a -> a ∈ As).
  { intros a. now apply (i_owner _ _ _ _ _ H). }
  rewrite (proj2 (orb_true_iff _ _)); cbn [check mbind exec_bind].
  2: { rewrite !bool_decide_eq_true. destruct act; [now right|now left]. }
  rewrite (owner_ok fuel None s L W 0 (owner (descs s d))) by (done || lia). cbn [mbind exec_bind].
  rewrite (owner_ok fuel None s L W 0 act) by (done || lia). cbn [mbind exec_bind].
  destruct (bool_decide (owner (descs s d) = act) && _ && _) eqn:Esame.
  - apply andb_prop in Esame as [[Eo%bool_decide_eq_true Ec]%andb_prop Ep].
    apply negb_true_iff in Ec. cbn [mbind exec_bind].
    assert (H' := inv_discardable s L W d p H Ec). cbv zeta in H'.
    set (s' := set_desc s d _) in *.
    assert (Hown' : forall a, owner (descs s' d) = Some a -> a ∈ As).
    { unfold s'. cbn. rewrite fn_lookup_insert. exact Hown. }
    rewrite (owner_ok fuel None s' L W 0 (owner (descs s' d))) by (done || lia). cbn [mbind exec_bind].
    rewrite (owner_ok fuel None s' L W 0 act) by (done || lia). cbn [mbind exec_bind].
    exists s', L, W. split; [done|]. unfold s'. cbn. rewrite fn_lookup_insert.
    destruct act as [a|]; [|done]. split; [done|]. unfold after_claim.
    rewrite Ec, Ep, bool_decide_eq_true_2 by done. split; [done|].
    intros u Hu. now rewrite fn_lookup_insert_ne.
  - destruct (moved fuel s L W act d p H Hfit Hroom Hact) as (s'&L'&W'&->&H'&Hd&Hl&Hf').
    cbn [mbind exec_bind].
    assert (HfL' : forall h, (length (L' h) < fuel)%nat).
    { intros h. specialize (Hl h). specialize (HfL h). unfold len in Hl. lia. }
    assert (Hown' : forall a, owner (descs s' d) = Some a -> a ∈ As).
    { rewrite Hd. destruct act as [a|]; [|done]. rewrite decide_True by done. now intros b [= <-]. }
    rewrite (owner_ok fuel _ s' L' W' 0 (owner (descs s' d)) true H') by (done || lia).
    cbn [mbind exec_bind].
    rewrite (owner_ok fuel _ s' L' W' 0 act true H') by (done || lia). cbn [mbind exec_bind].
    exists s', L', W'. split; [done|]. split; [done|]. split.
    + rewrite Hd. unfold after_claim. destruct act as [a|]; [|done]. now rewrite Esame, decide_True.
    + intros u Hu. rewrite Hd. destruct act; [|done]. now rewrite decide_False.
Qed.


End accounting.

(** A root activity 1 and its child 2, which has object 100, of the given age. *)
Definition poor (up : option Z) (local total : Z) : activity :=
  Activity up ∅ 0 local total 0 0 0 0 0 0 0 0.

Definition fresh : object_desc := Desc None (Policy false OBJECT_PRIORITY_LRU) false false 0.

Definition owned (g : Z) (dirty : bool) : object_desc :=
  Desc (Some 2) (Policy false OBJECT_PRIORITY_LRU) false dirty g.
Definition owned_list (g : Z) : Z := hdr (if negb (g =? 0) then Active else Inactive) 2.

Definition aged (g : Z) (dirty : bool) : kstate :=
  Kstate (fun a => if a =? 1 then poor None 0 1 else poor (Some 1) 1 1)
    (<[100 := owned g dirty]> (fun _ => fresh))
    (match KList.list_push KList.cleared (owned_list g) 100 with Ret m => m | _ => KList.cleared end)
    KList.cleared 1.
Definition shared : kstate := aged 128 true.

Definition shared_chain (a : Z) : list Z := if a =? 1 then [1] else [a; 1].
Definition aged_lists (g : Z) : Z -> list Z := <[owned_list g := [100]]> (fun _ => []).
Definition shared_lists : Z -> list Z := aged_lists 128.

Lemma aged_inv g dirty : inv [1; 2] shared_chain None None (aged g dirty) (aged_lists g) (fun _ => []).
Proof.
  assert (Hdesc : forall d, descs (aged g dirty) d = if decide (d = 100) then owned g dirty else fresh).
  { intros d. cbn. now rewrite fn_at. }
  assert (Has : forall a, a ∈ [1; 2] -> a = 1 \/ a = 2) by set_solver.
  split.
  - split.
    + rewrite !NoDup_cons. repeat split; try set_solver. constructor.
    + now intros a [->| ->]%Has.
    + now intros a [->| ->]%Has.
    + intros a p [->| ->]%Has; cbn; intros [= <-]. set_solver.
    + intros a [->| ->]%Has; cbn; rewrite !NoDup_cons; repeat split; try set_solver; constructor.
  - destruct (KList.push_rep KList.cleared (fun _ => []) (owned_list g) 100 KList.cleared_rep)
      as (m&E&Hm); [set_solver|]. unfold aged. cbn [alists]. now rewrite E.
  - apply KList.cleared_rep.
  - intros d a _. rewrite Hdesc. case_decide; [intros [= <-]; set_solver|done].
  - intros d h. rewrite Hdesc. unfold aged_lists. rewrite elem_insert.
    case_decide; subst; [|set_solver]. unfold key, owned_list, object_active; cbn.
    destruct (g =? 0); cbn; set_solver.
  - intros d a [->| ->]%Has; rewrite Hdesc; cbn; split; try set_solver; case_decide; naive_solver.
  - intros d h. rewrite Hdesc. split; [set_solver|]. case_decide; naive_solver.
  - now intros a [->| ->]%Has.
  - intros a [->| ->]%Has; unfold cnt, len, aged_lists, owned_list; rewrite !fn_at;
      destruct (g =? 0); reflexivity.
  - intros a [->| ->]%Has; unfold tot, cnt, len, aged_lists, owned_list; cbn; rewrite !fn_at;
      destruct (g =? 0); reflexivity.
  - intros a [->| ->]%Has; unfold tot, len, aged_lists, owned_list; cbn; rewrite !fn_at;
      destruct (g =? 0); reflexivity.
Qed.

Lemma shared_inv : inv [1; 2] shared_chain None None shared shared_lists (fun _ => []).
Proof. apply aged_inv. Qed.


End Claim.
