(* ===== verification/Inherit.v ===== *)
(** * Inheritance: what becomes of a dead activity's frames (viengoos/activity.c)

    When an activity is destroyed its parent inherits its objects: they go to
    the end of the parent's inactive list and to its tree, and the parent's counter
    is raised.  This is the block of [activity_destroy] after the victim's
    folios and children are gone (lines 138 to 257), on the kernel of [Claim].

    It is proved that the counters of the activities that remain are exact
    afterwards when the victim has no eviction candidates, and that one of the
    block's assertions fails when it has any. *)

From S2P Require Import Prelude Ring KList Claim.

Module Inherit.
Import Claim.

(** A loop [for (desc = head; desc; desc = next)] that asserts [ok] of each
    descriptor, given whether its [laundry_node] is attached, and changes it by
    [f]; with the number of descriptors. *)
Fixpoint adopt (fuel : nat) (ok : bool -> object_desc -> bool) (f : object_desc -> object_desc)
    (s : kstate) (x : option Z) (count : Z) : exec (kstate * Z) :=
  match fuel with
  | O => Crash out_of_fuel
  | S fuel =>
      match x with
      | None => Ret (s, count)
      | Some d =>
          _ ← check (ok (KList.list_node_attached (klists s) d) (descs s d)) assertion_failed;
          let s := set_desc s d (f (descs s d)) in
          adopt fuel ok f s (KList.list_next (alists s) d) (count + 1)
      end
  end.

(** [desc->activity = p], with the age reset or not. *)
Definition give (p : Z) (x : object_desc) : object_desc :=
  Desc (Some p) (pol x) (eviction_candidate x) (dirty x) (age x).
Definition give_aged (p : Z) (x : object_desc) : object_desc :=
  Desc (Some p) (pol x) (eviction_candidate x) (dirty x) 0.

(** The assertions of the five loops. *)
Definition active_ok (v : Z) (attached : bool) (x : object_desc) : bool :=
  negb (eviction_candidate x) && bool_decide (owner x = Some v) && negb attached && negb (age x =? 0).
Definition priority_ok (v : Z) (x : object_desc) : bool :=
  negb (eviction_candidate x) && bool_decide (owner x = Some v)
  && negb (priority (pol x) =? OBJECT_PRIORITY_LRU).
Definition inactive_ok (v : Z) (attached : bool) (x : object_desc) : bool :=
  negb (eviction_candidate x) && bool_decide (owner x = Some v) && negb attached && (age x =? 0).
Definition clean_ok (v : Z) (attached : bool) (x : object_desc) : bool :=
  eviction_candidate x && bool_decide (owner x = Some v) && negb attached && negb (to_write x).
Definition dirty_ok (v : Z) (attached : bool) (x : object_desc) : bool :=
  eviction_candidate x && bool_decide (owner x = Some v) && attached && to_write x.

(** The loop over the tree: every node is inserted into the parent's tree. *)
Fixpoint adopt_tree (v p : Z) (s : kstate) (l : list Z) (count : Z) : exec (kstate * Z) :=
  match l with
  | [] => Ret (s, count)
  | d :: l =>
      _ ← check (priority_ok v (descs s d)) assertion_failed;
      let s := set_desc s d (give_aged p (descs s d)) in
      let s := upd_act s p (fun y => on_priorities (priorities y ∪ {[d]}) 1 y) in
      adopt_tree v p s l (count + 1)
  end.

(** A loop over list [k] of [v], and the list joined to list [k'] of [p]. *)
Definition adopt_list (fuel : nat) (ok : bool -> object_desc -> bool) (f : object_desc -> object_desc)
    (s : kstate) (k : alist) (v : Z) (k' : alist) (p count : Z) : exec (kstate * Z) :=
  '(s, count) ← adopt fuel ok f s (KList.list_head (alists s) (hdr k v)) count;
  al ← KList.list_join (alists s) (hdr k' p) (hdr k v);
  Ret (set_alists s al, count).

(** [victim->frames_local = victim->frames_total = 0] *)
Definition no_frames (x : activity) : activity :=
  Activity (parent x) (priorities x) (priorities_count x) 0 0
    (frames_pending_eviction x) (free_bad_karma x) (free_goal x) (free_allocations x)
    (free_initial_allocation x) (frames_excluded x) (claimed x) (disowned x).

(** [hurd_btree_priorities_tree_init] of the victim's tree *)
Definition clear_tree (x : activity) : activity :=
  Activity (parent x) ∅ (priorities_count x) (frames_local x) (frames_total x)
    (frames_pending_eviction x) (free_bad_karma x) (free_goal x) (free_allocations x)
    (free_initial_allocation x) (frames_excluded x) (claimed x) (disowned x).

(** The objects that are not eviction candidates; [p] is [victim->parent]. *)
Definition inherit_resident (fuel : nat) (s : kstate) (v p : Z) : exec (kstate * Z) :=
  '(s, count) ← adopt_list fuel (active_ok v) (give_aged p) s Active v Inactive p 0;
  '(s, count) ← adopt_tree v p s (elements (priorities (acts s v))) count;
  adopt_list fuel (inactive_ok v) (give p) (upd_act s v clear_tree) Inactive v Inactive p count.

Definition inherit (fuel : nat) (s : kstate) (v p : Z) : exec kstate :=
  '(s, count) ← inherit_resident fuel s v p;
  '(s, _) ← adopt_list fuel (clean_ok v) (give p) s EvictionClean v EvictionClean p 0;
  '(s, _) ← adopt_list fuel (dirty_ok v) (give p) s EvictionDirty v EvictionDirty p 0;
  _ ← check (u32 count =? frames_local (acts s v)) assertion_failed;
  _ ← check (u32 count =? frames_total (acts s v)) assertion_failed;
  Ret (upd_act (upd_act s v no_frames) p (add_local count)).

(** ** The loops *)

(** Descriptors [l] changed by [f]. *)
Definition changed (f : object_desc -> object_desc) (s : kstate) (l : list Z) (s' : kstate) : Prop :=
  acts s' = acts s /\ alists s' = alists s /\ klists s' = klists s /\
  root_activity s' = root_activity s /\
  forall u, descs s' u = if decide (u ∈ l) then f (descs s u) else descs s u.

Lemma adopt_spec fuel ok f s L h l1 l2 n :
  KList.rep (alists s) L -> L h = l1 ++ l2 -> (length l2 < fuel)%nat ->
  Forall (fun d => ok (KList.list_node_attached (klists s) d) (descs s d) = true) l2 ->
  exists s', adopt fuel ok f s (hd_or l2 None) n = Ret (s', n + Z.of_nat (length l2)) /\
    changed f s l2 s'.
Proof.
  revert fuel s l1 n. induction l2 as [|d l2 IH]; intros fuel s l1 n H E Hf Hok.
  - destruct fuel; [cbn in Hf; lia|]. exists s. cbn. split; [now rewrite Z.add_0_r|].
    do 4 (split; [done|]). intros u. now rewrite decide_False by (apply not_elem_of_nil).
  - destruct fuel; [lia|]. apply Forall_cons in Hok as [Hd Hok]. cbn. rewrite Hd. cbn.
    assert (Hnd := sep_nodup _ (KList.rep_sep _ _ H) h). rewrite E in Hnd.
    destruct (KList.next_rep _ L h d (Pos (hd_or l2 None) (last_or l1 None)) H) as [-> _].
    { rewrite E. apply ring_mid. intros Hx. apply NoDup_app in Hnd as (_&Hx'&_).
      apply (Hx' _ Hx). left. }
    apply NoDup_app in Hnd as (_&_&[Hn _]%NoDup_cons).
    destruct (IH fuel (set_desc s d (f (descs s d))) (l1 ++ [d]) (n + 1) H)
      as (s'&E'&Hc1&Hc2&Hc3&Hc4&Hc5); [now rewrite E, <- app_assoc|cbn in Hf; lia| |].
    + rewrite Forall_forall in Hok |- *. intros x Hx. cbn.
      rewrite fn_lookup_insert_ne by (intros ->; done). now apply Hok.
    + cbn [p_next]. exists s'. split; [rewrite E'; do 2 f_equal; lia|].
      do 4 (split; [done|]). intros u. rewrite Hc5. cbn. rewrite fn_at.
      destruct (decide (u = d)) as [->|Hne].
      * rewrite decide_False, (decide_True (P := d ∈ d :: l2)) by (done || left). done.
      * destruct (decide (u ∈ l2)); [rewrite decide_True by (now right)|
          rewrite decide_False by (now intros [|]%elem_of_cons)]; done.
Qed.

(** A descriptor of which the assertions do not hold stops the loop. *)
Lemma adopt_crash fuel ok f s L h l1 l2 n d :
  KList.rep (alists s) L -> L h = l1 ++ l2 -> (length l2 < fuel)%nat ->
  d ∈ l2 -> ok (KList.list_node_attached (klists s) d) (descs s d) = false ->
  adopt fuel ok f s (hd_or l2 None) n = Crash assertion_failed.
Proof.
  revert fuel s l1 n. induction l2 as [|x l2 IH]; intros fuel s l1 n H E Hf Hd Hok; [set_solver|].
  destruct fuel; [lia|]. cbn. destruct (ok _ (descs s x)) eqn:Ex; [|done].
  assert (Hne : d <> x) by congruence. apply elem_of_cons in Hd as [->|Hd]; [done|]. cbn.
  assert (Hnd := sep_nodup _ (KList.rep_sep _ _ H) h). rewrite E in Hnd.
  destruct (KList.next_rep _ L h x (Pos (hd_or l2 None) (last_or l1 None)) H) as [-> _].
  { rewrite E. apply ring_mid. intros Hx. apply NoDup_app in Hnd as (_&Hx'&_). apply (Hx' _ Hx). left. }
  apply (IH fuel (set_desc s x (f (descs s x))) (l1 ++ [x]) (n + 1) H);
    [now rewrite E, <- app_assoc|cbn in Hf; lia|done|].
  cbn. now rewrite fn_lookup_insert_ne.
Qed.

Lemma adopt_list_spec fuel ok f s L k v k' p n :
  KList.rep (alists s) L -> p <> v -> (length (L (hdr k v)) < fuel)%nat ->
  Forall (fun d => ok (KList.list_node_attached (klists s) d) (descs s d) = true) (L (hdr k v)) ->
  exists s', adopt_list fuel ok f s k v k' p n = Ret (s', n + len L (hdr k v)) /\
    acts s' = acts s /\ klists s' = klists s /\ root_activity s' = root_activity s /\
    KList.rep (alists s') (<[hdr k v := []]> (<[hdr k' p := L (hdr k' p) ++ L (hdr k v)]> L)) /\
    forall u, descs s' u = if decide (u ∈ L (hdr k v)) then f (descs s u) else descs s u.
Proof.
  intros H Hp Hf Hok. unfold adopt_list, KList.list_head. rewrite (KList.head_rep _ L) by done.
  destruct (adopt_spec fuel ok f s L (hdr k v) [] (L (hdr k v)) n H) as (s1&->&Ha&Hl&Hk&Hr&Hd); [done..|].
  cbn [mbind exec_bind]. rewrite Hl.
  destruct (KList.join_rep (alists s) L (hdr k' p) (hdr k v) H) as (al&->&Hal).
  { now intros [_ ?]%hdr_inj. }
  cbn [mbind exec_bind]. eexists. split; [reflexivity|]. auto.
Qed.

Lemma adopt_tree_spec v p s l n :
  NoDup l -> Forall (fun d => priority_ok v (descs s d) = true) l ->
  exists s', adopt_tree v p s l n = Ret (s', n + Z.of_nat (length l)) /\
    alists s' = alists s /\ klists s' = klists s /\ root_activity s' = root_activity s /\
    (forall a, acts s' a = if decide (a = p)
      then on_priorities (priorities (acts s p) ∪ list_to_set l) (Z.of_nat (length l)) (acts s p)
      else acts s a) /\
    forall u, descs s' u = if decide (u ∈ l) then give_aged p (descs s u) else descs s u.
Proof.
  revert s n. induction l as [|d l IH]; intros s n Hnd Hok.
  - exists s. cbn. split; [now rewrite Z.add_0_r|]. do 3 (split; [done|]). split.
    + intros a. destruct (decide (a = p)) as [->|]; [|done]. rewrite union_empty_r_L.
      unfold on_priorities. rewrite Z.add_0_r. now destruct (acts s p).
    + intros u. now rewrite decide_False by (apply not_elem_of_nil).
  - apply NoDup_cons in Hnd as [Hn Hnd]. apply Forall_cons in Hok as [Hd Hok]. cbn. rewrite Hd. cbn.
    set (s1 := upd_act (set_desc s d (give_aged p (descs s d))) p _).
    destruct (IH s1 (n + 1) Hnd) as (s'&->&Hl&Hk&Hr&Ha&Hds).
    + rewrite Forall_forall in Hok |- *. intros x Hx. unfold s1. cbn.
      rewrite fn_lookup_insert_ne by (intros ->; done). now apply Hok.
    + exists s'. split; [do 2 f_equal; lia|]. do 3 (split; [done|]). split.
      * intros a. rewrite Ha. unfold s1. cbn. rewrite !fn_at, (decide_True (P := p = p)) by done.
        destruct (decide (a = p)) as [->|]; [|done]. unfold on_priorities. cbn. f_equal; [|lia].
        set_solver.
      * intros u. rewrite Hds. unfold s1. cbn. rewrite fn_at.
        destruct (decide (u = d)) as [->|].
        -- rewrite decide_False, (decide_True (P := d ∈ d :: l)) by (done || left). done.
        -- destruct (decide (u ∈ l)); [rewrite decide_True by (now right)|
             rewrite decide_False by (now intros [|]%elem_of_cons)]; done.
Qed.

(** ** The activities without the victim *)

Definition without (As : list Z) (v : Z) : list Z := filter (fun a => a <> v) As.

Lemma elem_without As v a : a ∈ without As v <-> a ∈ As /\ a <> v.
Proof. unfold without. rewrite list_elem_of_filter. naive_solver. Qed.

Section victim.
Context (As : list Z) (ch : Z -> list Z) (s : kstate) (v p : Z).
Context (T : tree As ch s) (Hv : v ∈ As) (Hpar : parent (acts s v) = Some p).
Context (Hleaf : forall a, a ∈ As -> parent (acts s a) <> Some v).

Lemma parent_in : p ∈ without As v.
Proof.
  apply elem_without. split; [now apply (t_parent _ _ _ T v)|].
  intros ->. now apply (Hleaf v Hv).
Qed.

(** Only the victim has the victim in its chain. *)
Lemma leaf_chain a : a ∈ As -> v ∈ ch a -> a = v.
Proof.
  intros Ha Hin. remember (length (ch a)) as n eqn:En. revert a Ha Hin En.
  induction n as [|n IH]; intros a Ha Hin En; rewrite (t_chain _ _ _ T a Ha) in En, Hin.
  - done.
  - apply elem_of_cons in Hin as [->|Hin]; [done|].
    destruct (parent (acts s a)) as [q|] eqn:Eq; [|set_solver].
    assert (q = v) as ->; [|now apply Hleaf in Eq].
    apply IH; [now apply (t_parent _ _ _ T a)|done|cbn in En; congruence].
Qed.

Lemma zsum_without (g : Z -> Z) : NoDup As ->
  zsum (map g As) = zsum (map g (without As v)) + g v.
Proof.
  intros Hnd. assert (Hin := Hv). apply list_elem_of_split in Hin as (l1&l2&E).
  unfold without. rewrite E in Hnd |- *. rewrite <- Permutation_middle in Hnd.
  apply NoDup_cons in Hnd as [Hn _]. rewrite filter_app, filter_cons_False by naive_solver.
  assert (Hid : forall l : list Z, v ∉ l -> filter (fun a => a <> v) l = l).
  { induction l as [|x l IH]; [done|]. intros Hl. rewrite filter_cons_True by set_solver.
    f_equal. apply IH. set_solver. }
  rewrite !Hid by set_solver. rewrite !map_app, !zsum_app. cbn [map]. rewrite zsum_cons. lia.
Qed.

(** The sum over the descendants does not change when the parent takes over
    what the victim had. *)
Lemma tot_without g g' a : a ∈ without As v ->
  (forall b, b ∈ without As v -> g' b = g b + if decide (b = p) then g v else 0) ->
  tot (without As v) ch g' a = tot As ch g a.
Proof.
  intros Ha Hg. assert (Hp := parent_in). apply elem_without in Ha as [Ha Hav].
  assert (Hnd' : NoDup (without As v)) by (apply NoDup_filter; apply T).
  unfold tot. rewrite (zsum_without (fun b => if decide (a ∈ ch b) then g b else 0)) by apply T.
  assert (Hc := tot_change (without As v) ch g g' p (g v) a Hnd' Hp Hg). unfold tot in Hc.
  rewrite Hc. cbn beta. do 2 f_equal.
  assert (Hcv := t_chain _ _ _ T v Hv). rewrite Hpar in Hcv.
  destruct (decide (a ∈ ch p)) as [Hap|Hap].
  - rewrite decide_True; [done|]. rewrite Hcv. now right.
  - rewrite decide_False; [done|]. rewrite Hcv. now intros [|]%elem_of_cons.
Qed.

Lemma tree_without s' :
  (forall a, parent (acts s' a) = parent (acts s a)) -> root_activity s' = root_activity s ->
  tree (without As v) ch s'.
Proof.
  intros Hp Hr. split.
  - apply NoDup_filter. apply T.
  - intros a [Ha _]%elem_without. rewrite Hp. now apply T.
  - intros a [Ha _]%elem_without. rewrite Hp, Hr. now apply (t_root _ _ _ T).
  - intros a q [Ha Hne]%elem_without. rewrite Hp. intros Eq. apply elem_without.
    split; [now apply (t_parent _ _ _ T a)|]. intros ->. now apply (Hleaf a Ha).
  - intros a [Ha _]%elem_without. now apply T.
Qed.

End victim.

Lemma hdr_surj h : exists k a, h = hdr k a.
Proof.
  assert (Hm := Z.mod_pos_bound h 4 ltac:(lia)). assert (Hd := Z.div_mod h 4 ltac:(lia)).
  assert (h mod 4 = 0 \/ h mod 4 = 1 \/ h mod 4 = 2 \/ h mod 4 = 3) as [E|[E|[E|E]]] by lia;
    [exists Active|exists Inactive|exists EvictionClean|exists EvictionDirty];
    exists (h / 4); unfold hdr; lia.
Qed.

(** ** Where the victim's objects are *)

Section inherit.
Context (As : list Z) (ch : Z -> list Z) (fuel : nat) (s : kstate) (L W : Z -> list Z) (v p : Z).
Context (H : inv As ch None None s L W) (Hfit : fits As None s L 0).
Context (Hfuel : forall k, (length (L (hdr k v)) < fuel)%nat).
Context (Hv : v ∈ As) (Hpar : parent (acts s v) = Some p).
Context (Hleaf : forall a, a ∈ As -> parent (acts s a) <> Some v).

Lemma p_not_v : p <> v.
Proof. assert (Hp := parent_in As ch s v p (i_tree _ _ _ _ _ _ _ H) Hv Hpar Hleaf). now apply elem_without in Hp. Qed.

Lemma on_list u k a : u ∈ L (hdr k a) ->
  owner (descs s u) = Some a /\
  match k with
  | Active => eviction_candidate (descs s u) = false /\ object_active (descs s u) = true
  | Inactive => eviction_candidate (descs s u) = false /\ object_active (descs s u) = false
  | EvictionClean => eviction_candidate (descs s u) = true /\ to_write (descs s u) = false
  | EvictionDirty => eviction_candidate (descs s u) = true /\ to_write (descs s u) = true
  end.
Proof. apply (listed _ _ _ _ _ _ _ _ _ _ H). Qed.

Lemma in_tree u : u ∈ priorities (acts s v) ->
  owner (descs s u) = Some v /\ eviction_candidate (descs s u) = false /\
  (priority (pol (descs s u)) =? OBJECT_PRIORITY_LRU) = false.
Proof. apply (treed _ _ _ _ _ _ _ _ _ H Hv). Qed.

(** Conversely. *)
Lemma resident_place u : owner (descs s u) = Some v -> eviction_candidate (descs s u) = false ->
  u ∈ L (hdr Active v) \/ u ∈ priorities (acts s v) \/ u ∈ L (hdr Inactive v).
Proof.
  intros Eo Ec.
  destruct (priority (pol (descs s u)) =? OBJECT_PRIORITY_LRU) eqn:Ep.
  - destruct (object_active (descs s u)) eqn:Ea; [left|right; right]; apply (i_key _ _ _ _ _ _ _ H);
      (split; [done|]); unfold key; now rewrite Eo, Ec, Ep, Ea.
  - right; left. apply (i_tkey _ _ _ _ _ _ _ H u v Hv). split; [done|]. unfold tkey. now rewrite Eo, Ec, Ep.
Qed.

Lemma attached_iff u : KList.list_node_attached (klists s) u = bool_decide (wkey (descs s u) <> None).
Proof.
  destruct (wkey (descs s u)) as [h|] eqn:E.
  - rewrite bool_decide_eq_true_2 by done. apply (KList.attached_rep _ W h); [apply H|].
    now apply (i_wkey _ _ _ _ _ _ _ H).
  - rewrite bool_decide_eq_false_2 by (intros Hn; now apply Hn).
    apply (KList.detached_rep _ W); [apply H|]. intros h [_ Hu]%(i_wkey _ _ _ _ _ _ _ H). congruence.
Qed.

(** The kernel's node of an object is attached exactly when it is a candidate. *)
Lemma attached_owned u a : owner (descs s u) = Some a ->
  KList.list_node_attached (klists s) u = eviction_candidate (descs s u).
Proof.
  intros Eo. rewrite attached_iff. unfold wkey. rewrite Eo.
  now destruct (eviction_candidate (descs s u)).
Qed.

(** After the first three loops. *)
Record resident_moved (s3 : kstate) (L3 : Z -> list Z) : Prop := ResidentMoved {
  rm_rep : KList.rep (alists s3) L3;
  rm_klists : klists s3 = klists s;
  rm_root : root_activity s3 = root_activity s;
  rm_acts : forall a, acts s3 a =
    if decide (a = p) then on_priorities (priorities (acts s p) ∪ priorities (acts s v))
                             (Z.of_nat (size (priorities (acts s v)))) (acts s p)
    else if decide (a = v) then clear_tree (acts s v) else acts s a;
  rm_lists : forall k a, L3 (hdr k a) =
    if decide (a = v) then match k with Active | Inactive => [] | _ => L (hdr k v) end
    else if decide (a = p) then
      match k with Inactive => (L (hdr Inactive p) ++ L (hdr Active v)) ++ L (hdr Inactive v)
                 | _ => L (hdr k p) end
    else L (hdr k a);
  rm_descs : forall u, descs s3 u =
    if decide (owner (descs s u) = Some v /\ eviction_candidate (descs s u) = false)
    then give_aged p (descs s u) else descs s u
}.

Definition moved_count : Z :=
  len L (hdr Active v) + Z.of_nat (size (priorities (acts s v))) + len L (hdr Inactive v).

Lemma resident_ok : exists s3 L3,
  inherit_resident fuel s v p = Ret (s3, moved_count) /\ resident_moved s3 L3.
Proof.
  assert (Hpv := p_not_v). unfold inherit_resident.
  destruct (adopt_list_spec fuel (active_ok v) (give_aged p) s L Active v Inactive p 0
    (i_lists _ _ _ _ _ _ _ H) Hpv (Hfuel Active)) as (s1&->&Ha1&Hk1&Hr1&HL1&Hd1).
  { apply Forall_forall. intros u (Eo&Ec&Ea)%on_list. unfold active_ok.
    rewrite (attached_owned u v Eo), Ec, Eo, bool_decide_eq_true_2 by done.
    unfold object_active in Ea. now rewrite Ea. }
  cbn [mbind exec_bind]. rewrite Ha1.
  assert (Hds1 : forall u, u ∉ L (hdr Active v) -> descs s1 u = descs s u).
  { intros u Hu. now rewrite Hd1, decide_False. }
  assert (Htree : forall u, u ∈ priorities (acts s v) -> u ∉ L (hdr Active v)).
  { intros u Hu [_ Hu']%(i_key _ _ _ _ _ _ _ H). apply in_tree in Hu as (Eo&Ec&Ep).
    unfold key in Hu'. now rewrite Eo, Ec, Ep in Hu'. }
  destruct (adopt_tree_spec v p s1 (elements (priorities (acts s v))) (0 + len L (hdr Active v)))
    as (s2&->&Hl2&Hk2&Hr2&Ha2&Hd2); [apply NoDup_elements| |].
  { apply Forall_forall. intros u Hu%elem_of_elements. rewrite Hds1 by auto.
    apply in_tree in Hu as (Eo&Ec&Ep). unfold priority_ok.
    now rewrite Ec, Eo, Ep, bool_decide_eq_true_2. }
  cbn [mbind exec_bind].
  set (L1 := <[hdr Active v := []]> _) in HL1. set (s2' := upd_act s2 v clear_tree).
  assert (EI : L1 (hdr Inactive v) = L (hdr Inactive v)).
  { unfold L1. rewrite !fn_at, !decide_False by (intros [? ?]%hdr_inj; congruence). done. }
  assert (Hin : forall u, u ∈ L (hdr Inactive v) -> descs s2' u = descs s u).
  { intros u Hu. unfold s2'. cbn. assert (Hu' := Hu). apply on_list in Hu as (Eo&Ec&Ea). rewrite Hd2.
    assert (Hna : u ∉ L (hdr Active v)) by (intros (_&_&Ea')%on_list; congruence).
    rewrite decide_False; [now apply Hds1|]. intros Hu%elem_of_elements.
    apply in_tree in Hu as (_&_&Ep). apply (i_key _ _ _ _ _ _ _ H) in Hu' as [_ Hu'].
    unfold key in Hu'. now rewrite Eo, Ec, Ep in Hu'. }
  destruct (adopt_list_spec fuel (inactive_ok v) (give p) s2' L1 Inactive v Inactive p
    (0 + len L (hdr Active v) + Z.of_nat (length (elements (priorities (acts s v))))))
    as (s3&->&Ha3&Hk3&Hr3&HL3&Hd3).
  { unfold s2'. cbn. now rewrite Hl2. }
  { done. }
  { now rewrite EI. }
  { rewrite EI. apply Forall_forall. intros u Hu. rewrite Hin by done.
    apply on_list in Hu as (Eo&Ec&Ea). unfold s2', inactive_ok. cbn. rewrite Hk2, Hk1.
    rewrite (attached_owned u v Eo), Ec, Eo, bool_decide_eq_true_2 by done.
    unfold object_active in Ea. now rewrite <- (negb_involutive (age _ =? 0)), Ea. }
  rewrite EI in Hd3. exists s3. eexists. split.
  { do 2 f_equal. unfold moved_count. unfold len at 2. rewrite EI.
    unfold size, set_size. cbn. unfold len. lia. }
  split; [exact HL3| | | | |].
  - rewrite Hk3. unfold s2'. cbn. congruence.
  - rewrite Hr3. unfold s2'. cbn. congruence.
  - intros a. rewrite Ha3. unfold s2', upd_act. cbn. rewrite fn_at, !Ha2, Ha1.
    rewrite list_to_set_elements_L, (decide_False (P := v = p)) by congruence.
    destruct (decide (a = v)) as [->|]; [now rewrite decide_False|done].
  - intros k a. rewrite EI. unfold L1. rewrite !fn_at.
    destruct (decide (a = v)) as [->|Hav]; [|destruct (decide (a = p)) as [->|Hap]];
      destruct k; repeat match goal with
      | |- context [@decide (hdr ?k ?a = hdr ?k' ?a') _] =>
          first [rewrite (decide_True (P := hdr k a = hdr k' a')) by done
                |rewrite (decide_False (P := hdr k a = hdr k' a')) by (intros [? ?]%hdr_inj; congruence)]
      end; done.
  - intros u. rewrite Hd3. unfold s2'. cbn. rewrite Hd2, Hd1.
    destruct (decide (owner (descs s u) = Some v /\ eviction_candidate (descs s u) = false)) as [[Eo Ec]|Hn].
    + destruct (resident_place u Eo Ec) as [Hu|[Hu|Hu]].
      * rewrite (decide_False (P := u ∈ L (hdr Inactive v))).
        -- rewrite (decide_True (P := u ∈ L (hdr Active v))) by done. now case_decide.
        -- apply on_list in Hu as (_&_&Ea). intros (_&_&Ea')%on_list. congruence.
      * assert (Hu' := Hu). rewrite <- elem_of_elements in Hu'.
        rewrite (decide_True (P := u ∈ elements _)) by done.
        rewrite (decide_False (P := u ∈ L (hdr Active v))) by auto.
        case_decide; done.
      * assert (Ei := Hin u Hu). unfold s2' in Ei. cbn in Ei. rewrite Hd2, Hd1 in Ei. rewrite Ei.
        rewrite decide_True by done. apply on_list in Hu as (_&_&Ea). unfold give, give_aged.
        unfold object_active in Ea. apply negb_false_iff, Z.eqb_eq in Ea. now rewrite Ea.
    + assert (H1 : u ∉ L (hdr Active v)) by (intros (?&?&_)%on_list; now apply Hn).
      assert (H2 : u ∉ elements (priorities (acts s v))).
      { intros (?&?&_)%elem_of_elements%in_tree. now apply Hn. }
      assert (H3 : u ∉ L (hdr Inactive v)) by (intros (?&?&_)%on_list; now apply Hn).
      now rewrite !decide_False.
Qed.

(** An empty list changes nothing. *)
Lemma adopt_nothing ok f s3 L3 k n :
  KList.rep (alists s3) L3 -> L3 (hdr k v) = [] ->
  exists s4, adopt_list fuel ok f s3 k v k p n = Ret (s4, n) /\ acts s4 = acts s3 /\
    klists s4 = klists s3 /\ root_activity s4 = root_activity s3 /\
    KList.rep (alists s4) L3 /\ (forall u, descs s4 u = descs s3 u).
Proof.
  intros H3 E. assert (Hf := Hfuel k).
  destruct (adopt_list_spec fuel ok f s3 L3 k v k p n H3 p_not_v) as (s4&->&Ha&Hk&Hr&HL&Hd).
  { rewrite E. cbn. lia. }
  { now rewrite E. }
  exists s4. unfold len. rewrite E in *. cbn. rewrite Z.add_0_r. do 4 (split; [done|]). split.
  - apply (KList.rep_ext _ _ _ HL). intros h. rewrite !fn_at, app_nil_r. decs; congruence.
  - intros u. rewrite Hd. now rewrite decide_False by (apply not_elem_of_nil).
Qed.

(** The bounds of the count. *)
Lemma count_bound : 0 <= moved_count /\ moved_count + len L (hdr EvictionDirty v) = cnt L s v /\
  frames_local (acts s v) = cnt L s v /\ cnt L s v < 2 ^ 32.
Proof.
  assert (Hl := i_local _ _ _ _ _ _ _ H v Hv). rewrite extra_None in Hl.
  assert (Hb := inv_bounds As ch _ _ _ _ _ 0 v v H Hfit Hv (chain_self As ch s v (i_tree _ _ _ _ _ _ _ H) Hv)).
  unfold moved_count, cnt, len in *. lia.
Qed.

Lemma total_leaf : frames_total (acts s v) = cnt L s v.
Proof.
  rewrite (i_total _ _ _ _ _ _ _ H v Hv). unfold tot.
  rewrite (zsum_change (fun _ => 0) (fun b => if decide (v ∈ ch b) then cnt L s b + extra None b else 0) As v).
  - rewrite zsum_zero, decide_True; [rewrite extra_None; lia|].
    apply (chain_self As ch s v); [apply H|done].
  - apply (i_tree _ _ _ _ _ _ _ H).
  - done.
  - intros b Hb Hne. rewrite decide_False; [done|]. intros Hin.
    now apply Hne, (leaf_chain As ch s v p (i_tree _ _ _ _ _ _ _ H) Hv Hpar Hleaf b Hb).
Qed.

(** Where the descriptors are afterwards. *)
Section placed.
Context (Hnc : L (hdr EvictionClean v) = []) (Hnd : L (hdr EvictionDirty v) = []).

Lemma not_candidate u : owner (descs s u) = Some v -> eviction_candidate (descs s u) = false.
Proof.
  intros Eo. destruct (eviction_candidate (descs s u)) eqn:Ec; [|done]. exfalso.
  assert (Hu : u ∈ L (hdr (if to_write (descs s u) then EvictionDirty else EvictionClean) v)).
  { apply (i_key _ _ _ _ _ _ _ H). split; [done|]. unfold key. now rewrite Eo, Ec. }
  destruct (to_write _); [rewrite Hnd in Hu|rewrite Hnc in Hu]; now apply not_elem_of_nil in Hu.
Qed.

Definition heir (x : object_desc) : object_desc :=
  if decide (owner x = Some v) then give_aged p x else x.

Lemma heir_list s3 L3 u k a : resident_moved s3 L3 ->
  u ∈ L3 (hdr k a) <-> key (heir (descs s u)) = Some (hdr k a).
Proof.
  intros R. assert (Hpv := p_not_v). rewrite (rm_lists _ _ R). unfold heir.
  assert (Hlist : forall k a, u ∈ L (hdr k a) <-> key (descs s u) = Some (hdr k a)).
  { intros k' a'. rewrite (i_key _ _ _ _ _ _ _ H). naive_solver. }
  destruct (decide (owner (descs s u) = Some v)) as [Eo|Eo].
  - assert (Ec := not_candidate u Eo).
    assert (Hno : forall k' a', a' <> v -> u ∉ L (hdr k' a')) by (intros k' a' Ha' [? _]%on_list; congruence).
    assert (Ek : key (give_aged p (descs s u))
      = if priority (pol (descs s u)) =? OBJECT_PRIORITY_LRU then Some (hdr Inactive p) else None).
    { unfold key, give_aged. cbn. now rewrite Ec. }
    rewrite Ek. destruct (Z.eqb_spec (priority (pol (descs s u))) OBJECT_PRIORITY_LRU) as [Ep|Ep].
    + assert (Hin : u ∈ L (hdr Active v) \/ u ∈ L (hdr Inactive v)).
      { destruct (resident_place u Eo Ec) as [|[(_&_&?)%in_tree|]]; auto. lia. }
      destruct (decide (a = v)) as [->|]; [|destruct (decide (a = p)) as [->|]].
      * split; [destruct k; rewrite ?Hnc, ?Hnd; intros []%not_elem_of_nil|].
        intros [= [_ ?]%hdr_inj]. congruence.
      * split; [|intros [= [<- _]%hdr_inj]; rewrite !elem_of_app; tauto].
        destruct k; try (intros []%Hno; done). done.
      * split; [intros []%Hno; done|]. intros [= [_ ?]%hdr_inj]. congruence.
    + split; [|done]. assert (Hnn : forall k' a', u ∉ L (hdr k' a')).
      { intros k' a'. rewrite Hlist. unfold key. rewrite Eo, Ec. apply Z.eqb_neq in Ep. now rewrite Ep. }
      destruct (decide (a = v)) as [->|]; [|destruct (decide (a = p)) as [->|]].
      * destruct k; rewrite ?Hnc, ?Hnd; intros []%not_elem_of_nil.
      * destruct k; try (intros []%Hnn). rewrite !elem_of_app. intros [[Hu|Hu]|Hu]; destruct (Hnn _ _ Hu).
      * now intros ?%Hnn.
  - assert (Hno : forall k', u ∉ L (hdr k' v)) by (now intros k' [? _]%on_list).
    rewrite <- Hlist. destruct (decide (a = v)) as [->|]; [|destruct (decide (a = p)) as [->|]; [|done]].
    + split; [|now intros ?%Hno]. destruct k; rewrite ?Hnc, ?Hnd; intros []%not_elem_of_nil.
    + destruct k; try done. rewrite !elem_of_app. split; [|auto]. intros [[|?%Hno]|?%Hno]; done.
Qed.

Lemma heir_tree u a : a ∈ without As v ->
  (if decide (a = p) then u ∈ priorities (acts s p) \/ u ∈ priorities (acts s v)
   else u ∈ priorities (acts s a)) <-> tkey (heir (descs s u)) = Some a.
Proof.
  intros [Ha Hav]%elem_without. assert (Hpv := p_not_v).
  assert (Htree : forall a, a ∈ As -> u ∈ priorities (acts s a) <-> tkey (descs s u) = Some a).
  { intros a' Ha'. rewrite (i_tkey _ _ _ _ _ _ _ H u a' Ha'). naive_solver. }
  assert (Hp : p ∈ As).
  { assert (Hp := parent_in As ch s v p (i_tree _ _ _ _ _ _ _ H) Hv Hpar Hleaf). now apply elem_without in Hp. }
  unfold heir. destruct (decide (owner (descs s u) = Some v)) as [Eo|Eo].
  - assert (Ec := not_candidate u Eo).
    destruct (decide (a = p)) as [->|]; rewrite !Htree by done; unfold tkey; cbn; rewrite Eo, Ec; cbn;
      destruct (_ =? _); naive_solver.
  - assert (Hn : tkey (descs s u) <> Some v).
    { unfold tkey. destruct (owner (descs s u)) as [b|]; [|done]. destruct (_ || _); congruence. }
    destruct (decide (a = p)) as [->|]; rewrite !Htree by done; naive_solver.
Qed.

Lemma heir_kernel u h : u ∈ W h <-> wkey (heir (descs s u)) = Some h.
Proof.
  rewrite (i_wkey _ _ _ _ _ _ _ H). unfold heir.
  destruct (decide (owner (descs s u) = Some v)) as [Eo|Eo]; [|naive_solver].
  unfold wkey. cbn. rewrite Eo, (not_candidate u Eo). naive_solver.
Qed.

Lemma trees_disjoint : size (priorities (acts s p) ∪ priorities (acts s v))
  = (size (priorities (acts s p)) + size (priorities (acts s v)))%nat.
Proof.
  apply size_union. intros u [_ Hu]%(i_tkey _ _ _ _ _ _ _ H u p) [_ Hu']%(i_tkey _ _ _ _ _ _ _ H u v Hv).
  - assert (Hpv := p_not_v). congruence.
  - assert (Hp := parent_in As ch s v p (i_tree _ _ _ _ _ _ _ H) Hv Hpar Hleaf). now apply elem_without in Hp.
Qed.

(** The state in the end. *)
Lemma inherited s3 L3 s4 :
  resident_moved s3 L3 ->
  acts s4 = acts s3 -> klists s4 = klists s3 -> root_activity s4 = root_activity s3 ->
  KList.rep (alists s4) L3 -> (forall u, descs s4 u = descs s3 u) ->
  let s' := upd_act (upd_act s4 v no_frames) p (add_local moved_count) in
  inv (without As v) ch None None s' L3 W /\ (forall u, descs s' u = heir (descs s u)).
Proof.
  intros R Ea Ek Er HL Eds s'. assert (Hpv := p_not_v). assert (T := i_tree _ _ _ _ _ _ _ H).
  assert (Hp := parent_in As ch s v p T Hv Hpar Hleaf). assert (Hp' := Hp). apply elem_without in Hp' as [Hp' _].
  assert (Hacts : forall a, a <> v -> acts s' a = if decide (a = p)
    then add_local moved_count (on_priorities (priorities (acts s p) ∪ priorities (acts s v))
           (Z.of_nat (size (priorities (acts s v)))) (acts s p)) else acts s a).
  { intros a Hav. unfold s', upd_act. cbn. rewrite !fn_at, !Ea, !(rm_acts _ _ R).
    rewrite (decide_False (P := p = v)), (decide_False (P := a = v)), (decide_True (P := p = p)) by done.
    destruct (decide (a = p)); [done|]. now rewrite decide_False. }
  assert (Hds : forall u, descs s' u = heir (descs s u)).
  { intros u. unfold s', heir. cbn. rewrite Eds, (rm_descs _ _ R).
    destruct (decide (owner (descs s u) = Some v)) as [Eo|].
    - rewrite decide_True by (split; [done|now apply not_candidate]). done.
    - rewrite decide_False by (now intros []). done. }
  split; [|exact Hds].
  assert (Hcnt : forall b, b ∈ without As v ->
    cnt L3 s' b + extra None b = cnt L s b + extra None b + if decide (b = p) then cnt L s v + extra None v else 0).
  { intros b [Hb Hbv]%elem_without. rewrite !extra_None. unfold cnt, len. rewrite Hacts, !(rm_lists _ _ R) by done.
    rewrite !(decide_False (P := b = v)) by done. rewrite Hnd.
    destruct (decide (b = p)) as [->|]; [|lia]. cbn. rewrite !length_app, trees_disjoint. lia. }
  assert (Hdl : forall b, b ∈ without As v -> len L3 (hdr EvictionDirty b)
    = len L (hdr EvictionDirty b) + if decide (b = p) then len L (hdr EvictionDirty v) else 0).
  { intros b [Hb Hbv]%elem_without. unfold len. rewrite (rm_lists _ _ R), (decide_False (P := b = v)), Hnd by done.
    destruct (decide (b = p)) as [->|]; cbn; lia. }
  assert (Htot : forall a, a ∈ without As v ->
    tot (without As v) ch (fun b => cnt L3 s' b + extra None b) a = frames_total (acts s a)).
  { intros a Hina. rewrite (i_total _ _ _ _ _ _ _ H) by (now apply elem_without in Hina).
    now apply (tot_without As ch s v p T Hv Hpar Hleaf). }
  assert (Hpars : forall a, parent (acts s' a) = parent (acts s a)).
  { intros a. unfold s', upd_act. cbn. rewrite !fn_at, !Ea, !(rm_acts _ _ R). decs; subst; done. }
  destruct count_bound as (Hc0&Hc1&Hc2&Hc3). assert (Hd0 : len L (hdr EvictionDirty v) = 0).
  { unfold len. now rewrite Hnd. }
  split.
  - apply (tree_without As ch s v T Hleaf); [exact Hpars|]. cbn. rewrite Er. apply R.
  - exact HL.
  - cbn. rewrite Ek, (rm_klists _ _ R). apply H.
  - intros u a _. rewrite Hds. unfold heir. destruct (decide (owner (descs s u) = Some v)) as [Eo|Eo].
    + now intros [= <-].
    + intros Hu. apply elem_without. split; [now apply (i_owner _ _ _ _ _ _ _ H u)|congruence].
  - intros u h. destruct (hdr_surj h) as (k&a&->). rewrite Hds, (heir_list s3 L3 u k a R). naive_solver.
  - intros u a Hina. rewrite Hds, <- (heir_tree u a Hina), Hacts by (now apply elem_without in Hina).
    destruct (decide (a = p)) as [->|]; cbn; [rewrite elem_of_union|]; naive_solver.
  - intros u h. rewrite Hds, heir_kernel. naive_solver.
  - intros a Hina. assert (Hina' := Hina). apply elem_without in Hina' as [Ha Hav].
    assert (Hpc := i_pcount _ _ _ _ _ _ _ H a Ha). rewrite Hacts by done.
    destruct (decide (a = p)) as [->|]; cbn; [rewrite trees_disjoint|]; lia.
  - intros a Hina. rewrite Hcnt by done. apply elem_without in Hina as [Ha Hav].
    assert (Hl := i_local _ _ _ _ _ _ _ H a Ha). rewrite Hacts, !extra_None in * by done.
    destruct (decide (a = p)) as [->|]; cbn; [|lia].
    assert (Hnp := cnt_nonneg L s p).
    assert (Hle : cnt L s p + cnt L s v < 2 ^ 32); [|rewrite u32_small; lia].
    assert (Hge := tot_ge (without As v) ch (fun b => cnt L3 s' b + extra None b) p p).
    rewrite (Htot p Hp) in Hge. cbn beta in Hge. rewrite (Hcnt p Hp), !extra_None, decide_True in Hge by done.
    assert (Hq := inv_bounds As ch _ _ _ _ _ 0 p p H Hfit Hp' (chain_self As ch s p T Hp')).
    assert (cnt L s p + 0 + (cnt L s v + 0) <= frames_total (acts s p)); [|lia]. apply Hge; [|done|].
    + intros x _. rewrite extra_None. assert (Hnn := cnt_nonneg L3 s' x). lia.
    + apply (chain_self As ch s p T Hp').
  - intros a Hina. rewrite Htot by done. apply elem_without in Hina as [Ha Hav].
    rewrite Hacts by done. now destruct (decide (a = p)) as [->|].
  - intros a Hina. rewrite (tot_without As ch s v p T Hv Hpar Hleaf (fun b => len L (hdr EvictionDirty b))) by done.
    apply elem_without in Hina as [Ha Hav]. rewrite <- (i_pending _ _ _ _ _ _ _ H a Ha).
    rewrite Hacts by done. now destruct (decide (a = p)) as [->|].
Qed.

(** The objects of [v] go to [p], aged. *)
Lemma inherit_ok : exists s' L', inherit fuel s v p = Ret s' /\
  inv (without As v) ch None None s' L' W /\ (forall u, descs s' u = heir (descs s u)).
Proof.
  assert (Hpv := p_not_v). destruct resident_ok as (s3&L3&E3&R). unfold inherit. rewrite E3.
  cbn [mbind exec_bind].
  destruct (adopt_nothing (clean_ok v) (give p) s3 L3 EvictionClean 0 (rm_rep _ _ R))
    as (s4&->&Ha4&Hk4&Hr4&Hl4&Hd4).
  { now rewrite (rm_lists _ _ R), decide_True. }
  cbn [mbind exec_bind].
  destruct (adopt_nothing (dirty_ok v) (give p) s4 L3 EvictionDirty 0 Hl4)
    as (s5&->&Ha5&Hk5&Hr5&Hl5&Hd5).
  { now rewrite (rm_lists _ _ R), decide_True. }
  cbn [mbind exec_bind]. destruct count_bound as (Hc0&Hc1&Hc2&Hc3).
  unfold len in Hc1. rewrite Hnd in Hc1. cbn in Hc1.
  assert (Hav : acts s5 v = clear_tree (acts s v)).
  { now rewrite Ha5, Ha4, (rm_acts _ _ R), decide_False, decide_True. }
  rewrite Hav. cbn [frames_local frames_total clear_tree]. rewrite Hc2, total_leaf, u32_small by lia.
  rewrite (proj2 (Z.eqb_eq _ _)) by lia. cbn [check mbind exec_bind].
  eexists _, L3. split; [reflexivity|].
  apply (inherited s3 L3 s5 R); congruence.
Qed.

End placed.

(** A clean candidate stops the block. *)
Lemma clean_crash : L (hdr EvictionClean v) <> [] -> inherit fuel s v p = Crash assertion_failed.
Proof.
  intros Hne. destruct resident_ok as (s3&L3&E3&R). unfold inherit, adopt_list. rewrite E3.
  cbn [mbind exec_bind]. unfold KList.list_head. rewrite (KList.head_rep _ L3) by apply R.
  assert (El : L3 (hdr EvictionClean v) = L (hdr EvictionClean v)).
  { now rewrite (rm_lists _ _ R), decide_True. }
  destruct (L (hdr EvictionClean v)) as [|d l] eqn:E; [done|].
  assert (Hd : d ∈ L (hdr EvictionClean v)) by (rewrite E; left).
  rewrite (adopt_crash fuel _ _ s3 L3 (hdr EvictionClean v) [] (L3 (hdr EvictionClean v)) 0 d); try done.
  - apply R.
  - rewrite El, <- E. apply Hfuel.
  - rewrite El. left.
  - apply on_list in Hd as (Eo&Ec&Et). unfold clean_ok.
    rewrite (rm_klists _ _ R), (rm_descs _ _ R), (attached_owned d v Eo), Ec.
    rewrite decide_False by (intros [_ ?]; congruence). now rewrite Ec, andb_false_r.
Qed.

(** A dirty one is not in the count. *)
Lemma dirty_crash : L (hdr EvictionClean v) = [] -> L (hdr EvictionDirty v) <> [] ->
  inherit fuel s v p = Crash assertion_failed.
Proof.
  intros Hnc Hne. assert (Hpv := p_not_v). destruct resident_ok as (s3&L3&E3&R). unfold inherit. rewrite E3.
  cbn [mbind exec_bind].
  destruct (adopt_nothing (clean_ok v) (give p) s3 L3 EvictionClean 0 (rm_rep _ _ R))
    as (s4&->&Ha4&Hk4&Hr4&Hl4&Hd4).
  { now rewrite (rm_lists _ _ R), decide_True. }
  cbn [mbind exec_bind].
  assert (El : L3 (hdr EvictionDirty v) = L (hdr EvictionDirty v)).
  { now rewrite (rm_lists _ _ R), decide_True. }
  destruct (adopt_list_spec fuel (dirty_ok v) (give p) s4 L3 EvictionDirty v EvictionDirty p 0 Hl4 Hpv)
    as (s5&->&Ha5&_).
  { rewrite El. apply Hfuel. }
  { rewrite El. apply Forall_forall. intros u (Eo&Ec&Et)%on_list. unfold dirty_ok.
    rewrite Hk4, (rm_klists _ _ R), Hd4, (rm_descs _ _ R), (attached_owned u v Eo).
    rewrite decide_False by (intros [_ ?]; congruence).
    now rewrite Ec, Et, Eo, bool_decide_eq_true_2. }
  cbn [mbind exec_bind]. destruct count_bound as (Hc0&Hc1&Hc2&Hc3).
  assert (Hlen : 0 < len L (hdr EvictionDirty v)) by (unfold len; destruct (L (hdr EvictionDirty v)); [done|cbn; lia]).
  assert (Hav : acts s5 v = clear_tree (acts s v)).
  { now rewrite Ha5, Ha4, (rm_acts _ _ R), decide_False, decide_True. }
  rewrite Hav. cbn [frames_local clear_tree]. rewrite Hc2, u32_small by lia.
  assert (Hneq : moved_count <> cnt L s v) by lia. apply Z.eqb_neq in Hneq. now rewrite Hneq.
Qed.

End inherit.

(** C26: when a leaf of the tree of activities is destroyed and has no eviction
    candidates, every object it has goes to its parent, to the inactive list or
    the tree, and loses its age; no other descriptor changes, no assertion
    fails, and the counters of all remaining activities, with the parent's raised
    by the number of objects, are exact. *)
Theorem inherit_preserves As ch fuel s L W v p :
  inv As ch None None s L W -> fits As None s L 0 ->
  (forall k, length (L (hdr k v)) < fuel)%nat ->
  v ∈ As -> parent (acts s v) = Some p -> (forall a, a ∈ As -> parent (acts s a) <> Some v) ->
  L (hdr EvictionClean v) = [] -> L (hdr EvictionDirty v) = [] ->
  exists s' L', inherit fuel s v p = Ret s' /\
    inv (without As v) ch None None s' L' W /\
    (forall u, descs s' u =
       if decide (owner (descs s u) = Some v) then give_aged p (descs s u) else descs s u).
Proof. intros H Hfit Hf Hv Hp Hl Hc Hd. apply (inherit_ok As ch fuel s L W v p H Hfit Hf Hv Hp Hl Hc Hd). Qed.

(** an activity that has an eviction candidate cannot be destroyed.  For a
    clean one the code asserts that its [laundry_node] is not attached, but this
    is the same memory as its [available_node], which is; a dirty one is not
    included in the count that the code then asserts to be [frames_local].
    Whichever it is, one of the kernel's assertions fails. *)
Theorem inherit_candidates_panic As ch fuel s L W v p :
  inv As ch None None s L W -> fits As None s L 0 ->
  (forall k, length (L (hdr k v)) < fuel)%nat ->
  v ∈ As -> parent (acts s v) = Some p -> (forall a, a ∈ As -> parent (acts s a) <> Some v) ->
  L (hdr EvictionClean v) <> [] \/ L (hdr EvictionDirty v) <> [] ->
  inherit fuel s v p = Crash assertion_failed.
Proof.
  intros H Hfit Hf Hv Hp Hl Hc.
  destruct (L (hdr EvictionClean v)) eqn:E.
  - apply (dirty_crash As ch fuel s L W v p); naive_solver.
  - apply (clean_crash As ch fuel s L W v p); try done. now rewrite E.
Qed.

Lemma inherit_preserves_witness : exists s' L', inherit 9 shared 2 1 = Ret s' /\
  inv (without [1; 2] 2) shared_chain None None s' L' (fun _ => []) /\
  (forall u, descs s' u =
     if decide (owner (descs shared u) = Some 2) then give_aged 1 (descs shared u) else descs shared u).
Proof.
  apply (inherit_preserves [1; 2] shared_chain 9 shared shared_lists (fun _ => []) 2 1 shared_inv).
  - vm_compute. reflexivity.
  - intros k. unfold shared_lists, aged_lists. rewrite fn_at. destruct (decide _); cbn; lia.
  - set_solver.
  - reflexivity.
  - intros a Ha. assert (a = 1 \/ a = 2) as [-> | ->] by set_solver; discriminate.
  - reflexivity.
  - reflexivity.
Defined.

(** The object of [shared], as a clean candidate. *)
Definition selected : kstate :=
  Kstate (fun a => if a =? 1 then poor None 0 0 else poor (Some 1) 0 0)
    (<[100 := Desc (Some 2) (Policy false OBJECT_PRIORITY_LRU) true false 0]> (fun _ => fresh))
    (match KList.list_push KList.cleared (hdr EvictionClean 2) 100 with Ret m => m | _ => KList.cleared end)
    (match KList.list_push KList.cleared available 100 with Ret m => m | _ => KList.cleared end) 1.

Definition selected_lists : Z -> list Z := <[hdr EvictionClean 2 := [100]]> (fun _ => []).
Definition selected_kernel : Z -> list Z := <[available := [100]]> (fun _ => []).

Lemma selected_inv : inv [1; 2] shared_chain None None selected selected_lists selected_kernel.
Proof.
  assert (Hdesc : forall d, descs selected d = if decide (d = 100)
    then Desc (Some 2) (Policy false OBJECT_PRIORITY_LRU) true false 0 else fresh).
  { intros d. cbn. now rewrite fn_at. }
  assert (Has : forall a, a ∈ [1; 2] -> a = 1 \/ a = 2) by set_solver.
  split.
  - apply (tree_same _ _ shared); [apply shared_inv| |done]. now intros a [->| ->]%Has.
  - destruct (KList.push_rep KList.cleared (fun _ => []) (hdr EvictionClean 2) 100 KList.cleared_rep)
      as (m&E&Hm); [set_solver|]. unfold selected. cbn [alists]. now rewrite E.
  - destruct (KList.push_rep KList.cleared (fun _ => []) available 100 KList.cleared_rep)
      as (m&E&Hm); [set_solver|]. unfold selected. cbn [klists]. now rewrite E.
  - intros d a _. rewrite Hdesc. case_decide; [intros [= <-]; set_solver|done].
  - intros d h. rewrite Hdesc. unfold selected_lists. rewrite elem_insert.
    case_decide; subst; [|set_solver]. unfold key, hdr; cbn; set_solver.
  - intros d a [->| ->]%Has; rewrite Hdesc; cbn; split; try set_solver; case_decide; naive_solver.
  - intros d h. rewrite Hdesc. unfold selected_kernel. rewrite elem_insert.
    case_decide; subst; [|set_solver]. unfold wkey, available; cbn; set_solver.
  - now intros a [->| ->]%Has.
  - now intros a [->| ->]%Has.
  - now intros a [->| ->]%Has.
  - now intros a [->| ->]%Has.
Qed.

Lemma inherit_candidates_panic_witness : inherit 9 selected 2 1 = Crash assertion_failed.
Proof.
  apply (inherit_candidates_panic [1; 2] shared_chain 9 selected selected_lists selected_kernel 2 1 selected_inv).
  - vm_compute. reflexivity.
  - intros k. unfold selected_lists. rewrite fn_at. destruct (decide _); cbn; lia.
  - set_solver.
  - reflexivity.
  - intros a Ha. assert (a = 1 \/ a = 2) as [-> | ->] by set_solver; discriminate.
  - left. discriminate.
Defined.

End Inherit.
