(* ===== verification/Reclaim.v ===== *)
(** * Reclaiming frames from an activity (viengoos/pager.c)

    [reclaim_from] takes frames from a victim: it selects objects for eviction,
    those of low priority first, then the inactive ones, then the active ones and
    at last those of high priority, until it has as many as asked for.  A selected
    object that is dirty and not discardable goes to the laundry, any other to the
    list of the frames that are available.

    The kernel is that of [Claim].  What the hardware and the pages say is an
    argument: whether unmapping reports a write, whether an object is live,
    whether the status bits of an unmapped page are set and whether a page is all
    zeros.  The tree of the objects with a priority is enumerated by an argument
    as well, its nodes in the order of [hurd_btree_priorities_next].

    It is proved which objects are selected and that the counters of all
    activities stay exact; and that the code follows a null pointer for a clean
    inactive object when the victim has no object of high priority. *)

From S2P Require Import Prelude Ring KList Claim.

Module Reclaim.
Import Claim.

Section pages.
Context (live written status zeroed : Z -> bool).

(** [object_desc_flush (desc, false)]: its effect on [dirty]. *)
Definition object_desc_flush (s : kstate) (d : Z) : exec kstate :=
  _ ← check (live d) assertion_failed;
  let x := descs s d in
  Ret (set_desc s d (Desc (owner x) (pol x) (eviction_candidate x) (dirty x || written d) (age x))).

Definition is_clean (s : kstate) (d : Z) : exec unit :=
  _ ← check (negb (status d)) assertion_failed;
  if dirty (descs s d) then Ret tt else check (zeroed d) assertion_failed.

Definition set_candidate (s : kstate) (d : Z) : kstate :=
  let x := descs s d in set_desc s d (Desc (owner x) (pol x) true (dirty x) (age x)).

(** Queueing the candidate [d] of [v] on the lists, as the loops over the tree
    and over the active list do; with whether it is in the laundry. *)
Definition queue_candidate (s : kstate) (v d : Z) : exec (kstate * bool) :=
  if to_write (descs s d) then
    kl ← (if negb (KList.list_node_attached (klists s) d)
          then KList.list_queue (klists s) laundry d else Ret (klists s));
    al ← KList.list_queue (alists s) (hdr EvictionDirty v) d;
    Ret (set_alists (set_klists s kl) al, true)
  else
    _ ← check (negb (KList.list_node_attached (klists s) d)) assertion_failed;
    _ ← is_clean s d;
    kl ← KList.list_queue (klists s) available d;
    al ← KList.list_queue (alists s) (hdr EvictionClean v) d;
    Ret (set_alists (set_klists s kl) al, false).

(** The body of the two loops over the tree. *)
Definition take_priority (s : kstate) (v d : Z) : exec (kstate * bool) :=
  s ← object_desc_flush s d;
  _ ← check (bool_decide (d ∈ priorities (acts s v))) invalid_access;
  let s := upd_act s v (fun y => on_priorities (priorities y ∖ {[d]}) (-1) y) in
  queue_candidate (set_candidate s d) v d.

(** The body of the loop over the inactive list; [desc] is the variable of the
    first loop, which this body reads. *)
Definition take_inactive (fuel : nat) (desc : option Z) (s : kstate) (v d : Z) : exec (kstate * bool) :=
  _ ← check (negb (eviction_candidate (descs s d))) assertion_failed;
  _ ← check (negb (KList.list_node_attached (klists s) d)) assertion_failed;
  al ← KList.list_unlink fuel (alists s) (hdr Inactive v) d;
  s ← object_desc_flush (set_alists s al) d;
  if to_write (descs s d) then
    al ← KList.list_push (alists s) (hdr EvictionDirty v) d;
    kl ← KList.list_queue (klists s) laundry d;
    Ret (set_candidate (set_alists (set_klists s kl) al) d, true)
  else
    _ ← is_clean s d;
    al ← KList.list_push (alists s) (hdr EvictionClean v) d;
    kl ← KList.list_queue (klists s) available d;
    _ ← check (bool_decide (desc <> None)) invalid_access;
    Ret (set_candidate (set_alists (set_klists s kl) al) d, false).

(** The body of the loop over the active list. *)
Definition take_active (fuel : nat) (s : kstate) (v d : Z) : exec (kstate * bool) :=
  _ ← check (negb (eviction_candidate (descs s d))) assertion_failed;
  s ← object_desc_flush s d;
  let s := set_candidate s d in
  al ← KList.list_unlink fuel (alists s) (hdr Active v) d;
  queue_candidate (set_alists s al) v d.

(** A loop over a list; [next] is read before the body changes the list. *)
Fixpoint list_loop (fuel : nat) (body : kstate -> Z -> exec (kstate * bool)) (goal : Z)
    (s : kstate) (x : option Z) (count laundry_count : Z) : exec (kstate * Z * Z) :=
  match fuel with
  | O => Crash out_of_fuel
  | S fuel =>
      match x with
      | Some d =>
          if count <? goal then
            let next := KList.list_next (alists s) d in
            '(s, l) ← body s d;
            list_loop fuel body goal s next (count + 1) (if (l : bool) then laundry_count + 1 else laundry_count)
          else Ret (s, count, laundry_count)
      | None => Ret (s, count, laundry_count)
      end
  end.

(** The first loop over the tree, and what [next] is after it; also [desc] is
    its head then. *)
Fixpoint low_loop (v goal : Z) (s : kstate) (l : list Z) (count laundry_count : Z)
    : exec (kstate * list Z * Z * Z) :=
  match l with
  | [] => Ret (s, [], count, laundry_count)
  | d :: next =>
      if count <? goal then
        _ ← check (negb (eviction_candidate (descs s d))) assertion_failed;
        _ ← check (negb (priority (pol (descs s d)) =? OBJECT_PRIORITY_LRU)) assertion_failed;
        if OBJECT_PRIORITY_LRU <? priority (pol (descs s d)) then Ret (s, l, count, laundry_count)
        else
          '(s, la) ← take_priority s v d;
          low_loop v goal s next (count + 1) (if (la : bool) then laundry_count + 1 else laundry_count)
      else Ret (s, l, count, laundry_count)
  end.

Fixpoint high_loop (v goal : Z) (s : kstate) (l : list Z) (count laundry_count : Z)
    : exec (kstate * Z * Z) :=
  match l with
  | [] => Ret (s, count, laundry_count)
  | d :: next =>
      if count <? goal then
        _ ← check (negb (eviction_candidate (descs s d))) assertion_failed;
        _ ← check (OBJECT_PRIORITY_LRU <? priority (pol (descs s d))) assertion_failed;
        '(s, la) ← take_priority s v d;
        high_loop v goal s next (count + 1) (if (la : bool) then laundry_count + 1 else laundry_count)
      else Ret (s, count, laundry_count)
  end.

(** The adjustment of the counters; [frames] is [count - laundry_count]. *)
Definition settle (fuel : nat) (s : kstate) (v frames laundry_count : Z) : exec kstate :=
  for_each_ancestor fuel
    (fun y => Ret (add_pending laundry_count (add_total (- frames) y)))
    (upd_act s v (add_local (- frames))) v.

(** The four loops; [tree] are the nodes of the victim's tree in order. *)
Definition reclaim_objects (fuel : nat) (s : kstate) (v goal : Z) (tree : list Z)
    : exec (kstate * Z * Z) :=
  '(s, next, count, la) ← low_loop v goal s tree 0 0;
  let desc := hd_or next None in
  '(s, count, la) ←
    (if count <? goal then
       list_loop fuel (fun s d => take_inactive fuel desc s v d) goal s
         (KList.list_head (alists s) (hdr Inactive v)) count la
     else Ret (s, count, la));
  '(s, count, la) ←
    (if count <? goal then
       list_loop fuel (fun s d => take_active fuel s v d) goal s
         (KList.list_head (alists s) (hdr Active v)) count la
     else Ret (s, count, la));
  if count <? goal then high_loop v goal s next count la else Ret (s, count, la).

Definition reclaim_from (fuel : nat) (s : kstate) (v goal : Z) (tree : list Z) : exec (kstate * Z) :=
  _ ← check_counts fuel s v;
  '(s, count, la) ← reclaim_objects fuel s v goal tree;
  s ← settle fuel s v (count - la) la;
  _ ← check_counts fuel s v;
  _ ← check (0 <? count) assertion_failed;
  Ret (s, count).

End pages.

(** ** Counters that lag behind

    The loops change the lists and leave the counters to the end.  [credited] is
    the state with the counters adjusted, for which the invariant holds. *)

Lemma u32_step x n : 0 <= u32 x + n < 2 ^ 32 -> u32 (x + n) = u32 x + n.
Proof.
  unfold u32, wrap. intros H. rewrite <- Zplus_mod_idemp_l. now apply Z.mod_small.
Qed.

Definition selected (written : Z -> bool) (d : Z) (x : object_desc) : object_desc :=
  Desc (owner x) (pol x) true (dirty x || written d) (age x).

(** The list of candidates for [x]. *)
Definition ckind (x : object_desc) : alist := if to_write x then EvictionDirty else EvictionClean.
Definition kkind (x : object_desc) : Z := if to_write x then laundry else available.

Lemma queue_key m L h d :
  KList.rep m L -> (forall h', d ∉ L h') ->
  exists m' L', KList.list_queue m h d = Ret m' /\ KList.rep m' L' /\
    (forall h', L' h' = if decide (h' = h) then L h ++ [d] else L h').
Proof.
  intros H Hd. destruct (KList.queue_rep m L h d H Hd) as (m'&Em&Hr).
  exists m', (<[h := L h ++ [d]]> L). split; [done|]. split; [done|]. intros h'. apply fn_at.
Qed.

Section reclaim.
Context (As : list Z) (ch : Z -> list Z) (v : Z) (Hv : v ∈ As).
Context (live written status zeroed : Z -> bool).

Definition credited (s : kstate) (c l : Z) : kstate :=
  Kstate (fun a =>
      let y := if decide (a = v) then add_local (- c) (acts s a) else acts s a in
      if decide (a ∈ ch v) then add_pending l (add_total (- c) y) else y)
    (descs s) (alists s) (klists s) (root_activity s).

Definition sel (s : kstate) (c l : Z) (L W : Z -> list Z) : Prop :=
  inv As ch None None (credited s c l) L W /\ fits As None s L 1.

Lemma credited_same s c l a :
  parent (acts (credited s c l) a) = parent (acts s a) /\
  priorities (acts (credited s c l) a) = priorities (acts s a) /\
  priorities_count (acts (credited s c l) a) = priorities_count (acts s a).
Proof. cbn. decs; done. Qed.

Lemma credited_cnt L s c l a : cnt L (credited s c l) a = cnt L s a.
Proof. unfold cnt. destruct (credited_same s c l a) as (_&->&_). done. Qed.

(** An object of [v] is selected: it leaves its list or the tree and is queued
    on the lists of the candidates. *)
Record moved_to (s : kstate) (L W : Z -> list Z) (d : Z) (s' : kstate) (L' W' : Z -> list Z) : Prop := MovedTo {
  mt_descs : forall u, descs s' u = if decide (u = d) then selected written d (descs s d) else descs s u;
  mt_root : root_activity s' = root_activity s;
  mt_alists : KList.rep (alists s') L';
  mt_klists : KList.rep (klists s') W';
  mt_acts : forall a, exists q n, acts s' a = on_priorities q n (acts s a);
  mt_tree : forall u a, a ∈ As -> u ∈ priorities (acts s' a) <-> u ∈ priorities (acts s a) /\ u <> d;
  mt_pcount : forall a, a ∈ As -> priorities_count (acts s' a) = Z.of_nat (size (priorities (acts s' a)));
  mt_lists : forall u h, u ∈ L' h <->
    u ∈ L h /\ u <> d \/ u = d /\ h = hdr (ckind (selected written d (descs s d))) v;
  mt_kernel : forall u h, u ∈ W' h <-> u ∈ W h \/ u = d /\ h = kkind (selected written d (descs s d));
  mt_cnt : forall a, cnt L' s' a = cnt L s a
    + if decide (a = v) then (if to_write (selected written d (descs s d)) then 0 else -1) else 0;
  mt_dirty : forall a, len L' (hdr EvictionDirty a) = len L (hdr EvictionDirty a)
    + if decide (a = v) then (if to_write (selected written d (descs s d)) then 1 else 0) else 0
}.

Lemma select_step s c l L W d s' L' W' :
  sel s c l L W -> owner (descs s d) = Some v -> eviction_candidate (descs s d) = false ->
  moved_to s L W d s' L' W' ->
  let b := to_write (selected written d (descs s d)) in
  sel s' (c + if b then 0 else 1) (l + if b then 1 else 0) L' W'.
Proof.
  intros [H Hfit] Eo Ec M b. assert (T := i_tree _ _ _ _ _ _ _ H).
  set (n := if b then 0 else -1). set (n' := if b then 1 else 0).
  assert (Hsel : key (selected written d (descs s d)) = Some (hdr (ckind (selected written d (descs s d))) v) /\
    tkey (selected written d (descs s d)) = None /\
    wkey (selected written d (descs s d)) = Some (kkind (selected written d (descs s d)))).
  { unfold key, tkey, wkey, ckind, kkind. cbn [owner selected eviction_candidate orb]. now rewrite Eo. }
  destruct Hsel as (Hk&Ht&Hw).
  assert (Hwd : wkey (descs s d) = None) by (unfold wkey; now rewrite Eo, Ec).
  assert (Hle : forall a, cnt L' s' a <= cnt L s a).
  { intros a. rewrite (mt_cnt _ _ _ _ _ _ _ M). fold b. destruct b; decs; lia. }
  assert (Hacts : forall a, a ∈ As ->
    frames_local (acts (credited s' (c - n) (l + n')) a)
      = frames_local (acts (credited s c l) a) + (if decide (a = v) then n else 0) /\
    frames_total (acts (credited s' (c - n) (l + n')) a)
      = frames_total (acts (credited s c l) a) + (if decide (a ∈ ch v) then n else 0) /\
    frames_pending_eviction (acts (credited s' (c - n) (l + n')) a)
      = frames_pending_eviction (acts (credited s c l) a) + (if decide (a ∈ ch v) then n' else 0)).
  { intros a Ha. assert (Hfit' : fits As None (credited s c l) L 1).
    { eapply fits_le; [exact Hfit| |reflexivity]. intros x _. rewrite credited_cnt. lia. }
    assert (Hb := inv_bounds As ch _ _ _ _ _ 1 v v H Hfit' Hv (chain_self As ch _ v T Hv)).
    assert (Hba : a ∈ ch v -> _) by exact (inv_bounds As ch _ _ _ _ _ 1 a v H Hfit' Hv).
    assert (Hl := i_local _ _ _ _ _ _ _ H v Hv). rewrite credited_cnt, extra_None in Hl.
    assert (Hc := mt_cnt _ _ _ _ _ _ _ M v). rewrite decide_True in Hc by done. fold b n in Hc.
    assert (Hnn := cnt_nonneg L' s' v). assert (Hchain := chain_self As ch _ v T Hv).
    destruct (mt_acts _ _ _ _ _ _ _ M a) as (q&m&Ea). cbn [acts credited] in *. rewrite Ea. cbv zeta in *.
    replace (- (c - n)) with (- c + n) by lia.
    assert (Hur := u32_range (frames_pending_eviction (acts s a) + l)).
    destruct (decide (a ∈ ch v)) as [Hin|Hin]; [specialize (Hba eq_refl) || specialize (Hba Hin)|];
      destruct (decide (a = v)) as [->|]; rewrite ?(decide_True (P := v = v)), ?(decide_True (P := v ∈ ch v)) in * by done;
      cbn in *; rewrite ?Z.add_assoc; unfold n, n' in *; try done; destruct b;
      rewrite ?(u32_step (_ + - c)), ?(u32_step (_ + l)); lia. }
  assert (Hcl : (c + if b then 0 else 1) = c - n) by (unfold n; destruct b; lia).
  rewrite Hcl. split.
  2:{ eapply fits_le; [exact Hfit| |reflexivity]. intros a _. specialize (Hle a). lia. }
  apply (inv_change As ch None None (credited s c l) L W _ _ _ _ _ v n n' H Hv); try exact Hacts.
  - intros a. destruct (mt_acts _ _ _ _ _ _ _ M a) as (q&m&Ea).
    destruct (credited_same s' (c - n) (l + n') a) as (->&_). destruct (credited_same s c l a) as (->&_).
    now rewrite Ea.
  - apply M.
  - apply M.
  - apply M.
  - intros u a _. cbn. rewrite (mt_descs _ _ _ _ _ _ _ M). intros Hu.
    apply (i_owner _ _ _ _ _ _ _ H u); [done|]. cbn. now destruct (decide (u = d)) as [->|].
  - intros u h. rewrite (mt_lists _ _ _ _ _ _ _ M), (i_key _ _ _ _ _ _ _ H u h). cbn.
    rewrite (mt_descs _ _ _ _ _ _ _ M). destruct (decide (u = d)) as [->|]; [rewrite Hk|]; naive_solver.
  - intros u a Ha. destruct (credited_same s' (c - n) (l + n') a) as (_&->&_).
    rewrite (mt_tree _ _ _ _ _ _ _ M) by done. destruct (credited_same s c l a) as (_&Ep&_).
    rewrite <- Ep, (i_tkey _ _ _ _ _ _ _ H u a Ha). cbn. rewrite (mt_descs _ _ _ _ _ _ _ M).
    destruct (decide (u = d)) as [->|]; [rewrite Ht|]; naive_solver.
  - intros u h. rewrite (mt_kernel _ _ _ _ _ _ _ M), (i_wkey _ _ _ _ _ _ _ H u h). cbn.
    rewrite (mt_descs _ _ _ _ _ _ _ M). destruct (decide (u = d)) as [->|]; [rewrite Hw, Hwd|]; naive_solver.
  - intros a Ha. destruct (credited_same s' (c - n) (l + n') a) as (_&->&->). now apply M.
  - intros a _. rewrite !credited_cnt, (mt_cnt _ _ _ _ _ _ _ M). fold b n. lia.
  - intros a _. rewrite (mt_dirty _ _ _ _ _ _ _ M). fold b n'. done.
Qed.

(** ** The bodies of the loops *)

(** Taking the head off a list. *)
Lemma unlink_head fuel m L h d rest :
  KList.rep m L -> L h = d :: rest -> (length (L h) <= fuel)%nat ->
  exists m', KList.list_unlink fuel m h d = Ret m' /\ KList.rep m' (<[h := rest]> L) /\
    (forall u h', u ∈ (<[h := rest]> L : Z -> list Z) h' <-> u ∈ L h' /\ u <> d).
Proof.
  intros H E Hf. destruct (KList.unlink_rep fuel m L h [] d rest H E) as (m'&Em&Hr).
  { rewrite E in Hf. cbn in Hf. lia. }
  exists m'. split; [done|]. split; [done|]. intros u h'. rewrite elem_insert.
  assert (Hs := KList.rep_sep _ _ H). assert (Hnd := sep_nodup _ Hs h). rewrite E in Hnd.
  apply NoDup_cons in Hnd as [Hn _]. split.
  - intros [[-> Hu]|[Hne Hu]]; [rewrite E; set_solver|]. split; [done|]. intros ->. apply Hne.
    eapply (sep_place _ Hs); [exact Hu|]. rewrite E. left.
  - intros [Hu Hne]. destruct (decide (h' = h)) as [->|]; [left|now right].
    split; [done|]. rewrite E in Hu. set_solver.
Qed.

(** Once [d] is off its list or tree and on the new lists. *)
Lemma finish s L W d s' L1 L' W' l' w' :
  (forall u, descs s' u = if decide (u = d) then selected written d (descs s d) else descs s u) ->
  root_activity s' = root_activity s ->
  KList.rep (alists s') L' -> KList.rep (klists s') W' ->
  (forall a, exists q n, acts s' a = on_priorities q n (acts s a)) ->
  (forall u a, a ∈ As -> u ∈ priorities (acts s' a) <-> u ∈ priorities (acts s a) /\ u <> d) ->
  (forall a, a ∈ As -> priorities_count (acts s' a) = Z.of_nat (size (priorities (acts s' a)))) ->
  (forall u h, u ∈ L1 h <-> u ∈ L h /\ u <> d) ->
  (forall a, cnt L1 s' a = cnt L s a - if decide (a = v) then 1 else 0) ->
  (forall a, len L1 (hdr EvictionDirty a) = len L (hdr EvictionDirty a)) ->
  let h0 := hdr (ckind (selected written d (descs s d))) v in
  let k0 := kkind (selected written d (descs s d)) in
  (forall h, L' h = if decide (h = h0) then l' else L1 h) -> l' ≡ₚ d :: L1 h0 ->
  (forall h, W' h = if decide (h = k0) then w' else W h) -> w' ≡ₚ d :: W k0 ->
  moved_to s L W d s' L' W'.
Proof.
  intros Hd Hr HL HW Ha Ht Hpc Hm Hc Hdl h0 k0 EL El EW Ew. split; try done.
  - intros u h. rewrite EL. destruct (decide (h = h0)) as [->|Hne].
    + rewrite El, elem_of_cons, Hm. naive_solver.
    + rewrite Hm. naive_solver.
  - intros u h. rewrite EW. destruct (decide (h = k0)) as [->|Hne].
    + rewrite Ew, elem_of_cons. naive_solver.
    + naive_solver.
  - intros a. assert (Hca := Hc a). unfold cnt, len in *. rewrite !EL. unfold h0, ckind in *.
    destruct (to_write _); decs; subst; rewrite ?El; cbn [length]; lia.
  - intros a. rewrite <- Hdl. unfold len. rewrite EL. unfold h0, ckind in *.
    destruct (to_write _); decs; subst; rewrite ?El; cbn [length]; lia.
Qed.

Lemma queue_candidate_spec s d L1 W :
  KList.rep (alists s) L1 -> KList.rep (klists s) W -> (forall h, d ∉ L1 h) -> (forall h, d ∉ W h) ->
  status d = false -> (dirty (descs s d) = false -> zeroed d = true) ->
  let h0 := hdr (ckind (descs s d)) v in let k0 := kkind (descs s d) in
  exists al kl, queue_candidate status zeroed s v d
      = Ret (set_alists (set_klists s kl) al, to_write (descs s d)) /\
    KList.rep al (<[h0 := L1 h0 ++ [d]]> L1) /\ KList.rep kl (<[k0 := W k0 ++ [d]]> W).
Proof.
  intros HL HW HdL HdW Hs Hz h0 k0. unfold queue_candidate, is_clean.
  rewrite (KList.detached_rep _ W d HW HdW). cbn [negb check mbind exec_bind].
  destruct (KList.queue_rep (alists s) L1 h0 d HL HdL) as (al&Eal&Hal).
  destruct (KList.queue_rep (klists s) W k0 d HW HdW) as (kl&Ekl&Hkl).
  exists al, kl. split; [|done]. unfold h0, k0, ckind, kkind in *.
  destruct (to_write (descs s d)).
  - rewrite Ekl. cbn [mbind exec_bind]. now rewrite Eal.
  - rewrite Hs. cbn [negb check mbind exec_bind].
    assert (Hcl : (if dirty (descs s d) then Ret tt else check (zeroed d) assertion_failed) = Ret tt).
    { destruct (dirty (descs s d)); [done|]. now rewrite Hz. }
    rewrite Hcl. cbn [mbind exec_bind]. rewrite Ekl. cbn [mbind exec_bind]. now rewrite Eal.
Qed.

(** What the pages of the victim's objects say. *)
Definition pages_ok (s : kstate) : Prop := forall d,
  owner (descs s d) = Some v -> eviction_candidate (descs s d) = false ->
  live d = true /\ status d = false /\ (dirty (descs s d) || written d = false -> zeroed d = true).

Lemma sel_listed s c l L W u k : sel s c l L W -> u ∈ L (hdr k v) -> k = Active \/ k = Inactive ->
  owner (descs s u) = Some v /\ eviction_candidate (descs s u) = false /\ forall h, u ∉ W h.
Proof.
  intros [H _] Hu Hk. destruct (listed _ _ _ _ _ _ _ _ _ _ H Hu) as (Eo&Ec).
  assert (Ec' : eviction_candidate (descs s u) = false) by (now destruct Hk as [-> | ->]).
  split; [done|]. split; [done|]. intros h. now apply (off_kernel _ _ _ _ _ u h H).
Qed.

(** Removing the head of a list of [v], for [finish]. *)
Lemma off_head s c l L W k d rest s' :
  sel s c l L W -> L (hdr k v) = d :: rest -> k = Active \/ k = Inactive -> acts s' = acts s ->
  let L1 : Z -> list Z := <[hdr k v := rest]> L in
  (forall a, cnt L1 s' a = cnt L s a - if decide (a = v) then 1 else 0) /\
  (forall a, len L1 (hdr EvictionDirty a) = len L (hdr EvictionDirty a)) /\
  (forall u a, a ∈ As -> u ∈ priorities (acts s' a) <-> u ∈ priorities (acts s a) /\ u <> d) /\
  (forall a, a ∈ As -> priorities_count (acts s' a) = Z.of_nat (size (priorities (acts s' a)))) /\
  (forall a, exists q n, acts s' a = on_priorities q n (acts s a)).
Proof.
  intros [H _] E Hk Ea L1.
  assert (Hd : d ∈ L (hdr k v)) by (rewrite E; left).
  split; [|split; [|split; [|split]]].
  - intros a. unfold cnt, len, L1. rewrite !fn_at, Ea.
    destruct Hk as [-> | ->]; decs; subst; rewrite ?E; cbn [length]; lia.
  - intros a. unfold len, L1. rewrite fn_at. destruct Hk as [-> | ->]; now decs.
  - intros u a Ha. rewrite Ea. split; [|now intros []]. intros Hu. split; [done|]. intros ->.
    destruct (credited_same s c l a) as (_&Ep&_). rewrite <- Ep in Hu.
    apply (i_tkey _ _ _ _ _ _ _ H d a Ha) in Hu as [_ Hu]. apply (i_key _ _ _ _ _ _ _ H) in Hd as [_ Hd].
    unfold key, tkey in *. destruct (owner _); [|done]. destruct (eviction_candidate _); [done|].
    now destruct (_ =? _).
  - intros a Ha. rewrite Ea. destruct (credited_same s c l a) as (_&<-&<-). now apply (i_pcount _ _ _ _ _ _ _ H).
  - intros a. rewrite Ea. exists (priorities (acts s a)), 0. unfold on_priorities.
    rewrite Z.add_0_r. now destruct (acts s a).
Qed.

Lemma take_active_ok fuel s c l L W d rest :
  sel s c l L W -> pages_ok s -> L (hdr Active v) = d :: rest -> (length (L (hdr Active v)) <= fuel)%nat ->
  exists s' L' W', take_active live written status zeroed fuel s v d
      = Ret (s', to_write (selected written d (descs s d))) /\
    moved_to s L W d s' L' W' /\ L' (hdr Active v) = rest /\ L' (hdr Inactive v) = L (hdr Inactive v).
Proof.
  intros H Hp E Hf. assert (Hd : d ∈ L (hdr Active v)) by (rewrite E; left).
  destruct (sel_listed _ _ _ _ _ _ _ H Hd) as (Eo&Ec&HdW); [now left|].
  destruct (Hp d Eo Ec) as (Hlive&Hst&Hz). unfold take_active, object_desc_flush.
  rewrite Ec, Hlive. cbn [negb check mbind exec_bind].
  destruct (unlink_head fuel (alists s) L (hdr Active v) d rest) as (al&Eal&Hal&Hm); [apply H|done..|].
  set (s1 := set_candidate _ d). change (alists s1) with (alists s). rewrite Eal. cbn [mbind exec_bind].
  assert (Hd1 : forall u, descs s1 u = if decide (u = d) then selected written d (descs s d) else descs s u).
  { intros u. unfold s1, set_candidate, set_desc. cbn. rewrite !fn_at, (decide_True (P := d = d)) by done. now decs. }
  assert (Edd : descs s1 d = selected written d (descs s d)) by (now rewrite Hd1, decide_True).
  destruct (queue_candidate_spec (set_alists s1 al) d (<[hdr Active v := rest]> L) W)
    as (al2&kl&E2&Hal2&Hkl).
  - exact Hal.
  - apply H.
  - intros h Hx. now apply Hm in Hx as [_ ?].
  - exact HdW.
  - done.
  - cbn [set_alists descs]. rewrite Edd. cbn. exact Hz.
  - cbn [set_alists descs] in *. rewrite Edd in *. rewrite E2.
    set (s2 := set_alists (set_klists (set_alists s1 al) kl) al2).
    destruct (off_head s c l L W Active d rest s2 H E)
      as (Hc&Hdl&Ht&Hpc&Hac); [now left|done|].
    eexists _, _, _. split; [reflexivity|]. split; [|split].
    + apply (finish s L W d s2 (<[hdr Active v := rest]> L) _ _ _ _ Hd1 eq_refl Hal2 Hkl Hac Ht Hpc Hm Hc Hdl
        (fun h => fn_at _ _ _ h) ltac:(symmetry; apply Permutation_cons_append)
        (fun h => fn_at _ _ _ h) ltac:(symmetry; apply Permutation_cons_append)).
    + rewrite fn_at. unfold ckind. destruct (to_write _); decs; now rewrite fn_lookup_insert.
    + rewrite !fn_at. unfold ckind. destruct (to_write _); now decs.
Qed.

Lemma take_inactive_ok fuel desc s c l L W d rest :
  sel s c l L W -> pages_ok s -> L (hdr Inactive v) = d :: rest -> (length (L (hdr Inactive v)) <= fuel)%nat ->
  desc <> None \/ to_write (selected written d (descs s d)) = true ->
  exists s' L' W', take_inactive live written status zeroed fuel desc s v d
      = Ret (s', to_write (selected written d (descs s d))) /\
    moved_to s L W d s' L' W' /\ L' (hdr Inactive v) = rest /\ L' (hdr Active v) = L (hdr Active v).
Proof.
  intros H Hp E Hf Hdesc. assert (Hd : d ∈ L (hdr Inactive v)) by (rewrite E; left).
  destruct (sel_listed _ _ _ _ _ _ _ H Hd) as (Eo&Ec&HdW); [now right|].
  destruct (Hp d Eo Ec) as (Hlive&Hst&Hz). unfold take_inactive, object_desc_flush.
  rewrite Ec, Hlive, (KList.detached_rep _ W d) by (done || apply H). cbn [negb check mbind exec_bind].
  destruct (unlink_head fuel (alists s) L (hdr Inactive v) d rest) as (al&Eal&Hal&Hm); [apply H|done..|].
  rewrite Eal. cbn [mbind exec_bind].
  set (y := selected written d (descs s d)) in *. set (s1 := set_desc (set_alists s al) d _).
  assert (Hy : to_write (descs s1 d) = to_write y) by (unfold s1; cbn; now rewrite fn_lookup_insert).
  assert (Hdy : dirty (descs s1 d) = dirty y) by (unfold s1; cbn; now rewrite fn_lookup_insert).
  rewrite Hy. set (L1 := <[hdr Inactive v := rest]> L) in *.
  assert (HdL : forall h, d ∉ L1 h) by (intros h Hx; now apply Hm in Hx as [_ ?]).
  destruct (KList.push_rep al L1 (hdr (ckind y) v) d Hal HdL) as (al2&Eal2&Hal2).
  destruct (KList.queue_rep (klists s) W (kkind y) d) as (kl&Ekl&Hkl); [apply H|done|].
  set (s2 := set_candidate (set_alists (set_klists s1 kl) al2) d).
  exists s2. eexists _, _. split.
  { unfold ckind, kkind in *. destruct (to_write y) eqn:Ew.
    - change (alists s1) with al. rewrite Eal2. cbn [mbind exec_bind].
      change (klists s1) with (klists s).
      rewrite Ekl. cbn [mbind exec_bind]. reflexivity.
    - unfold is_clean. rewrite Hst, Hdy. cbn [negb check mbind exec_bind].
      assert (Hcl : (if dirty y then Ret tt else check (zeroed d) assertion_failed) = Ret tt).
      { unfold y. cbn. destruct (dirty (descs s d) || written d); [done|]. now rewrite Hz. }
      rewrite Hcl. cbn [mbind exec_bind]. change (alists s1) with al. rewrite Eal2. cbn [mbind exec_bind].
      change (klists s1) with (klists s). rewrite Ekl. cbn [mbind exec_bind].
      rewrite bool_decide_eq_true_2; [reflexivity|]. destruct Hdesc; [done|congruence]. }
  assert (Hd1 : forall u, descs s2 u = if decide (u = d) then y else descs s u).
  { intros u. unfold s2, s1, set_candidate, set_desc, y. cbn. rewrite !fn_at, (decide_True (P := d = d)) by done.
    now decs. }
  destruct (off_head s c l L W Inactive d rest s2 H E) as (Hc&Hdl&Ht&Hpc&Hac); [now right|done|].
  split; [|split].
  - apply (finish s L W d s2 L1 _ _ _ _ Hd1 eq_refl Hal2 Hkl Hac Ht Hpc Hm Hc Hdl
      (fun h => fn_at _ _ _ h) ltac:(reflexivity)
      (fun h => fn_at _ _ _ h) ltac:(symmetry; apply Permutation_cons_append)).
  - rewrite fn_at. unfold ckind, L1. destruct (to_write _); decs; now rewrite fn_lookup_insert.
  - unfold L1. rewrite !fn_at. unfold ckind. destruct (to_write _); now decs.
Qed.

(** A clean object, with no object of high priority: the null pointer. *)
Lemma take_inactive_null fuel s c l L W d rest :
  sel s c l L W -> pages_ok s -> L (hdr Inactive v) = d :: rest -> (length (L (hdr Inactive v)) <= fuel)%nat ->
  to_write (selected written d (descs s d)) = false ->
  take_inactive live written status zeroed fuel None s v d = Crash invalid_access.
Proof.
  intros H Hp E Hf Hw. assert (Hd : d ∈ L (hdr Inactive v)) by (rewrite E; left).
  destruct (sel_listed _ _ _ _ _ _ _ H Hd) as (Eo&Ec&HdW); [now right|].
  destruct (Hp d Eo Ec) as (Hlive&Hst&Hz). unfold take_inactive, object_desc_flush.
  rewrite Ec, Hlive, (KList.detached_rep _ W d) by (done || apply H). cbn [negb check mbind exec_bind].
  destruct (unlink_head fuel (alists s) L (hdr Inactive v) d rest) as (al&Eal&Hal&Hm); [apply H|done..|].
  rewrite Eal. cbn [mbind exec_bind].
  set (y := selected written d (descs s d)) in *. set (s1 := set_desc (set_alists s al) d _).
  assert (Hy : to_write (descs s1 d) = to_write y) by (unfold s1; cbn; now rewrite fn_lookup_insert).
  assert (Hdy : dirty (descs s1 d) = dirty y) by (unfold s1; cbn; now rewrite fn_lookup_insert).
  rewrite Hy, Hw. unfold is_clean. rewrite Hst, Hdy. cbn [negb check mbind exec_bind].
  assert (Hcl : (if dirty y then Ret tt else check (zeroed d) assertion_failed) = Ret tt).
  { unfold y. cbn. destruct (dirty (descs s d) || written d); [done|]. now rewrite Hz. }
  rewrite Hcl. cbn [mbind exec_bind]. change (alists s1) with al. change (klists s1) with (klists s).
  destruct (KList.push_rep al (<[hdr Inactive v := rest]> L) (hdr EvictionClean v) d Hal) as (al2&->&_).
  { intros h Hx. now apply Hm in Hx as [_ ?]. }
  cbn [mbind exec_bind]. change (klists (set_alists s1 al2)) with (klists s).
  destruct (KList.queue_rep (klists s) W available d) as (kl&->&_); [apply H|done|]. done.
Qed.

Lemma take_priority_ok s c l L W d :
  sel s c l L W -> pages_ok s -> d ∈ priorities (acts s v) ->
  exists s' L' W', take_priority live written status zeroed s v d
      = Ret (s', to_write (selected written d (descs s d))) /\
    moved_to s L W d s' L' W' /\ L' (hdr Active v) = L (hdr Active v) /\ L' (hdr Inactive v) = L (hdr Inactive v).
Proof.
  intros [H Hfit] Hp Hd.
  assert (Hd' : d ∈ priorities (acts (credited s c l) v)) by (now destruct (credited_same s c l v) as (_&->&_)).
  destruct (treed _ _ _ _ _ _ _ _ _ H Hv Hd') as (Eo&Ec&Ep). cbn in Eo, Ec, Ep.
  destruct (Hp d Eo Ec) as (Hlive&Hst&Hz). unfold take_priority, object_desc_flush.
  rewrite Hlive. cbn [negb check mbind exec_bind]. set (s0 := set_desc s d _).
  change (acts s0) with (acts s). rewrite (bool_decide_eq_true_2 (d ∈ priorities (acts s v))) by done.
  cbn [check mbind exec_bind]. set (s1 := set_candidate _ d).
  assert (Hd1 : forall u, descs s1 u = if decide (u = d) then selected written d (descs s d) else descs s u).
  { intros u. unfold s1, s0, set_candidate, set_desc, upd_act. cbn.
    rewrite !fn_at, (decide_True (P := d = d)) by done. now decs. }
  assert (Edd : descs s1 d = selected written d (descs s d)) by (now rewrite Hd1, decide_True).
  assert (HdL : forall h, d ∉ L h).
  { intros h [_ Hk]%(i_key _ _ _ _ _ _ _ H). unfold key in Hk. cbn in Hk. now rewrite Eo, Ec, Ep in Hk. }
  assert (HdW : forall h, d ∉ W h) by (intros h; now apply (off_kernel _ _ _ _ _ d h H)).
  destruct (queue_candidate_spec s1 d L W) as (al2&kl&E2&Hal2&Hkl); [apply H|apply H|done..| |].
  { rewrite Edd. cbn. exact Hz. }
  rewrite Edd in *. rewrite E2. set (s2 := set_alists (set_klists s1 kl) al2).
  assert (Ha : forall a, acts s2 a =
    if decide (a = v) then on_priorities (priorities (acts s v) ∖ {[d]}) (-1) (acts s v) else acts s a).
  { intros a. unfold s2, s1, set_candidate, upd_act. cbn. now rewrite fn_at. }
  assert (Hsz : Z.of_nat (size (priorities (acts s v) ∖ {[d]})) = Z.of_nat (size (priorities (acts s v))) - 1).
  { assert (Hin := proj2 (singleton_subseteq_l d (priorities (acts s v))) Hd).
    rewrite size_difference by done. apply subseteq_size in Hin. rewrite size_singleton in *. lia. }
  exists s2. eexists _, _. split; [reflexivity|]. split; [|split].
  - apply (finish s L W d s2 L _ _ (L (hdr (ckind (selected written d (descs s d))) v) ++ [d])
      (W (kkind (selected written d (descs s d))) ++ [d])); try done.
    + intros a. rewrite Ha. destruct (decide (a = v)) as [->|]; [eauto|].
      exists (priorities (acts s a)), 0. unfold on_priorities. rewrite Z.add_0_r. now destruct (acts s a).
    + intros u a Hin. rewrite Ha. destruct (decide (a = v)) as [->|Hne]; [cbn; set_solver|].
      split; [|now intros []]. intros Hu. split; [done|]. intros ->.
      destruct (credited_same s c l a) as (_&Epr&_). rewrite <- Epr in Hu.
      destruct (treed _ _ _ _ _ _ _ _ _ H Hin Hu) as (Eo'&_). cbn in Eo'. congruence.
    + intros a Hin. assert (Hpc := i_pcount _ _ _ _ _ _ _ H a Hin).
      destruct (credited_same s c l a) as (_&Ep1&Ep2). rewrite Ep1, Ep2 in Hpc. rewrite Ha.
      destruct (decide (a = v)) as [->|]; cbn; lia.
    + intros u h. split; [|now intros []]. intros Hu. split; [done|]. intros ->. now apply (HdL h).
    + intros a. unfold cnt. rewrite Ha. destruct (decide (a = v)) as [->|]; cbn; lia.
    + intros h. apply fn_at.
    + symmetry. apply Permutation_cons_append.
    + intros h. apply fn_at.
    + symmetry. apply Permutation_cons_append.
  - rewrite fn_at. unfold ckind. destruct (to_write _); now decs.
  - rewrite fn_at. unfold ckind. destruct (to_write _); now decs.
Qed.

(** ** The loops *)

(** After the objects [ds] were selected, from [s0] with the lists [L0]; [c] went to the available
    frames and [l] to the laundry. *)
Record taken (s0 : kstate) (L0 : Z -> list Z) (ds : list Z) (s : kstate) (c l : Z) (L W : Z -> list Z) : Prop := Taken {
  tk_sel : sel s c l L W;
  tk_pages : pages_ok s;
  tk_descs : forall u, descs s u = if decide (u ∈ ds) then selected written u (descs s0 u) else descs s0 u;
  tk_count : c + l = Z.of_nat (length ds);
  tk_cnt : forall a, cnt L s a <= cnt L0 s0 a
}.

Lemma take_step s0 L0 ds s c l L W d s' L' W' :
  taken s0 L0 ds s c l L W -> owner (descs s d) = Some v -> eviction_candidate (descs s d) = false ->
  moved_to s L W d s' L' W' ->
  let b := to_write (selected written d (descs s d)) in
  (d ∉ ds) /\ taken s0 L0 (ds ++ [d]) s' (c + if b then 0 else 1) (l + if b then 1 else 0) L' W'.
Proof.
  intros [H Hp Hd Hc Hcnt] Eo Ec M b.
  assert (Hn : d ∉ ds).
  { intros Hin. rewrite Hd, decide_True in Ec by done. done. }
  split; [done|]. split.
  - now apply (select_step s c l L W d).
  - intros u. rewrite (mt_descs _ _ _ _ _ _ _ M). destruct (decide (u = d)); [done|]. apply Hp.
  - intros u. rewrite (mt_descs _ _ _ _ _ _ _ M). destruct (decide (u = d)) as [->|Hne].
    + rewrite decide_True by set_solver. now rewrite Hd, decide_False.
    + rewrite Hd. destruct (decide (u ∈ ds)); [rewrite decide_True by set_solver|
        rewrite decide_False by set_solver]; done.
  - rewrite length_app. cbn. destruct b; lia.
  - intros a. rewrite (mt_cnt _ _ _ _ _ _ _ M). specialize (Hcnt a). destruct (to_write _); decs; lia.
Qed.

(** What a body of a loop over list [k] does, [k'] being the other one. *)
Definition body_ok (P : Z -> Prop) (body : kstate -> Z -> exec (kstate * bool)) (k k' : alist) (n : nat) : Prop :=
  forall s c l L W d rest,
  sel s c l L W -> pages_ok s -> L (hdr k v) = d :: rest -> (length (L (hdr k v)) <= n)%nat ->
  (to_write (selected written d (descs s d)) = true \/ P d) ->
  exists s' L' W', body s d = Ret (s', to_write (selected written d (descs s d))) /\
    moved_to s L W d s' L' W' /\ L' (hdr k v) = rest /\ L' (hdr k' v) = L (hdr k' v).

Lemma list_loop_ok (P : Z -> Prop) body k k' n s0 L0 goal xs fuel ds s c l L W :
  body_ok P body k k' n -> k = Active \/ k = Inactive ->
  taken s0 L0 ds s c l L W -> L (hdr k v) = xs -> (length xs < fuel)%nat -> (length xs <= n)%nat ->
  (forall d, d ∈ xs -> to_write (selected written d (descs s0 d)) = true \/ P d) ->
  exists s' c' l' L' W', list_loop fuel body goal s (hd_or xs None) (c + l) l = Ret (s', c' + l', l') /\
    taken s0 L0 (ds ++ take (Z.to_nat (goal - (c + l))) xs) s' c' l' L' W' /\
    L' (hdr k' v) = L (hdr k' v).
Proof.
  intros HB Hk. revert fuel ds s c l L W.
  induction xs as [|d xs IH]; intros fuel ds s c l L W T E Hf Hn HP.
  - destruct fuel; [cbn in Hf; lia|]. exists s, c, l, L, W. cbn. rewrite take_nil, app_nil_r. auto.
  - destruct fuel; [lia|]. cbn [list_loop hd_or]. destruct (Z.ltb_spec (c + l) goal) as [Hlt|Hge].
    2:{ exists s, c, l, L, W. replace (Z.to_nat (goal - (c + l))) with 0%nat by lia.
        cbn. rewrite app_nil_r. auto. }
    assert (Hin : d ∈ L (hdr k v)) by (rewrite E; left).
    destruct (sel_listed _ _ _ _ _ d k (tk_sel _ _ _ _ _ _ _ _ T) Hin Hk) as (Eo&Ec&_).
    destruct (KList.next_rep (alists s) L (hdr k v) d (Pos (hd_or xs None) None)) as [Enx _].
    { apply (i_lists _ _ _ _ _ _ _ (proj1 (tk_sel _ _ _ _ _ _ _ _ T))). }
    { rewrite E. apply (ring_mid None [] d xs None). set_solver. }
    cbn zeta. rewrite Enx. cbn [p_next].
    assert (HPd : to_write (selected written d (descs s d)) = true \/ P d).
    { rewrite (tk_descs _ _ _ _ _ _ _ _ T). destruct (decide (d ∈ ds)) as [Hds|]; [|apply HP; left].
      rewrite (tk_descs _ _ _ _ _ _ _ _ T), decide_True in Ec by done. done. }
    destruct (HB s c l L W d xs) as (s1&L1&W1&->&M&E1&E1'); [apply T|apply T|done|now rewrite E|done|].
    cbn [mbind exec_bind].
    destruct (take_step s0 L0 ds s c l L W d s1 L1 W1 T Eo Ec M) as (Hds&T1).
    destruct (IH fuel (ds ++ [d]) s1 _ _ L1 W1 T1 E1) as (s'&c'&l'&L'&W'&E'&T'&E2).
    + cbn in Hf. lia.
    + cbn in Hn. lia.
    + intros u Hu. apply HP. now right.
    + exists s', c', l', L', W'. split; [|split; [|congruence]].
      * rewrite <- E'. f_equal; destruct (to_write _); lia.
      * assert (Etk : take (Z.to_nat (goal - (c + l))) (d :: xs) =
          d :: take (Z.to_nat (goal - (c + l + 1))) xs).
        { replace (Z.to_nat (goal - (c + l))) with (S (Z.to_nat (goal - (c + l + 1)))) by lia. done. }
        rewrite Etk. rewrite <- app_assoc in T'. cbn [app] in T'.
        replace (c + l + 1) with
          (c + (if to_write (selected written d (descs s d)) then 0 else 1)
           + (l + (if to_write (selected written d (descs s d)) then 1 else 0)))
          by (destruct (to_write _); lia). exact T'.
Qed.

(** A node of the tree that was not selected yet. *)
Lemma tree_node s0 L0 ds s c l L W d :
  taken s0 L0 ds s c l L W -> tkey (descs s0 d) = Some v -> d ∉ ds ->
  descs s d = descs s0 d /\ eviction_candidate (descs s d) = false /\ owner (descs s d) = Some v /\
  (priority (pol (descs s d)) =? OBJECT_PRIORITY_LRU) = false /\ d ∈ priorities (acts s v).
Proof.
  intros T Hk Hd. assert (Ed : descs s d = descs s0 d).
  { now rewrite (tk_descs _ _ _ _ _ _ _ _ T), decide_False. }
  split; [done|]. rewrite Ed.
  assert (Hin : d ∈ priorities (acts s v)).
  { destruct (credited_same s c l v) as (_&<-&_).
    apply (i_tkey _ _ _ _ _ _ _ (proj1 (tk_sel _ _ _ _ _ _ _ _ T)) d v Hv). split; [done|]. cbn. now rewrite Ed. }
  unfold tkey in Hk. destruct (owner (descs s0 d)); [|done].
  destruct (eviction_candidate _); [done|]. destruct (_ =? _); [done|]. cbn in Hk. split; [done|].
  now split; [congruence|].
Qed.

(** One round of a loop over the tree. *)
Lemma tree_step s0 L0 ds s c l L W d :
  taken s0 L0 ds s c l L W -> tkey (descs s0 d) = Some v -> d ∉ ds ->
  exists s' c' l' L' W' b, take_priority live written status zeroed s v d = Ret (s', b) /\
    c' + l' = c + l + 1 /\ l' = (if b then l + 1 else l) /\ taken s0 L0 (ds ++ [d]) s' c' l' L' W' /\
    L' (hdr Active v) = L (hdr Active v) /\ L' (hdr Inactive v) = L (hdr Inactive v).
Proof.
  intros T Hk Hd. destruct (tree_node s0 L0 ds s c l L W d T Hk Hd) as (_&Ec&Eo&_&Hin).
  destruct (take_priority_ok s c l L W d) as (s1&L1&W1&E&M&El1&El2); [apply T|apply T|done|].
  destruct (take_step s0 L0 ds s c l L W d s1 L1 W1 T Eo Ec M) as (_&T1).
  eexists s1, _, _, L1, W1, _. split; [exact E|]. split; [|split; [|split; [exact T1|auto]]];
    destruct (to_write _); lia.
Qed.

Lemma low_loop_ok s0 L0 goal high low ds s c l L W :
  taken s0 L0 ds s c l L W -> NoDup (ds ++ low ++ high) ->
  (forall u, u ∈ low -> tkey (descs s0 u) = Some v /\ priority (pol (descs s0 u)) < OBJECT_PRIORITY_LRU) ->
  (forall u, u ∈ high -> tkey (descs s0 u) = Some v /\ OBJECT_PRIORITY_LRU < priority (pol (descs s0 u))) ->
  let n := Z.to_nat (goal - (c + l)) in
  exists s' c' l' L' W',
    low_loop live written status zeroed v goal s (low ++ high) (c + l) l
      = Ret (s', drop n low ++ high, c' + l', l') /\
    taken s0 L0 (ds ++ take n low) s' c' l' L' W' /\
    L' (hdr Active v) = L (hdr Active v) /\ L' (hdr Inactive v) = L (hdr Inactive v).
Proof.
  revert ds s c l L W. induction low as [|d low IH]; intros ds s c l L W T Hnd Hlow Hhigh n.
  - exists s, c, l, L, W. rewrite take_nil, drop_nil, app_nil_r. cbn [app]. split; [|auto].
    destruct high as [|d high]; [done|]. cbn [low_loop]. destruct (c + l <? goal); [|done].
    destruct (Hhigh d) as [Hk Hp]; [left|].
    assert (Hd : d ∉ ds) by (apply NoDup_app in Hnd as (_&Hx&_); intros Hd; apply (Hx _ Hd); left).
    destruct (tree_node s0 L0 ds s c l L W d T Hk Hd) as (Ed&Ec&_&Ep&_).
    rewrite Ec, Ep. cbn [negb check mbind exec_bind]. rewrite Ed.
    now rewrite (proj2 (Z.ltb_lt _ _) Hp).
  - cbn [app low_loop]. destruct (Z.ltb_spec (c + l) goal) as [Hlt|Hge].
    2:{ exists s, c, l, L, W. unfold n. replace (Z.to_nat (goal - (c + l))) with 0%nat by lia.
        cbn. rewrite app_nil_r. auto. }
    destruct (Hlow d) as [Hk Hp]; [left|].
    assert (Hd : d ∉ ds) by (apply NoDup_app in Hnd as (_&Hx&_); intros Hd; apply (Hx _ Hd); left).
    destruct (tree_node s0 L0 ds s c l L W d T Hk Hd) as (Ed&Ec&_&Ep&_).
    rewrite Ec, Ep. cbn [negb check mbind exec_bind]. rewrite Ed.
    rewrite (proj2 (Z.ltb_ge _ _)) by lia.
    destruct (tree_step s0 L0 ds s c l L W d T Hk Hd) as (s1&c1&l1&L1&W1&b&->&E1&El&T1&EA&EI).
    cbn [mbind exec_bind]. rewrite <- E1, <- El.
    destruct (IH (ds ++ [d]) s1 c1 l1 L1 W1 T1) as (s'&c'&l'&L'&W'&E'&T'&EA'&EI').
    + now rewrite <- app_assoc.
    + intros u Hu. apply Hlow. now right.
    + exact Hhigh.
    + assert (En : n = S (Z.to_nat (goal - (c1 + l1)))) by (unfold n; lia).
      exists s', c', l', L', W'. rewrite E', En. cbn [take drop].
      rewrite <- app_assoc in T'. cbn [app] in T'. split; [done|]. split; [done|]. split; congruence.
Qed.

Lemma high_loop_ok s0 L0 goal high ds s c l L W :
  taken s0 L0 ds s c l L W -> NoDup (ds ++ high) ->
  (forall u, u ∈ high -> tkey (descs s0 u) = Some v /\ OBJECT_PRIORITY_LRU < priority (pol (descs s0 u))) ->
  exists s' c' l' L' W',
    high_loop live written status zeroed v goal s high (c + l) l = Ret (s', c' + l', l') /\
    taken s0 L0 (ds ++ take (Z.to_nat (goal - (c + l))) high) s' c' l' L' W'.
Proof.
  revert ds s c l L W. induction high as [|d high IH]; intros ds s c l L W T Hnd Hhigh.
  - exists s, c, l, L, W. now rewrite take_nil, app_nil_r.
  - cbn [high_loop]. destruct (Z.ltb_spec (c + l) goal) as [Hlt|Hge].
    2:{ exists s, c, l, L, W. replace (Z.to_nat (goal - (c + l))) with 0%nat by lia.
        now rewrite app_nil_r. }
    destruct (Hhigh d) as [Hk Hp]; [left|].
    assert (Hd : d ∉ ds) by (apply NoDup_app in Hnd as (_&Hx&_); intros Hd; apply (Hx _ Hd); left).
    destruct (tree_node s0 L0 ds s c l L W d T Hk Hd) as (Ed&Ec&_&Ep&_).
    rewrite Ec, Ed, (proj2 (Z.ltb_lt _ _) Hp). cbn [negb check mbind exec_bind].
    destruct (tree_step s0 L0 ds s c l L W d T Hk Hd) as (s1&c1&l1&L1&W1&b&->&E1&El&T1&_&_).
    cbn [mbind exec_bind]. rewrite <- E1, <- El.
    destruct (IH (ds ++ [d]) s1 c1 l1 L1 W1 T1) as (s'&c'&l'&L'&W'&E'&T').
    + now rewrite <- app_assoc.
    + intros u Hu. apply Hhigh. now right.
    + exists s', c', l', L', W'. split; [exact E'|].
      replace (Z.to_nat (goal - (c + l))) with (S (Z.to_nat (goal - (c1 + l1)))) by lia.
      rewrite <- app_assoc in T'. exact T'.
Qed.

(** ** The whole function *)

Lemma settle_ok fuel s0 L0 ds s c l L W :
  taken s0 L0 ds s c l L W -> (length (ch v) <= fuel)%nat ->
  exists s', settle fuel s v c l = Ret s' /\ inv As ch None None s' L W /\
    fits As None s' L 0 /\ (forall u, descs s' u = descs s u) /\ cnt L s' v = cnt L s v.
Proof.
  intros [[H Hfit] _ _ _ _] Hf. unfold settle.
  set (s1 := upd_act s v (add_local (- c))).
  assert (Hs1 : forall x, acts s1 x = if decide (x = v) then add_local (- c) (acts s x) else acts s x).
  { intros x. unfold s1. cbn. rewrite fn_at. decs; now subst. }
  assert (T1 : tree As ch s1).
  { apply (tree_same As ch (credited s c l)); [apply H| |done]. intros a _. rewrite Hs1.
    destruct (credited_same s c l a) as (->&_). decs; done. }
  destruct (for_each_ancestor_spec As ch fuel
    (fun y => Ret (add_pending l (add_total (- c) y))) (fun y => add_pending l (add_total (- c) y))
    s1 v T1 Hv Hf) as (s'&E&Ha&Hd&Hal&Hkl&Hr); [done|done|].
  exists s'. split; [exact E|].
  assert (A : alike (credited s c l) s').
  { split; try done. intros a. rewrite Ha, Hs1. unfold credited. cbn. decs; done. }
  assert (Hcs : forall a, cnt L s' a = cnt L s a).
  { intros a. assert (Hc := al_core _ _ A a). unfold core in Hc. rewrite <- (credited_cnt L s c l).
    unfold cnt. assert (Ep : priorities (acts s' a) = priorities (acts (credited s c l) a)) by congruence.
    now rewrite Ep. }
  split; [now apply (alike_inv As ch _ _ (credited s c l))|]. split; [|split; [|apply Hcs]].
  - eapply fits_le; [exact Hfit| |lia]. intros a _. rewrite Hcs. lia.
  - intros u. rewrite (al_descs _ _ A). done.
Qed.

Lemma take_stage {A} (n m : nat) (l1 l2 : list A) :
  m = length (take n l1) -> take n l1 ++ take (n - m) l2 = take n (l1 ++ l2).
Proof.
  intros ->. rewrite take_app, length_take. f_equal. f_equal. lia.
Qed.

(** A guarded stage. *)
Lemma stage_skip s0 L0 goal ds s c l L W (xs : list Z) :
  taken s0 L0 ds s c l L W -> goal <= c + l ->
  taken s0 L0 (ds ++ take (Z.to_nat (goal - (c + l))) xs) s c l L W.
Proof.
  intros T Hge. replace (Z.to_nat (goal - (c + l))) with 0%nat by lia. cbn. now rewrite app_nil_r.
Qed.

Section run.
Context (fuel : nat) (s : kstate) (L W : Z -> list Z) (goal : Z) (low high : list Z).
Context (H : inv As ch None None s L W) (Hfit : fits As None s L 1).
Context (Hroom : cnt L s v < Z.of_nat fuel) (Hch : (length (ch v) <= fuel)%nat).
Context (Hpages : pages_ok s).
Context (Hnd : NoDup (low ++ high)) (Htree : forall u, u ∈ low ++ high -> u ∈ priorities (acts s v)).
Context (Hlow : forall u, u ∈ low -> priority (pol (descs s u)) < OBJECT_PRIORITY_LRU).
Context (Hhigh : forall u, u ∈ high -> OBJECT_PRIORITY_LRU < priority (pol (descs s u))).

(** The order in which objects are selected. *)
Definition order : list Z := low ++ L (hdr Inactive v) ++ L (hdr Active v) ++ high.

Lemma nothing_taken : taken s L [] s 0 0 L W.
Proof.
  assert (Hcore : forall a, core (acts (credited s 0 0) a) = core (acts s a) \/ a ∉ As).
  { intros a. destruct (decide (a ∈ As)) as [Ha|]; [left|now right].
    assert (Hb := inv_bounds As ch _ _ _ _ _ 1 a a H Hfit Ha (chain_self As ch s a (i_tree _ _ _ _ _ _ _ H) Ha)).
    assert (Hu : forall x, 0 <= x < 2 ^ 32 -> u32 (x + - 0) = x /\ u32 (x + 0) = x).
    { intros x Hx. rewrite !Z.add_0_r. now rewrite u32_small. }
    unfold len in Hb.
    destruct (Hu (frames_local (acts s a)) ltac:(lia)) as [H1 _].
    destruct (Hu (frames_total (acts s a)) ltac:(lia)) as [H2 _].
    destruct (Hu (frames_pending_eviction (acts s a)) ltac:(lia)) as [_ H3].
    unfold core, credited. cbn [acts]. cbv zeta. decs; unfold add_local, add_total, add_pending; cbn [parent priorities
      priorities_count frames_local frames_total frames_pending_eviction]; rewrite ?H1, ?H2, ?H3; done. }
  split; [split; [|exact Hfit]|exact Hpages| |done|done].
  - assert (Hacts : forall a, a ∈ As -> core (acts (credited s 0 0) a) = core (acts s a)) by naive_solver.
    unfold core in Hacts.
    apply (inv_change As ch None None s L W _ _ _ _ _ v 0 0 H Hv); try done; try apply H.
    + intros a. now destruct (credited_same s 0 0 a) as (->&_).
    + intros u a Ha. destruct (credited_same s 0 0 a) as (_&->&_). now apply (i_tkey _ _ _ _ _ _ _ H).
    + intros a Ha. destruct (credited_same s 0 0 a) as (_&->&->). now apply (i_pcount _ _ _ _ _ _ _ H).
    + intros a _. rewrite credited_cnt. decs; lia.
    + intros a _. decs; lia.
    + intros a Ha. specialize (Hacts a Ha).
      assert (frames_local (acts (credited s 0 0) a) = frames_local (acts s a)) by congruence.
      assert (frames_total (acts (credited s 0 0) a) = frames_total (acts s a)) by congruence.
      assert (frames_pending_eviction (acts (credited s 0 0) a) = frames_pending_eviction (acts s a))
        by congruence.
      destruct (decide (a = v)), (decide (a ∈ ch v)); lia.
  - intros u. now rewrite decide_False by (apply not_elem_of_nil).
Qed.

Lemma node_key u : u ∈ low ++ high -> tkey (descs s u) = Some v.
Proof. intros Hu. now apply Htree, (i_tkey _ _ _ _ _ _ _ H u v Hv) in Hu as [_ Hu]. Qed.

(** The lists and the tree have no object in common. *)
Lemma order_nodup : NoDup order.
Proof.
  assert (Hl : forall u k, u ∈ L (hdr k v) -> key (descs s u) = Some (hdr k v)).
  { intros u k Hu. now apply (i_key _ _ _ _ _ _ _ H) in Hu as [_ Hu]. }
  assert (Ht : forall u h, tkey (descs s u) = Some v -> key (descs s u) <> Some h).
  { intros u h. unfold tkey, key. destruct (owner _); [|done].
    destruct (eviction_candidate _); [done|]. now destruct (_ =? _). }
  assert (Hs := fun h => sep_nodup _ (KList.rep_sep _ _ (i_lists _ _ _ _ _ _ _ H)) h).
  apply NoDup_app in Hnd as (H1&H12&H2). unfold order.
  assert (Hne : forall u k, u ∈ low ++ high -> u ∈ L (hdr k v) -> False).
  { intros u k Hu%node_key Hu'%Hl. now apply (Ht u (hdr k v) Hu). }
  rewrite !NoDup_app. repeat split; auto.
  - intros u Hu. rewrite !elem_of_app. intros [?|[?|?]]; [..|now apply (H12 u)];
      eapply Hne; try eassumption; rewrite elem_of_app; auto.
  - intros u Hu. rewrite elem_of_app. intros [Hu'|?].
    + apply Hl in Hu, Hu'. rewrite Hu in Hu'. injection Hu' as [? _]%hdr_inj. done.
    + eapply Hne; try eassumption; rewrite elem_of_app; auto.
  - intros u Hu Hu'. eapply Hne; try eassumption; rewrite elem_of_app; auto.
Qed.

(** A guarded loop over a list, with [xs] before it in the order. *)
Lemma list_stage (P : Z -> Prop) body k k' n xs s1 c1 l1 L1 W1 :
  let g := Z.to_nat goal in
  taken s L (take g xs) s1 c1 l1 L1 W1 -> L1 (hdr k v) = L (hdr k v) ->
  k = Active \/ k = Inactive -> body_ok P body k k' n -> (length (L (hdr k v)) <= n)%nat ->
  (c1 + l1 < goal -> forall d, d ∈ L (hdr k v) -> to_write (selected written d (descs s d)) = true \/ P d) ->
  exists s2 c2 l2 L2 W2,
    (if c1 + l1 <? goal then
       list_loop fuel body goal s1 (KList.list_head (alists s1) (hdr k v)) (c1 + l1) l1
     else Ret (s1, c1 + l1, l1)) = Ret (s2, c2 + l2, l2) /\
    taken s L (take g (xs ++ L (hdr k v))) s2 c2 l2 L2 W2 /\ L2 (hdr k' v) = L1 (hdr k' v).
Proof.
  intros g T E Hk HB Hn HP. assert (C := tk_count _ _ _ _ _ _ _ _ T). assert (Hlt := length_take xs g).
  rewrite <- (take_stage g (length (take g xs))) by done.
  replace (g - length (take g xs))%nat with (Z.to_nat (goal - (c1 + l1))) by lia.
  destruct (Z.ltb_spec (c1 + l1) goal) as [Hc|Hc].
  - unfold KList.list_head. rewrite (KList.head_rep _ L1) by apply T. rewrite E.
    destruct (list_loop_ok P body k k' n s L goal (L (hdr k v)) fuel (take g xs) s1 c1 l1 L1 W1)
      as (s2&c2&l2&L2&W2&E2&T2&EA2); try done.
    { unfold cnt, len in Hroom. destruct Hk as [-> | ->]; lia. }
    { now apply HP. }
    exists s2, c2, l2, L2, W2. done.
  - exists s1, c1, l1, L1, W1. split; [done|]. split; [|done]. now apply stage_skip.
Qed.

Lemma stages : (high <> [] \/ forall d, d ∈ L (hdr Inactive v) -> to_write (selected written d (descs s d)) = true) ->
  exists s' c l L' W',
    reclaim_objects live written status zeroed fuel s v goal (low ++ high) = Ret (s', c + l, l) /\
    taken s L (take (Z.to_nat goal) order) s' c l L' W'.
Proof.
  intros Hnull. assert (Hon := order_nodup). unfold order, reclaim_objects in *.
  destruct (low_loop_ok s L goal high low [] s 0 0 L W nothing_taken) as (s1&c1&l1&L1&W1&E1&T1&EA1&EI1).
  { exact Hnd. }
  { intros u Hu. split; [apply node_key; rewrite elem_of_app; auto|now apply Hlow]. }
  { intros u Hu. split; [apply node_key; rewrite elem_of_app; auto|now apply Hhigh]. }
  cbn [app] in *. change (0 + 0) with 0 in E1, T1. rewrite Z.sub_0_r in E1, T1. rewrite E1.
  cbn [mbind exec_bind]. set (g := Z.to_nat goal) in *.
  assert (C1 := tk_count _ _ _ _ _ _ _ _ T1). assert (Hlt := length_take low g).
  set (desc := hd_or (drop g low ++ high) None).
  destruct (list_stage (fun _ => desc <> None)
    (fun s d => take_inactive live written status zeroed fuel desc s v d)
    Inactive Active (length (L (hdr Inactive v))) low s1 c1 l1 L1 W1)
    as (s2&c2&l2&L2&W2&->&T2&EA2); try done; [now right|..]; cbn [mbind exec_bind].
  { intros s3 c3 l3 L3 W3 d rest Hs3 Hp3 E3 Hn3 Hd3. apply (take_inactive_ok fuel desc s3 c3 l3 L3 W3); auto.
    - unfold cnt, len in Hroom. lia.
    - tauto. }
  { intros Hc d Hd. destruct Hnull as [Hh|Hw]; [right|left; now apply Hw].
    unfold desc. rewrite drop_ge by lia. cbn. now destruct high. }
  destruct (list_stage (fun _ => True)
    (fun s d => take_active live written status zeroed fuel s v d)
    Active Inactive (length (L (hdr Active v))) (low ++ L (hdr Inactive v)) s2 c2 l2 L2 W2)
    as (s3&c3&l3&L3&W3&->&T3&_); try done; [congruence|now left|..|auto|]; cbn [mbind exec_bind].
  { intros s4 c4 l4 L4 W4 d rest Hs4 Hp4 E4 Hn4 _. apply (take_active_ok fuel s4 c4 l4 L4 W4); auto.
    unfold cnt, len in Hroom. lia. }
  fold g in T3.
  assert (C3 := tk_count _ _ _ _ _ _ _ _ T3). rewrite <- app_assoc in T3, C3.
  assert (Hlt3 := length_take (low ++ L (hdr Inactive v) ++ L (hdr Active v)) g).
  (* the objects of high priority *)
  replace (low ++ L (hdr Inactive v) ++ L (hdr Active v) ++ high)
    with ((low ++ L (hdr Inactive v) ++ L (hdr Active v)) ++ high) by now rewrite <- !app_assoc.
  rewrite <- (take_stage g (length (take g (low ++ L (hdr Inactive v) ++ L (hdr Active v))))) by done.
  replace (g - length (take g (low ++ L (hdr Inactive v) ++ L (hdr Active v))))%nat
    with (Z.to_nat (goal - (c3 + l3))) by lia.
  destruct (Z.ltb_spec (c3 + l3) goal) as [Hc|Hc].
  - rewrite !length_app in Hlt3. rewrite drop_ge by lia. cbn [app].
    destruct (high_loop_ok s L goal high _ s3 c3 l3 L3 W3 T3) as (s4&c4&l4&L4&W4&E4&T4).
    + rewrite take_ge by (rewrite !length_app; lia). now rewrite <- !app_assoc.
    + intros u Hu. split; [apply node_key; rewrite elem_of_app; auto|now apply Hhigh].
    + exists s4, c4, l4, L4, W4. done.
  - exists s3, c3, l3, L3, W3. split; [done|]. now apply stage_skip.
Qed.

Lemma reclaim_ok :
  0 < goal -> order <> [] ->
  (high <> [] \/ forall d, d ∈ L (hdr Inactive v) -> to_write (selected written d (descs s d)) = true) ->
  let picked := take (Z.to_nat goal) order in
  exists s' L' W', reclaim_from live written status zeroed fuel s v goal (low ++ high)
      = Ret (s', Z.of_nat (length picked)) /\
    inv As ch None None s' L' W' /\
    (forall u, descs s' u = if decide (u ∈ picked) then selected written u (descs s u) else descs s u).
Proof.
  intros Hg Ho Hnull picked. destruct (stages Hnull) as (s1&c&l&L1&W1&E1&T1).
  assert (Hfit0 : fits As None s L 0) by (eapply fits_le; eauto; lia).
  assert (Hlen : forall L0 s0 k, cnt L0 s0 v <= cnt L s v -> k <> EvictionClean -> (length (L0 (hdr k v)) < fuel)%nat).
  { intros L0 s0 k Hc Hk. unfold cnt, len in *. destruct k; (lia || congruence). }
  unfold reclaim_from. rewrite (counts_ok As ch fuel None s L W 0 v H) by (done || lia || (intros k Hk; now apply (Hlen L s))).
  cbn [mbind exec_bind]. rewrite E1. cbn [mbind exec_bind]. replace (c + l - l) with c by lia.
  destruct (settle_ok fuel s L _ s1 c l L1 W1 T1 Hch) as (s'&->&H'&Hfit'&Hd'&Hcnt'). cbn [mbind exec_bind].
  rewrite (counts_ok As ch fuel None s' L1 W1 0 v H') by
    (done || lia || (intros k Hk; apply (Hlen L1 s'); [rewrite Hcnt'; apply (tk_cnt _ _ _ _ _ _ _ _ T1)|done])).
  cbn [mbind exec_bind]. assert (Hct := tk_count _ _ _ _ _ _ _ _ T1). fold picked in Hct, T1.
  assert (Hpos : (0 < length picked)%nat).
  { unfold picked. rewrite length_take. destruct order; [done|]. cbn. lia. }
  rewrite (proj2 (Z.ltb_lt _ _)) by lia. cbn [check mbind exec_bind].
  exists s', L1, W1. rewrite Hct. split; [done|]. split; [done|]. intros u. rewrite Hd'. apply T1.
Qed.

(** With the tree exhausted and a clean object first on the inactive list. *)
Lemma null_deref d rest :
  high = [] -> L (hdr Inactive v) = d :: rest -> to_write (selected written d (descs s d)) = false ->
  Z.of_nat (length low) < goal ->
  reclaim_from live written status zeroed fuel s v goal (low ++ high) = Crash invalid_access.
Proof.
  intros Eh E Ew Hg. unfold reclaim_from.
  rewrite (counts_ok As ch fuel None s L W 1 v H)
    by (done || lia || (intros k Hk; unfold cnt, len in *; destruct k; (lia || congruence))).
  cbn [mbind exec_bind]. unfold reclaim_objects.
  destruct (low_loop_ok s L goal high low [] s 0 0 L W nothing_taken) as (s1&c1&l1&L1&W1&E1&T1&EA1&EI1).
  { exact Hnd. }
  { intros u Hu. split; [apply node_key; rewrite elem_of_app; auto|now apply Hlow]. }
  { intros u Hu. split; [apply node_key; rewrite elem_of_app; auto|now apply Hhigh]. }
  change (0 + 0) with 0 in E1, T1. rewrite Z.sub_0_r in E1, T1. cbn [app] in T1. rewrite E1. cbn [mbind exec_bind].
  rewrite drop_ge by lia. rewrite Eh. cbn [app hd_or].
  assert (Hc := tk_count _ _ _ _ _ _ _ _ T1). rewrite take_ge in Hc, T1 by lia.
  rewrite (proj2 (Z.ltb_lt _ _)) by lia. unfold KList.list_head.
  rewrite (KList.head_rep _ L1), EI1, E by apply T1. cbn [hd_or].
  assert (Hr : (length (L1 (hdr Inactive v)) < fuel)%nat) by (rewrite EI1; unfold cnt, len in Hroom; lia).
  destruct fuel as [|f] eqn:Ef; [lia|]. cbn [list_loop]. rewrite (proj2 (Z.ltb_lt _ _)) by lia. cbv zeta.
  rewrite E in EI1. rewrite <- Ef in *.
  rewrite (take_inactive_null fuel s1 c1 l1 L1 W1 d rest); try done; try apply T1; try congruence; [lia|].
  assert (Hd : d ∈ L1 (hdr Inactive v)) by (rewrite EI1; left).
  destruct (sel_listed _ _ _ _ _ _ _ (tk_sel _ _ _ _ _ _ _ _ T1) Hd) as (_&Ec&_); [now right|].
  rewrite (tk_descs _ _ _ _ _ _ _ _ T1). destruct (decide (d ∈ low)) as [Hin|]; [|done].
  rewrite (tk_descs _ _ _ _ _ _ _ _ T1), decide_True in Ec by done. done.
Qed.

End run.

End reclaim.

(** C7: reclaiming from a victim takes exactly the first [goal] objects (all, when
    there are fewer) in the order low priority, inactive, active, high priority, each
    list and tree from its head, and reports their number; each becomes an eviction
    candidate, dirty if it was or if unmapping reported a write; other
    descriptors stay as they are.  Afterwards every object is on the lists that
    its state names, dirty candidates in the laundry and clean ones among the
    available frames, and the local, total and pending counters of all activities
    are exact; no assertion fails.  Conditions: the lists and counters are
    consistent before ([inv], [fits]); the goal is positive and the victim has
    something to reclaim (else the assertion on the count at the end fails); the
    victim's objects are live, their pages' status bits clear, and the pages that
    were not written to are zero ([pages_ok]: this is what the code asserts of each
    object it takes, [reclaim_from] keeps these assertions); the lists of low and
    high priority are those of the victim's tree; there is an object of high
    priority, or no inactive object is clean (see [reclaim_null_pointer]); and
    there is fuel for the victim's objects and children. *)
Theorem reclaim_selects As ch live written status zeroed fuel s L W v goal low high :
  inv As ch None None s L W -> fits As None s L 1 -> cnt L s v < Z.of_nat fuel ->
  (length (ch v) <= fuel)%nat -> v ∈ As -> pages_ok v live written status zeroed s ->
  NoDup (low ++ high) -> (forall u, u ∈ low ++ high <-> u ∈ priorities (acts s v)) ->
  (forall u, u ∈ low -> priority (pol (descs s u)) < OBJECT_PRIORITY_LRU) ->
  (forall u, u ∈ high -> OBJECT_PRIORITY_LRU < priority (pol (descs s u))) ->
  0 < goal -> order v L low high <> [] ->
  (high <> [] \/ forall d, d ∈ L (hdr Inactive v) -> to_write (selected written d (descs s d)) = true) ->
  let picked := take (Z.to_nat goal) (order v L low high) in
  exists s' L' W', reclaim_from live written status zeroed fuel s v goal (low ++ high)
      = Ret (s', Z.of_nat (length picked)) /\
    inv As ch None None s' L' W' /\
    (forall u, descs s' u = if decide (u ∈ picked) then selected written u (descs s u) else descs s u).
Proof.
  intros H Hfit Hf Hch Hv Hp Hnd Ht Hl Hh Hg Ho Hn.
  apply (reclaim_ok As ch v Hv live written status zeroed fuel s L W goal low high); auto.
  intros u. apply Ht.
Qed.

(** when the victim has no object of high priority and the objects of low
    priority do not suffice, a clean object at the head of the inactive list
    makes the loop read through the variable of the loop before it, which is a
    null pointer then. *)
Theorem reclaim_null_pointer As ch live written status zeroed fuel s L W v goal low d rest :
  inv As ch None None s L W -> fits As None s L 1 -> cnt L s v < Z.of_nat fuel ->
  (length (ch v) <= fuel)%nat -> v ∈ As -> pages_ok v live written status zeroed s ->
  NoDup low -> (forall u, u ∈ low <-> u ∈ priorities (acts s v)) ->
  (forall u, u ∈ low -> priority (pol (descs s u)) < OBJECT_PRIORITY_LRU) ->
  Z.of_nat (length low) < goal ->
  L (hdr Inactive v) = d :: rest -> to_write (selected written d (descs s d)) = false ->
  reclaim_from live written status zeroed fuel s v goal low = Crash invalid_access.
Proof.
  intros H Hfit Hf Hch Hv Hp Hnd Ht Hl Hg E Ew. rewrite <- (app_nil_r low) in Hnd |- *.
  apply (null_deref As ch v Hv live written status zeroed fuel s L W goal low [] H Hfit Hf Hch Hp Hnd)
    with (d := d) (rest := rest); auto.
  - intros u. rewrite app_nil_r. apply Ht.
  - intros u Hu. now apply not_elem_of_nil in Hu.
Qed.

Lemma aged_pages g : pages_ok 2 (fun _ => true) (fun _ => false) (fun _ => false) (fun _ => true) (aged g false).
Proof. intros d _ _. done. Qed.

Lemma reclaim_selects_witness : exists s' L' W',
  reclaim_from (fun _ => true) (fun _ => false) (fun _ => false) (fun _ => true) 9 (aged 128 false) 2 1 []
    = Ret (s', 1) /\
  inv [1; 2] shared_chain None None s' L' W' /\
  descs s' 100 = Desc (Some 2) (Policy false OBJECT_PRIORITY_LRU) true false 128.
Proof.
  destruct (reclaim_selects [1; 2] shared_chain (fun _ => true) (fun _ => false) (fun _ => false) (fun _ => true)
    9 (aged 128 false) (aged_lists 128) (fun _ => []) 2 1 [] [] (aged_inv 128 false)) as (s'&L'&W'&E&H&Hd).
  - vm_compute. reflexivity.
  - vm_compute. reflexivity.
  - cbn. lia.
  - set_solver.
  - apply aged_pages.
  - constructor.
  - intros u. cbn. set_solver.
  - intros u Hu. now apply not_elem_of_nil in Hu.
  - intros u Hu. now apply not_elem_of_nil in Hu.
  - lia.
  - discriminate.
  - right. intros d Hu. now apply not_elem_of_nil in Hu.
  - exists s', L', W'. split; [exact E|]. split; [exact H|]. now rewrite Hd.
Defined.

Lemma reclaim_null_pointer_witness :
  reclaim_from (fun _ => true) (fun _ => false) (fun _ => false) (fun _ => true) 9 (aged 0 false) 2 1 []
  = Crash invalid_access.
Proof.
  apply (reclaim_null_pointer [1; 2] shared_chain (fun _ => true) (fun _ => false) (fun _ => false) (fun _ => true)
    9 (aged 0 false) (aged_lists 0) (fun _ => []) 2 1 [] 100 [] (aged_inv 0 false)).
  - vm_compute. reflexivity.
  - vm_compute. reflexivity.
  - cbn. lia.
  - set_solver.
  - apply aged_pages.
  - constructor.
  - intros u. cbn. set_solver.
  - intros u Hu. now apply not_elem_of_nil in Hu.
  - cbn. lia.
  - reflexivity.
  - reflexivity.
Defined.

End Reclaim.
