(* ===== verification/Folio.v ===== *)
(** * Folio headers (hurd/folio.h)

    The unit of storage is the folio: a header page and 128 object pages.  The
    header says, for each object, its type, version, policy and status.  The
    records and the accessors are the kernel's ([RM_INTERN]); object -1 is the
    folio itself.  [slot_of] is what a header says about an object, all its
    arrays together, and [folio_header_slots] that the accessors read and write
    exactly the slot they are given. *)

From S2P Require Import Prelude L4Math AddrTrans Cap BitArray.

Module Folio.

Definition FOLIO_OBJECTS : Z := 128.

(** An element of the array [misc]; the policy's fields keep the bits that fit. *)
Record misc := Misc {
  m_version : Z;
  m_content : bool;
  m_discardable : Z;
  m_priority : Z
}.

(** The part of [struct folio] that describes its objects; the heads of their wait
    queues and the folio's place in its owner's list are not part of it. *)
Record folio := MkFolio {
  miscs : list misc;
  types : list cap_type;
  discarded : list Z;
  dirty : list Z;
  referenced : list Z
}.

(** A page of zeros seen as a header. *)
Definition zero_folio : folio :=
  MkFolio (replicate 129 (Misc 0 false 0 0)) (replicate 128 cap_void)
    (replicate 16 0) (replicate 17 0) (replicate 17 0).

(** The range of the accessors that accept the folio itself, and of the others. *)
Definition in_folio (object : Z) : exec unit :=
  check ((-1 <=? object) && (object <? FOLIO_OBJECTS)) assertion_failed.
Definition is_object (object : Z) : exec unit :=
  check ((0 <=? object) && (object <? FOLIO_OBJECTS)) assertion_failed.

(** [folio->misc[object + 1]], and a change of it. *)
Definition get_misc (f : folio) (object : Z) : exec misc :=
  access (miscs f !! Z.to_nat (object + 1)).
Definition set_misc (f : folio) (object : Z) (m : misc) : folio :=
  MkFolio (<[Z.to_nat (object + 1) := m]> (miscs f)) (types f) (discarded f) (dirty f) (referenced f).

Definition folio_object_type (f : folio) (object : Z) : exec cap_type :=
  _ ← in_folio object;
  if object =? -1 then Ret cap_folio else access (types f !! Z.to_nat object).

Definition folio_object_type_set (f : folio) (object : Z) (type : cap_type) : exec folio :=
  _ ← is_object object;
  Ret (MkFolio (miscs f) (<[Z.to_nat object := type]> (types f)) (discarded f) (dirty f) (referenced f)).

Definition folio_object_policy (f : folio) (object : Z) : exec object_policy :=
  _ ← in_folio object;
  m ← get_misc f object;
  Ret (OBJECT_POLICY (m_discardable m) (m_priority m)).

Definition folio_object_policy_set (f : folio) (object : Z) (p : object_policy) : exec folio :=
  _ ← in_folio object;
  m ← get_misc f object;
  Ret (set_misc f object (Misc (m_version m) (m_content m) (wrap 1 (op_discardable p))
                            (swrap OBJECT_PRIORITY_BITS (op_priority p)))).

Definition folio_object_version (f : folio) (object : Z) : exec Z :=
  _ ← in_folio object;
  m ← get_misc f object;
  Ret (m_version m).

Definition folio_object_version_set (f : folio) (object version : Z) : exec folio :=
  _ ← in_folio object;
  m ← get_misc f object;
  Ret (set_misc f object (Misc (wrap CAP_VERSION_BITS version) (m_content m)
                            (m_discardable m) (m_priority m))).

Definition folio_object_content (f : folio) (object : Z) : exec bool :=
  _ ← in_folio object;
  m ← get_misc f object;
  Ret (m_content m).

Definition folio_object_content_set (f : folio) (object : Z) (content : bool) : exec folio :=
  _ ← in_folio object;
  m ← get_misc f object;
  Ret (set_misc f object (Misc (m_version m) content (m_discardable m) (m_priority m))).

Definition folio_object_discarded (f : folio) (object : Z) : exec bool :=
  _ ← is_object object;
  bit_test (discarded f) object.

Definition folio_object_discarded_set (f : folio) (object : Z) (valid : bool) : exec folio :=
  _ ← is_object object;
  a ← bit_set_to (discarded f) 16 object valid;
  Ret (MkFolio (miscs f) (types f) a (dirty f) (referenced f)).

Definition folio_object_referenced (f : folio) (object : Z) : exec bool :=
  _ ← in_folio object;
  bit_test (referenced f) (object + 1).

Definition folio_object_referenced_set (f : folio) (object : Z) (p : bool) : exec folio :=
  _ ← in_folio object;
  a ← bit_set_to (referenced f) 17 (object + 1) p;
  Ret (MkFolio (miscs f) (types f) (discarded f) (dirty f) a).

Definition folio_object_dirty (f : folio) (object : Z) : exec bool :=
  _ ← in_folio object;
  bit_test (dirty f) (object + 1).

Definition folio_object_dirty_set (f : folio) (object : Z) (p : bool) : exec folio :=
  _ ← in_folio object;
  a ← bit_set_to (dirty f) 17 (object + 1) p;
  Ret (MkFolio (miscs f) (types f) (discarded f) a (referenced f)).

(** ** Slots *)

(** What a header says about an object. *)
Record slot := Slot {
  s_type : cap_type;
  s_version : Z;
  s_content : bool;
  s_policy : object_policy;
  s_discarded : bool;
  s_dirty : bool;
  s_referenced : bool
}.

Definition misc_of (f : folio) (i : Z) : misc := nth (Z.to_nat (i + 1)) (miscs f) (Misc 0 false 0 0).

Definition slot_of (f : folio) (i : Z) : slot :=
  Slot (if i =? -1 then cap_folio else nth (Z.to_nat i) (types f) cap_void)
    (m_version (misc_of f i)) (m_content (misc_of f i))
    (OBJECT_POLICY (m_discardable (misc_of f i)) (m_priority (misc_of f i)))
    ((0 <=? i) && testb (discarded f) i) (testb (dirty f) (i + 1)) (testb (referenced f) (i + 1)).

Record wf (f : folio) : Prop := Wf {
  w_miscs : length (miscs f) = 129%nat;
  w_types : length (types f) = 128%nat;
  w_discarded : array_ok (discarded f) 16;
  w_dirty : array_ok (dirty f) 17;
  w_referenced : array_ok (referenced f) 17;
  w_version : Forall (fun m => 0 <= m_version m < 2 ^ CAP_VERSION_BITS) (miscs f)
}.

(** [f'] is [f] with the slot of object [i] changed to [x]. *)
Definition upd_slot (f f' : folio) (i : Z) (x : slot) : Prop :=
  wf f' /\ forall j, -1 <= j < 128 -> slot_of f' j = if decide (j = i) then x else slot_of f j.

Definition with_type (t : cap_type) (s : slot) : slot :=
  Slot t (s_version s) (s_content s) (s_policy s) (s_discarded s) (s_dirty s) (s_referenced s).
Definition with_version (v : Z) (s : slot) : slot :=
  Slot (s_type s) v (s_content s) (s_policy s) (s_discarded s) (s_dirty s) (s_referenced s).
Definition with_content (c : bool) (s : slot) : slot :=
  Slot (s_type s) (s_version s) c (s_policy s) (s_discarded s) (s_dirty s) (s_referenced s).
Definition with_policy (p : object_policy) (s : slot) : slot :=
  Slot (s_type s) (s_version s) (s_content s) p (s_discarded s) (s_dirty s) (s_referenced s).
Definition with_discarded (b : bool) (s : slot) : slot :=
  Slot (s_type s) (s_version s) (s_content s) (s_policy s) b (s_dirty s) (s_referenced s).
Definition with_dirty (b : bool) (s : slot) : slot :=
  Slot (s_type s) (s_version s) (s_content s) (s_policy s) (s_discarded s) b (s_referenced s).
Definition with_referenced (b : bool) (s : slot) : slot :=
  Slot (s_type s) (s_version s) (s_content s) (s_policy s) (s_discarded s) (s_dirty s) b.

Lemma in_folio_Ret i : -1 <= i < 128 -> in_folio i = Ret tt.
Proof. intros. unfold in_folio, FOLIO_OBJECTS. now rewrite (proj2 (Z.leb_le _ _)), (proj2 (Z.ltb_lt _ _)) by lia. Qed.

Lemma is_object_Ret i : 0 <= i < 128 -> is_object i = Ret tt.
Proof. intros. unfold is_object, FOLIO_OBJECTS. now rewrite (proj2 (Z.leb_le _ _)), (proj2 (Z.ltb_lt _ _)) by lia. Qed.

Lemma nth_access {A} (l : list A) n d : (n < length l)%nat -> access (l !! n) = Ret (nth n l d).
Proof.
  intros H. destruct (lookup_lt_is_Some_2 l n H) as [x E]. rewrite E. cbn. f_equal.
  symmetry. now apply nth_lookup_Some with (d := d) in E.
Qed.

Lemma nth_insert {A} (l : list A) n m x d : (n < length l)%nat ->
  nth m (<[n := x]> l) d = if decide (m = n) then x else nth m l d.
Proof.
  intros H. rewrite !nth_lookup. case_decide; [subst; now rewrite list_lookup_insert_eq|].
  now rewrite list_lookup_insert_ne by congruence.
Qed.

Lemma get_misc_Ret f i : wf f -> -1 <= i < 128 -> get_misc f i = Ret (misc_of f i).
Proof. intros H Hi. apply nth_access. rewrite (w_miscs _ H). lia. Qed.

Lemma misc_of_range f i : wf f -> -1 <= i < 128 -> 0 <= m_version (misc_of f i) < 2 ^ 20.
Proof.
  intros H Hi. refine (proj1 (Forall_forall _ (miscs f)) (w_version _ H) (misc_of f i) _).
  apply list_elem_of_In, nth_In. rewrite (w_miscs _ H). lia.
Qed.

(** Changing the element of an object in [misc]. *)
Lemma set_misc_upd f i m :
  wf f -> -1 <= i < 128 -> 0 <= m_version m < 2 ^ CAP_VERSION_BITS ->
  wf (set_misc f i m) /\
  forall j, -1 <= j < 128 ->
    misc_of (set_misc f i m) j = if decide (j = i) then m else misc_of f j.
Proof.
  intros H Hi Hm. split.
  - split; try apply H; cbn.
    + rewrite length_insert. apply H.
    + apply Forall_insert; [apply H|done].
  - intros j Hj. unfold misc_of, set_misc. cbn. rewrite nth_insert by (rewrite (w_miscs _ H); lia).
    repeat case_decide; (done || lia).
Qed.

(** A setter of the array [misc] changes the slot accordingly. *)
Lemma set_misc_slot f i m x :
  wf f -> -1 <= i < 128 -> 0 <= m_version m < 2 ^ CAP_VERSION_BITS ->
  x = Slot (s_type (slot_of f i)) (m_version m) (m_content m)
        (OBJECT_POLICY (m_discardable m) (m_priority m))
        (s_discarded (slot_of f i)) (s_dirty (slot_of f i)) (s_referenced (slot_of f i)) ->
  upd_slot f (set_misc f i m) i x.
Proof.
  intros H Hi Hm ->. destruct (set_misc_upd f i m H Hi Hm) as [H' Hj]. split; [done|].
  intros j Hr. unfold slot_of at 1. rewrite (Hj j Hr). case_decide; subst; reflexivity.
Qed.

Lemma OBJECT_POLICY_fields p :
  OBJECT_POLICY (wrap 1 (op_discardable p)) (swrap OBJECT_PRIORITY_BITS (op_priority p))
  = OBJECT_POLICY (op_discardable p) (op_priority p).
Proof.
  unfold OBJECT_POLICY. f_equal.
  - unfold swrap, wrap. now rewrite Z.add_mod_idemp_l.
  - apply swrap_small; [done|]. unfold swrap, OBJECT_PRIORITY_BITS.
    change (2 ^ (10 - 1)) with 512. change (2 ^ 10) with 1024.
    assert (Hm := Z.mod_pos_bound (op_priority p + 512) 1024 ltac:(done)). lia.
Qed.

(** ** The accessors on slots *)

Ltac open H Hi :=
  unfold folio_object_type, folio_object_type_set, folio_object_policy, folio_object_policy_set,
    folio_object_version, folio_object_version_set, folio_object_content, folio_object_content_set,
    folio_object_discarded, folio_object_discarded_set, folio_object_referenced,
    folio_object_referenced_set, folio_object_dirty, folio_object_dirty_set;
  rewrite ?(in_folio_Ret _ Hi), ?(is_object_Ret _ Hi); cbn [mbind exec_bind];
  rewrite ?(get_misc_Ret _ _ H Hi); cbn [mbind exec_bind].

Section accessors.
Context (f : folio) (H : wf f).

Lemma type_get i : -1 <= i < 128 -> folio_object_type f i = Ret (s_type (slot_of f i)).
Proof.
  intros Hi. open H Hi. cbn. destruct (Z.eqb_spec i (-1)); [done|]. apply nth_access.
  rewrite (w_types _ H). lia.
Qed.

Lemma version_get i : -1 <= i < 128 -> folio_object_version f i = Ret (s_version (slot_of f i)).
Proof. intros Hi. now open H Hi. Qed.

Lemma content_get i : -1 <= i < 128 -> folio_object_content f i = Ret (s_content (slot_of f i)).
Proof. intros Hi. now open H Hi. Qed.

Lemma policy_get i : -1 <= i < 128 -> folio_object_policy f i = Ret (s_policy (slot_of f i)).
Proof. intros Hi. now open H Hi. Qed.

Lemma discarded_get i : 0 <= i < 128 -> folio_object_discarded f i = Ret (s_discarded (slot_of f i)).
Proof.
  intros Hi. open H Hi. cbn. rewrite (proj2 (Z.leb_le 0 i)) by lia.
  apply (bit_test_spec _ 16); [apply H|lia].
Qed.

Lemma dirty_get i : -1 <= i < 128 -> folio_object_dirty f i = Ret (s_dirty (slot_of f i)).
Proof. intros Hi. open H Hi. apply (bit_test_spec _ 17); [apply H|lia]. Qed.

Lemma referenced_get i : -1 <= i < 128 -> folio_object_referenced f i = Ret (s_referenced (slot_of f i)).
Proof. intros Hi. open H Hi. apply (bit_test_spec _ 17); [apply H|lia]. Qed.

Lemma type_set i t : 0 <= i < 128 ->
  exists f', folio_object_type_set f i t = Ret f' /\ upd_slot f f' i (with_type t (slot_of f i)).
Proof.
  intros Hi. open H Hi. eexists. split; [reflexivity|]. split.
  - split; try apply H. cbn. rewrite length_insert. apply H.
  - intros j Hj. unfold slot_of. cbn. rewrite nth_insert by (rewrite (w_types _ H); lia).
    destruct (decide (j = i)) as [->|Hne].
    + rewrite (proj2 (Z.eqb_neq i (-1))), decide_True by lia. done.
    + destruct (Z.eqb_spec j (-1)); [done|]. now rewrite decide_False by lia.
Qed.

Lemma version_set i v : -1 <= i < 128 ->
  exists f', folio_object_version_set f i v = Ret f' /\
    upd_slot f f' i (with_version (wrap CAP_VERSION_BITS v) (slot_of f i)).
Proof.
  intros Hi. open H Hi. eexists. split; [reflexivity|].
  apply set_misc_slot; [done..| |reflexivity]. cbn. now apply wrap_range.
Qed.

Lemma content_set i c : -1 <= i < 128 ->
  exists f', folio_object_content_set f i c = Ret f' /\ upd_slot f f' i (with_content c (slot_of f i)).
Proof.
  intros Hi. open H Hi. eexists. split; [reflexivity|].
  apply set_misc_slot; [done..| |reflexivity]. now apply misc_of_range.
Qed.

Lemma policy_set i p : -1 <= i < 128 ->
  exists f', folio_object_policy_set f i p = Ret f' /\
    upd_slot f f' i (with_policy (OBJECT_POLICY (op_discardable p) (op_priority p)) (slot_of f i)).
Proof.
  intros Hi. open H Hi. eexists. split; [reflexivity|].
  apply set_misc_slot; [done..|now apply misc_of_range|]. cbn. now rewrite OBJECT_POLICY_fields.
Qed.

Lemma discarded_set i b : 0 <= i < 128 ->
  exists f', folio_object_discarded_set f i b = Ret f' /\
    upd_slot f f' i (with_discarded b (slot_of f i)).
Proof.
  intros Hi. open H Hi.
  destruct (bit_set_to_spec (discarded f) 16 i b) as (a&->&Ha&Hs); [apply H|lia|].
  eexists. split; [reflexivity|]. split; [split; try apply H; done|].
  intros j Hj. unfold slot_of. cbn. destruct (decide (j = i)) as [->|].
  - rewrite (Hs i), decide_True, (proj2 (Z.leb_le 0 i)) by lia. done.
  - destruct (Z.leb_spec 0 j); [|done]. now rewrite (Hs j), decide_False by lia.
Qed.

Lemma dirty_set i b : -1 <= i < 128 ->
  exists f', folio_object_dirty_set f i b = Ret f' /\ upd_slot f f' i (with_dirty b (slot_of f i)).
Proof.
  intros Hi. open H Hi.
  destruct (bit_set_to_spec (dirty f) 17 (i + 1) b) as (a&->&Ha&Hs); [apply H|lia|].
  eexists. split; [reflexivity|]. split; [split; try apply H; done|].
  intros j Hj. unfold slot_of. cbn. rewrite (Hs (j + 1)) by lia.
  destruct (decide (j = i)) as [->|]; [now rewrite decide_True|now rewrite decide_False by lia].
Qed.

Lemma referenced_set i b : -1 <= i < 128 ->
  exists f', folio_object_referenced_set f i b = Ret f' /\
    upd_slot f f' i (with_referenced b (slot_of f i)).
Proof.
  intros Hi. open H Hi.
  destruct (bit_set_to_spec (referenced f) 17 (i + 1) b) as (a&->&Ha&Hs); [apply H|lia|].
  eexists. split; [reflexivity|]. split; [split; try apply H; done|].
  intros j Hj. unfold slot_of. cbn. rewrite (Hs (j + 1)) by lia.
  destruct (decide (j = i)) as [->|]; [now rewrite decide_True|now rewrite decide_False by lia].
Qed.

End accessors.

Lemma version_range f i : wf f -> -1 <= i < 128 -> 0 <= s_version (slot_of f i) < 2 ^ 20.
Proof. apply misc_of_range. Qed.

(** [r] writes the slot of object [i], and nothing else. *)
Definition writes (f : folio) (r : exec folio) (i : Z) (x : slot) : Prop :=
  exists f', r = Ret f' /\ upd_slot f f' i x.

Lemma in_folio_Crash i : ~ -1 <= i < 128 -> in_folio i = Crash assertion_failed.
Proof. intros H. unfold in_folio, FOLIO_OBJECTS. destruct (_ && _) eqn:E; [zbool; lia|done]. Qed.

Lemma is_object_Crash i : ~ 0 <= i < 128 -> is_object i = Crash assertion_failed.
Proof. intros H. unfold is_object, FOLIO_OBJECTS. destruct (_ && _) eqn:E; [zbool; lia|done]. Qed.

(** C39: the accessors of a folio's header (type, version, content, policy,
    discarded, dirty, referenced, each with its setter), for every index [i].
    The header is an array of 129 slots, one for each object and one for the folio
    itself (index -1): an accessor reads the slot of its object, and a setter
    changes the field it is named for in that slot, to the bits that fit, and
    leaves every other field of every slot as it is (the arrays keep their
    lengths, and versions stay below 2^20).  The setter of the type and both
    accessors of the discarded status are for the 128 objects only: for the folio
    itself they fail the assertion on the index.  For every other index all
    accessors fail it.  The one condition is that the header's arrays have their
    lengths and elements their ranges ([wf]). *)
Theorem folio_header_slots f i t v c p b : wf f ->
  let x := slot_of f i in
  (if decide (-1 <= i < 128) then
     (folio_object_type f i = Ret (s_type x) /\ folio_object_version f i = Ret (s_version x) /\
      folio_object_content f i = Ret (s_content x) /\ folio_object_policy f i = Ret (s_policy x) /\
      folio_object_dirty f i = Ret (s_dirty x) /\ folio_object_referenced f i = Ret (s_referenced x)) /\
     writes f (folio_object_version_set f i v) i (with_version (v mod 2 ^ 20) x) /\
     writes f (folio_object_content_set f i c) i (with_content c x) /\
     writes f (folio_object_policy_set f i p) i (with_policy (OBJECT_POLICY (op_discardable p) (op_priority p)) x) /\
     writes f (folio_object_dirty_set f i b) i (with_dirty b x) /\
     writes f (folio_object_referenced_set f i b) i (with_referenced b x)
   else
     (folio_object_type f i = Crash assertion_failed /\ folio_object_version f i = Crash assertion_failed /\
      folio_object_content f i = Crash assertion_failed /\ folio_object_policy f i = Crash assertion_failed /\
      folio_object_dirty f i = Crash assertion_failed /\ folio_object_referenced f i = Crash assertion_failed) /\
     folio_object_version_set f i v = Crash assertion_failed /\
     folio_object_content_set f i c = Crash assertion_failed /\
     folio_object_policy_set f i p = Crash assertion_failed /\
     folio_object_dirty_set f i b = Crash assertion_failed /\
     folio_object_referenced_set f i b = Crash assertion_failed) /\
  (if decide (0 <= i < 128) then
     folio_object_discarded f i = Ret (s_discarded x) /\
     writes f (folio_object_type_set f i t) i (with_type t x) /\
     writes f (folio_object_discarded_set f i b) i (with_discarded b x)
   else
     folio_object_discarded f i = Crash assertion_failed /\
     folio_object_type_set f i t = Crash assertion_failed /\
     folio_object_discarded_set f i b = Crash assertion_failed).
Proof.
  intros H x. split; case_decide as Hi; unfold writes.
  - repeat split; auto using type_get, version_get, content_get, policy_get, dirty_get, referenced_get, version_set,
      content_set, policy_set, dirty_set, referenced_set.
  - assert (E := in_folio_Crash i Hi). repeat split; unfold folio_object_type, folio_object_version,
      folio_object_content, folio_object_policy, folio_object_dirty, folio_object_referenced,
      folio_object_version_set, folio_object_content_set, folio_object_policy_set, folio_object_dirty_set,
      folio_object_referenced_set; now rewrite E.
  - auto using discarded_get, type_set, discarded_set.
  - assert (E := is_object_Crash i Hi). unfold folio_object_discarded, folio_object_type_set,
      folio_object_discarded_set. now rewrite E.
Qed.

Lemma zero_folio_wf : wf zero_folio.
Proof. split; try done; [split; [now apply Forall_replicate|done]..|now apply Forall_replicate]. Qed.

Theorem folio_header_slots_witness :
  (folio_object_type zero_folio 5 = Ret (s_type (slot_of zero_folio 5)) /\
   folio_object_version zero_folio 5 = Ret (s_version (slot_of zero_folio 5))) /\
  writes zero_folio (folio_object_version_set zero_folio 5 (2 ^ 20 + 3)) 5
    (with_version ((2 ^ 20 + 3) mod 2 ^ 20) (slot_of zero_folio 5)) /\
  folio_object_type zero_folio (-1) = Ret cap_folio /\
  folio_object_type_set zero_folio (-1) cap_page = Crash assertion_failed.
Proof.
  destruct (folio_header_slots zero_folio 5 cap_page (2 ^ 20 + 3) true OBJECT_POLICY_DEFAULT true zero_folio_wf)
    as (((H1&H2&_)&H3&_)&_).
  destruct (folio_header_slots zero_folio (-1) cap_page 0 true OBJECT_POLICY_DEFAULT true zero_folio_wf)
    as (((H4&_)&_)&(_&H5&_)).
  split; [split; [exact H1|exact H2]|]. split; [exact H3|]. split; [exact H4|exact H5].
Defined.

End Folio.
