(* ===== verification/Objects.v ===== *)
(** * Objects in memory (viengoos/object.c, memory.c, cap.c)

    A capability names an object by its number (oid) and its version.  The kernel
    finds the object in memory by a hash table or, when it is not there, makes a
    frame for it: from the pool of free frames, or by evicting an object whose
    frame the pager has made available.  Evicting and destroying an object revokes
    the mappings of what it holds ([cap_shootdown]), and that finds objects again,
    so the functions call each other; the fuel of the recursive ones bounds the
    depth of the calls.

    An object is named by the number of its frame, which its address and its
    descriptor determine; addresses occur where frames enter and leave the pool.
    What the functions need of the accounting of memory and of the pool are the
    interfaces [Accounting] and [Frames]; the hardware's status bits, the pager,
    and the destruction of threads and activities are [Environment]. *)

From S2P Require Import Prelude L4Math Addr AddrTrans Cap BitArray Claim Folio.

Module Objects.

Definition PAGESIZE : Z := 4096.
Definition FOLIOS_CORE : Z := 4096 * 8.
Definition CAPPAGE_SLOTS : Z := 256.
Definition OBJECT_POLICY_VOID : object_policy := OBJECT_POLICY 0 OBJECT_PRIORITY_LRU.

(** ** The interfaces *)

(** The accounting of the frames (descriptors and lists). *)
Class Accounting (K : Type) := {
  adesc : K -> Z -> Claim.object_desc;
  wipe : K -> Z -> K;                                (* the descriptor's memory is cleared *)
  set_dirty : K -> Z -> bool -> K;
  claim : K -> option Z -> Z -> Claim.policy -> exec K;
  frames_total : K -> Z -> Z;
  available_count : K -> exec Z;
  last_available : K -> (Z -> bool) -> exec (option Z) (* the last one that satisfies the test *)
}.

(** The pool of free frames; addresses of frames, 0 for none. *)
Class Frames (P : Type) := {
  zalloc_memory : P -> Z;
  zalloc : P -> exec (P * Z);
  zfree : P -> Z -> exec P
}.

(** The rest of [struct object_desc]. *)
Record odesc := Odesc {
  oid : Z;
  version : Z;
  type : cap_type;
  user_dirty : bool;
  user_referenced : bool;
  mapped : bool;
  shared : bool;
  floating : bool;
  live : bool
}.

(** What a frame holds, as far as the kernel reads it as more than bytes. *)
Inductive page :=
  | Zeroed
  | Header (f : Folio.folio)
  | Table (l : list cap).

Record ostate {K P : Type} := Ostate {
  acct : K;
  odescs : Z -> odesc;
  objects : gmap Z Z;              (* oid -> frame *)
  pages : Z -> page;
  frames : P;
  folios : list Z;                 (* the bit array of the folios in use *)
  min_alloc : Z;                   (* pager_min_alloc_before_next_collect *)
  root_activity : option Z
}.
Arguments ostate : clear implicits.
Arguments Ostate {K P} _ _ _ _ _ _ _ _.

Class Environment (K P : Type) := {
  memory_total : Z;
  first_frame : Z;
  last_frame : Z;
  unmap_status : ostate K P -> Z -> bool * bool;   (* written, referenced *)
  flush_status : ostate K P -> Z -> bool * bool;
  pager_collect : ostate K P -> Z -> exec (ostate K P);
  activity_destroy : ostate K P -> option Z -> Z -> exec (ostate K P);
  activity_create : ostate K P -> option Z -> Z -> exec (ostate K P);
  thread_deinit : ostate K P -> option Z -> Z -> exec (ostate K P);
  wake_waiters : ostate K P -> option Z -> Z -> Z -> Z -> exec (ostate K P);
  uninitialized : ostate K P -> Z -> cap           (* a local variable before it is written *)
}.

(** ** The state *)

Section state.
Context {K P : Type} `{Accounting K} `{Frames P}.
Abbreviation st := (ostate K P).

Definition set_acct (s : st) (k : K) : st :=
  Ostate k (odescs s) (objects s) (pages s) (frames s) (folios s) (min_alloc s) (root_activity s).
Definition set_odesc (s : st) (d : Z) (x : odesc) : st :=
  Ostate (acct s) (<[d := x]> (odescs s)) (objects s) (pages s) (frames s) (folios s) (min_alloc s)
    (root_activity s).
Definition set_objects (s : st) (m : gmap Z Z) : st :=
  Ostate (acct s) (odescs s) m (pages s) (frames s) (folios s) (min_alloc s) (root_activity s).
Definition set_page (s : st) (d : Z) (x : page) : st :=
  Ostate (acct s) (odescs s) (objects s) (<[d := x]> (pages s)) (frames s) (folios s) (min_alloc s)
    (root_activity s).
Definition set_frames (s : st) (p : P) : st :=
  Ostate (acct s) (odescs s) (objects s) (pages s) p (folios s) (min_alloc s) (root_activity s).
Definition set_min_alloc (s : st) (n : Z) : st :=
  Ostate (acct s) (odescs s) (objects s) (pages s) (frames s) (folios s) n (root_activity s).

(** The descriptor's part that the accounting keeps. *)
Definition desc (s : st) (d : Z) : Claim.object_desc := adesc (acct s) d.

Definition cpol (p : object_policy) : Claim.policy :=
  Claim.Policy (negb (op_discardable p =? 0)) (op_priority p).

Definition object_desc_claim (s : st) (act : option Z) (d : Z) (p : Claim.policy) : exec st :=
  k ← claim (acct s) act d p;
  Ret (set_acct s k).

Definition with_shared (b : bool) (x : odesc) : odesc :=
  Odesc (oid x) (version x) (type x) (user_dirty x) (user_referenced x) (mapped x) b (floating x) (live x).
Definition with_floating (b : bool) (x : odesc) : odesc :=
  Odesc (oid x) (version x) (type x) (user_dirty x) (user_referenced x) (mapped x) (shared x) b (live x).
Definition with_live (b : bool) (x : odesc) : odesc :=
  Odesc (oid x) (version x) (type x) (user_dirty x) (user_referenced x) (mapped x) (shared x) (floating x) b.
Definition with_version (v : Z) (x : odesc) : odesc :=
  Odesc (oid x) (wrap CAP_VERSION_BITS v) (type x) (user_dirty x) (user_referenced x) (mapped x) (shared x)
    (floating x) (live x).
Definition with_type (t : cap_type) (x : odesc) : odesc :=
  Odesc (oid x) (version x) t (user_dirty x) (user_referenced x) (mapped x) (shared x) (floating x) (live x).
Definition with_mapped (b : bool) (x : odesc) : odesc :=
  Odesc (oid x) (version x) (type x) (user_dirty x) (user_referenced x) b (shared x) (floating x) (live x).
Definition with_user (dirty referenced : bool) (x : odesc) : odesc :=
  Odesc (oid x) (version x) (type x) dirty referenced (mapped x) (shared x) (floating x) (live x).

Definition upd_odesc (s : st) (d : Z) (f : odesc -> odesc) : st := set_odesc s d (f (odescs s d)).

(** A page read as a folio's header and as a page of capabilities. *)
Definition as_folio (x : page) : exec Folio.folio :=
  match x with
  | Zeroed => Ret Folio.zero_folio
  | Header f => Ret f
  | Table _ => Crash invalid_access
  end.

Definition zero_cap : cap := mk_cap 0 false 0 0 0 0 cap_void CAP_ADDR_TRANS_VOID.

Definition as_table (x : page) : exec (list cap) :=
  match x with
  | Zeroed => Ret (replicate 256 zero_cap)
  | Table l => Ret l
  | Header _ => Crash invalid_access
  end.

(** Where a capability is: in a page of capabilities, or in a local variable. *)
Inductive place := At (d i : Z) | Temp (c : cap).

Definition get_cap (s : st) (l : place) : exec cap :=
  match l with
  | At d i => t ← as_table (pages s d); access (t !! Z.to_nat i)
  | Temp c => Ret c
  end.

(** [cap->type = cap_void]; a local variable is not read again. *)
Definition void_cap (s : st) (l : place) : exec st :=
  match l with
  | At d i =>
      t ← as_table (pages s d);
      c ← access (t !! Z.to_nat i);
      Ret (set_page s d (Table (<[Z.to_nat i := cap_set_type c cap_void]> t)))
  | Temp _ => Ret s
  end.

End state.
Arguments place : clear implicits.

Section kernel.
Context {K P : Type} `{Accounting K} `{Frames P} `{Environment K P}.
Abbreviation st := (ostate K P).

Definition object_desc_to_object (d : Z) : exec Z :=
  _ ← check (0 <=? d) assertion_failed;
  _ ← check (d <=? (last_frame - first_frame) / PAGESIZE) assertion_failed;
  Ret (first_frame + d * PAGESIZE).

Definition object_to_object_desc (object : Z) : exec Z :=
  _ ← check (Z.land object (PAGESIZE - 1) =? 0) assertion_failed;
  _ ← check (first_frame <=? object) assertion_failed;
  _ ← check (object <=? last_frame) assertion_failed;
  Ret ((object - first_frame) / PAGESIZE).

Definition objects_folio_offset (s : st) (d : Z) : Z := oid (odescs s d) mod (1 + Folio.FOLIO_OBJECTS) - 1.

Definition object_desc_to_cap (s : st) (d : Z) : cap :=
  let x := odescs s d in
  let p := Claim.pol (desc s d) in
  let c := mk_cap (version x) false (oid x) 0 (if Claim.discardable p then 1 else 0)
             (wrap OBJECT_PRIORITY_BITS (Claim.priority p)) (type x) CAP_ADDR_TRANS_VOID in
  if cap_type_eqb (c_type c) cap_cappage || cap_type_eqb (c_type c) cap_folio
  then snd (CAP_SET_SUBPAGE c 0 1) else c.

(** The status bits of the hardware are added to the descriptor's. *)
Definition add_status (s : st) (d : Z) (w : bool * bool) : st :=
  let x := odescs s d in
  let s := set_acct s (set_dirty (acct s) d (Claim.dirty (desc s d) || w.1)) in
  set_odesc s d (with_user (user_dirty x || w.1) (user_referenced x || w.2) x).

Definition object_desc_unmap (s : st) (d : Z) : exec st :=
  _ ← check (live (odescs s d)) assertion_failed;
  if mapped (odescs s d) then
    let s := add_status s d (unmap_status s d) in
    Ret (upd_odesc s d (with_mapped false))
  else Ret s.

Definition object_desc_flush (s : st) (d : Z) (clear_kernel : bool) : exec st :=
  s ← object_desc_unmap s d;
  if clear_kernel || negb (Claim.dirty (desc s d)) || negb (user_referenced (odescs s d))
  then Ret (add_status s d (flush_status s d)) else Ret s.

Definition pager_collect_needed (s : st) : exec Z :=
  n ← available_count (acct s);
  let available_pages := i32 (zalloc_memory (frames s) + n) in
  if (memory_total / 8 <? available_pages) || (0 <? min_alloc s) then Ret 0
  else Ret (i32 (memory_total / 8 + memory_total / 8 / 2 - available_pages)).

Definition pager_query (s : st) : exec st :=
  goal ← pager_collect_needed s;
  if 0 <? goal then pager_collect s goal else Ret s.

Definition memory_frame_free (s : st) (addr : Z) : exec st :=
  _ ← check (Z.land addr (PAGESIZE - 1) =? 0) assertion_failed;
  _ ← check (first_frame <=? addr) assertion_failed;
  _ ← check (addr <=? last_frame) assertion_failed;
  p ← zfree (frames s) addr;
  Ret (set_frames s p).

(** The assertion that only the booting kernel acts for no activity. *)
Definition acts (s : st) (act : option Z) : exec unit :=
  check (bool_decide (act <> None) || bool_decide (root_activity s = None)) assertion_failed.

(** ** Finding, allocating and destroying objects

    The functions that are called again from deeper calls are parameters here:
    [find] is [object_find], [shoot] is [cap_shootdown]. *)

Section open.
Context (find : st -> option Z -> Z -> object_policy -> exec (st * option Z)).
Context (shoot : st -> option Z -> cap -> exec st).

Definition objects_folio (s : st) (act : option Z) (d : Z) : exec (st * Z) :=
  let page := objects_folio_offset s d in
  '(s, r) ← find s act (oid (odescs s d) - page - 1) OBJECT_POLICY_VOID;
  match r with
  | Some f => Ret (s, f)
  | None => Crash assertion_failed
  end.

(** The assertions on an object that is found in memory. *)
Definition check_found (s : st) (act : option Z) (d o : Z) : exec st :=
  if negb (o mod (Folio.FOLIO_OBJECTS + 1) =? 0) then
    '(s, f) ← objects_folio s act d;
    let i := objects_folio_offset s d in
    h ← as_folio (pages s f);
    t ← Folio.folio_object_type h i;
    _ ← check (cap_type_eqb t (type (odescs s d))) assertion_failed;
    b ← Folio.folio_object_discarded h i;
    _ ← check (negb b) assertion_failed;
    Ret s
  else Ret s.

(** Accounting for the use of object [d] by activity [a]: it claims the object if
    it is unclaimed, inactive, looking for an owner or about to be evicted. *)
Definition use_object (s : st) (a d : Z) (p : object_policy) : exec st :=
  let x := desc s d in
  if negb (bool_decide (Claim.owner x <> None)) || negb (Claim.object_active x)
     || (negb (bool_decide (Claim.owner x = Some a)) && floating (odescs s d))
     || Claim.eviction_candidate x
  then
    s ← object_desc_claim s (Some a) d (cpol p);
    Ret (upd_odesc s d (with_floating false))
  else if negb (bool_decide (Claim.owner x = Some a))
  then Ret (upd_odesc s d (with_shared true))
  else Ret s.

Definition object_find_soft (s : st) (act : option Z) (o : Z) (p : object_policy)
    : exec (st * option Z) :=
  match objects s !! o with
  | None => Ret (s, None)
  | Some d =>
      _ ← check (o =? oid (odescs s d)) assertion_failed;
      s ← check_found s act d o;
      match act with
      | None =>
          _ ← acts s act;
          Ret (s, Some d)
      | Some a =>
          s ← use_object s a d p;
          Ret (s, Some d)
      end
  end.

(** A dead descriptor is filled with a pattern and not read before it is cleared
    for its next object: here it is cleared at once. *)
Definition memory_object_destroy (s : st) (act : option Z) (d : Z) : exec st :=
  _ ← check (bool_decide (act <> None)) assertion_failed;
  _ ← check (live (odescs s d)) assertion_failed;
  '(s, f) ← objects_folio s act d;
  h ← as_folio (pages s f);
  t ← Folio.folio_object_type h (objects_folio_offset s d);
  _ ← check (cap_type_eqb t (type (odescs s d))) assertion_failed;
  s ← shoot s act (object_desc_to_cap s d);
  s ← object_desc_claim s None d (Claim.pol (desc s d));
  _ ← (if cap_type_eqb (type (odescs s d)) cap_activity_control
       then check (frames_total (acct s) d =? 0) panicked else Ret tt);
  let s := upd_odesc s d (with_live false) in
  let o := oid (odescs s d) in
  let s := set_objects s (delete o (objects s)) in
  _ ← check (bool_decide (objects s !! o = None)) assertion_failed;
  Ret (set_acct s (wipe (acct s) d)).

(** Taking the frame of the available object [d]; the count of discarded objects
    in the activity's statistics is left out. *)
Definition evict (s : st) (act : option Z) (d : Z) : exec (st * Z) :=
  _ ← check (live (odescs s d)) assertion_failed;
  let x := desc s d in
  _ ← check (Claim.eviction_candidate x) assertion_failed;
  a ← match Claim.owner x with Some a => Ret a | None => Crash assertion_failed end;
  _ ← check (cap_type_eqb (type (odescs s a)) cap_activity_control) assertion_failed;
  _ ← check (negb (Claim.dirty x) || Claim.discardable (Claim.pol x)) assertion_failed;
  _ ← check (negb (mapped (odescs s d))) assertion_failed;
  object ← object_desc_to_object d;
  '(s, f) ← objects_folio s act d;
  let offset := objects_folio_offset s d in
  let discarded := Claim.dirty (desc s d) in
  _ ← (if discarded then check (Claim.discardable (Claim.pol (desc s d))) assertion_failed else Ret tt);
  let o := oid (odescs s d) in
  s ← memory_object_destroy s act d;
  '(s, r) ← object_find_soft s act o OBJECT_POLICY_DEFAULT;
  _ ← check (bool_decide (r = None)) assertion_failed;
  s ← (if discarded then
         h ← as_folio (pages s f);
         h ← Folio.folio_object_content_set h offset false;
         h ← Folio.folio_object_discarded_set h offset true;
         Ret (set_page s f (Header h))
       else Ret s);
  Ret (set_page s d Zeroed, object).

(** Objects that the allocator may evict. *)
Definition evictable (s : st) (d : Z) : bool :=
  negb (cap_type_eqb (type (odescs s d)) cap_activity_control)
  && negb (cap_type_eqb (type (odescs s d)) cap_thread).

(** [zalloc] clears the page. *)
Definition memory_frame_allocate (s : st) (act : option Z) : exec (st * Z) :=
  s ← pager_query s;
  '(p, f) ← zalloc (frames s);
  let s := set_frames s p in
  let s := if f =? 0 then s else set_page s ((f - first_frame) / PAGESIZE) Zeroed in
  '(s, f) ←
    (if f =? 0 then
       r ← last_available (acct s) (evictable s);
       match r with
       | Some d => evict s act d
       | None => Ret (s, 0)
       end
     else Ret (s, f));
  _ ← check (negb (f =? 0)) panicked;
  Ret (set_min_alloc s (i32 (min_alloc s - 1)), f).

Definition memory_object_alloc (s : st) (act : option Z) (t : cap_type) (o v : Z) (p : object_policy)
    : exec (st * option Z) :=
  _ ← acts s act;
  _ ← check (negb (cap_type_eqb t cap_void)) assertion_failed;
  _ ← check (Bool.eqb (cap_type_eqb t cap_folio) (o mod (Folio.FOLIO_OBJECTS + 1) =? 0)) assertion_failed;
  '(s, object) ← memory_frame_allocate s act;
  if object =? 0 then Ret (s, None) else
  d ← object_to_object_desc object;
  _ ← check (negb (live (odescs s d))) assertion_failed;
  let s := set_acct s (wipe (acct s) d) in
  let s := set_odesc s d (Odesc o (wrap CAP_VERSION_BITS v) t false false false false false false) in
  let had_value := bool_decide (objects s !! o <> None) in
  let s := set_objects s (<[o := d]> (objects s)) in
  _ ← check (negb had_value) assertion_failed;
  let s := upd_odesc s d (with_live true) in
  s ← match act with
      | None => _ ← acts s act; Ret s
      | Some _ => object_desc_claim s act d (cpol p)
      end;
  Ret (s, Some d).

Definition object_find_1 (s : st) (act : option Z) (o : Z) (p : object_policy) : exec (st * option Z) :=
  '(s, obj) ← object_find_soft s act o p;
  match obj with
  | Some d => Ret (s, Some d)
  | None =>
      let page := o mod (Folio.FOLIO_OBJECTS + 1) - 1 in
      if page =? -1 then
        if o / (Folio.FOLIO_OBJECTS + 1) <? FOLIOS_CORE then
          b ← bit_test (folios s) (o / (Folio.FOLIO_OBJECTS + 1));
          _ ← check b assertion_failed;
          memory_object_alloc s act cap_folio o 0 p
        else Ret (s, None)
      else
        '(s, f) ← find s act (o - page - 1) OBJECT_POLICY_DEFAULT;
        f ← match f with Some f => Ret f | None => Crash assertion_failed end;
        h ← as_folio (pages s f);
        t ← Folio.folio_object_type h page;
        if cap_type_eqb t cap_void then Ret (s, None : option Z) else
        b ← Folio.folio_object_discarded h page;
        if (b : bool) then Ret (s, None : option Z) else
        c ← Folio.folio_object_content h page;
        if negb c then
          v ← Folio.folio_object_version h page;
          memory_object_alloc s act t o v p
        else Ret (s, None)
  end.

(** [cap_to_object_internal], with the two functions it finds objects by. *)
Definition cap_to_object_internal (s : st) (act : option Z) (l : place) (hard : bool)
    : exec (st * option Z) :=
  c ← get_cap s l;
  if cap_type_eqb (c_type c) cap_void then Ret (s, None) else
  '(s, object) ←
    (if hard then
       '(s, object) ← find s act (c_oid c) (CAP_POLICY_GET c);
       match object with
       | None => s ← void_cap s l; Ret (s, None)
       | Some d => Ret (s, Some d)
       end
     else object_find_soft s act (c_oid c) (CAP_POLICY_GET c));
  match object with
  | None => Ret (s, None)
  | Some d =>
      c ← get_cap s l;
      if negb (version (odescs s d) =? c_version c) then
        s ← void_cap s l;
        Ret (s, None)
      else
        _ ← check (cap_types_compatible (c_type c) (type (odescs s d))) assertion_failed;
        Ret (s, Some d)
  end.

End open.

(** ** Revoking mappings *)

(** [for (i = 0; i < n; i ++)] *)
Fixpoint for_loop (n : nat) (body : st -> Z -> exec st) (s : st) (i : Z) : exec st :=
  match n with
  | O => Ret s
  | S n => s ← body s i; for_loop n body s (i + 1)
  end.

Definition page_or_table (t : cap_type) : bool :=
  match t with cap_page | cap_rpage | cap_cappage | cap_rcappage => true | _ => false end.

(** The inner function of [cap_shootdown]; [doit] is the recursive call. *)
Definition doit_1 (find : st -> option Z -> Z -> object_policy -> exec (st * option Z))
    (doit : st -> place -> Z -> exec st) (s : st) (act : option Z) (root : Z) (l : place)
    (remaining : Z) : exec st :=
  c ← get_cap s l;
  let remaining := remaining - CAP_GUARD_BITS c in
  match c_type c with
  | cap_page | cap_rpage =>
      if remaining <? 12 then Ret s else
      '(s, object) ← object_find_soft find s act (c_oid c) (OBJECT_POLICY (c_discardable c) (c_priority c));
      match object with
      | None => Ret s
      | Some d =>
          c ← get_cap s l;
          if negb (version (odescs s d) =? c_version c) then void_cap s l
          else object_desc_unmap s d
      end
  | cap_cappage | cap_rcappage =>
      if remaining <? CAP_SUBPAGE_SIZE_LOG2 c + 12 then Ret s else
      '(s, object) ← cap_to_object_internal find s act l true;
      match object with
      | None => Ret s
      | Some d =>
          let remaining := remaining - CAP_SUBPAGE_SIZE_LOG2 c in
          for_loop (Z.to_nat (CAP_SUBPAGE_SIZE c))
            (fun s i =>
               c ← get_cap s (At d i);
               if negb (root =? c_oid c) then doit s (At d i) remaining else Ret s) s 0
      end
  | cap_folio =>
      if remaining <? 7 + 12 then Ret s else
      '(s, object) ← cap_to_object_internal find s act l true;
      match object with
      | None => Ret s
      | Some d =>
          let foid := oid (odescs s d) in
          let remaining := remaining - 7 in
          for_loop (Z.to_nat Folio.FOLIO_OBJECTS)
            (fun s i =>
               h ← as_folio (pages s d);
               t ← Folio.folio_object_type h i;
               if page_or_table t then
                 v ← Folio.folio_object_version h i;
                 let u := uninitialized s i in     (* its policy is not set *)
                 let c := mk_cap v (c_weak_p u) (foid + 1 + i) (c_shadow u) (c_discardable u) (c_priority u)
                            t CAP_ADDR_TRANS_VOID in
                 if negb (root =? c_oid c) then doit s (Temp c) remaining else Ret s
               else Ret s) s 0
      end
  | _ => Ret s
  end.

(** [object_find] and the recursion of [cap_shootdown], with the depth of calls
    as fuel. *)
Fixpoint object_find (fuel : nat) (s : st) (act : option Z) (o : Z) (p : object_policy)
    {struct fuel} : exec (st * option Z) :=
  match fuel with
  | O => Crash out_of_fuel
  | S fuel =>
      object_find_1 (object_find fuel)
        (fun s act c =>
           _ ← check (bool_decide (act <> None)) assertion_failed;
           doit fuel s act (c_oid c) (Temp c) ADDR_BITS)
        s act o p
  end
with doit (fuel : nat) (s : st) (act : option Z) (root : Z) (l : place) (remaining : Z)
    {struct fuel} : exec st :=
  match fuel with
  | O => Crash out_of_fuel
  | S fuel =>
      doit_1 (object_find fuel) (fun s l remaining => doit fuel s act root l remaining)
        s act root l remaining
  end.

Definition cap_shootdown (fuel : nat) (s : st) (act : option Z) (root : cap) : exec st :=
  _ ← check (bool_decide (act <> None)) assertion_failed;
  doit fuel s act (c_oid root) (Temp root) ADDR_BITS.

Definition cap_to_object (fuel : nat) (s : st) (act : option Z) (l : place) : exec (st * option Z) :=
  cap_to_object_internal (object_find fuel) s act l true.

Definition cap_to_object_soft (fuel : nat) (s : st) (act : option Z) (l : place) : exec (st * option Z) :=
  cap_to_object_internal (object_find fuel) s act l false.

(** ** Allocating an object from a folio *)

(** Destroying the old object's own state. *)
Definition destroy_old (fuel : nat) (s : st) (act : option Z) (t : cap_type) (o : Z)
    : exec (st * option Z) :=
  if cap_type_eqb t cap_activity_control || cap_type_eqb t cap_thread then
    '(s, object) ← object_find fuel s act o OBJECT_POLICY_DEFAULT;
    d ← match object with Some d => Ret d | None => Crash invalid_access end;
    _ ← check (cap_type_eqb (type (odescs s d)) t) assertion_failed;
    s ← (if cap_type_eqb t cap_activity_control then activity_destroy s act d
         else thread_deinit s act d);
    Ret (s, Some d)
  else Ret (s, None).

(** The object is in memory: free its frame, or make it the new object. *)
Definition reuse (fuel : nat) (s : st) (act : option Z) (f idx : Z) (t : cap_type) (p : object_policy)
    (d : Z) : exec (st * option Z) :=
  let o := oid (odescs s f) + 1 + idx in
  h ← as_folio (pages s f);
  _ ← check (oid (odescs s d) =? o) assertion_failed;
  v ← Folio.folio_object_version h idx;
  _ ← check (version (odescs s d) =? v) assertion_failed;
  t0 ← Folio.folio_object_type h idx;
  _ ← check (cap_type_eqb (type (odescs s d)) t0) assertion_failed;
  if cap_type_eqb t cap_void then
    s ← memory_object_destroy (object_find fuel) (cap_shootdown fuel) s act d;
    addr ← object_desc_to_object d;
    s ← memory_frame_free s addr;
    Ret (s, None)
  else
    _ ← check (bool_decide (act <> None)) assertion_failed;
    s ← cap_shootdown fuel s act (object_desc_to_cap s d);
    let s := set_page s d Zeroed in
    s ← object_desc_flush s d true;
    let s := set_acct s (set_dirty (acct s) d false) in
    let s := upd_odesc s d (with_user false false) in
    s ← object_desc_claim s act d (cpol p);
    let s := upd_odesc s d (fun x => with_shared false (with_type t x)) in
    Ret (s, Some d).

(** The object's new entry in the folio's header, and its version. *)
Definition renew (s : st) (f idx : Z) (t : cap_type) (p : object_policy) (object : option Z)
    : exec (st * Z) :=
  h ← as_folio (pages s f);
  t0 ← Folio.folio_object_type h idx;
  '(s, h) ←
    (if negb (cap_type_eqb t0 cap_void) then
       v ← Folio.folio_object_version h idx;
       h ← Folio.folio_object_version_set h idx (v + 1);
       v ← Folio.folio_object_version h idx;
       Ret (match object with Some d => upd_odesc s d (with_version v) | None => s end, h)
     else Ret (s, h));
  h ← Folio.folio_object_type_set h idx t;
  h ← Folio.folio_object_content_set h idx false;
  h ← Folio.folio_object_discarded_set h idx false;
  h ← Folio.folio_object_policy_set h idx p;
  h ← Folio.folio_object_referenced_set h idx false;
  h ← Folio.folio_object_dirty_set h idx false;
  v ← Folio.folio_object_version h idx;
  Ret (set_page s f (Header h), v).

Definition folio_object_alloc (fuel : nat) (s : st) (act : option Z) (f idx : Z) (t : cap_type)
    (p : object_policy) (return_code : Z) : exec (st * cap) :=
  _ ← Folio.is_object idx;
  let t := cap_type_strengthen t in
  _ ← check (cap_type_eqb (type (odescs s f)) cap_folio) assertion_failed;
  _ ← check (oid (odescs s f) mod (1 + Folio.FOLIO_OBJECTS) =? 0) assertion_failed;
  let o := oid (odescs s f) + 1 + idx in
  h ← as_folio (pages s f);
  t0 ← Folio.folio_object_type h idx;
  '(s, object) ← destroy_old fuel s act t0 o;
  s ← wake_waiters s act f idx return_code;
  '(s, object) ← match object with
                 | None => object_find_soft (object_find fuel) s act o p
                 | Some d => Ret (s, Some d)
                 end;
  '(s, object) ← match object with
                 | Some d => reuse fuel s act f idx t p d
                 | None => Ret (s, None)
                 end;
  '(s, v) ← renew s f idx t p object;
  s ← (if cap_type_eqb t cap_activity_control then
         '(s, object) ← match object with
                        | None => object_find fuel s act o p
                        | Some d => Ret (s, Some d)
                        end;
         d ← match object with Some d => Ret d | None => Crash invalid_access end;
         activity_create s act d
       else Ret s);
  Ret (s, CAP_POLICY_SET (mk_cap v false o 0 0 0 t CAP_ADDR_TRANS_VOID) p).

Definition folio_object_free (fuel : nat) (s : st) (act : option Z) (f idx : Z) : exec st :=
  '(s, _) ← folio_object_alloc fuel s act f idx cap_void OBJECT_POLICY_VOID 0;
  Ret s.

Definition object_free (fuel : nat) (s : st) (act : option Z) (d : Z) : exec st :=
  '(s, f) ← objects_folio (object_find fuel) s act d;
  folio_object_free fuel s act f (objects_folio_offset s d).

End kernel.
End Objects.
