(* ===== verification/Accounts.v ===== *)
(** * The accounting that objects rely on, implemented by claims

    [AccountingLaws] is what the object layer assumes of the accounting of frames
    ([Objects.Accounting]); [Claim] implements it, with [kstate] as the state, as
    long as all frames have numbers below a bound that fits in a word and the fuel
    exceeds it.  The victim of the allocator is searched on the list [available]
    from its tail. *)

From S2P Require Import Prelude Ring KList Cap Claim Folio Objects.

(** The laws; [kok k A]: the counters of the activities [A] are exact.  Frames have
    numbers below [n]. *)
Class AccountingLaws (K : Type) `{Objects.Accounting K} (n : Z) (kok : K -> gset Z -> Prop) := {
  adesc_wipe : forall k d u, Objects.adesc (Objects.wipe k d) u =
    if decide (u = d) then Claim.fresh else Objects.adesc k u;
  adesc_dirty : forall k d b u, Objects.adesc (Objects.set_dirty k d b) u =
    if decide (u = d) then
      let x := Objects.adesc k d in
      Claim.Desc (Claim.owner x) (Claim.pol x) (Claim.eviction_candidate x) b (Claim.age x)
    else Objects.adesc k u;
  owner_range : forall k A d a, kok k A -> Claim.owner (Objects.adesc k d) = Some a -> 0 <= d < n /\ a ∈ A;
  claim_some : forall k A a d p, kok k A -> a ∈ A -> 0 <= d < n ->
    exists k', Objects.claim k (Some a) d p = Ret k' /\ kok k' A /\
      Objects.adesc k' d = Claim.after_claim (Objects.adesc k d) (Some a) p /\
      forall u, u <> d -> Objects.adesc k' u = Objects.adesc k u;
  claim_none : forall k A d p, kok k A -> Claim.owner (Objects.adesc k d) <> None ->
    exists k', Objects.claim k None d p = Ret k' /\ kok (Objects.wipe k' d) A /\
      forall u, u <> d -> Objects.adesc k' u = Objects.adesc k u;
  wipe_ok : forall k A d, kok k A -> Claim.owner (Objects.adesc k d) = None -> kok (Objects.wipe k d) A;
  dirty_ok : forall k A d b, kok k A -> Claim.eviction_candidate (Objects.adesc k d) = false ->
    kok (Objects.set_dirty k d b) A;
  count_ok : forall k A, kok k A -> exists c, Objects.available_count k = Ret c;
  available_ok : forall k A f, kok k A -> exists r, Objects.last_available k f = Ret r /\
    match r with
    | Some d => f d = true /\ Claim.wkey (Objects.adesc k d) = Some Claim.available
    | None => forall d, Claim.wkey (Objects.adesc k d) = Some Claim.available -> f d = false
    end
}.

Module Accounts.
Import Claim.

(** The loop of [memory_frame_allocate] over the list [available]. *)
Fixpoint scan (fuel : nat) (m : KList.lmem) (x : option Z) (f : Z -> bool) : exec (option Z) :=
  match x with
  | None => Ret None
  | Some d =>
      match fuel with
      | O => Crash out_of_fuel
      | S fuel => if f d then Ret (Some d) else scan fuel m (KList.list_prev m d) f
      end
  end.

Definition last_available (fuel : nat) (s : kstate) (f : Z -> bool) : exec (option Z) :=
  t ← KList.list_tail (klists s) available;
  scan fuel (klists s) t f.

Definition set_dirty (s : kstate) (d : Z) (b : bool) : kstate :=
  let x := descs s d in set_desc s d (Desc (owner x) (pol x) (eviction_candidate x) b (age x)).

Definition accounting (fuel : nat) : Objects.Accounting kstate := {|
  Objects.adesc := descs;
  Objects.wipe s d := set_desc s d fresh;
  Objects.set_dirty := set_dirty;
  Objects.claim s act d p := object_desc_claim fuel s act d p true;
  Objects.frames_total s a := frames_total (acts s a);
  Objects.available_count s := KList.list_count fuel (klists s) available;
  Objects.last_available := last_available fuel
|}.

(** ** The laws *)

Lemma zsum_bind (g : Z -> list Z) l : zsum (map (fun b => Z.of_nat (length (g b))) l) = Z.of_nat (length (l ≫= g)).
Proof.
  induction l as [|b l IH]; [done|]. cbn [map]. rewrite zsum_cons, IH. cbn. rewrite length_app. lia.
Qed.

Section laws.
Context (fuel : nat) (n : Z) (Hn : 0 <= n) (Hfuel : n + 2 < Z.of_nat fuel) (Hword : n + 1 < 2 ^ 32).

Record counted (As : list Z) (ch L W : Z -> list Z) (k : kstate) (A : gset Z) : Prop := Counted {
  c_inv : inv As ch None None k L W;
  c_set : forall a, a ∈ A <-> a ∈ As;
  c_range : forall d, owner (descs k d) <> None -> 0 <= d < n;
  c_chain : forall a, a ∈ As -> (length (ch a) < fuel)%nat
}.

Definition kok (k : kstate) (A : gset Z) : Prop := exists As ch L W, counted As ch L W k A.

Section state.
Context (As : list Z) (ch L W : Z -> list Z) (k : kstate) (A : gset Z) (H : counted As ch L W k A).

Lemma listed_range u h : u ∈ L h -> 0 <= u < n.
Proof.
  intros Hu. apply (i_key _ _ _ _ _ _ _ (c_inv _ _ _ _ _ _ H)) in Hu as [_ Hk]. apply (c_range _ _ _ _ _ _ H).
  unfold key in Hk. now destruct (owner (descs k u)).
Qed.

Lemma waiting_range u h : u ∈ W h -> 0 <= u < n.
Proof.
  intros Hu. apply (i_wkey _ _ _ _ _ _ _ (c_inv _ _ _ _ _ _ H)) in Hu as [_ Hk]. apply (c_range _ _ _ _ _ _ H).
  unfold wkey in Hk. now destruct (owner (descs k u)).
Qed.

Lemma roomy_ok : roomy As ch fuel L W.
Proof.
  split; [|split; [|apply H]]; intros h.
  - assert (Hl := range_length (L h) n (sep_nodup _ (KList.rep_sep _ _ (i_lists _ _ _ _ _ _ _ (c_inv _ _ _ _ _ _ H))) h)
      (fun u => listed_range u h)). lia.
  - assert (Hl := range_length (W h) n (sep_nodup _ (KList.rep_sep _ _ (i_klists _ _ _ _ _ _ _ (c_inv _ _ _ _ _ _ H))) h)
      (fun u => waiting_range u h)). lia.
Qed.

(** The objects that count for [b]. *)
Definition counting (b : Z) : list Z :=
  elements (priorities (acts k b)) ++ L (hdr Active b) ++ L (hdr Inactive b) ++ L (hdr EvictionDirty b).

Lemma counting_owner b u : b ∈ As -> u ∈ counting b -> owner (descs k u) = Some b.
Proof.
  intros Hb. unfold counting. rewrite !elem_of_app, elem_of_elements.
  assert (I := c_inv _ _ _ _ _ _ H).
  rewrite (i_tkey _ _ _ _ _ _ _ I u b Hb), !(i_key _ _ _ _ _ _ _ I). unfold tkey, key.
  destruct (owner (descs k u)) as [c|]; [|naive_solver].
  destruct (eviction_candidate _), (_ =? _); cbn; try naive_solver;
    (intros [[_ E]|[[_ E]|[[_ E]|[_ E]]]]; try done; try congruence);
    injection E as E; apply hdr_inj in E as [_ <-]; done.
Qed.

Lemma counting_nodup b : b ∈ As -> NoDup (counting b).
Proof.
  intros Hb. assert (I := c_inv _ _ _ _ _ _ H). unfold counting.
  destruct (KList.rep_sep _ _ (i_lists _ _ _ _ _ _ _ I)) as [Hnd Hpl].
  assert (Hdis : forall k1 k2, k1 <> k2 -> forall u, u ∈ L (hdr k1 b) -> u ∉ L (hdr k2 b)).
  { intros k1 k2 Hne u H1 H2. apply Hne. now apply (hdr_inj k1 k2 b b), (Hpl _ _ u). }
  assert (Htree : forall u h, u ∈ priorities (acts k b) -> u ∉ L h).
  { intros u h Hu Hl. apply (i_tkey _ _ _ _ _ _ _ I u b Hb) in Hu as [_ Hu].
    apply (i_key _ _ _ _ _ _ _ I) in Hl as [_ Hl]. revert Hu Hl. unfold tkey, key.
    destruct (owner (descs k u)); [|done]. now destruct (eviction_candidate _), (_ =? _). }
  apply NoDup_app. split; [apply NoDup_elements|]. split.
  - intros u Hu%elem_of_elements. rewrite !elem_of_app. intros [E|[E|E]]; now apply (Htree u _ Hu) in E.
  - apply NoDup_app. split; [apply Hnd|]. split.
    + intros u Hu. rewrite elem_of_app. intros [E|E]; revert E; now apply (Hdis Active).
    + apply NoDup_app. split; [apply Hnd|]. split; [|apply Hnd]. intros u Hu. now apply (Hdis Inactive).
Qed.

Lemma fits_ok : fits As None k L 1.
Proof.
  unfold fits. assert (I := c_inv _ _ _ _ _ _ H).
  rewrite (zsum_ext _ (fun b => Z.of_nat (length (counting b)))).
  - rewrite zsum_bind.
    assert (Hl := range_length (As ≫= counting) n). enough (Z.of_nat (length (As ≫= counting)) <= Z.max 0 n) by lia.
    apply Hl.
    + apply NoDup_bind; [|intros b Hb; now apply counting_nodup|apply (t_nodup _ _ _ (i_tree _ _ _ _ _ _ _ I))].
      intros b1 b2 u H1 H2 Hu1 Hu2. apply counting_owner in Hu1, Hu2; [congruence|done..].
    + intros u (b&Hu&Hb)%list_elem_of_bind. apply (c_range _ _ _ _ _ _ H).
      rewrite (counting_owner b u Hb Hu). done.
  - intros b Hb. rewrite extra_None. unfold cnt, len, counting. rewrite !length_app.
    unfold size, set_size. cbn. lia.
Qed.

Lemma claim_some_ok a d p : a ∈ A -> 0 <= d < n ->
  exists k', object_desc_claim fuel k (Some a) d p true = Ret k' /\ kok k' A /\
    descs k' d = after_claim (descs k d) (Some a) p /\ forall u, u <> d -> descs k' u = descs k u.
Proof.
  intros Ha Hd. apply (c_set _ _ _ _ _ _ H) in Ha.
  destruct (claim_ok As ch fuel k L W (Some a) d p (c_inv _ _ _ _ _ _ H) fits_ok roomy_ok Ha)
    as (k'&L'&W'&E&I'&Ed&Eu).
  exists k'. split; [done|]. split; [|done]. exists As, ch, L', W'. split; try apply H; [done|].
  intros u Hu. destruct (decide (u = d)) as [->|Hne]; [done|]. rewrite (Eu u Hne) in Hu.
  now apply (c_range _ _ _ _ _ _ H).
Qed.

End state.

(** Clearing a descriptor that is on no list. *)
Lemma clear_ok As ch k L W d : inv As ch (Some d) None k L W -> inv As ch None None (set_desc k d fresh) L W.
Proof.
  intros I. set (k' := set_desc k d fresh).
  assert (Hd : forall u, descs k' u = if decide (u = d) then fresh else descs k u).
  { intros u. cbn. now rewrite fn_at. }
  split; try apply I.
  - apply (tree_same As ch k); [apply I|done..].
  - intros u a _. rewrite Hd. case_decide; [done|]. apply (i_owner _ _ _ _ _ _ _ I). congruence.
  - intros u h. rewrite Hd, (i_key _ _ _ _ _ _ _ I u h). case_decide; [subst|]; naive_solver.
  - intros u a Ha. change (acts k' a) with (acts k a). rewrite Hd, (i_tkey _ _ _ _ _ _ _ I u a Ha). case_decide; [subst|]; naive_solver.
  - intros u h. rewrite Hd, (i_wkey _ _ _ _ _ _ _ I u h). case_decide; [subst|]; naive_solver.
Qed.

Lemma claim_none_ok k A d p : kok k A -> owner (descs k d) <> None ->
  exists k', object_desc_claim fuel k None d p true = Ret k' /\ kok (set_desc k' d fresh) A /\
    forall u, u <> d -> descs k' u = descs k u.
Proof.
  intros (As&ch&L&W&H) Ho.
  destruct (claim_ok As ch fuel k L W None d p (c_inv _ _ _ _ _ _ H) (fits_ok _ _ _ _ _ _ H)
    (roomy_ok _ _ _ _ _ _ H) Ho) as (k'&L'&W'&E&I'&_&Eu).
  exists k'. split; [done|]. split; [|done]. exists As, ch, L', W'. split; try apply H; [now apply clear_ok|].
  intros u. cbn. rewrite fn_at. case_decide as Hd; [done|]. rewrite (Eu u Hd). apply (c_range _ _ _ _ _ _ H).
Qed.

Lemma wipe_fresh k A d : kok k A -> owner (descs k d) = None -> kok (set_desc k d fresh) A.
Proof.
  intros (As&ch&L&W&H) Ho. exists As, ch, L, W. split; try apply H.
  - apply clear_ok, inv_fresh; [apply H|done].
  - intros u. cbn. rewrite fn_at. case_decide; [done|]. apply (c_range _ _ _ _ _ _ H).
Qed.

Lemma set_dirty_ok k A d b : kok k A -> eviction_candidate (descs k d) = false -> kok (set_dirty k d b) A.
Proof.
  intros (As&ch&L&W&H) Hc. exists As, ch, L, W. assert (I := c_inv _ _ _ _ _ _ H).
  assert (Hs : forall u, owner (descs (set_dirty k d b) u) = owner (descs k u) /\
    key (descs (set_dirty k d b) u) = key (descs k u) /\ tkey (descs (set_dirty k d b) u) = tkey (descs k u) /\
    wkey (descs (set_dirty k d b) u) = wkey (descs k u)).
  { intros u. unfold set_dirty. cbn. rewrite fn_at. destruct (decide (u = d)) as [->|]; [|done].
    unfold key, tkey, wkey. cbn. rewrite Hc. now destruct (owner (descs k d)). }
  split; try apply H.
  - split; try apply I.
    + apply (tree_same As ch k); [apply I|done..].
    + intros u a. destruct (Hs u) as (->&_). apply (i_owner _ _ _ _ _ _ _ I).
    + intros u h. destruct (Hs u) as (_&->&_). apply I.
    + intros u a Ha. destruct (Hs u) as (_&_&->&_). now apply (i_tkey _ _ _ _ _ _ _ I).
    + intros u h. destruct (Hs u) as (_&_&_&->). apply I.
  - intros u. destruct (Hs u) as (->&_). apply (c_range _ _ _ _ _ _ H).
Qed.

(** The search of the list, backwards from its element [u]. *)
Lemma scan_ok m L h f l1 u l2 fl : KList.rep m L -> L h = l1 ++ u :: l2 -> (length l1 < fl)%nat ->
  (forall v, v ∈ l2 -> f v = false) ->
  exists r, scan fl m (Some u) f = Ret r /\
    match r with Some d => f d = true /\ d ∈ L h | None => forall d, d ∈ L h -> f d = false end.
Proof.
  revert u l2 fl. induction l1 as [|x l1 IH] using rev_ind; intros u l2 fl R E Hfl Hl2;
    (destruct fl as [|fl]; [lia|]); cbn [scan].
  all: destruct (f u) eqn:Ef; [exists (Some u); split; [done|]; split; [done|]; rewrite E; set_solver|].
  all: assert (Hnd : NoDup (L h)) by apply (KList.rep_sep _ _ R).
  all: rewrite E in Hnd; apply NoDup_app in Hnd as (_&Hu&_).
  all: assert (Hr := ring_mid None _ u l2 None (fun Hin => Hu u Hin (list_elem_of_here u l2))).
  all: rewrite <- E in Hr; destruct (KList.next_rep m L h u _ R Hr) as [_ ->]; cbn [p_prev].
  - exists None. split; [now destruct fl|]. intros d. rewrite E. intros [->|Hd]%elem_of_cons; auto.
  - rewrite last_or_snoc. rewrite length_app in Hfl. cbn in Hfl.
    apply (IH x (u :: l2)); [done|now rewrite E, <- app_assoc|lia|].
    intros v [->|Hv]%elem_of_cons; auto.
Qed.

Lemma last_available_ok k A f : kok k A -> exists r, last_available fuel k f = Ret r /\
  match r with
  | Some d => f d = true /\ wkey (descs k d) = Some available
  | None => forall d, wkey (descs k d) = Some available -> f d = false
  end.
Proof.
  intros (As&ch&L&W&H). assert (I := c_inv _ _ _ _ _ _ H). assert (R := i_klists _ _ _ _ _ _ _ I).
  unfold last_available. rewrite (KList.tail_rep _ W available R). cbn [mbind exec_bind].
  assert (Hin : forall d, d ∈ W available <-> wkey (descs k d) = Some available).
  { intros d. rewrite (i_wkey _ _ _ _ _ _ _ I d available). naive_solver. }
  destruct (W available) as [|y l _] eqn:E using rev_ind.
  - exists None. split; [now destruct fuel|]. intros d Hd%Hin. now apply not_elem_of_nil in Hd.
  - rewrite last_or_snoc.
    destruct (scan_ok (klists k) W available f l y [] fuel R E) as (r&Er&Hr).
    + destruct (roomy_ok _ _ _ _ _ _ H) as (_&Hw&_). specialize (Hw available). rewrite E, length_app in Hw. cbn in Hw. lia.
    + intros v Hv. now apply not_elem_of_nil in Hv.
    + exists r. split; [done|]. rewrite E in Hr. destruct r as [d|].
      * destruct Hr as [Hf Hd]. split; [done|]. now apply Hin.
      * intros d Hd%Hin. now apply Hr.
Qed.

#[local] Existing Instance accounting.

Lemma accounting_laws : @AccountingLaws kstate (accounting fuel) n kok.
Proof.
  split.
  - intros k d u. cbn. apply fn_at.
  - intros k d b u. cbn. unfold set_dirty. cbn. apply fn_at.
  - intros k A d a (As&ch&L&W&H) Ho. cbn in Ho. split.
    + apply (c_range _ _ _ _ _ _ H). congruence.
    + apply (c_set _ _ _ _ _ _ H). apply (i_owner _ _ _ _ _ _ _ (c_inv _ _ _ _ _ _ H) d a); done.
  - intros k A a d p (As&ch&L&W&H). apply (claim_some_ok _ _ _ _ _ _ H).
  - apply claim_none_ok.
  - apply wipe_fresh.
  - apply set_dirty_ok.
  - intros k A (As&ch&L&W&H). cbn.
    rewrite (KList.list_count_rep fuel _ W) by (apply H || apply (roomy_ok _ _ _ _ _ _ H)). eauto.
  - apply last_available_ok.
Qed.

End laws.

End Accounts.
