(* ===== verification/ObjectsOk.v ===== *)
(** * The invariant of objects in memory

    [ok] relates the hash table, the descriptors, the folios' headers, the pool and
    the accounting of [Objects].  The lemmas give for each function what it returns
    and what it leaves: finding an object changes at most its accounting ([same]),
    evicting one takes it out of memory, and a frame that the allocator returns is
    in no one's use.  The laws of the interfaces are assumptions of the section. *)

From S2P Require Import Prelude KList L4Math Addr AddrTrans Cap BitArray Claim Folio Objects Accounts.

(** The laws of the pool; [pok p F]: its free frames are [F]. *)
Class FramesLaws (P : Type) `{Objects.Frames P} (first n : Z) (pok : P -> gset Z -> Prop) := {
  zalloc_ok : forall p F, pok p F -> exists p' a, Objects.zalloc p = Ret (p', a) /\
    (a = 0 /\ F = ∅ /\ pok p' ∅ \/
     exists d, d ∈ F /\ a = first + d * Objects.PAGESIZE /\ pok p' (F ∖ {[d]}));
  zfree_ok : forall p F d, pok p F -> d ∉ F -> 0 <= d < n ->
    exists p', Objects.zfree p (first + d * Objects.PAGESIZE) = Ret p' /\ pok p' (F ∪ {[d]})
}.

Module ObjectsOk.
Import Objects.

Section ok.
Context {K P : Type} {HA : Accounting K} {HF : Frames P} {HE : Environment K P}.
Context (n : Z) (kok : K -> gset Z -> Prop) (pok : P -> gset Z -> Prop).
Context {LA : AccountingLaws K n kok} {LF : FramesLaws P first_frame n pok}.
Abbreviation st := (ostate K P).
Implicit Types s : st.

(** ** The invariant *)

Definition foid (o : Z) : Z := o - o mod 129.

(** What the folio's header says about an object; its folio is in memory. *)
Definition meta (s : st) (o : Z) : option Folio.slot :=
  match objects s !! foid o with
  | Some f =>
      match as_folio (pages s f) with
      | Ret h => Some (Folio.slot_of h (o mod 129 - 1))
      | Crash _ => None
      end
  | None => None
  end.

(** The types that [folio_object_alloc] gives to objects for which it is meant. *)
Definition object_type (t : cap_type) : Prop :=
  t = cap_void \/ t = cap_page \/ t = cap_cappage \/ t = cap_activity_control \/ t = cap_thread.

Definition header (x : page) (h : Folio.folio) : Prop :=
  as_folio x = Ret h /\ Folio.wf h /\
  forall i, 0 <= i < 128 -> object_type (Folio.s_type (Folio.slot_of h i)).

Record ok (s : st) (A F : gset Z) : Prop := Ok {
  o_acct : kok (acct s) A;
  o_owner : forall d, Claim.owner (desc s d) <> None -> live (odescs s d) = true;
  o_hash : forall o d, objects s !! o = Some d <-> live (odescs s d) = true /\ oid (odescs s d) = o;
  o_live : forall d, live (odescs s d) = true -> 0 <= d < n /\ 0 <= oid (odescs s d);
  o_folio : forall d, live (odescs s d) = true -> oid (odescs s d) mod 129 = 0 ->
    type (odescs s d) = cap_folio /\ exists h, header (pages s d) h;
  o_object : forall d, live (odescs s d) = true -> oid (odescs s d) mod 129 <> 0 ->
    exists x, meta s (oid (odescs s d)) = Some x /\ Folio.s_type x = type (odescs s d) /\
      Folio.s_version x = version (odescs s d) /\ Folio.s_discarded x = false /\
      type (odescs s d) <> cap_void;
  o_table : forall d, live (odescs s d) = true -> type (odescs s d) = cap_cappage ->
    exists t, as_table (pages s d) = Ret t /\ length t = 256%nat;
  o_members : forall a, a ∈ A -> live (odescs s a) = true /\ type (odescs s a) = cap_activity_control;
  o_mapped : forall d, Claim.eviction_candidate (desc s d) = true -> mapped (odescs s d) = false;
  o_pool : pok (frames s) F;
  o_free : forall d, d ∈ F -> 0 <= d < n /\ live (odescs s d) = false;
  o_folios : array_ok (folios s) 4096
}.

(** Available objects hold no capabilities through which others are found. *)
Definition flat (s : st) (d : Z) : Prop :=
  type (odescs s d) <> cap_folio /\
  (type (odescs s d) = cap_cappage ->
   forall t, as_table (pages s d) = Ret t -> Forall (fun c => is_cappage (c_type c) = false /\ c_type c <> cap_folio) t).

Definition in_reach (s : st) (d : Z) : Prop :=
  Claim.wkey (desc s d) = Some Claim.available /\ evictable s d = true.

Definition calm (s : st) : Prop := forall d, in_reach s d -> flat s d.

(** ** Changes of the accounting only *)

Definition core (x : odesc) : Z * Z * cap_type * bool := (oid x, version x, type x, live x).

(** Capabilities may be cleared where they are. *)
Definition cleared (p p' : page) : Prop :=
  p' = p \/ exists t t', p = Table t /\ p' = Table t' /\
    Forall2 (fun c c' => c' = c \/ c' = cap_set_type c cap_void) t t'.

Record same (s s' : st) : Prop := Same {
  m_objects : objects s' = objects s;
  m_frames : frames s' = frames s;
  m_folios : folios s' = folios s;
  m_min : min_alloc s' = min_alloc s;
  m_root : root_activity s' = root_activity s;
  m_pages : forall d, cleared (pages s d) (pages s' d);
  m_core : forall d, core (odescs s' d) = core (odescs s d);
  m_mapped : forall d, mapped (odescs s' d) = true -> mapped (odescs s d) = true;
  m_candidate : forall d, Claim.eviction_candidate (desc s' d) = true ->
    Claim.eviction_candidate (desc s d) = true;
  m_available : forall d, Claim.wkey (desc s' d) = Some Claim.available ->
    Claim.wkey (desc s d) = Some Claim.available;
  m_owner : forall d, Claim.owner (desc s d) <> None -> Claim.owner (desc s' d) <> None
}.

Lemma cleared_refl p : cleared p p.
Proof. now left. Qed.

Lemma cleared_trans p1 p2 p3 : cleared p1 p2 -> cleared p2 p3 -> cleared p1 p3.
Proof.
  intros [->|(t1&t2&->&->&H12)] [->|(u1&u2&E&->&H23)]; [now left|right; eauto|right; eauto 6|].
  right. injection E as <-. exists t1, u2. split; [done|]. split; [done|].
  revert u2 H23. induction H12 as [|c c' t t' Hc H12 IH]; intros u2 H23.
  - inversion H23. constructor.
  - inversion_clear H23 as [|? c'' ? ? Hc' H]. constructor; [|now apply IH].
    destruct Hc as [->| ->], Hc' as [->| ->]; auto.
Qed.

#[export] Instance same_preorder : PreOrder same.
Proof.
  split.
  - intros s. split; auto using cleared_refl.
  - intros s1 s2 s3 H1 H2. split; try (etransitivity; [apply H2|apply H1]).
    + intros d. eapply cleared_trans; [apply H1|apply H2].
    + intros d Hd. now apply (m_mapped _ _ H1), (m_mapped _ _ H2).
    + intros d Hd. now apply (m_candidate _ _ H1), (m_candidate _ _ H2).
    + intros d Hd. now apply (m_available _ _ H1), (m_available _ _ H2).
    + intros d Hd. now apply (m_owner _ _ H2), (m_owner _ _ H1).
Qed.

Lemma cleared_folio p p' h : cleared p p' -> as_folio p = Ret h -> as_folio p' = Ret h.
Proof. intros [->|(t&t'&->&_)] E; [done|discriminate]. Qed.

Lemma cleared_crash p p' e : cleared p p' -> as_folio p = Crash e -> as_folio p' = Crash e.
Proof. now intros [->|(t&t'&->&->&_)]. Qed.

Lemma cleared_table p p' t : cleared p p' -> as_table p = Ret t ->
  exists t', as_table p' = Ret t' /\ Forall2 (fun c c' => c' = c \/ c' = cap_set_type c cap_void) t t'.
Proof.
  intros [->|(u&u'&->&->&H)] E.
  - exists t. split; [done|]. clear E. induction t; constructor; auto.
  - injection E as <-. eauto.
Qed.

Lemma cleared_table_inv p p' t' : cleared p p' -> as_table p' = Ret t' ->
  exists t, as_table p = Ret t /\ Forall2 (fun c c' => c' = c \/ c' = cap_set_type c cap_void) t t'.
Proof.
  intros [->|(u&u'&->&->&H)] E.
  - exists t'. split; [done|]. clear E. induction t'; constructor; auto.
  - injection E as <-. eauto.
Qed.

Section kept.
Context (s s' : st) (S : same s s').

Lemma core_at d : oid (odescs s' d) = oid (odescs s d) /\ version (odescs s' d) = version (odescs s d) /\
  type (odescs s' d) = type (odescs s d) /\ live (odescs s' d) = live (odescs s d).
Proof. assert (E := m_core _ _ S d). unfold core in E. naive_solver. Qed.

Lemma meta_same o : meta s' o = meta s o.
Proof.
  unfold meta. rewrite (m_objects _ _ S). destruct (objects s !! foid o) as [f|]; [|done].
  destruct (as_folio (pages s f)) eqn:E;
    [now rewrite (cleared_folio _ _ _ (m_pages _ _ S f) E)|now rewrite (cleared_crash _ _ _ (m_pages _ _ S f) E)].
Qed.

Lemma ok_same A F : ok s A F -> kok (acct s') A ->
  (forall d, Claim.owner (desc s' d) <> None -> live (odescs s d) = true) -> ok s' A F.
Proof.
  intros H Hk Ho.
  split; try (intros; rewrite ?(m_frames _ _ S), ?(m_folios _ _ S); now apply H).
  - done.
  - intros d Hd. destruct (core_at d) as (_&_&_&->). auto.
  - intros o d. destruct (core_at d) as (->&_&_&->). rewrite (m_objects _ _ S). apply H.
  - intros d. destruct (core_at d) as (->&_&_&->). apply H.
  - intros d. destruct (core_at d) as (->&_&->&->). intros Hl Hz.
    destruct (o_folio _ _ _ H d Hl Hz) as [? (h&Eh&Hh)]. split; [done|]. exists h. split; [|done].
    now apply (cleared_folio _ _ _ (m_pages _ _ S d)).
  - intros d. destruct (core_at d) as (->&->&->&->). rewrite meta_same. apply H.
  - intros d. destruct (core_at d) as (_&_&->&->). intros Hl Ht.
    destruct (o_table _ _ _ H d Hl Ht) as (t&Et&Hlen).
    destruct (cleared_table _ _ _ (m_pages _ _ S d) Et) as (t'&Et'&Ht'). exists t'. split; [done|].
    now rewrite <- (Forall2_length _ _ _ Ht').
  - intros a Ha. destruct (core_at a) as (_&_&->&->). now apply H.
  - intros d Hd. destruct (mapped (odescs s' d)) eqn:Em; [|done].
    apply (m_mapped _ _ S) in Em. rewrite (o_mapped _ _ _ H d) in Em; [done|]. now apply (m_candidate _ _ S).
  - intros d Hd. destruct (core_at d) as (_&_&_&->). now apply H.
Qed.

Lemma in_reach_same d : in_reach s' d -> in_reach s d.
Proof.
  intros [H1 H2]. split; [now apply (m_available _ _ S)|]. revert H2. unfold evictable.
  now destruct (core_at d) as (_&_&->&_).
Qed.

Lemma flat_same d : flat s d -> flat s' d.
Proof.
  unfold flat. destruct (core_at d) as (_&_&->&_). intros [H1 H2]. split; [done|].
  intros Ht t' Et'. destruct (cleared_table_inv _ _ _ (m_pages _ _ S d) Et') as (t&Et&HFa).
  specialize (H2 Ht t Et). clear -H2 HFa. induction HFa as [|c c' t t' Hc _ IH]; [constructor|].
  inversion_clear H2 as [|? ? [Hn Hf] H2']. constructor; [|now apply IH].
  destruct Hc as [->| ->]; [done|]. done.
Qed.

Lemma calm_same : calm s -> calm s'.
Proof. intros H d Hd. apply flat_same, H, in_reach_same, Hd. Qed.

End kept.
Lemma object_find_S fuel s act o p : object_find (S fuel) s act o p =
  object_find_1 (object_find fuel) (cap_shootdown fuel) s act o p.
Proof. reflexivity. Qed.

Lemma doit_S fuel s act root l r : doit (S fuel) s act root l r =
  doit_1 (object_find fuel) (fun s l r => doit fuel s act root l r) s act root l r.
Proof. reflexivity. Qed.

Lemma type_eqb_true t t' : t = t' -> cap_type_eqb t t' = true.
Proof. apply bool_decide_eq_true_2. Qed.

Lemma type_eqb_false t t' : t <> t' -> cap_type_eqb t t' = false.
Proof. apply bool_decide_eq_false_2. Qed.

(** ** Using objects *)

Lemma ok_touch s s' A F : ok s A F -> same s s' -> acct s' = acct s -> ok s' A F.
Proof.
  intros H S E. apply (ok_same s s' S A F H); [rewrite E; apply H|].
  unfold desc. rewrite E. apply H.
Qed.

Lemma same_odesc s d x : core x = core (odescs s d) -> (mapped x = true -> mapped (odescs s d) = true) ->
  same s (set_odesc s d x).
Proof.
  intros Hc Hm. split; auto using cleared_refl; intros u; cbn; rewrite fn_at; case_decide; subst; auto.
Qed.

Lemma upd_at s d f u : odescs (upd_odesc s d f) u = if decide (u = d) then f (odescs s d) else odescs s u.
Proof. unfold upd_odesc. cbn. now rewrite fn_at. Qed.

Lemma wkey_available (x : Claim.object_desc) : Claim.wkey x = Some Claim.available <->
  Claim.owner x <> None /\ Claim.eviction_candidate x = true /\ Claim.to_write x = false.
Proof.
  unfold Claim.wkey, Claim.available, Claim.laundry.
  destruct (Claim.owner x), (Claim.eviction_candidate x), (Claim.to_write x); naive_solver.
Qed.

(** An object that someone uses: claimed, and not about to be evicted. *)
Definition used (s : st) (d : Z) : Prop :=
  Claim.owner (desc s d) <> None /\ Claim.eviction_candidate (desc s d) = false.

Lemma used_same s s' d : same s s' -> used s d -> used s' d.
Proof.
  intros S [H1 H2]. split; [now apply (m_owner _ _ S)|].
  destruct (Claim.eviction_candidate (desc s' d)) eqn:E; [|done].
  apply (m_candidate _ _ S) in E. congruence.
Qed.

(** Only [d]'s descriptor changes. *)
Definition only (s s' : st) (d : Z) : Prop :=
  pages s' = pages s /\ forall u, u <> d -> desc s' u = desc s u /\ odescs s' u = odescs s u.

Lemma claim_step s A F a d p : ok s A F -> a ∈ A -> live (odescs s d) = true ->
  exists s', object_desc_claim s (Some a) d p = Ret s' /\ ok s' A F /\ same s s' /\
    only s s' d /\ odescs s' = odescs s /\ used s' d.
Proof.
  intros H Ha Hl. destruct (o_live _ _ _ H d Hl) as [Hr _].
  destruct (claim_some (acct s) A a d p (o_acct _ _ _ H) Ha Hr) as (k&E&Hk&Hd&Hu).
  unfold object_desc_claim. rewrite E. cbn. exists (set_acct s k). split; [done|].
  assert (Hdk : desc (set_acct s k) d = Claim.after_claim (desc s d) (Some a) p) by done.
  assert (Huk : forall u, u <> d -> desc (set_acct s k) u = desc s u) by exact Hu.
  assert (Hfound : used (set_acct s k) d).
  { unfold used. rewrite Hdk. unfold Claim.after_claim.
    destruct (bool_decide (Claim.owner (desc s d) = Some a) && _ && _) eqn:Ec; cbn; [|done].
    apply andb_prop in Ec as [[Eo%bool_decide_eq_true Ee]%andb_prop _].
    apply negb_true_iff in Ee. split; [|done]. now rewrite Eo. }
  assert (S : same s (set_acct s k)).
  { split; auto using cleared_refl; intros u; destruct (decide (u = d)) as [->|Hne];
      rewrite ?(Huk u Hne); auto.
    - destruct Hfound. congruence.
    - intros (_&Hc&_)%wkey_available. destruct Hfound. congruence.
    - intros _. apply Hfound. }
  split; [|split; [done|split; [|done]]; split; [done|]; intros u Hne; now rewrite (Huk u Hne)]. apply (ok_same s _ S A F H Hk). intros u. destruct (decide (u = d)) as [->|Hne]; [done|].
  rewrite (Huk u Hne). apply H.
Qed.

Lemma use_object_ok s A F a d p : ok s A F -> a ∈ A -> live (odescs s d) = true ->
  exists s', use_object s a d p = Ret s' /\ ok s' A F /\ same s s' /\ only s s' d /\ used s' d.
Proof.
  intros H Ha Hl. unfold use_object.
  destruct (negb (bool_decide (Claim.owner (desc s d) <> None)) || negb (Claim.object_active (desc s d))
    || negb (bool_decide (Claim.owner (desc s d) = Some a)) && floating (odescs s d)
    || Claim.eviction_candidate (desc s d)) eqn:E.
  - destruct (claim_step s A F a d (cpol p) H Ha Hl) as (s1&->&H1&S1&[Hp1 O1]&E1&U1). cbn [mbind exec_bind].
    eexists. split; [reflexivity|].
    assert (S : same s1 (upd_odesc s1 d (with_floating false))) by now apply same_odesc.
    split; [now apply (ok_touch s1)|]. split; [now transitivity s1|]. split; [|now apply (used_same s1)].
    split; [done|]. intros u Hu. rewrite upd_at, decide_False by done. now apply O1.
  - apply orb_false_elim in E as [[[Eo _]%orb_false_elim _]%orb_false_elim Ec].
    apply negb_false_iff, bool_decide_eq_true in Eo.
    destruct (negb (bool_decide (Claim.owner (desc s d) = Some a))); (eexists; split; [reflexivity|]).
    + assert (S : same s (upd_odesc s d (with_shared true))) by now apply same_odesc.
      split; [now apply (ok_touch s)|]. split; [done|]. split; [|done].
      split; [done|]. intros u Hu. now rewrite upd_at, decide_False.
    + split; [done|]. split; [reflexivity|]. done.
Qed.

(** ** Finding objects that are in memory *)

Lemma meta_header s o x : meta s o = Some x ->
  exists f h, objects s !! foid o = Some f /\ as_folio (pages s f) = Ret h /\ x = Folio.slot_of h (o mod 129 - 1).
Proof.
  unfold meta. destruct (objects s !! foid o) as [f|]; [|done].
  destruct (as_folio (pages s f)) as [h|] eqn:E; [|done]. intros [= <-]. eauto 6.
Qed.

Lemma foid_mod o : foid o mod 129 = 0.
Proof. unfold foid. rewrite Zminus_mod_idemp_r, Z.sub_diag. done. Qed.

Lemma offset_range o : o mod 129 <> 0 -> 0 <= o mod 129 - 1 < 128.
Proof. assert (Hm := Z.mod_pos_bound o 129). lia. Qed.

(** The folio of an object in memory. *)
Lemma folio_at s A F o f : ok s A F -> objects s !! foid o = Some f ->
  live (odescs s f) = true /\ oid (odescs s f) = foid o /\ type (odescs s f) = cap_folio /\
  exists h, header (pages s f) h.
Proof.
  intros H Ef. destruct (proj1 (o_hash _ _ _ H _ _) Ef) as [Hl Eo].
  destruct (o_folio _ _ _ H f Hl) as [Ht Hh]; [rewrite Eo; apply foid_mod|]. done.
Qed.

Lemma soft_folio find s A F a o p d : ok s A F -> a ∈ A -> objects s !! o = Some d -> o mod 129 = 0 ->
  exists s', object_find_soft find s (Some a) o p = Ret (s', Some d) /\ ok s' A F /\ same s s' /\
    only s s' d /\ used s' d.
Proof.
  intros H Ha Eo Hz. destruct (proj1 (o_hash _ _ _ H _ _) Eo) as [Hl Ed].
  unfold object_find_soft. rewrite Eo, Ed, Z.eqb_refl. unfold check_found. cbn [check mbind exec_bind].
  change (Folio.FOLIO_OBJECTS + 1) with 129. rewrite Hz. cbn [Z.eqb negb mbind exec_bind].
  destruct (use_object_ok s A F a d p H Ha Hl) as (s'&->&Hs'). cbn [mbind exec_bind]. eauto.
Qed.

Lemma find_folio fuel s A F a o p d : ok s A F -> a ∈ A -> objects s !! o = Some d -> o mod 129 = 0 ->
  exists s', object_find (S fuel) s (Some a) o p = Ret (s', Some d) /\ ok s' A F /\ same s s' /\
    only s s' d /\ used s' d.
Proof.
  intros H Ha Eo Hz.
  destruct (soft_folio (object_find fuel) s A F a o p d H Ha Eo Hz) as (s'&E&Hs').
  exists s'. split; [|done]. rewrite object_find_S. unfold object_find_1. now rewrite E.
Qed.

Lemma objects_folio_ok fuel s A F a d : ok s A F -> a ∈ A -> live (odescs s d) = true ->
  oid (odescs s d) mod 129 <> 0 ->
  exists s' f, objects_folio (object_find (S fuel)) s (Some a) d = Ret (s', f) /\ ok s' A F /\ same s s' /\
    only s s' f /\ objects s !! foid (oid (odescs s d)) = Some f.
Proof.
  intros H Ha Hl Hz. destruct (o_object _ _ _ H d Hl Hz) as (x&Hm&_).
  destruct (meta_header _ _ _ Hm) as (f&h&Ef&_&_).
  destruct (find_folio fuel s A F a (foid (oid (odescs s d))) OBJECT_POLICY_VOID f H Ha Ef (foid_mod _))
    as (s'&E&H'&S&O&_).
  exists s', f. split; [|done]. unfold objects_folio, objects_folio_offset.
  change (1 + Folio.FOLIO_OBJECTS) with 129.
  replace (oid (odescs s d) - (oid (odescs s d) mod 129 - 1) - 1) with (foid (oid (odescs s d)))
    by (unfold foid; lia). now rewrite E.
Qed.

(** The header's entry of an object in memory is the descriptor's. *)
Lemma header_entry s A F d f : ok s A F -> live (odescs s d) = true -> oid (odescs s d) mod 129 <> 0 ->
  objects s !! foid (oid (odescs s d)) = Some f ->
  exists h, header (pages s f) h /\ 0 <= objects_folio_offset s d < 128 /\
    let x := Folio.slot_of h (objects_folio_offset s d) in
    Folio.s_type x = type (odescs s d) /\ Folio.s_version x = version (odescs s d) /\
    Folio.s_discarded x = false /\ type (odescs s d) <> cap_void.
Proof.
  intros H Hl Hz Ef. destruct (o_object _ _ _ H d Hl Hz) as (x&Hm&Hx).
  destruct (folio_at s A F _ f H Ef) as (_&_&_&h&Hh).
  destruct (meta_header _ _ _ Hm) as (f'&h'&Ef'&Eh'&->).
  assert (f' = f) as -> by congruence. destruct Hh as [Eh Hw]. assert (h' = h) as -> by congruence.
  exists h. split; [done|]. split; [now apply offset_range|]. exact Hx.
Qed.

Lemma object_type_neq t : object_type t -> t <> cap_folio.
Proof. unfold object_type. naive_solver. Qed.

Lemma check_found_ok fuel s A F a d : ok s A F -> a ∈ A -> live (odescs s d) = true ->
  exists s', check_found (object_find (S fuel)) s (Some a) d (oid (odescs s d)) = Ret s' /\
    ok s' A F /\ same s s' /\ pages s' = pages s.
Proof.
  intros H Ha Hl. unfold check_found. change (Folio.FOLIO_OBJECTS + 1) with 129.
  destruct (Z.eqb_spec (oid (odescs s d) mod 129) 0) as [Hz|Hz]; cbn [negb].
  { exists s. split; [done|]. split; [done|]. split; [reflexivity|done]. }
  destruct (objects_folio_ok fuel s A F a d H Ha Hl Hz) as (s'&f&->&H'&S&O&Ef). cbn [mbind exec_bind].
  destruct (core_at s s' S d) as (Eo&Ev&Et&El).
  destruct (header_entry s' A F d f H') as (h&[Eh [Hw _]]&Hi&Ht&_&Hd&_); [congruence..| |].
  { rewrite Eo. now rewrite (m_objects _ _ S). }
  rewrite Eh. cbn [mbind exec_bind]. rewrite (Folio.type_get h Hw) by lia. cbn [mbind exec_bind].
  rewrite Ht. unfold cap_type_eqb. rewrite bool_decide_eq_true_2 by done. cbn [check mbind exec_bind].
  rewrite (Folio.discarded_get h Hw) by lia. cbn [mbind exec_bind]. rewrite Hd. cbn [negb check].
  exists s'. split; [done|]. split; [done|]. split; [done|apply O].
Qed.

Lemma soft_ok fuel s A F a o p d : ok s A F -> a ∈ A -> objects s !! o = Some d ->
  exists s', object_find_soft (object_find (S fuel)) s (Some a) o p = Ret (s', Some d) /\ ok s' A F /\
    same s s' /\ pages s' = pages s /\ used s' d.
Proof.
  intros H Ha Eo. destruct (proj1 (o_hash _ _ _ H _ _) Eo) as [Hl <-].
  unfold object_find_soft. rewrite Eo, Z.eqb_refl. cbn [check mbind exec_bind].
  destruct (check_found_ok fuel s A F a d H Ha Hl) as (s1&->&H1&S1&P1). cbn [mbind exec_bind].
  destruct (use_object_ok s1 A F a d p H1 Ha) as (s2&->&H2&S2&[P2 _]&U2).
  { now destruct (core_at s s1 S1 d) as (_&_&_&->). }
  exists s2. split; [done|]. split; [done|]. split; [now transitivity s1|]. split; [congruence|done].
Qed.

Lemma find_in fuel s A F a o p d : ok s A F -> a ∈ A -> objects s !! o = Some d ->
  exists s', object_find (S (S fuel)) s (Some a) o p = Ret (s', Some d) /\ ok s' A F /\
    same s s' /\ pages s' = pages s /\ used s' d.
Proof.
  intros H Ha Eo. destruct (soft_ok fuel s A F a o p d H Ha Eo) as (s'&E&Hs'). exists s'.
  split; [|done]. rewrite object_find_S. unfold object_find_1. now rewrite E.
Qed.

Lemma soft_None find s act o p : objects s !! o = None -> object_find_soft find s act o p = Ret (s, None).
Proof. unfold object_find_soft. now intros ->. Qed.

(** ** Unmapping *)

Lemma dirty_step s A F d b : ok s A F -> Claim.eviction_candidate (desc s d) = false ->
  let s' := set_acct s (set_dirty (acct s) d b) in ok s' A F /\ same s s'.
Proof.
  intros H Hc s'.
  assert (Hd : forall u, desc s' u = if decide (u = d) then
      let x := desc s d in
      Claim.Desc (Claim.owner x) (Claim.pol x) (Claim.eviction_candidate x) b (Claim.age x)
    else desc s u) by (intros u; apply adesc_dirty).
  assert (S : same s s').
  { split; auto using cleared_refl; intros u; rewrite ?Hd; destruct (decide (u = d)) as [->|]; auto.
    intros (_&Hw&_)%wkey_available. cbn in Hw. congruence. }
  split; [|done]. apply (ok_same s s' S A F H).
  - apply dirty_ok; [apply H|done].
  - intros u. rewrite Hd. case_decide as E; [rewrite E|]; apply H.
Qed.

Lemma add_status_ok s A F d w : ok s A F -> Claim.eviction_candidate (desc s d) = false ->
  ok (add_status s d w) A F /\ same s (add_status s d w).
Proof.
  intros H Hc. destruct (dirty_step s A F d (Claim.dirty (desc s d) || w.1) H Hc) as [H1 S1].
  unfold add_status. set (s1 := set_acct s _) in *.
  assert (S : same s1 (set_odesc s1 d (with_user (user_dirty (odescs s d) || w.1)
    (user_referenced (odescs s d) || w.2) (odescs s d)))) by now apply same_odesc.
  split; [now apply (ok_touch s1)|now transitivity s1].
Qed.

Lemma unmap_ok s A F d : ok s A F -> live (odescs s d) = true ->
  Claim.eviction_candidate (desc s d) = false ->
  exists s', object_desc_unmap s d = Ret s' /\ ok s' A F /\ same s s' /\ pages s' = pages s /\
    mapped (odescs s' d) = false.
Proof.
  intros H Hl Hc. unfold object_desc_unmap. rewrite Hl. cbn [check mbind exec_bind].
  destruct (mapped (odescs s d)) eqn:Em.
  - destruct (add_status_ok s A F d (unmap_status s d) H Hc) as [H1 S1].
    set (s1 := add_status s d _) in *.
    assert (S : same s1 (upd_odesc s1 d (with_mapped false))) by now apply same_odesc.
    eexists. split; [reflexivity|]. split; [now apply (ok_touch s1)|].
    split; [now transitivity s1|]. split; [done|]. rewrite upd_at, decide_True by done. done.
  - exists s. split; [done|]. split; [done|]. split; [reflexivity|done].
Qed.

(** ** Revoking what a flat object holds *)

(** A capability in a page of capabilities in memory, or in a local variable. *)
Definition place_ok (s : st) (l : place) : Prop :=
  match l with
  | At d i => live (odescs s d) = true /\ type (odescs s d) = cap_cappage /\ 0 <= i < 256
  | Temp _ => True
  end.

Lemma place_same s s' l : same s s' -> place_ok s l -> place_ok s' l.
Proof. intros S. destruct l as [d i|]; [|done]. cbn. now destruct (core_at s s' S d) as (_&_&->&->). Qed.

Lemma get_cap_ok s A F l : ok s A F -> place_ok s l -> exists c, get_cap s l = Ret c.
Proof.
  intros H Hp. destruct l as [d i|c]; [|now exists c]. destruct Hp as (Hl&Ht&Hi).
  destruct (o_table _ _ _ H d Hl Ht) as (t&Et&Hlen). cbn. rewrite Et. cbn [mbind exec_bind].
  destruct (lookup_lt_is_Some_2 t (Z.to_nat i)) as [c Ec]; [lia|]. rewrite Ec. now exists c.
Qed.

Lemma void_cap_ok s A F l c : ok s A F -> place_ok s l -> get_cap s l = Ret c -> c_type c <> cap_void ->
  exists s', void_cap s l = Ret s' /\ ok s' A F /\ same s s'.
Proof.
  intros H Hp Ec Hv. destruct l as [d i|]; [|exists s; split; [done|]; split; [done|reflexivity]].
  cbn in Ec |- *. destruct (pages s d) as [|h|t] eqn:Ep; cbn [as_table mbind exec_bind] in Ec |- *.
  - destruct (replicate 256 zero_cap !! Z.to_nat i) as [x|] eqn:Ex; [|done].
    apply lookup_replicate in Ex as [-> _]. injection Ec as <-. now destruct Hv.
  - done.
  - destruct (t !! Z.to_nat i) as [x|] eqn:Ex; [|done]. injection Ec as ->. cbn [access mbind exec_bind].
    eexists. split; [reflexivity|].
    assert (S : same s (set_page s d (Table (<[Z.to_nat i := cap_set_type c cap_void]> t)))).
    { split; auto. intros u. cbn. rewrite fn_at. case_decide; [subst|now left]. right.
      eexists _, _. split; [exact Ep|]. split; [reflexivity|].
      apply Forall2_same_length_lookup. split; [now rewrite length_insert|].
      intros j y z Ey Ez. destruct (decide (Z.to_nat i = j)) as [<-|Hne].
      - rewrite list_lookup_insert_eq in Ez by exact (lookup_lt_Some _ _ _ Ex). right. congruence.
      - rewrite list_lookup_insert_ne in Ez by done. left. congruence. }
    split; [now apply (ok_touch s)|done].
Qed.

Lemma doit_leaf fuel s A F a root l c r : ok s A F -> a ∈ A -> place_ok s l -> get_cap s l = Ret c ->
  is_cappage (c_type c) = false -> c_type c <> cap_folio ->
  exists s', doit (S (S fuel)) s (Some a) root l r = Ret s' /\ ok s' A F /\ same s s'.
Proof.
  intros H Ha Hp Ec Hn Hf. rewrite doit_S. unfold doit_1. rewrite Ec. cbn [mbind exec_bind].
  assert (Hret : exists s', Ret s = Ret s' /\ ok s' A F /\ same s s')
    by (exists s; split; [done|split; [done|reflexivity]]).
  destruct (c_type c) eqn:Et; try done.
  all: destruct (r - CAP_GUARD_BITS c <? 12); [done|].
  all: destruct (objects s !! c_oid c) as [d|] eqn:Eo; [|rewrite soft_None by done; done].
  all: destruct (soft_ok fuel s A F a (c_oid c) (OBJECT_POLICY (c_discardable c) (c_priority c)) d H Ha Eo)
         as (s1&->&H1&S1&P1&U1); cbn [mbind exec_bind].
  all: assert (Ec1 : get_cap s1 l = Ret c) by (destruct l; cbn in Ec |- *; now rewrite ?P1).
  all: rewrite Ec1; cbn [mbind exec_bind]; destruct (negb (version (odescs s1 d) =? c_version c)).
  all: try (destruct (void_cap_ok s1 A F l c H1 (place_same _ _ _ S1 Hp) Ec1) as (s2&E2&H2&S2);
            [congruence|]; exists s2; split; [done|]; split; [done|now transitivity s1]).
  all: destruct (unmap_ok s1 A F d H1) as (s2&E2&H2&S2&_); [|apply U1|];
       [destruct (core_at s s1 S1 d) as (_&_&_&->); now apply (proj1 (o_hash _ _ _ H _ _) Eo)|].
  all: exists s2; split; [done|]; split; [done|now transitivity s1].
Qed.

(** A loop whose body keeps the invariant. *)
Lemma for_loop_ok (Q : st -> Prop) (lo hi : Z) body k s i :
  (forall s j, Q s -> lo <= j < hi -> exists s', body s j = Ret s' /\ Q s') ->
  Q s -> lo <= i -> i + Z.of_nat k <= hi -> exists s', for_loop k body s i = Ret s' /\ Q s'.
Proof.
  intros Hb. revert s i. induction k as [|k IH]; intros s i Hq Hi Hk; [now exists s|]. cbn [for_loop].
  destruct (Hb s i Hq) as (s1&->&H1); [lia|]. cbn [mbind exec_bind]. apply IH; [done|lia..].
Qed.

Lemma desc_cap s d : let c := object_desc_to_cap s d in
  c_type c = type (odescs s d) /\ c_oid c = oid (odescs s d) /\ c_version c = version (odescs s d) /\
  c_addr_trans c = CAP_ADDR_TRANS_VOID.
Proof.
  unfold object_desc_to_cap. cbn. case_match; [|done].
  unfold CAP_SET_SUBPAGE, CAP_SET_GUARD_SUBPAGE. cbn. done.
Qed.

Lemma cap_types_compatible_refl t : cap_types_compatible t t = true.
Proof. unfold cap_types_compatible, cap_type_eqb. now rewrite bool_decide_eq_true_2. Qed.

(** The types of objects in memory. *)
Lemma live_type s A F d : ok s A F -> live (odescs s d) = true ->
  if decide (oid (odescs s d) mod 129 = 0) then type (odescs s d) = cap_folio
  else object_type (type (odescs s d)) /\ type (odescs s d) <> cap_void.
Proof.
  intros H Hl. case_decide as Hz; [now apply (o_folio _ _ _ H d Hl)|].
  destruct (o_object _ _ _ H d Hl Hz) as (x&Hm&Ht&_&_&Hv). split; [|done]. rewrite <- Ht.
  destruct (meta_header _ _ _ Hm) as (f&h&Ef&Eh&->).
  destruct (folio_at s A F _ f H Ef) as (_&_&_&h'&Eh'&_&Ho). assert (h' = h) as -> by congruence.
  apply Ho, offset_range, Hz.
Qed.

Lemma cappage_object s A F d : ok s A F -> live (odescs s d) = true ->
  is_cappage (type (odescs s d)) = true -> type (odescs s d) = cap_cappage.
Proof.
  intros H Hl Hc. assert (Ht := live_type s A F d H Hl). case_decide.
  - now rewrite Ht in Hc.
  - destruct Ht as [[E|[E|[E|[E|E]]]] _]; rewrite E in Hc |- *; done.
Qed.

Lemma shoot_ok fuel s A F a d : ok s A F -> a ∈ A -> live (odescs s d) = true -> flat s d ->
  exists s', cap_shootdown (S (S (S fuel))) s (Some a) (object_desc_to_cap s d) = Ret s' /\
    ok s' A F /\ same s s'.
Proof.
  intros H Ha Hl Hflat. set (c := object_desc_to_cap s d).
  destruct (desc_cap s d) as (Et&Eo&Ev&Ea). fold c in Et, Eo, Ev, Ea.
  unfold cap_shootdown. rewrite bool_decide_eq_true_2 by done. cbn [check mbind exec_bind].
  destruct (is_cappage (c_type c)) eqn:Ec;
    [|apply (doit_leaf (S fuel) s A F a _ (Temp c) c); try done; rewrite Et; apply Hflat].
  assert (Hobj : type (odescs s d) = cap_cappage) by (apply (cappage_object s A F); congruence).
  assert (Hhash : objects s !! oid (odescs s d) = Some d) by now apply (o_hash _ _ _ H).
  rewrite doit_S. unfold doit_1. cbn [get_cap mbind exec_bind]. rewrite Et, Hobj.
  unfold CAP_GUARD_BITS, CAP_SUBPAGE_SIZE, CAP_SUBPAGE_SIZE_LOG2.
  rewrite Ea. unfold CAP_ADDR_TRANS_GUARD_BITS, CAP_ADDR_TRANS_SUBPAGE_SIZE, CAP_ADDR_TRANS_SUBPAGE_SIZE_LOG2.
  cbn [CAP_ADDR_TRANS_VOID gdepth subpages_log2]. change (ADDR_BITS - 0 <? 8 - 0 + 12) with false.
  change (Z.to_nat (Z.shiftl 1 (8 - 0))) with 256%nat. cbn iota.
  unfold cap_to_object_internal. cbn [get_cap mbind exec_bind]. rewrite Et, Hobj, Eo. unfold cap_type_eqb.
  rewrite (bool_decide_eq_false_2 (cap_cappage = cap_void)) by done.
  destruct (find_in fuel s A F a (oid (odescs s d)) (CAP_POLICY_GET c) d H Ha Hhash) as (s1&->&H1&S1&P1&U1).
  cbn [mbind exec_bind]. destruct (core_at s s1 S1 d) as (Eo1&Ev1&Et1&El1).
  rewrite Ev1, Ev, Z.eqb_refl. cbn [negb]. rewrite Et1, Hobj, cap_types_compatible_refl.
  cbn [check mbind exec_bind].
  apply (for_loop_ok (fun s' => ok s' A F /\ same s s') 0 256); [|done|lia|lia].
  intros s2 i [H2 S2] Hi. destruct (core_at s s2 S2 d) as (Eo2&Ev2&Et2&El2).
  assert (Hp : place_ok s2 (At d i)) by (cbn; rewrite El2, Et2; done).
  destruct (get_cap_ok s2 A F (At d i) H2 Hp) as [c2 Ec2]. cbn [get_cap] in Ec2.
  rewrite Ec2. cbn [mbind exec_bind]. destruct (negb _); [|now exists s2].
  destruct (o_table _ _ _ H2 d) as (t&Et'&_); [congruence..|].
  assert (Hleaf : is_cappage (c_type c2) = false /\ c_type c2 <> cap_folio).
  { destruct (flat_same s s2 S2 d Hflat) as [_ Hall]. specialize (Hall ltac:(congruence) t Et').
    rewrite Et' in Ec2. cbn in Ec2. destruct (t !! Z.to_nat i) as [x|] eqn:Ex; [|done].
    injection Ec2 as <-. now apply (Forall_lookup_1 _ _ _ _ Hall Ex). }
  destruct (doit_leaf fuel s2 A F a (oid (odescs s d)) (At d i) c2 (ADDR_BITS - 0 - (8 - 0)) H2 Ha Hp Ec2)
    as (s3&E3&H3&S3); [apply Hleaf..|].
  exists s3. split; [done|]. split; [done|]. now transitivity s2.
Qed.

(** ** Destroying an object *)

Record gone (s s' : st) (d : Z) : Prop := Gone {
  g_objects : objects s' = delete (oid (odescs s d)) (objects s);
  g_frames : frames s' = frames s;
  g_folios : folios s' = folios s;
  g_min : min_alloc s' = min_alloc s;
  g_root : root_activity s' = root_activity s;
  g_pages : forall u, cleared (pages s u) (pages s' u);
  g_core : forall u, u <> d -> core (odescs s' u) = core (odescs s u);
  g_dead : live (odescs s' d) = false;
  g_candidate : forall u, Claim.eviction_candidate (desc s' u) = true -> u <> d /\
    Claim.eviction_candidate (desc s u) = true;
  g_available : forall u, Claim.wkey (desc s' u) = Some Claim.available ->
    u <> d /\ Claim.wkey (desc s u) = Some Claim.available;
  g_owner : forall u, u <> d -> Claim.owner (desc s u) <> None -> Claim.owner (desc s' u) <> None
}.

Lemma same_gone s1 s2 s3 d : same s1 s2 -> gone s2 s3 d -> gone s1 s3 d.
Proof.
  intros S G. split; try (etransitivity; [apply G|apply S]).
  - rewrite (g_objects _ _ _ G), (m_objects _ _ S). now destruct (core_at s1 s2 S d) as (->&_).
  - intros u. eapply cleared_trans; [apply S|apply G].
  - done.
  - apply G.
  - intros u Hu. destruct (g_candidate _ _ _ G u Hu). split; [done|]. now apply (m_candidate _ _ S).
  - intros u Hu. destruct (g_available _ _ _ G u Hu). split; [done|]. now apply (m_available _ _ S).
  - intros u Hu Ho. apply (g_owner _ _ _ G u Hu). now apply (m_owner _ _ S).
Qed.

(** The state without object [d]; [k] is the accounting that has released it. *)
Definition kill (s : st) (d : Z) (k : K) : st :=
  set_acct (set_objects (upd_odesc (set_acct s k) d (with_live false))
              (delete (oid (odescs s d)) (objects s))) (wipe k d).

Section kill.
Context (s : st) (A F : gset Z) (d : Z) (k : K).
Context (H : ok s A F) (Hl : live (odescs s d) = true) (Hz : oid (odescs s d) mod 129 <> 0).
Context (Hk : forall u, u <> d -> adesc k u = desc s u).

Lemma kill_desc u : desc (kill s d k) u = if decide (u = d) then Claim.fresh else desc s u.
Proof. unfold desc, kill. cbn. rewrite adesc_wipe. case_decide; [done|]. now apply Hk. Qed.

Lemma kill_odesc u : odescs (kill s d k) u = if decide (u = d) then with_live false (odescs s d) else odescs s u.
Proof. unfold kill. cbn. now rewrite fn_at. Qed.

Lemma kill_gone : gone s (kill s d k) d.
Proof.
  split; try done.
  - auto using cleared_refl.
  - intros u Hu. now rewrite kill_odesc, decide_False.
  - now rewrite kill_odesc, decide_True.
  - intros u. rewrite kill_desc. case_decide; done.
  - intros u. rewrite kill_desc. case_decide; done.
  - intros u Hu. now rewrite kill_desc, decide_False.
Qed.

Lemma kill_meta o : meta (kill s d k) o = meta s o.
Proof.
  unfold meta, kill. cbn. rewrite lookup_delete_ne; [done|]. intros E. apply Hz. rewrite E. apply foid_mod.
Qed.

Lemma kill_live u : live (odescs (kill s d k) u) = true -> u <> d /\ odescs (kill s d k) u = odescs s u.
Proof. rewrite kill_odesc. case_decide; [done|]. done. Qed.

Lemma killed_ok : d ∉ A -> kok (wipe k d) A -> ok (kill s d k) A F.
Proof.
  intros Hd Hw. split; try apply H.
  - done.
  - intros u. rewrite kill_desc, kill_odesc. case_decide; [done|]. apply H.
  - intros o u. unfold kill at 1. cbn [set_acct set_objects objects]. rewrite lookup_delete_Some. split.
    + intros [Hne Eo]. apply (o_hash _ _ _ H) in Eo as [Hu <-].
      rewrite kill_odesc, decide_False by congruence. done.
    + intros [Hu E]. apply kill_live in Hu as Hu'. destruct Hu' as [Hne Hu']. rewrite Hu' in Hu, E.
      assert (Eu : objects s !! o = Some u) by now apply (o_hash _ _ _ H). split; [|done].
      intros <-. assert (objects s !! oid (odescs s d) = Some d) by now apply (o_hash _ _ _ H). congruence.
  - intros u Hu. destruct (kill_live u Hu) as [_ Eu]. rewrite Eu in Hu |- *. now apply H.
  - intros u Hu. destruct (kill_live u Hu) as [_ Eu]. rewrite Eu in Hu |- *. now apply H.
  - intros u Hu. destruct (kill_live u Hu) as [_ Eu]. rewrite Eu in Hu |- *. rewrite kill_meta. now apply H.
  - intros u Hu. destruct (kill_live u Hu) as [_ Eu]. rewrite Eu in Hu |- *. now apply H.
  - intros a Ha. rewrite kill_odesc, decide_False by congruence. now apply H.
  - intros u. rewrite kill_desc, kill_odesc. case_decide; [done|]. apply H.
  - intros u Hu. destruct (o_free _ _ _ H u Hu). rewrite kill_odesc. split; [done|].
    now case_decide.
Qed.

End kill.

Lemma destroy_ok fuel s A F a d : ok s A F -> a ∈ A -> live (odescs s d) = true ->
  oid (odescs s d) mod 129 <> 0 -> type (odescs s d) <> cap_activity_control -> flat s d ->
  Claim.owner (desc s d) <> None ->
  exists s', memory_object_destroy (object_find (S (S (S fuel)))) (cap_shootdown (S (S (S fuel)))) s (Some a) d
      = Ret s' /\ ok s' A F /\ gone s s' d.
Proof.
  intros H Ha Hl Hz Ht Hflat Ho. unfold memory_object_destroy. rewrite bool_decide_eq_true_2, Hl by done.
  cbn [check mbind exec_bind].
  destruct (objects_folio_ok (S (S fuel)) s A F a d H Ha Hl Hz) as (s1&f&->&H1&S1&_&Ef). cbn [mbind exec_bind].
  destruct (core_at s s1 S1 d) as (Eo1&_&Et1&El1).
  destruct (header_entry s1 A F d f H1) as (h&[Eh [Hw _]]&Hi&Hty&_); [congruence..| |].
  { now rewrite Eo1, (m_objects _ _ S1). }
  rewrite Eh. cbn [mbind exec_bind]. rewrite (Folio.type_get h Hw) by lia. cbn [mbind exec_bind].
  rewrite Hty. unfold cap_type_eqb. rewrite bool_decide_eq_true_2 by done. cbn [check mbind exec_bind].
  destruct (shoot_ok fuel s1 A F a d H1 Ha) as (s2&->&H2&S2); [congruence|now apply (flat_same s)|].
  cbn [mbind exec_bind]. assert (S12 : same s s2) by now transitivity s1.
  destruct (core_at s s2 S12 d) as (Eo2&_&Et2&El2).
  destruct (claim_none (acct s2) A d (Claim.pol (desc s2 d)) (o_acct _ _ _ H2)) as (k&Ek&Hk&Hu).
  { now apply (m_owner _ _ S12). }
  unfold object_desc_claim. rewrite Ek. cbn [mbind exec_bind].
  rewrite (bool_decide_eq_false_2 (type (odescs (set_acct s2 k) d) = cap_activity_control)) by (cbn; congruence).
  cbn [mbind exec_bind].
  assert (Eo : oid (odescs (upd_odesc (set_acct s2 k) d (with_live false)) d) = oid (odescs s2 d))
    by (rewrite upd_at, decide_True; done).
  rewrite Eo, bool_decide_eq_true_2 by apply lookup_delete_eq. cbn [check mbind exec_bind].
  exists (kill s2 d k). split; [done|]. split.
  - apply killed_ok; try done; [congruence..|]. intros Hd. apply (o_members _ _ _ H) in Hd as [_ Hd]. done.
  - apply (same_gone s s2); [done|]. now apply kill_gone.
Qed.

(** ** Changing a folio's header *)

Lemma oid_split o fo i : fo mod 129 = 0 -> -1 <= i < 128 ->
  (foid o = fo /\ o mod 129 - 1 = i <-> o = fo + 1 + i).
Proof.
  intros Hf Hi. unfold foid. assert (Hm := Z.mod_pos_bound o 129 ltac:(done)). split; [lia|]. intros ->.
  assert (E : (fo + 1 + i) mod 129 = 1 + i).
  { rewrite <- Z.add_assoc, Z.add_mod, Hf, Z.add_0_l, Z.mod_mod by done. apply Z.mod_small. lia. }
  lia.
Qed.

Section header.
Context (s : st) (A F : gset Z) (fo f i : Z) (h h' : Folio.folio) (x : Folio.slot).
Context (H : ok s A F) (Hf : objects s !! fo = Some f) (Hz : fo mod 129 = 0).
Context (Hh : header (pages s f) h) (Hi : 0 <= i < 128) (Hu : Folio.upd_slot h h' i x).

Lemma header_meta o : meta (set_page s f (Header h')) o =
  if decide (o = fo + 1 + i) then Some x else meta s o.
Proof.
  unfold meta. cbn. destruct (objects s !! foid o) as [g|] eqn:Eg.
  2: { case_decide as E; [|done]. destruct (proj2 (oid_split o fo i Hz ltac:(lia)) E). congruence. }
  rewrite fn_at. destruct (decide (g = f)) as [->|Hne].
  - destruct (proj1 (o_hash _ _ _ H _ _) Hf) as [_ E1]. destruct (proj1 (o_hash _ _ _ H _ _) Eg) as [_ E2].
    assert (Efo : foid o = fo) by congruence. cbn. rewrite (proj1 Hh). f_equal.
    assert (Hm := Z.mod_pos_bound o 129 ltac:(done)). rewrite (proj2 Hu) by lia.
    destruct (oid_split o fo i Hz ltac:(lia)) as [Ha Hb].
    destruct (decide (o = fo + 1 + i)) as [E|E].
    + destruct (Hb E). now rewrite decide_True.
    + rewrite decide_False; [done|]. tauto.
  - rewrite decide_False; [done|]. intros E. destruct (proj2 (oid_split o fo i Hz ltac:(lia)) E). congruence.
Qed.

Lemma header_ok : object_type (Folio.s_type x) ->
  (forall d, objects s !! (fo + 1 + i) = Some d ->
    Folio.s_type x = type (odescs s d) /\ Folio.s_version x = version (odescs s d) /\
    Folio.s_discarded x = false) ->
  ok (set_page s f (Header h')) A F.
Proof.
  intros Hx Hd. destruct (proj1 (o_hash _ _ _ H _ _) Hf) as [Hl Eo].
  destruct (o_folio _ _ _ H f Hl ltac:(congruence)) as [Htf _].
  split; try apply H.
  - intros d Hld Hzd. cbn [set_page odescs pages]. destruct (o_folio _ _ _ H d Hld Hzd) as [Ht Hg].
    split; [done|]. rewrite fn_at. destruct (decide (d = f)) as [->|]; [|done].
    exists h'. split; [done|]. split; [apply Hu|]. intros j Hj. rewrite (proj2 Hu) by lia.
    case_decide; [done|]. now apply Hh.
  - intros d Hld Hzd. rewrite header_meta. cbn [set_page odescs].
    destruct (o_object _ _ _ H d Hld Hzd) as (y&Hy&Hy'). case_decide as E; [|now exists y].
    exists x. split; [done|]. destruct (Hd d) as (?&?&?); [apply H; split; [done|exact E]|].
    repeat split; try done. apply Hy'.
  - intros d Hld Ht. cbn [set_page odescs pages] in *. rewrite fn_at.
    destruct (decide (d = f)) as [->|]; [congruence|]. now apply (o_table _ _ _ H).
Qed.

End header.

(** The page of a frame that holds no object. *)
Lemma page_dead s A F d p : ok s A F -> live (odescs s d) = false ->
  ok (set_page s d p) A F /\ forall o, meta (set_page s d p) o = meta s o.
Proof.
  intros H Hl. assert (Hm : forall o, meta (set_page s d p) o = meta s o).
  { intros o. unfold meta. cbn. destruct (objects s !! foid o) as [g|] eqn:Eg; [|done].
    apply (o_hash _ _ _ H) in Eg as [Hg _]. rewrite fn_at, decide_False; [done|]. congruence. }
  split; [|done]. split; try apply H.
  - intros u Hu Hz. cbn [set_page odescs pages] in *. rewrite fn_at, decide_False; [|congruence].
    now apply (o_folio _ _ _ H).
  - intros u Hu Hz. rewrite Hm. now apply (o_object _ _ _ H).
  - intros u Hu Ht. cbn [set_page odescs pages] in *. rewrite fn_at, decide_False; [|congruence].
    now apply (o_table _ _ _ H).
Qed.

(** ** What happens to objects when memory is allocated

    [new] is the object that is brought into memory, if any. *)

Record evolved (new : option Z) (s s' : st) : Prop := Evolved {
  e_folios : folios s' = folios s;
  e_objects : forall o d, objects s' !! o = Some d -> objects s !! o = Some d \/ new = Some o;
  e_resident : forall o d, objects s !! o = Some d -> o mod 129 = 0 -> objects s' !! o = Some d;
  e_core : forall o d, objects s' !! o = Some d -> new <> Some o -> core (odescs s' d) = core (odescs s d);
  e_meta : forall o x, meta s o = Some x -> exists x', meta s' o = Some x' /\
    Folio.s_type x' = Folio.s_type x /\ Folio.s_version x' = Folio.s_version x /\
    (Folio.s_discarded x' = Folio.s_discarded x /\ Folio.s_content x' = Folio.s_content x \/
     objects s !! o <> None /\ Folio.s_discarded x' = true)
}.

Lemma evolved_meta_refl s s' new :
  folios s' = folios s -> objects s' = objects s -> (forall d, core (odescs s' d) = core (odescs s d)) ->
  (forall o, meta s' o = meta s o) -> evolved new s s'.
Proof.
  intros Ef Eo Ec Em. split; rewrite ?Eo; auto.
  intros o x E. exists x. rewrite Em. do 3 (split; [done|]). now left.
Qed.

Lemma same_evolved s s' new : same s s' -> evolved new s s'.
Proof. intros S. apply evolved_meta_refl; [apply S..|]. intros o. now apply meta_same. Qed.

Lemma evolved_trans new s1 s2 s3 : evolved None s1 s2 -> evolved new s2 s3 ->
  evolved new s1 s3.
Proof.
  intros E1 E2. split.
  - rewrite (e_folios _ _ _ E2). apply E1.
  - intros o d [H|H]%(e_objects _ _ _ E2); [|auto]. apply (e_objects _ _ _ E1) in H as [|]; [auto|done].
  - intros o d Ho Hz. apply (e_resident _ _ _ E2); [|done]. now apply (e_resident _ _ _ E1).
  - intros o d Ho Hn. rewrite (e_core _ _ _ E2 o d Ho Hn).
    apply (e_objects _ _ _ E2) in Ho as [Ho|]; [|done]. now apply (e_core _ _ _ E1 o).
  - intros o x Hx. destruct (e_meta _ _ _ E1 o x Hx) as (y&Hy&Ht&Hv&Hd).
    destruct (e_meta _ _ _ E2 o y Hy) as (z&Hz&Ht'&Hv'&Hd'). exists z. split; [done|].
    split; [congruence|]. split; [congruence|].
    destruct Hd as [[Hd Hc]|[Hd1 Hd2]], Hd' as [[Hd' Hc']|[Hd1' Hd2']].
    + left. split; congruence.
    + right. split; [|done]. destruct (objects s2 !! o) as [d|] eqn:Eo; [|done].
      apply (e_objects _ _ _ E1) in Eo as [Eo|]; [now rewrite Eo|done].
    + right. split; [done|congruence].
    + right. done.
Qed.

(** ** Allocating a frame *)

(** What the allocator relies on: frames lie at consecutive addresses, and the
    pager makes only flat objects available and keeps what is in memory there;
    waking the threads that wait for an object only uses threads. *)
Record environment_laws : Prop := EnvironmentLaws {
  first_ok : 0 < first_frame /\ first_frame mod PAGESIZE = 0;
  last_ok : last_frame = first_frame + (n - 1) * PAGESIZE;
  collect_ok : forall s A F goal, ok s A F -> calm s ->
    exists s', pager_collect s goal = Ret s' /\ ok s' A F /\ calm s' /\ evolved None s s' /\
      objects s' = objects s;
  wake_ok : forall s A F act f idx rc, ok s A F ->
    exists s', wake_waiters s act f idx rc = Ret s' /\ ok s' A F /\ same s s'
}.

Context (HL : environment_laws).

Lemma desc_object d : 0 <= d < n -> object_desc_to_object d = Ret (first_frame + d * PAGESIZE) /\
  object_to_object_desc (first_frame + d * PAGESIZE) = Ret d /\ first_frame + d * PAGESIZE <> 0 /\
  (first_frame + d * PAGESIZE - first_frame) / PAGESIZE = d.
Proof.
  intros Hd. destruct (first_ok HL) as [Hp Hm]. assert (Hlast := last_ok HL). unfold PAGESIZE in *.
  assert (Ed : (first_frame + d * 4096 - first_frame) / 4096 = d).
  { replace (first_frame + d * 4096 - first_frame) with (d * 4096) by lia. now apply Z.div_mul. }
  split; [|split; [|split; [lia|done]]].
  - unfold object_desc_to_object, PAGESIZE. rewrite Hlast.
    replace (first_frame + (n - 1) * 4096 - first_frame) with ((n - 1) * 4096) by lia.
    rewrite Z.div_mul by done. now rewrite (proj2 (Z.leb_le 0 d)), (proj2 (Z.leb_le d (n - 1))) by lia.
  - unfold object_to_object_desc, PAGESIZE. rewrite Hlast, Ed.
    change (4096 - 1) with (2 ^ 12 - 1). rewrite land_mask by done. change (2 ^ 12) with 4096.
    rewrite Z.mod_add, Hm by done. now rewrite !(proj2 (Z.leb_le _ _)) by lia.
Qed.

(** A frame that no one uses: it holds no object, and it is not in the pool. *)
Definition in_hand (s : st) (F : gset Z) (d : Z) : Prop :=
  0 <= d < n /\ live (odescs s d) = false /\ (d ∉ F) /\ pages s d = Zeroed.

Lemma reach_live s A F d : ok s A F -> in_reach s d ->
  live (odescs s d) = true /\ Claim.owner (desc s d) <> None /\
  type (odescs s d) <> cap_activity_control /\ type (odescs s d) <> cap_thread.
Proof.
  intros H [Hw He]. apply wkey_available in Hw as (Ho&_&_). split; [now apply (o_owner _ _ _ H)|].
  split; [done|]. unfold evictable, cap_type_eqb in He.
  apply andb_prop in He as [H1%negb_true_iff%bool_decide_eq_false H2%negb_true_iff%bool_decide_eq_false]. done.
Qed.

(** After an object has gone, with what was discarded noted and its page cleared. *)
Lemma calm_gone s s' d : calm s -> gone s s' d -> calm s'.
Proof.
  intros H G u [Hw He]. destruct (g_available _ _ _ G u Hw) as [Hne Hw'].
  assert (Ec := g_core _ _ _ G u Hne). unfold core in Ec.
  assert (Et : type (odescs s' u) = type (odescs s u)) by congruence.
  assert (Hu : in_reach s u) by (split; [done|]; revert He; unfold evictable; now rewrite Et).
  destruct (H u Hu) as [H1 H2]. split; [congruence|]. rewrite Et. intros Ht t' Et'.
  destruct (cleared_table_inv _ _ _ (g_pages _ _ _ G u) Et') as (t&E&Hfa). specialize (H2 Ht t E).
  clear -H2 Hfa. induction Hfa as [|c c' t t' Hc _ IH]; [constructor|].
  inversion_clear H2 as [|? ? Hn H2']. constructor; [|now apply IH]. now destruct Hc as [->| ->].
Qed.

Lemma calm_page s A F d p : ok s A F -> calm s ->
  live (odescs s d) = false \/ type (odescs s d) = cap_folio -> calm (set_page s d p).
Proof.
  intros H Hc Hd u Hu. destruct (Hc u Hu) as [H1 H2]. split; [done|]. cbn [set_page odescs pages].
  rewrite fn_at. destruct (decide (u = d)) as [->|Hne]; [|done].
  destruct (reach_live s A F d H Hu) as [Hl _]. destruct Hd; congruence.
Qed.

Lemma gone_meta s A F s' d o : ok s A F -> gone s s' d -> oid (odescs s d) mod 129 <> 0 -> meta s' o = meta s o.
Proof.
  intros H G Hz. unfold meta. rewrite (g_objects _ _ _ G), lookup_delete_ne.
  2: { intros E. apply Hz. rewrite E. apply foid_mod. }
  destruct (objects s !! foid o) as [f|]; [|done].
  destruct (as_folio (pages s f)) eqn:E;
    [now rewrite (cleared_folio _ _ _ (g_pages _ _ _ G f) E)|now rewrite (cleared_crash _ _ _ (g_pages _ _ _ G f) E)].
Qed.

Lemma gone_evolved s A F s' d : ok s A F -> gone s s' d -> live (odescs s d) = true ->
  oid (odescs s d) mod 129 <> 0 -> evolved None s s'.
Proof.
  intros H G Hl Hz. split.
  - apply G.
  - intros o u. rewrite (g_objects _ _ _ G). intros [_ E]%lookup_delete_Some. now left.
  - intros o u E Ho. rewrite (g_objects _ _ _ G), lookup_delete_ne; [done|]. congruence.
  - intros o u E _. apply (g_core _ _ _ G). intros ->. rewrite (g_objects _ _ _ G) in E.
    apply lookup_delete_Some in E as [Hne E]. apply (o_hash _ _ _ H) in E as [_ E]. done.
  - intros o x E. exists x. rewrite (gone_meta s A F) with (d := d) by done.
    do 3 (split; [done|]). now left.
Qed.

Lemma calm_header s A F fo f p : ok s A F -> calm s -> objects s !! fo = Some f -> fo mod 129 = 0 ->
  calm (set_page s f p).
Proof.
  intros H Hc Hf Hz. apply (calm_page s A F); [done..|]. right.
  destruct (proj1 (o_hash _ _ _ H _ _) Hf) as [Hl Eo].
  now apply (o_folio _ _ _ H f Hl); rewrite Eo.
Qed.

Lemma page_evolved s A F d p : ok s A F -> live (odescs s d) = false -> evolved None s (set_page s d p).
Proof. intros H Hl. apply evolved_meta_refl; try done. intros o. now apply (page_dead s A F d p). Qed.

(** Noting in the header that the object that has gone was discarded. *)
Lemma discard_ok s0 s A F fo f i h : ok s A F -> calm s -> evolved None s0 s ->
  objects s !! fo = Some f -> fo mod 129 = 0 -> header (pages s f) h -> 0 <= i < 128 ->
  objects s !! (fo + 1 + i) = None -> objects s0 !! (fo + 1 + i) <> None ->
  exists h', (h ← Folio.folio_object_content_set h i false;
              Folio.folio_object_discarded_set h i true) = Ret h' /\
    ok (set_page s f (Header h')) A F /\ calm (set_page s f (Header h')) /\
    evolved None s0 (set_page s f (Header h')).
Proof.
  intros H Hc E0 Hf Hz Hh Hi Hn H0.
  destruct (Folio.content_set h (proj1 (proj2 Hh)) i false ltac:(lia)) as (h1&->&U1). cbn [mbind exec_bind].
  destruct (Folio.discarded_set h1 (proj1 U1) i true Hi) as (h2&E2&U2). exists h2. split; [done|].
  set (x := Folio.with_discarded true (Folio.slot_of h1 i)) in *.
  assert (U : Folio.upd_slot h h2 i x).
  { split; [apply U2|]. intros j Hj. rewrite (proj2 U2 j Hj). case_decide; [done|].
    rewrite (proj2 U1 j Hj). now rewrite decide_False. }
  assert (Hx : Folio.s_type x = Folio.s_type (Folio.slot_of h i) /\
               Folio.s_version x = Folio.s_version (Folio.slot_of h i)).
  { unfold x. rewrite (proj2 U1 i) by lia. now rewrite decide_True. }
  split; [|split].
  - apply (header_ok s A F fo f i h h2 x); try done; [|congruence]. destruct Hx as [-> _]. now apply Hh.
  - now apply (calm_header s A F fo f).
  - assert (Hm := header_meta s A F fo f i h h2 x H Hf Hz Hh Hi U). split; try apply E0.
    intros o y Hy. destruct (e_meta _ _ _ E0 o y Hy) as (z&Hzz&Ht&Hv&Hd). rewrite Hm.
    case_decide as Eo; [|exists z; done]. exists x. split; [done|].
    assert (Hz' : z = Folio.slot_of h i).
    { destruct (meta_header _ _ _ Hzz) as (g&k&Eg&Ek&->).
      destruct (proj2 (oid_split o fo i Hz ltac:(lia)) Eo) as [Efo Ei]. rewrite Ei.
      assert (g = f) as -> by congruence. f_equal. destruct Hh. congruence. }
    destruct Hx. split; [congruence|]. split; [congruence|]. right. split; [congruence|done].
Qed.

Lemma evict_ok fuel s A F a d : ok s A F -> calm s -> a ∈ A -> in_reach s d ->
  exists s', evict (object_find (S (S (S fuel)))) (cap_shootdown (S (S (S fuel)))) s (Some a) d
      = Ret (s', first_frame + d * PAGESIZE) /\
    ok s' A F /\ calm s' /\ evolved None s s' /\ in_hand s' F d.
Proof.
  intros H Hc Ha Hr. destruct (reach_live s A F d H Hr) as (Hl&Ho&Hna&_).
  assert (Hflat := Hc d Hr). assert (Hw := proj1 (wkey_available _) (proj1 Hr)). destruct Hw as (_&Hcand&Htw).
  assert (Hz : oid (odescs s d) mod 129 <> 0).
  { intros Hz. destruct (o_folio _ _ _ H d Hl Hz) as [Ht _]. now destruct Hflat. }
  destruct (o_live _ _ _ H d Hl) as [Hd _]. destruct (desc_object d Hd) as (Eobj&_&_&_).
  assert (Eo : objects s !! oid (odescs s d) = Some d) by now apply (o_hash _ _ _ H).
  unfold evict. rewrite Hl, Hcand. cbn [check mbind exec_bind].
  destruct (Claim.owner (desc s d)) as [b|] eqn:Eb; [|done]. cbn [mbind exec_bind].
  destruct (owner_range _ A d b (o_acct _ _ _ H) Eb) as [_ Hb].
  destruct (o_members _ _ _ H b Hb) as [_ ->]. unfold cap_type_eqb at 1. rewrite bool_decide_eq_true_2 by done.
  cbn [check mbind exec_bind].
  assert (Hdd : negb (Claim.dirty (desc s d)) || Claim.discardable (Claim.pol (desc s d)) = true).
  { unfold Claim.to_write in Htw. now destruct (Claim.dirty _), (Claim.discardable _). }
  rewrite Hdd, (o_mapped _ _ _ H d Hcand), Eobj. cbn [check negb mbind exec_bind].
  destruct (objects_folio_ok (S (S fuel)) s A F a d H Ha Hl Hz) as (s1&f&->&H1&S1&[_ O1]&Ef).
  cbn [mbind exec_bind].
  assert (Hfd : d <> f).
  { intros <-. destruct (folio_at s A F _ d H Ef) as (_&Efo&_). apply Hz. rewrite Efo. apply foid_mod. }
  destruct (O1 d Hfd) as [Ed1 Eod1]. unfold objects_folio_offset. rewrite Ed1, Eod1.
  change (1 + Folio.FOLIO_OBJECTS) with 129.
  assert (Hck : (if Claim.dirty (desc s d) then check (Claim.discardable (Claim.pol (desc s d))) assertion_failed
                 else Ret tt) = Ret tt) by (now destruct (Claim.dirty _), (Claim.discardable _)).
  rewrite Hck. cbn [mbind exec_bind].
  destruct (destroy_ok fuel s1 A F a d H1 Ha) as (s2&->&H2&G2); try (rewrite Eod1; done);
    [now apply (flat_same s)|rewrite Ed1; congruence|]. cbn [mbind exec_bind].
  assert (G : gone s s2 d) by now apply (same_gone s s1).
  assert (E2 : evolved None s s2) by now apply (gone_evolved s A F s2 d).
  assert (C2 : calm s2) by now apply (calm_gone s s2 d).
  assert (En : objects s2 !! oid (odescs s d) = None) by (rewrite (g_objects _ _ _ G); apply lookup_delete_eq).
  rewrite soft_None by done. cbn [mbind exec_bind]. rewrite bool_decide_eq_true_2 by done.
  cbn [check mbind exec_bind].
  assert (Hend : forall s3, ok s3 A F -> calm s3 -> evolved None s s3 -> live (odescs s3 d) = false ->
    exists s', Ret (set_page s3 d Zeroed, first_frame + d * PAGESIZE) = Ret (s', first_frame + d * PAGESIZE) /\
      ok s' A F /\ calm s' /\ evolved None s s' /\ in_hand s' F d).
  { intros s3 H3 C3 E3 L3. exists (set_page s3 d Zeroed). split; [done|].
    split; [now apply (page_dead s3 A F)|]. split; [apply (calm_page s3 A F); auto|].
    split; [apply (evolved_trans None s s3); [done|now apply (page_evolved s3 A F)]|].
    split; [done|]. split; [done|]. split; [|cbn; now rewrite fn_at, decide_True].
    intros Hdf. apply (o_free _ _ _ H) in Hdf as [_ Hdf]. congruence. }
  destruct (Claim.dirty (desc s d)); [|apply Hend; try done; apply G].
  assert (Ef2 : objects s2 !! foid (oid (odescs s d)) = Some f).
  { apply (e_resident _ _ _ E2); [done|apply foid_mod]. }
  destruct (folio_at s2 A F _ f H2 Ef2) as (_&_&_&h&Hh).
  assert (Hsplit : foid (oid (odescs s d)) + 1 + (oid (odescs s d) mod 129 - 1) = oid (odescs s d))
    by (unfold foid; lia).
  destruct (discard_ok s s2 A F (foid (oid (odescs s d))) f (oid (odescs s d) mod 129 - 1) h H2 C2 E2 Ef2
    (foid_mod _) Hh (offset_range _ Hz)) as (h'&Eh&H3&C3&E3); [rewrite Hsplit; congruence..|].
  rewrite (proj1 Hh). cbn [mbind exec_bind]. apply exec_bind_Ret in Eh as (h1&Eh1&Eh2).
  rewrite Eh1. cbn [mbind exec_bind]. rewrite Eh2. cbn [mbind exec_bind].
  apply Hend; try done. apply G.
Qed.

Lemma evolved_same new s1 s2 s3 : evolved new s1 s2 -> same s2 s3 -> evolved new s1 s3.
Proof.
  intros E S. split.
  - rewrite (m_folios _ _ S). apply E.
  - rewrite (m_objects _ _ S). apply E.
  - rewrite (m_objects _ _ S). apply E.
  - rewrite (m_objects _ _ S). intros o d Ho Hn. rewrite (m_core _ _ S). now apply (e_core _ _ _ E o).
  - intros o x Hx. rewrite (meta_same s2 s3 S). now apply (e_meta _ _ _ E).
Qed.

(** No frame can be had: the pool is empty, and nothing available may be evicted. *)
Definition starved (s : st) (A : gset Z) : Prop :=
  exists s', evolved None s s' /\ ok s' A ∅ /\ forall d, ~ in_reach s' d.

Lemma ok_frames s A F F' p : ok s A F -> pok p F' -> F' ⊆ F -> ok (set_frames s p) A F'.
Proof. intros H Hp Hs. split; try apply H; [done|]. intros d Hd. now apply (o_free _ _ _ H), Hs. Qed.

Lemma pager_query_ok s A F : ok s A F -> calm s ->
  exists s', pager_query s = Ret s' /\ ok s' A F /\ calm s' /\ evolved None s s' /\ objects s' = objects s.
Proof.
  intros H Hc. unfold pager_query, pager_collect_needed.
  destruct (count_ok (acct s) A (o_acct _ _ _ H)) as [c ->]. cbn [mbind exec_bind].
  destruct (_ || _); cbn [mbind exec_bind]; [|case_if; [now apply (collect_ok HL s A F)|]];
    (exists s; do 3 (split; [done|]); split; [now apply same_evolved|done]).
Qed.

Lemma frame_allocate_ok fuel s A F a : ok s A F -> calm s -> a ∈ A ->
  match memory_frame_allocate (object_find (S (S (S fuel)))) (cap_shootdown (S (S (S fuel)))) s (Some a) with
  | Ret (s', addr) => exists d F', addr = first_frame + d * PAGESIZE /\ ok s' A F' /\ calm s' /\
      evolved None s s' /\ in_hand s' F' d
  | Crash e => e = panicked /\ starved s A
  end.
Proof.
  intros H Hc Ha. unfold memory_frame_allocate.
  destruct (pager_query_ok s A F H Hc) as (s1&->&H1&C1&E1&_). cbn [mbind exec_bind].
  destruct (zalloc_ok (frames s1) F (o_pool _ _ _ H1)) as (p&addr&->&[(->&->&Hp)|(d&Hd&->&Hp)]);
    cbn [mbind exec_bind].
  - assert (H2 : ok (set_frames s1 p) A ∅) by now apply (ok_frames s1 A ∅). rewrite Z.eqb_refl.
    set (s2 := set_frames s1 p) in *.
    destruct (available_ok (acct s2) A (evictable s2) (o_acct _ _ _ H2)) as (r&->&Hr). cbn [mbind exec_bind].
    destruct r as [d|].
    + destruct Hr as [Hev Hw].
      destruct (evict_ok fuel s2 A ∅ a d H2 C1 Ha) as (s3&->&H3&C3&E3&Hh); [now split|]. cbn [mbind exec_bind].
      destruct (desc_object d) as (_&_&Hnz&_); [apply Hh|]. rewrite (proj2 (Z.eqb_neq _ _) Hnz).
      cbn [negb check mbind exec_bind]. exists d, ∅. split; [done|].
      split; [|split; [done|split; [|done]]].
      * split; try apply H3.
      * apply (evolved_trans None s s1); [done|]. apply (evolved_trans None s1 s2).
        { now apply evolved_meta_refl. }
        destruct E3. now split.
    + cbn [mbind exec_bind negb check Z.eqb]. split; [done|]. exists s2.
      split; [destruct E1; now split|]. split; [done|].
      intros d [Hw Hev]. now rewrite (Hr d Hw) in Hev.
  - destruct (o_free _ _ _ H1 d Hd) as [Hrange Hdead]. destruct (desc_object d Hrange) as (_&_&Hnz&Ed).
    rewrite (proj2 (Z.eqb_neq _ _) Hnz), Ed. cbn [mbind exec_bind]. rewrite (proj2 (Z.eqb_neq _ _) Hnz).
    cbn [negb check mbind exec_bind].
    assert (H2 : ok (set_frames s1 p) A (F ∖ {[d]})) by (apply (ok_frames s1 A F); [done|done|set_solver]).
    exists d, (F ∖ {[d]}). split; [done|]. destruct (page_dead _ A _ d Zeroed H2 Hdead) as [H3 _].
    split; [split; try apply H3|]. split; [apply (calm_page _ A _ d Zeroed H2); auto|].
    split.
    + apply (evolved_trans None s s1); [done|]. apply (evolved_trans None s1 (set_frames s1 p)).
      { now apply evolved_meta_refl. }
      destruct (page_evolved (set_frames s1 p) A (F ∖ {[d]}) d Zeroed H2 Hdead). now split.
    + split; [done|]. split; [done|]. split; [set_solver|]. cbn. now rewrite fn_at, decide_True.
Qed.

(** ** Bringing an object into memory *)

Lemma zero_folio_header : header Zeroed Folio.zero_folio.
Proof.
  split; [done|]. split.
  - split; try done.
    + split; [|done]. cbn. repeat constructor; done.
    + split; [|done]. cbn. repeat constructor; done.
    + split; [|done]. cbn. repeat constructor; done.
    + apply Forall_replicate. done.
  - intros i Hi. left. unfold Folio.slot_of. cbn [Folio.s_type Folio.types Folio.zero_folio].
    rewrite (proj2 (Z.eqb_neq i (-1))) by lia. rewrite nth_lookup.
    destruct (_ !! _) eqn:E; [|done]. now apply lookup_replicate in E as [-> _].
Qed.

(** The new object in frame [d]. *)
Definition insert_object (s : st) (d o v : Z) (t : cap_type) : st :=
  upd_odesc (set_objects (set_odesc (set_acct s (wipe (acct s) d)) d
    (Odesc o (wrap CAP_VERSION_BITS v) t false false false false false false)) (<[o := d]> (objects s)))
    d (with_live true).

Section insert.
Context (s : st) (A F : gset Z) (d o v : Z) (t : cap_type).
Context (H : ok s A F) (Hd : in_hand s F d) (Ho : 0 <= o) (Hn : objects s !! o = None).
Context (Hv : 0 <= v < 2 ^ CAP_VERSION_BITS).
Context (Hty : t = cap_folio /\ o mod 129 = 0 \/
  o mod 129 <> 0 /\ t <> cap_void /\ exists x, meta s o = Some x /\ Folio.s_type x = t /\
    Folio.s_version x = v /\ Folio.s_discarded x = false).

Abbreviation ins := (insert_object s d o v t).

Lemma insert_odesc u : odescs ins u = if decide (u = d) then Odesc o v t false false false false false true
  else odescs s u.
Proof.
  unfold insert_object. rewrite upd_at. cbn. rewrite !fn_at, (decide_True (P := d = d)) by done.
  case_decide; [|done]. rewrite wrap_small by done. done.
Qed.

Lemma insert_desc u : desc ins u = if decide (u = d) then Claim.fresh else desc s u.
Proof. apply adesc_wipe. Qed.

Lemma insert_objects o' : objects ins !! o' = if decide (o' = o) then Some d else objects s !! o'.
Proof.
  unfold insert_object. cbn. case_decide; subst; [apply lookup_insert_eq|now apply lookup_insert_ne].
Qed.

Lemma insert_meta o' x : meta s o' = Some x -> meta ins o' = Some x.
Proof.
  unfold meta. rewrite insert_objects. case_decide as E; [|done]. now rewrite E, Hn.
Qed.

Lemma insert_ok : ok ins A F.
Proof.
  destruct Hd as (Hr&Hdead&HdF&Hz).
  assert (Hfree : Claim.owner (desc s d) = None).
  { destruct (Claim.owner (desc s d)) eqn:E; [|done]. rewrite (o_owner _ _ _ H) in Hdead; congruence. }
  split; try apply H.
  - apply wipe_ok; [apply H|done].
  - intros u. rewrite insert_desc, insert_odesc. case_decide; [done|]. apply H.
  - intros o' u. rewrite insert_objects, insert_odesc. repeat case_decide; subst; cbn.
    + done.
    + split; [congruence|]. intros [Hl E]. assert (objects s !! o = Some u) by now apply (o_hash _ _ _ H). congruence.
    + split; [|naive_solver]. intros E. apply (o_hash _ _ _ H) in E as [E _]. congruence.
    + apply H.
  - intros u. rewrite insert_odesc. case_decide; [subst; done|]. apply H.
  - intros u. rewrite insert_odesc. case_decide; [subst; cbn|apply H]. intros _ Hm. split; [tauto|].
    exists Folio.zero_folio. change (pages ins d) with (pages s d). rewrite Hz. apply zero_folio_header.
  - intros u. rewrite insert_odesc. case_decide; [subst; cbn|].
    + intros _ Hm. destruct Hty as [[_ Hm']|(_&Hvoid&x&Hx&Ht&Hxv&Hdis)]; [done|].
      exists x. split; [now apply insert_meta|]. done.
    + intros Hl Hm. destruct (o_object _ _ _ H u Hl Hm) as (x&Hx&Hx'). exists x.
      split; [now apply insert_meta|done].
  - intros u. rewrite insert_odesc. case_decide; [subst; cbn|apply H]. intros _ _.
    change (pages ins d) with (pages s d). rewrite Hz. eexists. split; [reflexivity|apply length_replicate].
  - intros b Hb. destruct (o_members _ _ _ H b Hb). rewrite insert_odesc. case_decide; [congruence|done].
  - intros u. rewrite insert_desc, insert_odesc. case_decide; [done|]. apply H.
  - intros u Hu. destruct (o_free _ _ _ H u Hu). rewrite insert_odesc. case_decide; [congruence|done].
Qed.

Lemma insert_evolved : evolved (Some o) s ins.
Proof.
  split; try done.
  - intros o' u. rewrite insert_objects. case_decide; [subst; now right|now left].
  - intros o' u E Hm. rewrite insert_objects, decide_False; [done|]. congruence.
  - intros o' u. rewrite insert_objects, insert_odesc. case_decide; [congruence|]. intros E _.
    apply (o_hash _ _ _ H) in E as [E _]. rewrite decide_False; [done|]. intros ->. destruct Hd as (_&?&_). congruence.
  - intros o' x E. exists x. split; [now apply insert_meta|]. do 2 (split; [done|]). now left.
Qed.

Lemma insert_calm : calm s -> calm ins.
Proof.
  intros Hc u [Hw He]. rewrite insert_desc in Hw. revert He. unfold evictable, flat.
  rewrite insert_odesc. case_decide; [done|]. intros He. now apply Hc.
Qed.

End insert.

(** What the header promises of an object that is not in memory. *)
Definition fresh_entry (s : st) (o v : Z) (t : cap_type) : Prop :=
  t = cap_folio /\ o mod 129 = 0 \/
  o mod 129 <> 0 /\ t <> cap_void /\ exists x, meta s o = Some x /\ Folio.s_type x = t /\
    Folio.s_version x = v /\ Folio.s_discarded x = false.

Lemma fresh_entry_evolved s s' o v t : objects s !! o = None -> evolved None s s' ->
  fresh_entry s o v t -> fresh_entry s' o v t.
Proof.
  intros Hn E [Hf|(Hz&Hv&x&Hx&Ht&Hxv&Hd)]; [now left|]. right. split; [done|]. split; [done|].
  destruct (e_meta _ _ _ E o x Hx) as (y&Hy&Hty&Hvy&[[Hdy _]|[Hc _]]); [|done].
  exists y. split; [done|]. split; [congruence|]. split; congruence.
Qed.

Lemma entry_type s A F o v t : ok s A F -> fresh_entry s o v t ->
  t <> cap_void /\ Bool.eqb (cap_type_eqb t cap_folio) (o mod 129 =? 0) = true.
Proof.
  intros H [[-> Hz]|(Hz&Hv&x&Hx&Ht&_)]; [now rewrite Hz|]. split; [done|].
  rewrite (proj2 (Z.eqb_neq _ _) Hz). unfold cap_type_eqb. rewrite bool_decide_eq_false_2; [done|].
  destruct (meta_header _ _ _ Hx) as (f&h&Ef&Eh&->).
  destruct (folio_at s A F _ f H Ef) as (_&_&_&h'&Eh'&_&Ho). assert (h' = h) as -> by congruence.
  rewrite <- Ht. apply object_type_neq, Ho, offset_range, Hz.
Qed.

(** The outcome of bringing object [o] into memory: it is there, or there is no
    frame for it. *)
Definition brought (s : st) (A : gset Z) (o v : Z) (t : cap_type) (r : exec (st * option Z)) : Prop :=
  match r with
  | Ret (s', r) => exists d F', r = Some d /\ ok s' A F' /\ calm s' /\ evolved (Some o) s s' /\
      objects s' !! o = Some d /\ used s' d /\ version (odescs s' d) = v /\ type (odescs s' d) = t
  | Crash e => e = panicked /\ starved s A
  end.

Lemma object_alloc_ok fuel s A F a t o v p : ok s A F -> calm s -> a ∈ A ->
  0 <= o -> objects s !! o = None -> 0 <= v < 2 ^ CAP_VERSION_BITS -> fresh_entry s o v t ->
  brought s A o v t (memory_object_alloc (object_find (S (S (S fuel)))) (cap_shootdown (S (S (S fuel))))
    s (Some a) t o v p).
Proof.
  intros H Hc Ha Ho Hn Hv Hty. destruct (entry_type s A F o v t H Hty) as [Hvoid Hfol].
  unfold memory_object_alloc, acts. rewrite bool_decide_eq_true_2 by done. cbn [orb check mbind exec_bind].
  rewrite (type_eqb_false t cap_void Hvoid). cbn [negb check mbind exec_bind].
  change (Folio.FOLIO_OBJECTS + 1) with 129. rewrite Hfol. cbn [check mbind exec_bind].
  assert (Hfa := frame_allocate_ok fuel s A F a H Hc Ha).
  destruct (memory_frame_allocate _ _ s (Some a)) as [[s1 addr]|e]; [|done].
  destruct Hfa as (d&F'&->&H1&C1&E1&Hh). assert (Hh' := Hh). destruct Hh' as (Hr&Hdead&HdF&Hz).
  cbn [mbind exec_bind]. destruct (desc_object d Hr) as (_&->&Hnz&_).
  rewrite (proj2 (Z.eqb_neq _ _) Hnz). cbn [mbind exec_bind]. rewrite Hdead. cbn [negb check mbind exec_bind].
  assert (Hn1 : objects s1 !! o = None).
  { destruct (objects s1 !! o) as [u|] eqn:Eu; [|done]. apply (e_objects _ _ _ E1) in Eu as [|]; congruence. }
  assert (Hty1 := fresh_entry_evolved s s1 o v t Hn E1 Hty).
  change (objects (set_odesc _ d _)) with (objects s1). rewrite bool_decide_eq_false_2 by (rewrite Hn1; tauto).
  cbn [negb check mbind exec_bind]. fold (insert_object s1 d o v t).
  assert (H2 := insert_ok s1 A F' d o v t H1 Hh Ho Hn1 Hv Hty1).
  assert (E2 := insert_evolved s1 A F' d o v t H1 Hh Hn1 Hv).
  assert (C2 := insert_calm s1 d o v t Hv C1).
  change (upd_odesc (set_objects _ _) d (with_live true)) with (insert_object s1 d o v t).
  set (s2 := insert_object s1 d o v t) in *.
  destruct (claim_step s2 A F' a d (cpol p) H2 Ha) as (s3&->&H3&S3&_&_&U3).
  { unfold s2. now rewrite insert_odesc, decide_True. }
  cbn [mbind exec_bind]. exists d, F'. split; [done|]. split; [done|]. split; [now apply (calm_same s2)|].
  split; [|split; [|split; [done|]]].
  - apply (evolved_trans (Some o) s s1); [done|].
    apply (evolved_same (Some o) s1 s2); done.
  - rewrite (m_objects _ _ S3). unfold s2. now rewrite insert_objects, decide_True.
  - destruct (core_at s2 s3 S3 d) as (_&->&->&_). unfold s2. now rewrite insert_odesc, decide_True.
Qed.

(** ** [object_find] *)

(** The folio of the object is in memory, or the object is a folio in use. *)
Definition known (s : st) (o : Z) : Prop :=
  0 <= o /\ (objects s !! foid o <> None \/
    o mod 129 = 0 /\ o / 129 < FOLIOS_CORE /\ testb (folios s) (o / 129) = true).

(** Whether an object can be had: it is in memory, or its page is zero and it was
    neither freed nor discarded. *)
Definition obtainable (s : st) (o : Z) : Prop :=
  objects s !! o <> None \/ o mod 129 = 0 \/
  exists x, meta s o = Some x /\ Folio.s_type x <> cap_void /\ Folio.s_discarded x = false /\
    Folio.s_content x = false.

(** The version and the type that an object has, or will have in memory. *)
Definition version_of (s : st) (o : Z) : Z :=
  if o mod 129 =? 0
  then match objects s !! o with Some d => version (odescs s d) | None => 0 end
  else match meta s o with Some x => Folio.s_version x | None => 0 end.
Definition type_of (s : st) (o : Z) : cap_type :=
  if o mod 129 =? 0 then cap_folio
  else match meta s o with Some x => Folio.s_type x | None => cap_void end.

Lemma of_memory s A F o d : ok s A F -> objects s !! o = Some d ->
  version_of s o = version (odescs s d) /\ type_of s o = type (odescs s d).
Proof.
  intros H Eo. destruct (proj1 (o_hash _ _ _ H _ _) Eo) as [Hl <-]. unfold version_of, type_of.
  destruct (Z.eqb_spec (oid (odescs s d) mod 129) 0) as [Hz|Hz].
  - rewrite Eo. destruct (o_folio _ _ _ H d Hl Hz) as [-> _]. done.
  - destruct (o_object _ _ _ H d Hl Hz) as (x&->&<-&<-&_). done.
Qed.

Definition found (s : st) (A : gset Z) (o : Z) (r : exec (st * option Z)) : Prop :=
  match r with
  | Ret (s', Some d) => obtainable s o /\ exists F', ok s' A F' /\ calm s' /\ evolved (Some o) s s' /\
      objects s' !! o = Some d /\ used s' d /\ version (odescs s' d) = version_of s o /\
      type (odescs s' d) = type_of s o
  | Ret (s', None) => ~ obtainable s o /\ exists F', ok s' A F' /\ calm s' /\ evolved (Some o) s s' /\
      objects s' !! o = None
  | Crash e => e = panicked /\ starved s A
  end.

Lemma brought_found s s1 A o r : same s s1 -> obtainable s o ->
  brought s1 A o (version_of s o) (type_of s o) r -> found s A o r.
Proof.
  intros S Hob. destruct r as [[s' r]|e]; cbn.
  - intros (d&F'&->&H&Hc&E&Ho). split; [done|]. exists F'. split; [done|]. split; [done|].
    split; [|done]. apply (evolved_trans (Some o) s s1); [now apply same_evolved|done].
  - intros [-> (s'&E&H&Hr)]. split; [done|]. exists s'. split; [|done].
    apply (evolved_trans None s s1); [now apply same_evolved|done].
Qed.

Lemma find_ok fuel s A F a o p : ok s A F -> calm s -> a ∈ A -> known s o ->
  found s A o (object_find (S (S (S (S fuel)))) s (Some a) o p).
Proof.
  intros H Hc Ha [Hpos Hkn]. destruct (objects s !! o) as [d|] eqn:Eo.
  { destruct (find_in (S (S fuel)) s A F a o p d H Ha Eo) as (s'&->&H'&S&_&U). cbn.
    split; [left; congruence|]. exists F. split; [done|]. split; [now apply (calm_same s)|].
    split; [now apply same_evolved|]. destruct (of_memory s A F o d H Eo) as [-> ->].
    destruct (core_at s s' S d) as (_&->&->&_). rewrite (m_objects _ _ S). done. }
  rewrite object_find_S. unfold object_find_1. rewrite soft_None by done. cbn [mbind exec_bind].
  change (Folio.FOLIO_OBJECTS + 1) with 129.
  destruct (Z.eqb_spec (o mod 129 - 1) (-1)) as [Hz|Hz].
  - assert (Hz0 : o mod 129 = 0) by lia. assert (Ef : foid o = o) by (unfold foid; lia).
    destruct Hkn as [Hkn|(_&Hcore&Hbit)]; [now rewrite Ef, Eo in Hkn|].
    rewrite (proj2 (Z.ltb_lt _ _) Hcore).
    rewrite (bit_test_spec (folios s) 4096) by (apply H || (unfold FOLIOS_CORE in Hcore;
      assert (0 <= o / 129) by (apply Z.div_pos; lia); lia)).
    cbn [mbind exec_bind]. rewrite Hbit. cbn [check mbind exec_bind].
    apply (brought_found s s); [reflexivity|right; now left|]. unfold version_of, type_of.
    rewrite Hz0, Eo. apply (object_alloc_ok fuel s A F); try done. now left.
  - assert (Hz0 : o mod 129 <> 0) by lia.
    destruct Hkn as [Hkn|(?&_)]; [|done]. destruct (objects s !! foid o) as [f|] eqn:Ef; [clear Hkn|done].
    replace (o - (o mod 129 - 1) - 1) with (foid o) by (unfold foid; lia).
    destruct (find_folio (S (S fuel)) s A F a (foid o) OBJECT_POLICY_DEFAULT f H Ha Ef (foid_mod o))
      as (s1&->&H1&S1&[P1 _]&_). cbn [mbind exec_bind].
    destruct (folio_at s A F o f H Ef) as (_&_&_&h&Hh). rewrite P1, (proj1 Hh). cbn [mbind exec_bind].
    destruct (offset_range o Hz0) as [Hi1 Hi2]. set (i := o mod 129 - 1) in *.
    rewrite (Folio.type_get h (proj1 (proj2 Hh))) by lia. cbn [mbind exec_bind].
    assert (Hm : meta s o = Some (Folio.slot_of h i)) by (unfold meta; now rewrite Ef, (proj1 Hh)).
    set (x := Folio.slot_of h i) in *.
    assert (Hno : ~ (Folio.s_type x <> cap_void /\ Folio.s_discarded x = false /\ Folio.s_content x = false) ->
      found s A o (Ret (s1, None))).
    { intros Hx. split.
      - intros [?|[?|(y&Hy&Hy')]]; [done|done|]. apply Hx. congruence.
      - exists F. split; [done|]. split; [now apply (calm_same s)|]. split; [now apply same_evolved|].
        now rewrite (m_objects _ _ S1). }
    unfold cap_type_eqb. case_bool_decide as Hvoid; [apply Hno; tauto|].
    rewrite (Folio.discarded_get h (proj1 (proj2 Hh))) by lia. cbn [mbind exec_bind]. fold x.
    destruct (Folio.s_discarded x) eqn:Hdis; [apply Hno; naive_solver|].
    rewrite (Folio.content_get h (proj1 (proj2 Hh))) by lia. cbn [mbind exec_bind]. fold x.
    destruct (Folio.s_content x) eqn:Hcon; [apply Hno; naive_solver|]. cbn [negb].
    rewrite (Folio.version_get h (proj1 (proj2 Hh))) by lia. cbn [mbind exec_bind]. fold x.
    apply (brought_found s s1); [done|right; right; now exists x|]. unfold version_of, type_of.
    rewrite (proj2 (Z.eqb_neq _ _) Hz0), Hm.
    apply (object_alloc_ok fuel s1 A F); try done.
    + now apply (calm_same s).
    + now rewrite (m_objects _ _ S1).
    + apply Folio.version_range; [apply Hh|lia].
    + right. split; [done|]. split; [done|]. exists x. now rewrite (meta_same s s1 S1).
Qed.

End ok.
End ObjectsOk.
