(* ===== verification/Pool.v ===== *)
(** * The pool of frames that objects rely on, implemented by the zone allocator

    [ObjectsOk.FramesLaws] is what the object layer assumes of the pool;
    [Zalloc] implements it: the free frames are the pages of its blocks. *)

From S2P Require Import Prelude Zalloc Objects Accounts ObjectsOk.

Module Pool.

Definition frames (fuel : nat) : Objects.Frames zstate := {|
  Objects.zalloc_memory := zalloc_memory;
  Objects.zalloc p := zalloc fuel p 4096;
  Objects.zfree p a := zfree fuel p a 4096
|}.

Section laws.
Context (fuel : nat) (first n : Z).
Context (Hfirst : 0 < first) (Halign : first mod 4096 = 0) (Hlimit : first + n * 4096 <= LIMIT).
Context (Hnn : 0 <= n) (Hfuel : 3 * n + 40 < Z.of_nat fuel).

Definition frame_addr (d : Z) : Z := first + d * 4096.

(** The addresses of the frames [F]. *)
Definition bytes (F : gset Z) (a : Z) : Prop := exists d, d ∈ F /\ frame_addr d <= a < frame_addr d + 4096.

Definition pok (p : zstate) (F : gset Z) : Prop := pool p (bytes F) /\ forall d, d ∈ F -> 0 <= d < n.

Lemma frame_addr_mod d : frame_addr d mod 4096 = 0.
Proof. unfold frame_addr. now rewrite Z.mod_add. Qed.

Lemma frame_addr_page d x : x mod 4096 = 0 -> frame_addr d <= x < frame_addr d + 4096 -> x = frame_addr d.
Proof.
  intros Hx Hr. assert (Hd := frame_addr_mod d). apply Z.div_exact in Hx, Hd; [|done..]. lia.
Qed.

Lemma frame_addr_inj d d' a : frame_addr d <= a < frame_addr d + 4096 -> frame_addr d' <= a < frame_addr d' + 4096 -> d = d'.
Proof. unfold frame_addr. lia. Qed.

(** The pool holds at most all frames. *)
Lemma pool_memory p F : pok p F -> 0 <= zalloc_memory p <= n.
Proof.
  intros [(L&_&Hi&->&HF) Hr]. split; [apply pages_bound, Hi|].
  destruct (free_pages L Hi) as (P&Hnd&<-&HP).
  assert (Hq := range_length (map (fun q => q - first / 4096) P) n). rewrite length_map in Hq.
  enough (Z.of_nat (length P) <= Z.max 0 n) by lia. apply Hq.
  - apply NoDup_fmap_2; [intros u v; lia|done].
  - intros x (q&->&Hq')%list_elem_of_fmap. apply HP, HF in Hq' as (d&Hd&Hb).
    apply frame_addr_page in Hb; [|now rewrite Z.mod_mul]. specialize (Hr d Hd).
    apply Z.div_exact in Halign; [|done]. unfold frame_addr in Hb. lia.
Qed.

Lemma pool_empty p F : pool p F -> zalloc_memory p = 0 -> forall a, ~ F a.
Proof.
  intros (L&_&_&Hm&HF) Hz a Ha. apply HF in Ha as (k&b&(l&Hl&Hb)&_).
  assert (Hbl := blocks_pages L). assert (Hlen := blocks_length L k l Hl).
  destruct l; [now apply not_elem_of_nil in Hb|]. cbn in Hlen. lia.
Qed.

Lemma pool_nonempty p F : pool p F -> zalloc_memory p <> 0 -> exists a, F a.
Proof.
  intros (L&_&_&Hm&HF) Hz. destruct (pages_empty L) as [E|(k&x&l&Hl)]; [congruence|].
  exists x. apply HF. exists k, x. split; [exists (x :: l); set_solver|]. assert (Hs := zsize_pos k). lia.
Qed.

#[local] Existing Instance frames.

Lemma pool_laws : @FramesLaws zstate (frames fuel) first n pok.
Proof.
  split; cbn [Objects.zalloc Objects.zfree frames]; change Objects.PAGESIZE with 4096.
  - intros p F [Hp Hr]. assert (Hm := pool_memory p F (conj Hp Hr)).
    assert (Hz := zalloc_pool p (bytes F) 4096 fuel Hp ltac:(lia) eq_refl ltac:(lia)).
    destruct (zalloc fuel p 4096) as [[p' x]|f].
    + exists p', x. split; [done|]. destruct Hz as [(Hx&Hxa&Hin&Hp'&_)|(->&->&Hzero)].
      * right. destruct (Hin x) as (d&Hd&Hdx); [lia|]. apply (frame_addr_page d x Hxa) in Hdx. subst x.
        exists d. split; [done|]. split; [done|]. split; [|intros u Hu; apply Hr; set_solver].
        revert Hp'. apply pool_ext. intros b. split.
        -- intros [(u&Hu&Hub) Hn]. exists u. split; [|done]. apply elem_of_difference. split; [done|].
           intros ->%elem_of_singleton. lia.
        -- intros (u&[Hu Hud]%elem_of_difference&Hub). split; [now exists u|]. intros Hb.
           apply Hud, elem_of_singleton, (frame_addr_inj u d b); done.
      * left. split; [done|]. assert (HF : F = ∅).
        { apply set_eq. intros d. split; [|set_solver]. intros Hd. exfalso.
          apply (pool_empty p _ Hp Hzero (frame_addr d)). exists d. split; [done|lia]. }
        split; [done|]. subst F. done.
    + destruct Hz as (_&Hne&Hno). destruct (pool_nonempty p _ Hp Hne) as (b&d&Hd&_). exfalso.
      apply (Hno 0%nat (frame_addr d)); [done|apply frame_addr_mod|]. intros c Hc. exists d. done.
  - intros p F d [Hp Hr] Hd Hdn. assert (Hm := pool_memory p F (conj Hp Hr)).
    destruct (zfree_pool p (bytes F) (frame_addr d) 4096 fuel Hp) as (p'&E&Hp'&_); try done.
    + unfold frame_addr. lia.
    + apply frame_addr_mod.
    + unfold frame_addr. lia.
    + intros b Hb (u&Hu&Hub). apply Hd. now rewrite (frame_addr_inj d u b).
    + unfold zfree_fuel. change (4096 / 4096) with 1. lia.
    + exists p'. split; [done|]. split; [|intros u [Hu| ->%elem_of_singleton]%elem_of_union; auto].
      revert Hp'. apply pool_ext. intros b. split.
      * intros [(u&Hu&Hub)|Hb]; [exists u|exists d]; (split; [set_solver|done]).
      * intros (u&[Hu| ->%elem_of_singleton]%elem_of_union&Hub); [left; now exists u|now right].
Qed.

End laws.
End Pool.
