(* ===== verification/Revoke.v ===== *)
(** * Capabilities and the objects they name (viengoos/cap.c, object.c)

    What the layers below add up to: as long as what may be evicted is flat, a
    capability finds its object exactly when the version it carries is the object's
    ([cap_to_object_resolves]), and allocating
    an object from a folio gives it a version that no capability to the object it
    replaces has ([folio_object_alloc_revokes]).  Versions have 20 bits: after
    2^20 allocations a capability finds the object in its old object's place
    ([version_wraps]).

    The theorems hold for every implementation of the interfaces. *)

From S2P Require Import Prelude KList L4Math Addr AddrTrans Cap BitArray Claim Folio Objects Accounts ObjectsOk.

Module Revoke.
Import Objects ObjectsOk.

Section revoke.
Context {K P : Type} {HA : Accounting K} {HF : Frames P} {HE : Environment K P}.
Context (n : Z) (kok : K -> gset Z -> Prop) (pok : P -> gset Z -> Prop).
Context {LA : AccountingLaws K n kok} {LF : FramesLaws P first_frame n pok}.
Context (HL : environment_laws n kok pok).
Abbreviation st := (ostate K P).
Abbreviation ok := (ok n kok pok).
Abbreviation starved := (starved n kok pok).
Implicit Types s : st.

(** ** Looking up a capability *)

(** The capability designates an object that can be had, in the version it names. *)
Definition valid (s : st) (c : cap) : Prop :=
  c_type c <> cap_void /\ obtainable s (c_oid c) /\ version_of s (c_oid c) = c_version c.

(** What a lookup of the capability [c] in the state [s] comes to. *)
Definition looked_up (s : st) (A : gset Z) (c : cap) (r : exec (st * option Z)) : Prop :=
  match r with
  | Ret (s', r) =>
      (exists F', ok s' A F' /\ calm s' /\ evolved (Some (c_oid c)) s s') /\
      match r with
      | Some d => valid s c /\ objects s' !! c_oid c = Some d /\ used s' d /\
          type (odescs s' d) = type_of s (c_oid c) /\
          cap_types_compatible (c_type c) (type_of s (c_oid c)) = true
      | None => ~ valid s c
      end
  | Crash e =>
      e = panicked /\ starved s A \/
      e = assertion_failed /\ valid s c /\ cap_types_compatible (c_type c) (type_of s (c_oid c)) = false
  end.

Lemma cap_to_object_ok fuel s A F a c :
  ok s A F -> calm s -> a ∈ A -> known s (c_oid c) ->
  looked_up s A c (cap_to_object (S (S (S (S fuel)))) s (Some a) (Temp c)).
Proof.
  intros H Hc Ha Hk. unfold looked_up, cap_to_object, cap_to_object_internal. cbn [get_cap mbind exec_bind].
  destruct (decide (c_type c = cap_void)) as [Ev|Ev].
  { rewrite type_eqb_true by done. split; [|now intros [? _]]. exists F. split; [done|]. split; [done|].
    apply same_evolved. reflexivity. }
  rewrite type_eqb_false by done.
  assert (Hf := find_ok n kok pok HL fuel s A F a (c_oid c) (CAP_POLICY_GET c) H Hc Ha Hk).
  destruct (object_find _ s (Some a) (c_oid c) _) as [[s' r]|e]; [|now left]. cbn [mbind exec_bind].
  destruct r as [d|].
  - destruct Hf as (Hob&F'&H'&C'&E'&Ho&U&Hv&Hty). cbn [get_cap mbind exec_bind]. rewrite Hv, Hty.
    destruct (Z.eqb_spec (version_of s (c_oid c)) (c_version c)) as [Ever|Ever]; cbn [negb mbind exec_bind].
    + assert (V : valid s c) by done. destruct (cap_types_compatible _ _) eqn:Et; cbn [check mbind exec_bind]; [|now right].
      split; [now exists F'|]. done.
    + cbn [void_cap mbind exec_bind]. split; [now exists F'|]. now intros (_&_&?).
  - destruct Hf as (Hob&F'&H'&C'&E'&Ho). cbn [void_cap mbind exec_bind]. split; [now exists F'|].
    now intros (_&?&_).
Qed.



(** ** Recursion without end *)

(** A capability to the page of capabilities [d] that translates no address bits:
    one of its 256 subpages of one slot, without a guard. *)
Definition thin (s : st) (d : Z) (c : cap) : Prop :=
  c_type c = cap_cappage /\ c_oid c = oid (odescs s d) /\ c_version c = version (odescs s d) /\
  CAP_SUBPAGE_SIZE_LOG2 c = 0 /\ CAP_GUARD_BITS c = 0.

(** A page of capabilities in memory whose first one is such a capability to itself. *)
Definition knot (s : st) (d : Z) : Prop :=
  live (odescs s d) = true /\ type (odescs s d) = cap_cappage /\
  exists c, get_cap s (At d 0) = Ret c /\ thin s d c.

Lemma thin_same s s' d c : same s s' -> thin s d c -> thin s' d c.
Proof. intros S. unfold thin. now destruct (core_at s s' S d) as (->&->&_&_). Qed.

(** Looking up a table in memory: either the depth of calls does not suffice, or it
    is found and nothing moves. *)
Lemma find_table fuel s A F a c d :
  ok s A F -> a ∈ A -> live (odescs s d) = true -> type (odescs s d) = cap_cappage ->
  c_type c = cap_cappage -> c_oid c = oid (odescs s d) -> c_version c = version (odescs s d) ->
  forall l, get_cap s l = Ret c ->
  cap_to_object_internal (object_find fuel) s (Some a) l true = Crash out_of_fuel \/
  exists s', cap_to_object_internal (object_find fuel) s (Some a) l true = Ret (s', Some d) /\
    ok s' A F /\ same s s' /\ pages s' = pages s.
Proof.
  intros H Ha Hl Ht Ec Eo Ev l Hg. unfold cap_to_object_internal. rewrite Hg. cbn [mbind exec_bind].
  rewrite Ec, Eo, type_eqb_false by done.
  assert (Eh : objects s !! oid (odescs s d) = Some d) by now apply (o_hash _ _ _ _ _ _ H).
  destruct fuel as [|[|fuel]]; [now left| |].
  - left. rewrite object_find_S. unfold object_find_1, object_find_soft. rewrite Eh, Z.eqb_refl.
    cbn [check mbind exec_bind]. unfold check_found. change (Folio.FOLIO_OBJECTS + 1) with 129.
    assert (Hz : oid (odescs s d) mod 129 <> 0).
    { intros Hz. destruct (o_folio _ _ _ _ _ _ H d Hl Hz). congruence. }
    now rewrite (proj2 (Z.eqb_neq _ _) Hz).
  - right. destruct (find_in n kok pok fuel s A F a (oid (odescs s d)) (CAP_POLICY_GET c) d H Ha Eh)
      as (s'&->&H'&S&P'&_). cbn [mbind exec_bind].
    assert (Hg' : get_cap s' l = Ret c) by (destruct l; cbn in Hg |- *; now rewrite ?P').
    rewrite Hg'. cbn [mbind exec_bind]. destruct (core_at s s' S d) as (_&->&->&_).
    rewrite Ev, Z.eqb_refl, Ec, Ht. cbn [negb]. rewrite cap_types_compatible_refl. cbn [check mbind exec_bind].
    exists s'. done.
Qed.

Lemma knot_diverges fuel s A F a root d r :
  ok s A F -> a ∈ A -> knot s d -> root <> oid (odescs s d) -> 12 <= r ->
  doit fuel s (Some a) root (At d 0) r = Crash out_of_fuel.
Proof.
  intros H Ha. revert s H r. induction fuel as [|fuel IH]; intros s H r (Hl&Ht&c&Hg&Hc) Hroot Hr; [done|].
  destruct Hc as (Ec&Eo&Ev&Es&Eg). rewrite doit_S. unfold doit_1. rewrite Hg. cbn [mbind exec_bind].
  rewrite Ec, Es, Eg. destruct (Z.ltb_spec (r - 0) (0 + 12)); [lia|].
  destruct (find_table fuel s A F a c d H Ha Hl Ht Ec Eo Ev (At d 0) Hg) as [->|(s'&->&H'&S&P')]; [done|].
  cbn [mbind exec_bind].
  assert (Esz : Z.to_nat (CAP_SUBPAGE_SIZE c) = 1%nat).
  { unfold CAP_SUBPAGE_SIZE, CAP_ADDR_TRANS_SUBPAGE_SIZE. unfold CAP_SUBPAGE_SIZE_LOG2 in Es. now rewrite Es. }
  rewrite Esz. cbn [for_loop].
  assert (Hg' : get_cap s' (At d 0) = Ret c) by (cbn in Hg |- *; now rewrite P').
  rewrite Hg'. cbn [mbind exec_bind]. rewrite Eo, (proj2 (Z.eqb_neq _ _) Hroot). cbn [negb].
  rewrite (IH s' H'); [done| | |lia].
  - destruct (core_at s s' S d) as (_&_&Et&El). split; [congruence|]. split; [congruence|].
    exists c. split; [done|]. now apply (thin_same s).
  - now destruct (core_at s s' S d) as (->&_).
Qed.

(** C37: revoking a page of capabilities whose first slot leads to a page of
    capabilities that holds, in its first slot, a capability to itself of zero
    width, never ends: at every depth of the kernel's stack another call is made.
    Programs can make such pages; the comment in the code promises at most 63
    nested calls, one for each bit of the address. *)
Theorem shootdown_unbounded fuel s A F a root c d0 d :
  ok s A F -> a ∈ A -> knot s d ->
  live (odescs s d0) = true -> type (odescs s d0) = cap_cappage ->
  c_type root = cap_cappage -> c_oid root = oid (odescs s d0) -> c_version root = version (odescs s d0) ->
  CAP_GUARD_BITS root = 0 -> 0 <= CAP_SUBPAGE_SIZE_LOG2 root <= 8 -> c_oid root <> oid (odescs s d) ->
  get_cap s (At d0 0) = Ret c -> thin s d c ->
  cap_shootdown fuel s (Some a) root = Crash out_of_fuel.
Proof.
  intros H Ha Hk Hl Ht Ec Eo Ev Eg Es Hne Hg Hc. unfold cap_shootdown.
  rewrite bool_decide_eq_true_2 by done. cbn [check mbind exec_bind].
  destruct fuel as [|fuel]; [done|]. rewrite doit_S. unfold doit_1. cbn [get_cap mbind exec_bind].
  rewrite Ec, Eg. unfold ADDR_BITS. destruct (Z.ltb_spec (63 - 0) (CAP_SUBPAGE_SIZE_LOG2 root + 12)); [lia|].
  destruct (find_table fuel s A F a root d0 H Ha Hl Ht Ec Eo Ev (Temp root) eq_refl) as [->|(s'&->&H'&S&P')]; [done|].
  cbn [mbind exec_bind].
  destruct (Z.to_nat (CAP_SUBPAGE_SIZE root)) as [|k] eqn:Ek.
  { exfalso. unfold CAP_SUBPAGE_SIZE, CAP_ADDR_TRANS_SUBPAGE_SIZE in Ek. unfold CAP_SUBPAGE_SIZE_LOG2 in Es.
    rewrite Z.shiftl_1_l in Ek. assert (Hp := pow2_pos _ (proj1 Es)). lia. }
  cbn [for_loop]. assert (Hg' : get_cap s' (At d0 0) = Ret c) by (cbn in Hg |- *; now rewrite P').
  cbn [get_cap] in Hg'. rewrite Hg'. cbn [mbind exec_bind]. destruct Hc as (Ec'&Eo'&Ev'&Es'&Eg').
  rewrite Eo', (proj2 (Z.eqb_neq _ _) Hne). cbn [negb].
  destruct fuel as [|fuel]; [done|]. rewrite doit_S. unfold doit_1. cbn [get_cap]. rewrite Hg'. cbn [mbind exec_bind].
  rewrite Ec', Es', Eg'. destruct (Z.ltb_spec (63 - 0 - CAP_SUBPAGE_SIZE_LOG2 root - 0) (0 + 12)); [lia|].
  destruct Hk as (Hl1&Ht1&c1&Hg1&Hc1). destruct (core_at s s' S d) as (E1&E2&E3&E4).
  destruct (find_table fuel s' A F a c d H' Ha) with (l := At d0 0) as [->|(s2&->&H2&S2&P2)];
    try congruence; [done|done|]. cbn [mbind exec_bind].
  assert (Esz : Z.to_nat (CAP_SUBPAGE_SIZE c) = 1%nat).
  { unfold CAP_SUBPAGE_SIZE, CAP_ADDR_TRANS_SUBPAGE_SIZE. unfold CAP_SUBPAGE_SIZE_LOG2 in Es'. now rewrite Es'. }
  rewrite Esz. cbn [for_loop]. assert (S02 : same s s2) by now transitivity s'.
  assert (Hg2 : get_cap s2 (At d 0) = Ret c1) by (cbn in Hg1 |- *; now rewrite P2, P').
  cbn [get_cap] in Hg2. rewrite Hg2. cbn [mbind exec_bind]. destruct Hc1 as (Ec1&Eo1&Ev1&Es1&Eg1).
  rewrite Eo1, (proj2 (Z.eqb_neq _ _) Hne). cbn [negb].
  rewrite (knot_diverges fuel s2 A F); [done|done|done| | |lia].
  - destruct (core_at s s2 S02 d) as (_&_&Et&El). split; [congruence|]. split; [congruence|].
    exists c1. split; [done|]. now apply (thin_same s).
  - now destruct (core_at s s2 S02 d) as (->&_).
Qed.

(** ** The header's new entry *)

Lemma upd_slot_trans h1 h2 h3 i x y :
  Folio.upd_slot h1 h2 i x -> Folio.upd_slot h2 h3 i y -> Folio.upd_slot h1 h3 i y.
Proof.
  intros U1 U2. split; [apply U2|]. intros j Hj. rewrite (proj2 U2 j Hj). case_decide as E; [done|].
  rewrite (proj2 U1 j Hj). now rewrite decide_False.
Qed.

(** The entry of a new object of type [t], version [v] and policy [p]. *)
Definition new_slot (t : cap_type) (v : Z) (p : object_policy) : Folio.slot :=
  Folio.Slot t v false (OBJECT_POLICY (op_discardable p) (op_priority p)) false false false.

Lemma header_sequence h i t p : Folio.wf h -> 0 <= i < 128 ->
  exists h', (h ← Folio.folio_object_type_set h i t;
              h ← Folio.folio_object_content_set h i false;
              h ← Folio.folio_object_discarded_set h i false;
              h ← Folio.folio_object_policy_set h i p;
              h ← Folio.folio_object_referenced_set h i false;
              Folio.folio_object_dirty_set h i false) = Ret h' /\
    Folio.upd_slot h h' i (new_slot t (Folio.s_version (Folio.slot_of h i)) p).
Proof.
  intros Hw Hi. assert (Hi' : -1 <= i < 128) by lia.
  assert (At : forall h1 h2 x, Folio.upd_slot h1 h2 i x -> Folio.slot_of h2 i = x).
  { intros h1 h2 x U. rewrite (proj2 U i Hi'). now rewrite decide_True. }
  destruct (Folio.type_set h Hw i t Hi) as (h1&->&U1). cbn [mbind exec_bind].
  destruct (Folio.content_set h1 (proj1 U1) i false Hi') as (h2&->&U2). cbn [mbind exec_bind].
  destruct (Folio.discarded_set h2 (proj1 U2) i false Hi) as (h3&->&U3). cbn [mbind exec_bind].
  destruct (Folio.policy_set h3 (proj1 U3) i p Hi') as (h4&->&U4). cbn [mbind exec_bind].
  destruct (Folio.referenced_set h4 (proj1 U4) i false Hi') as (h5&->&U5). cbn [mbind exec_bind].
  destruct (Folio.dirty_set h5 (proj1 U5) i false Hi') as (h6&->&U6). exists h6. split; [done|].
  rewrite (At _ _ _ U5), (At _ _ _ U4), (At _ _ _ U3), (At _ _ _ U2), (At _ _ _ U1) in U6.
  eapply upd_slot_trans; [|exact U6]. eapply upd_slot_trans; [|exact U5].
  eapply upd_slot_trans; [|exact U4]. eapply upd_slot_trans; [|exact U3].
  eapply upd_slot_trans; [exact U1|exact U2].
Qed.

(** The version of the next object in a slot. *)
Definition next_version (x : Folio.slot) : Z :=
  if decide (Folio.s_type x = cap_void) then Folio.s_version x
  else wrap CAP_VERSION_BITS (Folio.s_version x + 1).

Lemma renew_ok s f i t p r h : as_folio (pages s f) = Ret h -> Folio.wf h -> 0 <= i < 128 ->
  let x := Folio.slot_of h i in
  exists h', renew s f i t p r = Ret (set_page
      (match r with
       | Some d => if decide (Folio.s_type x = cap_void) then s else upd_odesc s d (with_version (next_version x))
       | None => s end) f (Header h'), next_version x) /\
    Folio.upd_slot h h' i (new_slot t (next_version x) p).
Proof.
  intros Eh Hw Hi x. assert (Hi' : -1 <= i < 128) by lia. unfold renew. rewrite Eh. cbn [mbind exec_bind].
  rewrite (Folio.type_get h Hw i Hi'). fold x. cbn [mbind exec_bind]. unfold next_version.
  assert (Hend : forall s1 h1 v, Folio.wf h1 -> Folio.s_version (Folio.slot_of h1 i) = v ->
    exists h', (h ← Folio.folio_object_type_set h1 i t;
              h ← Folio.folio_object_content_set h i false;
              h ← Folio.folio_object_discarded_set h i false;
              h ← Folio.folio_object_policy_set h i p;
              h ← Folio.folio_object_referenced_set h i false;
              h ← Folio.folio_object_dirty_set h i false;
              v ← Folio.folio_object_version h i;
              Ret (set_page s1 f (Header h), v)) = Ret (set_page s1 f (Header h'), v) /\
      Folio.upd_slot h1 h' i (new_slot t v p)).
  { intros s1 h1 v Hw1 Hv. destruct (header_sequence h1 i t p Hw1 Hi) as (h'&E&U). exists h'.
    rewrite Hv in U. split; [|done].
    apply exec_bind_Ret in E as (a1&->&E). cbn [mbind exec_bind].
    apply exec_bind_Ret in E as (a2&->&E). cbn [mbind exec_bind].
    apply exec_bind_Ret in E as (a3&->&E). cbn [mbind exec_bind].
    apply exec_bind_Ret in E as (a4&->&E). cbn [mbind exec_bind].
    apply exec_bind_Ret in E as (a5&->&E). cbn [mbind exec_bind]. rewrite E. cbn [mbind exec_bind].
    rewrite (Folio.version_get h' (proj1 U) i Hi'). cbn [mbind exec_bind].
    rewrite (proj2 U i Hi'), decide_True by done. done. }
  destruct (decide (Folio.s_type x = cap_void)) as [Ev|Ev].
  - rewrite type_eqb_true by done. cbn [negb mbind exec_bind].
    destruct (Hend s h (Folio.s_version x) Hw eq_refl) as (h'&E&U). exists h'. split; [|done].
    rewrite E. now destruct r.
  - rewrite type_eqb_false by done. cbn [negb mbind exec_bind].
    rewrite (Folio.version_get h Hw i Hi'). fold x. cbn [mbind exec_bind].
    destruct (Folio.version_set h Hw i (Folio.s_version x + 1) Hi') as (h1&->&U1). cbn [mbind exec_bind].
    assert (Ev1 : Folio.s_version (Folio.slot_of h1 i) = wrap CAP_VERSION_BITS (Folio.s_version x + 1)).
    { rewrite (proj2 U1 i Hi'), decide_True by done. done. }
    rewrite (Folio.version_get h1 (proj1 U1) i Hi'), Ev1. cbn [mbind exec_bind].
    destruct (Hend (match r with Some d => upd_odesc s d (with_version (wrap CAP_VERSION_BITS (Folio.s_version x + 1))) | None => s end)
      h1 _ (proj1 U1) Ev1) as (h'&E&U). exists h'. rewrite E. split; [done|].
    eapply upd_slot_trans; [exact U1|exact U].
Qed.

(** ** Objects that stay as they are *)

(** All objects but [o] are where they were, with their types and versions. *)
Record untouched (o : Z) (s s' : st) : Prop := Untouched {
  u_objects : forall o', o' <> o -> objects s' !! o' = objects s !! o';
  u_core : forall o' d, o' <> o -> objects s !! o' = Some d -> core (odescs s' d) = core (odescs s d);
  u_meta : forall o', o' <> o -> meta s' o' = meta s o'
}.

Lemma untouched_trans o s1 s2 s3 : untouched o s1 s2 -> untouched o s2 s3 -> untouched o s1 s3.
Proof.
  intros U1 U2. split; intros o'.
  - intros Hne. rewrite (u_objects _ _ _ U2 o' Hne). now apply U1.
  - intros d Hne Ho. rewrite (u_core _ _ _ U2 o' d Hne); [now apply (u_core _ _ _ U1 o')|].
    now rewrite (u_objects _ _ _ U1 o' Hne).
  - intros Hne. rewrite (u_meta _ _ _ U2 o' Hne). now apply U1.
Qed.

Lemma same_untouched o s s' : same s s' -> untouched o s s'.
Proof.
  intros S. split.
  - intros o' _. now rewrite (m_objects _ _ S).
  - intros o' d _ _. apply S.
  - intros o' _. now apply meta_same.
Qed.

Lemma valid_untouched o s s' c : untouched o s s' -> c_oid c <> o -> valid s c <-> valid s' c.
Proof.
  intros U Hne. unfold valid, obtainable, version_of. rewrite (u_objects _ _ _ U _ Hne), (u_meta _ _ _ U _ Hne).
  destruct (objects s !! c_oid c) as [d|] eqn:Eo; [|done].
  assert (Ec := u_core _ _ _ U _ _ Hne Eo). unfold core in Ec.
  assert (Ev : version (odescs s' d) = version (odescs s d)) by congruence. now rewrite Ev.
Qed.

(** ** The frame of the old object *)

Lemma calm_page_used s d p : calm s -> ~ in_reach s d -> calm (set_page s d p).
Proof.
  intros Hc Hn u Hu. destruct (Hc u Hu) as [H1 H2]. split; [done|]. cbn [set_page odescs pages].
  rewrite fn_at. destruct (decide (u = d)) as [->|]; [now destruct Hn|done].
Qed.

Lemma used_out s d : used s d -> ~ in_reach s d.
Proof. intros [_ Hc] [Hw _]. apply wkey_available in Hw as (_&Hc'&_). congruence. Qed.

(** Clearing the page of an object that is not a folio. *)
Lemma page_clear s A F d : ok s A F -> live (odescs s d) = true -> type (odescs s d) <> cap_folio ->
  ok (set_page s d Zeroed) A F /\ forall o, meta (set_page s d Zeroed) o = meta s o.
Proof.
  intros H Hl Ht. assert (Hm : forall o, meta (set_page s d Zeroed) o = meta s o).
  { intros o. unfold meta. cbn. destruct (objects s !! foid o) as [g|] eqn:Eg; [|done].
    destruct (folio_at n kok pok s A F o g H Eg) as (_&_&Htg&_). rewrite fn_at, decide_False; [done|]. congruence. }
  split; [|done]. split; try apply H.
  - intros u Hu Hz. cbn [set_page odescs pages] in *. destruct (o_folio _ _ _ _ _ _ H u Hu Hz) as [Htu Hp].
    rewrite fn_at, decide_False by congruence. done.
  - intros u Hu Hz. rewrite Hm. now apply (o_object _ _ _ _ _ _ H).
  - intros u Hu Htu. cbn [set_page odescs pages] in *. rewrite fn_at. case_decide; [|now apply (o_table _ _ _ _ _ _ H)].
    eexists. split; [reflexivity|apply length_replicate].
Qed.

Section reuse.
Context (fuel : nat) (s : st) (A F : gset Z) (a fo f i d : Z) (h : Folio.folio) (p : object_policy).
Context (H : ok s A F) (Hc : calm s) (Ha : a ∈ A).
Context (Hf : objects s !! fo = Some f) (Hz : fo mod 129 = 0) (Hi : 0 <= i < 128).
Context (Hh : header (pages s f) h) (Hd : objects s !! (fo + 1 + i) = Some d) (Hu : used s d).
Context (Hflat : flat s d).

Lemma oid_object : (fo + 1 + i) mod 129 = 1 + i /\ foid (fo + 1 + i) = fo.
Proof.
  destruct (proj2 (oid_split (fo + 1 + i) fo i Hz ltac:(lia)) eq_refl) as [E1 E2]. lia.
Qed.

Lemma object_entry : live (odescs s d) = true /\ oid (odescs s d) = fo + 1 + i /\
  oid (odescs s d) mod 129 <> 0 /\ oid (odescs s f) = fo /\
  Folio.s_type (Folio.slot_of h i) = type (odescs s d) /\
  Folio.s_version (Folio.slot_of h i) = version (odescs s d) /\ type (odescs s d) <> cap_void.
Proof.
  destruct oid_object as [Em Ef]. destruct (proj1 (o_hash _ _ _ _ _ _ H _ _) Hd) as [Hl Eo].
  assert (Hne : oid (odescs s d) mod 129 <> 0) by (rewrite Eo, Em; lia).
  destruct (proj1 (o_hash _ _ _ _ _ _ H _ _) Hf) as [_ Efo].
  destruct (header_entry n kok pok s A F d f H Hl Hne) as (h'&Hh'&_&Hx); [rewrite Eo, Ef; done|].
  assert (h' = h) as -> by (destruct Hh, Hh'; congruence).
  revert Hx. unfold objects_folio_offset. change (1 + Folio.FOLIO_OBJECTS) with 129. rewrite Eo, Em.
  replace (1 + i - 1) with i by lia. intros (Ht&Hv&_&Hvoid).
  split; [done|]. split; [done|]. split; [lia|]. done.
Qed.

(** The assertions before the old object is dealt with. *)
Lemma reuse_checks {B} (k : exec B) :
  (h ← as_folio (pages s f);
   _ ← check (oid (odescs s d) =? oid (odescs s f) + 1 + i) assertion_failed;
   v ← Folio.folio_object_version h i;
   _ ← check (version (odescs s d) =? v) assertion_failed;
   t0 ← Folio.folio_object_type h i;
   _ ← check (cap_type_eqb (type (odescs s d)) t0) assertion_failed; k) = k.
Proof.
  destruct object_entry as (_&Eo&_&Ef&Et&Ev&_). destruct Hh as [-> [Hw _]]. cbn [mbind exec_bind].
  rewrite Eo, Ef, Z.eqb_refl. cbn [check mbind exec_bind].
  rewrite (Folio.version_get h Hw i) by lia. cbn [mbind exec_bind]. rewrite Ev, Z.eqb_refl.
  cbn [check mbind exec_bind]. rewrite (Folio.type_get h Hw i) by lia. cbn [mbind exec_bind].
  now rewrite Et, type_eqb_true.
Qed.

Lemma reuse_free : type (odescs s d) <> cap_activity_control ->
  exists s', reuse (S (S (S fuel))) s (Some a) f i cap_void p d = Ret (s', None) /\
    ok s' A (F ∪ {[d]}) /\ calm s' /\ evolved None s s' /\ objects s' !! (fo + 1 + i) = None /\
    (forall o, meta s' o = meta s o) /\ untouched (fo + 1 + i) s s' /\ header (pages s' f) h.
Proof.
  intros Hna. destruct object_entry as (Hl&Eo&Hne&_). unfold reuse. rewrite reuse_checks.
  rewrite type_eqb_true by done.
  destruct (destroy_ok n kok pok fuel s A F a d H Ha Hl Hne Hna Hflat (proj1 Hu)) as (s1&->&H1&G).
  cbn [mbind exec_bind]. destruct (o_live _ _ _ _ _ _ H d Hl) as [Hr _].
  destruct (desc_object n kok pok HL d Hr) as (->&Eback&_). cbn [mbind exec_bind].
  assert (HdF : d ∉ F) by (intros [_ E]%(o_free _ _ _ _ _ _ H); congruence).
  unfold memory_frame_free. revert Eback. unfold object_to_object_desc.
  destruct (Z.land _ _ =? 0); cbn [check mbind exec_bind]; [|done].
  destruct (first_frame <=? _); cbn [check mbind exec_bind]; [|done].
  destruct (_ <=? last_frame); cbn [check mbind exec_bind]; [|done]. intros _.
  destruct (zfree_ok (frames s1) F d (o_pool _ _ _ _ _ _ H1) HdF Hr) as (q&->&Hq). cbn [mbind exec_bind].
  exists (set_frames s1 q). split; [done|]. split; [|split; [now apply (calm_gone s s1 d)|split]].
  - split; try apply H1; [done|]. intros u [Huf|Huf%elem_of_singleton]%elem_of_union.
    + now apply (o_free _ _ _ _ _ _ H1).
    + subst. split; [done|apply G].
  - assert (E := gone_evolved n kok pok s A F s1 d H G Hl Hne). destruct E. now split.
  - assert (Hm : forall o, meta s1 o = meta s o)
      by (intros o; now apply (gone_meta n kok pok s A F s1 d o)).
    split; [|split; [done|split; [|split; [now apply (cleared_folio _ _ _ (g_pages _ _ _ G f)), Hh|apply Hh]]]];
      cbn; rewrite ?(g_objects _ _ _ G), ?Eo.
    + apply lookup_delete_eq.
    + split; [| |intros o _; apply Hm]; cbn; rewrite ?(g_objects _ _ _ G), ?Eo.
      * intros o Hneo. apply lookup_delete_ne. congruence.
      * intros o u Hneo Hou. apply (g_core _ _ _ G). intros ->.
        apply (o_hash _ _ _ _ _ _ H) in Hou as [_ Hou]. congruence.
Qed.

Lemma reuse_keep t : t <> cap_void ->
  exists s', reuse (S (S (S fuel))) s (Some a) f i t p d
      = Ret (upd_odesc s' d (fun x => with_shared false (with_type t x)), Some d) /\
    ok s' A F /\ calm s' /\ evolved None s s' /\ objects s' = objects s /\ used s' d /\
    pages s' d = Zeroed /\ (forall u, core (odescs s' u) = core (odescs s u)) /\
    (forall o, meta s' o = meta s o) /\ header (pages s' f) h.
Proof.
  intros Ht. destruct object_entry as (Hl&Eo&Hne&_). unfold reuse. rewrite reuse_checks.
  rewrite type_eqb_false by done. rewrite bool_decide_eq_true_2 by done. cbn [check mbind exec_bind].
  destruct (shoot_ok n kok pok fuel s A F a d H Ha Hl Hflat) as (s1&->&H1&S1). cbn [mbind exec_bind].
  destruct (core_at s s1 S1 d) as (_&_&Et1&El1). assert (U1 := used_same s s1 d S1 Hu).
  assert (C1 := calm_same s s1 S1 Hc).
  destruct (page_clear s1 A F d H1) as [H2 M2]; [congruence|rewrite Et1; apply Hflat|].
  assert (C2 := calm_page_used s1 d Zeroed C1 (used_out s1 d U1)). set (s2 := set_page s1 d Zeroed) in *.
  assert (E2 : evolved None s s2).
  { apply (evolved_trans None s s1); [now apply same_evolved|]. now apply evolved_meta_refl. }
  unfold object_desc_flush.
  destruct (unmap_ok n kok pok s2 A F d H2) as (s3&->&H3&S3&P3&_); [cbn; congruence|apply U1|].
  cbn [mbind exec_bind orb]. assert (U3 := used_same s2 s3 d S3 U1).
  destruct (add_status_ok n kok pok s3 A F d (flush_status s3 d) H3 (proj2 U3)) as [H4 S4].
  set (s4 := add_status s3 d _) in *. assert (U4 := used_same s3 s4 d S4 U3).
  destruct (dirty_step n kok pok s4 A F d false H4 (proj2 U4)) as [H5 S5].
  set (s5 := set_acct s4 _) in *. assert (U5 := used_same s4 s5 d S5 U4).
  assert (S6 : same s5 (upd_odesc s5 d (with_user false false))) by now apply same_odesc.
  set (s6 := upd_odesc s5 d _) in *. assert (H6 := ok_touch n kok pok s5 s6 A F H5 S6 eq_refl).
  assert (S26 : same s2 s6) by (transitivity s3; [done|]; transitivity s4; [done|]; now transitivity s5).
  destruct (claim_step n kok pok s6 A F a d (cpol p) H6 Ha) as (s7&->&H7&S7&[P7 _]&_&U7).
  { destruct (core_at s2 s6 S26 d) as (_&_&_&->). cbn. congruence. }
  cbn [mbind exec_bind]. assert (S27 : same s2 s7) by now transitivity s6.
  exists s7. split; [done|]. split; [done|]. split; [now apply (calm_same s2)|].
  split; [apply (evolved_trans None s s2); [done|now apply same_evolved]|].
  split; [rewrite (m_objects _ _ S27); apply S1|]. split; [done|]. split; [|split].
  2: { intros u. rewrite (m_core _ _ S27). apply S1. }
  2: { split; [intros o; rewrite (meta_same s2 s7 S27), M2; now apply meta_same|].
       split; [|apply Hh]. apply (cleared_folio _ _ _ (m_pages _ _ S27 f)). unfold s2. cbn. rewrite fn_at.
       destruct (o_folio _ _ _ _ _ _ H f) as [Htf _].
       - now apply (o_hash _ _ _ _ _ _ H) in Hf.
       - apply (o_hash _ _ _ _ _ _ H) in Hf as [_ Hf']. now rewrite Hf'.
       - rewrite decide_False by (intros ->; now apply Hflat).
         now apply (cleared_folio _ _ _ (m_pages _ _ S1 f)), Hh. }
  rewrite P7. change (pages s6 d) with (pages s3 d). rewrite P3. cbn. now rewrite fn_at, decide_True.
Qed.

End reuse.

(** The kept object under its new type and version. *)
Lemma retype_ok s s' A F fo f i d h h' t v p y : ok s A F -> objects s !! fo = Some f -> fo mod 129 = 0 ->
  0 <= i < 128 -> header (pages s f) h -> objects s !! (fo + 1 + i) = Some d ->
  Folio.upd_slot h h' i (new_slot t v p) -> object_type t -> t <> cap_void -> d ∉ A ->
  pages s d = Zeroed -> core y = (fo + 1 + i, v, t, true) ->
  (mapped y = true -> mapped (odescs s d) = true) ->
  acct s' = acct s -> objects s' = objects s -> frames s' = frames s -> folios s' = folios s ->
  (forall u, odescs s' u = if decide (u = d) then y else odescs s u) ->
  (forall u, pages s' u = if decide (u = f) then Header h' else pages s u) ->
  ok s' A F /\
  forall o, meta s' o = if decide (o = fo + 1 + i) then Some (new_slot t v p) else meta s o.
Proof.
  intros H Hf Hz Hi Hh Hd Hup Ht Hv HdA Hp Hy Hm Eacct Eobj Efr Efol Ho Hpg.
  destruct (proj1 (o_hash _ _ _ _ _ _ H _ _) Hd) as [Hl Eo]. injection Hy as Ey1 Ey2 Ey3 Ey4.
  destruct (proj1 (o_hash _ _ _ _ _ _ H _ _) Hf) as [Hlf Efo].
  assert (Em : (fo + 1 + i) mod 129 = 1 + i) by (destruct (oid_object fo i Hz Hi); done).
  assert (Hdf : d <> f) by (intros ->; lia).
  assert (Hmeta : forall o, meta s' o = if decide (o = fo + 1 + i) then Some (new_slot t v p) else meta s o).
  { intros o. rewrite <- (header_meta n kok pok s A F fo f i h h' (new_slot t v p) H Hf Hz Hh Hi Hup).
    unfold meta. cbn. rewrite Eobj. destruct (objects s !! foid o); [|done]. now rewrite Hpg, fn_at. }
  split; [|done]. assert (Edesc : forall u, desc s' u = desc s u) by (intros u; unfold desc; now rewrite Eacct).
  split; try (rewrite ?Eacct, ?Efr, ?Efol; apply H); intros u; rewrite ?Ho, ?Hpg, ?Edesc, ?Eobj.
  - intros Hu. assert (Hlu := o_owner _ _ _ _ _ _ H u Hu). case_decide; [done|done].
  - intros u'. rewrite Ho. case_decide as E; [subst u'|apply H]. rewrite Ey1, Ey4. split.
    + intros E. apply (o_hash _ _ _ _ _ _ H) in E as [_ E]. split; [done|congruence].
    + intros [_ <-]. done.
  - case_decide as E; [subst u|apply H]. intros _. rewrite Ey1, <- Eo. now apply H.
  - case_decide as E; [subst u; rewrite Ey1; lia|]. intros Hlu Hzu.
    destruct (o_folio _ _ _ _ _ _ H u Hlu Hzu) as [Htu Hhu]. split; [done|].
    case_decide; [subst u|done]. exists h'. split; [done|]. split; [apply Hup|]. intros j Hj.
    rewrite (proj2 Hup j) by lia. case_decide; [done|]. now apply Hh.
  - case_decide as E; [subst u|]; rewrite Hmeta.
    + intros _ _. rewrite Ey1, decide_True by done. exists (new_slot t v p). cbn. now rewrite Ey2, Ey3.
    + intros Hlu Hzu. rewrite decide_False; [now apply H|]. intros E'.
      assert (objects s !! (fo + 1 + i) = Some u) by (now apply (o_hash _ _ _ _ _ _ H)). congruence.
  - destruct (decide (u = d)) as [->|]; [intros _ _|].
    + rewrite decide_False by done. rewrite Hp. eexists. split; [reflexivity|apply length_replicate].
    + intros Hlu Htu. rewrite decide_False; [now apply (o_table _ _ _ _ _ _ H)|]. intros ->.
      destruct (o_folio _ _ _ _ _ _ H f Hlf) as [Htf _]; congruence.
  - intros HuA. rewrite decide_False by congruence. now apply H.
  - intros Hcu. case_decide; [subst u|now apply H]. destruct (mapped y); [|done].
    rewrite (o_mapped _ _ _ _ _ _ H d Hcu) in Hm. now specialize (Hm eq_refl).
  - intros HuF. destruct (o_free _ _ _ _ _ _ H u HuF). rewrite decide_False; [done|]. congruence.
Qed.

(** ** [folio_object_alloc] *)

(** The types of objects without state of their own. *)
Definition plain (t : cap_type) : Prop := t = cap_void \/ t = cap_page \/ t = cap_cappage.

Lemma next_version_range h i : Folio.wf h -> -1 <= i < 128 ->
  0 <= next_version (Folio.slot_of h i) < 2 ^ CAP_VERSION_BITS.
Proof.
  intros Hw Hi. unfold next_version. case_decide; [now apply Folio.version_range|now apply wrap_range].
Qed.

Section alloc.
Context (fuel : nat) (s : st) (A F : gset Z) (a fo f i : Z) (h : Folio.folio) (t : cap_type)
  (p : object_policy) (rc : Z).
Context (H : ok s A F) (Hc : calm s) (Ha : a ∈ A).
Context (Hf : objects s !! fo = Some f) (Hz : fo mod 129 = 0) (Hi : 0 <= i < 128).
Context (Hh : header (pages s f) h) (Hold : plain (Folio.s_type (Folio.slot_of h i))).
Context (Hnew : plain (cap_type_strengthen t)).
Context (Hflat : forall d, objects s !! (fo + 1 + i) = Some d -> flat s d).

Abbreviation x := (Folio.slot_of h i).
Abbreviation t' := (cap_type_strengthen t).
Abbreviation o := (fo + 1 + i).

Lemma plain_object u : plain u -> object_type u.
Proof. unfold plain, object_type. tauto. Qed.

Lemma old_meta : meta s o = Some x.
Proof.
  destruct (proj2 (oid_split o fo i Hz ltac:(lia)) eq_refl) as [E1 E2]. unfold meta.
  now rewrite E1, Hf, (proj1 Hh), E2.
Qed.

Lemma new_types : t' <> cap_activity_control /\ Folio.s_type x <> cap_activity_control /\
  Folio.s_type x <> cap_thread.
Proof. destruct Hnew as [E|[E|E]], Hold as [E'|[E'|E']]; rewrite E, E'; done. Qed.

(** What allocating leaves. *)
Definition allocated (s' : st) (F' : gset Z) : Prop :=
  ok s' A F' /\ calm s' /\ untouched o s s' /\ meta s' o = Some (new_slot t' (next_version x) p).

Lemma finish_absent s2 F2 : ok s2 A F2 -> calm s2 -> untouched o s s2 -> objects s2 !! o = None ->
  header (pages s2 f) h ->
  exists s', renew s2 f i t' p None = Ret (s', next_version x) /\ allocated s' F2 /\ objects s' !! o = None.
Proof.
  intros H2 C2 U2 En Hh2.
  assert (Hf2 : objects s2 !! fo = Some f) by (rewrite (u_objects _ _ _ U2); [done|lia]).
  destruct (renew_ok s2 f i t' p None h (proj1 Hh2) (proj1 (proj2 Hh2)) Hi) as (h'&->&Hup).
  eexists. split; [reflexivity|]. split; [|done].
  assert (Hm := header_meta n kok pok s2 A F2 fo f i h h' _ H2 Hf2 Hz Hh2 Hi Hup).
  split; [|split; [|split]].
  - apply (header_ok n kok pok s2 A F2 fo f i h h' _ H2 Hf2 Hz Hh2 Hi Hup); [now apply plain_object|].
    intros d Ed. congruence.
  - now apply (calm_header n kok pok s2 A F2 fo f).
  - apply (untouched_trans o s s2); [done|]. split; [done..|]. intros o' Hne. now rewrite Hm, decide_False.
  - now rewrite Hm, decide_True.
Qed.

Lemma finish_kept s2 F2 d : ok s2 A F2 -> calm s2 -> untouched o s s2 -> objects s2 !! o = Some d ->
  header (pages s2 f) h -> used s2 d -> pages s2 d = Zeroed -> t' <> cap_void ->
  Folio.s_type x <> cap_void -> type (odescs s2 d) <> cap_activity_control ->
  exists s', renew (upd_odesc s2 d (fun y => with_shared false (with_type t' y))) f i t' p (Some d)
      = Ret (s', next_version x) /\ allocated s' F2 /\ objects s' !! o = Some d.
Proof.
  intros H2 C2 U2 Ed Hh2 Hused Hzero Hv Hxv Hna.
  assert (Hf2 : objects s2 !! fo = Some f) by (rewrite (u_objects _ _ _ U2); [done|lia]).
  set (s3 := upd_odesc s2 d _).
  destruct (renew_ok s3 f i t' p (Some d) h (proj1 Hh2) (proj1 (proj2 Hh2)) Hi) as (h'&->&Hup).
  rewrite decide_False by done. eexists. split; [reflexivity|].
  set (s4 := set_page _ f (Header h')). split; [|done].
  destruct (proj1 (o_hash _ _ _ _ _ _ H2 _ _) Ed) as [Hl Eo].
  assert (HdA : d ∉ A) by (intros [_ E]%(o_members _ _ _ _ _ _ H2); congruence).
  assert (Hdf : d <> f).
  { intros ->. destruct (proj1 (o_hash _ _ _ _ _ _ H2 _ _) Hf2) as [_ E]. lia. }
  assert (Hod : forall u, odescs s4 u = if decide (u = d)
    then with_version (next_version x) (with_shared false (with_type t' (odescs s2 d))) else odescs s2 u).
  { intros u. unfold s4. change (odescs (set_page ?a _ _)) with (odescs a). rewrite upd_at. unfold s3.
    rewrite !upd_at, (decide_True (P := d = d)) by done. now case_decide. }
  destruct (retype_ok s2 s4 A F2 fo f i d h h' t' (next_version x) p
    (with_version (next_version x) (with_shared false (with_type t' (odescs s2 d)))))
    as [H4 Hm]; try done.
  - now apply plain_object.
  - unfold core. cbn. rewrite Eo, Hl, wrap_small; [done|]. apply next_version_range; [apply Hh2|lia].
  - intros u. unfold s4. cbn. now rewrite fn_at.
  - split; [done|]. split; [|split].
    + intros u [Hw He]. change (desc s4 u) with (desc s2 u) in Hw.
      assert (Hne : u <> d) by (intros ->; apply wkey_available in Hw as (_&E&_); destruct Hused; congruence).
      revert He. unfold evictable, flat. rewrite Hod, decide_False by done. intros He.
      destruct (C2 u) as [F1 F3]; [now split|]. split; [done|]. intros Ht tt. unfold s4. cbn.
      rewrite fn_at. case_decide as E; [done|]. now apply F3.
    + apply (untouched_trans o s s2); [done|]. split; [done| |].
      * intros o' u Hne Ho'. rewrite Hod, decide_False; [done|]. intros ->.
        apply (o_hash _ _ _ _ _ _ H2) in Ho' as [_ Ho']. congruence.
      * intros o' Hne. now rewrite Hm, decide_False.
    + now rewrite Hm, decide_True.
Qed.

Lemma alloc_ok :
  exists s' F', folio_object_alloc (S (S (S fuel))) s (Some a) f i t p rc =
      Ret (s', CAP_POLICY_SET (mk_cap (next_version x) false o 0 0 0 t' CAP_ADDR_TRANS_VOID) p) /\
    allocated s' F' /\ (objects s !! o = None -> objects s' !! o = None).
Proof.
  destruct (oid_object fo i Hz Hi) as [Em Efo]. destruct new_types as (N1&N2&N3).
  destruct (folio_at n kok pok s A F o f H) as (Hlf&Eof&Htf&_); [now rewrite Efo|]. rewrite Efo in Eof.
  unfold folio_object_alloc. rewrite (Folio.is_object_Ret i Hi). cbn [mbind exec_bind].
  rewrite (type_eqb_true _ _ Htf). change (1 + Folio.FOLIO_OBJECTS) with 129. rewrite Eof, Hz.
  cbn [check mbind exec_bind Z.eqb]. rewrite (proj1 Hh). cbn [mbind exec_bind].
  rewrite (Folio.type_get h (proj1 (proj2 Hh))) by lia. cbn [mbind exec_bind].
  unfold destroy_old. rewrite (type_eqb_false _ _ N1), (type_eqb_false _ _ N2), (type_eqb_false _ _ N3).
  cbn [orb mbind exec_bind].
  destruct (wake_ok _ _ _ HL s A F (Some a) f i rc H) as (s1&->&H1&S1). cbn [mbind exec_bind].
  destruct (objects s !! o) as [d|] eqn:Ed.
  2: { rewrite soft_None by now rewrite (m_objects _ _ S1). cbn [mbind exec_bind].
       destruct (finish_absent s1 F H1 (calm_same s s1 S1 Hc) (same_untouched o s s1 S1)) as (s'&->&Hs'&En).
       - now rewrite (m_objects _ _ S1).
       - split; [now apply (cleared_folio _ _ _ (m_pages _ _ S1 f)), Hh|apply Hh].
       - cbn [mbind exec_bind]. exists s', F. done. }
  destruct (soft_ok n kok pok (S (S fuel)) s1 A F a o p d H1 Ha) as (s2&->&H2&S2&P2&U2).
  { now rewrite (m_objects _ _ S1). }
  cbn [mbind exec_bind]. assert (S12 : same s s2) by now transitivity s1.
  assert (C2 := calm_same s s2 S12 Hc).
  assert (Hf2 : objects s2 !! fo = Some f) by now rewrite (m_objects _ _ S12).
  assert (Hd2 : objects s2 !! o = Some d) by now rewrite (m_objects _ _ S12).
  assert (Hh2 : header (pages s2 f) h).
  { split; [now apply (cleared_folio _ _ _ (m_pages _ _ S12 f)), Hh|apply Hh]. }
  assert (Fl2 := flat_same s s2 S12 d (Hflat d eq_refl)).
  destruct (object_entry s2 A F fo f i d h H2 Hf2 Hz Hi Hh2 Hd2) as (Hl2&Eo2&Hne2&_&Et2&Ev2&Hv2).
  assert (Htd : type (odescs s2 d) <> cap_activity_control) by now rewrite <- Et2.
  destruct (decide (t' = cap_void)) as [Etv|Etv].
  - rewrite Etv.
    destruct (reuse_free fuel s2 A F a fo f i d h p H2 C2 Ha Hf2 Hz Hi Hh2 Hd2 U2 Fl2 Htd)
      as (s3&->&H3&C3&_&En3&M3&U3&Hh3). cbn [mbind exec_bind].
    destruct (finish_absent s3 (F ∪ {[d]}) H3 C3) as (s'&E'&Hs'&En); [|done|done|].
    { apply (untouched_trans o s s2); [now apply same_untouched|done]. }
    rewrite Etv in E'. rewrite E'. cbn [mbind exec_bind]. exists s', (F ∪ {[d]}). done.
  - destruct (reuse_keep fuel s2 A F a fo f i d h p H2 C2 Ha Hf2 Hz Hi Hh2 Hd2 U2 Fl2 t' Etv)
      as (s3&->&H3&C3&_&Eo3&Us3&Z3&K3&M3&Hh3). cbn [mbind exec_bind].
    destruct (finish_kept s3 F d H3 C3) as (s'&E'&Hs'&_); try done.
    + apply (untouched_trans o s s2); [now apply same_untouched|]. split; [|done|done].
      intros o' _. now rewrite Eo3.
    + now rewrite Eo3.
    + now rewrite Et2.
    + assert (Ec := K3 d). unfold core in Ec. congruence.
    + rewrite E'. cbn [mbind exec_bind]. exists s', F. done.
Qed.

End alloc.

(** ** What a new object means for capabilities *)

Lemma wrap_next v : 0 <= v < 2 ^ CAP_VERSION_BITS -> wrap CAP_VERSION_BITS (v + 1) <> v.
Proof.
  unfold wrap, CAP_VERSION_BITS. intros Hv E. assert (Hd := Z.div_mod (v + 1) (2 ^ 20) ltac:(done)).
  rewrite E in Hd. assert (H1 : 2 ^ 20 * ((v + 1) / 2 ^ 20) = 1) by lia.
  apply Z.eq_mul_1 in H1. destruct H1; discriminate.
Qed.

(** Validity of the capabilities to an object that is described by its folio. *)
Lemma valid_meta s A F o x c : ok s A F -> meta s o = Some x -> o mod 129 <> 0 -> c_oid c = o ->
  valid s c <-> c_type c <> cap_void /\ c_version c = Folio.s_version x /\
    (objects s !! o <> None \/ Folio.s_type x <> cap_void /\ Folio.s_discarded x = false /\ Folio.s_content x = false).
Proof.
  intros H Hm Hz <-. unfold valid, obtainable, version_of. rewrite (proj2 (Z.eqb_neq _ _) Hz), Hm.
  split.
  - intros (Ht&[Ho|[Ho|(y&[= <-]&Hy)]]&Hv); auto. done.
  - intros (Ht&Hv&[Ho|Hy]); (split; [done|]); (split; [|congruence]); [now left|].
    right. right. now exists x.
Qed.

Lemma memory_type s A F o d x : ok s A F -> objects s !! o = Some d -> o mod 129 <> 0 ->
  meta s o = Some x -> Folio.s_type x <> cap_void.
Proof.
  intros H Ho Hz Hm. destruct (proj1 (o_hash _ _ _ _ _ _ H _ _) Ho) as [Hl Eo]. rewrite <- Eo in Hz.
  destruct (o_object _ _ _ _ _ _ H d Hl Hz) as (y&Hy&Ht&_&_&Hv). rewrite Eo in Hy. congruence.
Qed.

Section revocation.
Context (fuel : nat) (s : st) (A F : gset Z) (a fo f i : Z) (h : Folio.folio) (t : cap_type)
  (p : object_policy) (rc : Z).
Context (H : ok s A F) (Hc : calm s) (Ha : a ∈ A).
Context (Hf : objects s !! fo = Some f) (Hz : fo mod 129 = 0) (Hi : 0 <= i < 128).
Context (Hh : header (pages s f) h) (Hold : plain (Folio.s_type (Folio.slot_of h i))).

Abbreviation x := (Folio.slot_of h i).
Abbreviation t' := (cap_type_strengthen t).
Abbreviation o := (fo + 1 + i).

Lemma object_mod : o mod 129 <> 0.
Proof. destruct (oid_object fo i Hz Hi) as [-> _]. lia. Qed.

(** The new capability is valid, unless the object was only freed. *)
Lemma new_valid s' F' c : allocated s A fo i h t p s' F' -> c_oid c = o -> c_type c = t' ->
  c_version c = next_version x -> valid s' c <-> t' <> cap_void.
Proof.
  intros (H'&_&_&Hm) Eo Et Ev. rewrite (valid_meta s' A F' o _ c H' Hm object_mod Eo), Et. split; [tauto|].
  intros Hv. split; [done|]. split; [done|]. now right.
Qed.

(** No old capability to the object is. *)
Lemma old_invalid s' F' c : allocated s A fo i h t p s' F' -> c_oid c = o -> valid s c -> ~ valid s' c.
Proof.
  intros (H'&_&_&Hm) Eo Hv Hv'.
  apply (valid_meta s A F o _ c H (old_meta s fo f i h Hf Hz Hi Hh) object_mod Eo) in Hv as (_&Ev&Hob).
  apply (valid_meta s' A F' o _ c H' Hm object_mod Eo) in Hv' as (_&Ev'&_). cbn in Ev'.
  assert (Hx : Folio.s_type x <> cap_void).
  { destruct Hob as [Ho|Ho]; [|apply Ho]. destruct (objects s !! o) as [d|] eqn:Ed; [|done].
    apply (memory_type s A F o d x H Ed object_mod), old_meta with (f := f); done. }
  unfold next_version in Ev'. rewrite decide_False in Ev' by done.
  assert (Hr := Folio.version_range h i (proj1 (proj2 Hh)) ltac:(lia)).
  apply (wrap_next (Folio.s_version x)); [done|congruence].
Qed.

End revocation.


(** ** The version space *)

(** Allocating the object [k] times. *)
Fixpoint alloc_times (fuel k : nat) (s : st) (a f i : Z) (t : cap_type) (p : object_policy) (rc : Z) : exec st :=
  match k with
  | O => Ret s
  | S k =>
      '(s, _) ← folio_object_alloc fuel s (Some a) f i t p rc;
      alloc_times fuel k s a f i t p rc
  end.

(** The object is not in memory; its entry has version [v]. *)
Record entry_at (s : st) (A F : gset Z) (fo f i v : Z) (t : cap_type) : Prop := EntryAt {
  ea_ok : ok s A F;
  ea_calm : calm s;
  ea_folio : objects s !! fo = Some f;
  ea_absent : objects s !! (fo + 1 + i) = None;
  ea_meta : exists x, meta s (fo + 1 + i) = Some x /\ Folio.s_type x = t /\ Folio.s_version x = v /\
    Folio.s_discarded x = false /\ Folio.s_content x = false
}.

Lemma alloc_step fuel s A F a fo f i v t p rc : entry_at s A F fo f i v t -> a ∈ A ->
  fo mod 129 = 0 -> 0 <= i < 128 -> plain t -> t <> cap_void ->
  exists s' c F', folio_object_alloc (S (S (S fuel))) s (Some a) f i t p rc = Ret (s', c) /\
    entry_at s' A F' fo f i (wrap CAP_VERSION_BITS (v + 1)) t.
Proof.
  intros [H Hc Hf Hn (x&Hx&Hxt&Hxv&_)] Ha Hz Hi Ht Htv.
  assert (Hst : cap_type_strengthen t = t) by (destruct Ht as [->|[->| ->]]; done).
  destruct (folio_at n kok pok s A F fo f H) as (_&_&_&h&Hh).
  { replace (foid fo) with fo by (unfold foid; lia). done. }
  assert (Hm := old_meta s fo f i h Hf Hz Hi Hh). assert (x = Folio.slot_of h i) as -> by congruence.
  destruct (alloc_ok fuel s A F a fo f i h t p rc H Hc Ha Hf Hz Hi Hh) as (s'&F'&E&(H'&C'&U&Hm')&Hn').
  - now rewrite Hxt.
  - now rewrite Hst.
  - intros d Ed. congruence.
  - do 3 eexists. split; [exact E|]. rewrite Hst in Hm'. split; [exact H'|done| |auto|].
    + rewrite (u_objects _ _ _ U); [done|lia].
    + eexists. split; [exact Hm'|]. cbn. unfold next_version. now rewrite Hxt, decide_False, Hxv.
Qed.

Lemma alloc_many fuel k s A F a fo f i v t p rc : entry_at s A F fo f i v t -> a ∈ A ->
  fo mod 129 = 0 -> 0 <= i < 128 -> plain t -> t <> cap_void -> 0 <= v < 2 ^ CAP_VERSION_BITS ->
  exists s' F', alloc_times (S (S (S fuel))) k s a f i t p rc = Ret s' /\
    entry_at s' A F' fo f i (wrap CAP_VERSION_BITS (v + Z.of_nat k)) t.
Proof.
  intros H Ha Hz Hi Ht Htv. revert s F v H. induction k as [|k IH]; intros s F v H Hv.
  - exists s, F. split; [done|]. rewrite Z.add_0_r, wrap_small by done. done.
  - cbn [alloc_times].
    destruct (alloc_step fuel s A F a fo f i v t p rc H Ha Hz Hi Ht Htv) as (s1&c&F1&->&H1). cbn [mbind exec_bind].
    destruct (IH s1 F1 _ H1) as (s'&F'&E&H'); [now apply wrap_range|]. exists s', F'. split; [done|].
    unfold wrap in *. rewrite Zplus_mod_idemp_l in H'. now replace (v + Z.of_nat (S k)) with (v + 1 + Z.of_nat k) by lia.
Qed.

(** C29: versions have 20 bits and nothing tests for an overflow: after an object was
    allocated 2^20 times from the same slot, every capability that was valid for
    the first of them is valid again, for another object. *)
Theorem version_wraps fuel s A F a fo f i v t p rc :
  entry_at s A F fo f i v t -> a ∈ A -> fo mod 129 = 0 -> 0 <= i < 128 ->
  t = cap_page \/ t = cap_cappage ->
  exists s' F', alloc_times (S (S (S fuel))) (Z.to_nat (2 ^ 20)) s a f i t p rc = Ret s' /\
    ok s' A F' /\ forall c, c_oid c = fo + 1 + i -> valid s c -> valid s' c.
Proof.
  intros H Ha Hz Hi Ht. assert (Hm0 := object_mod fo i Hz Hi). destruct (ea_meta _ _ _ _ _ _ _ _ H) as (x&Hx&Hxt&Hxv&_).
  assert (Hv : 0 <= v < 2 ^ CAP_VERSION_BITS).
  { destruct (meta_header s _ x Hx) as (g&h&Eg&Eh&->). rewrite <- Hxv.
    destruct (folio_at n kok pok s A F _ g (ea_ok _ _ _ _ _ _ _ _ H) Eg) as (_&_&_&h'&Eh'&Hw&_).
    assert (h' = h) as -> by congruence. apply Folio.version_range; [done|].
    assert (Hr := offset_range _ Hm0). lia. }
  destruct (alloc_many fuel (Z.to_nat (2 ^ 20)) s A F a fo f i v t p rc H Ha Hz Hi) as (s'&F'&E&H');
    [unfold plain; tauto|destruct Ht; congruence|done|].
  exists s', F'. split; [done|]. split; [apply H'|]. intros c Eo Hval.
  rewrite Z2Nat.id in H' by done. unfold wrap in H'. change (2 ^ 20) with (1 * 2 ^ CAP_VERSION_BITS) in H' at 1.
  rewrite Z.mod_add, Z.mod_small in H' by done.
  destruct (ea_meta _ _ _ _ _ _ _ _ H') as (y&Hy&Hyt&Hyv&Hyd).
  apply (valid_meta s A F _ x c (ea_ok _ _ _ _ _ _ _ _ H) Hx Hm0 Eo) in Hval as (Hct&Hcv&_).
  apply (valid_meta s' A F' _ y c (ea_ok _ _ _ _ _ _ _ _ H') Hy Hm0 Eo).
  split; [done|]. split; [congruence|]. right. split; [|done]. rewrite Hyt. destruct Ht; congruence.
Qed.

End revoke.
End Revoke.
