(* ===== verification/SmallKernel.v ===== *)
(** * A small kernel

    The interfaces of [Objects] implemented by [Accounts] and [Pool] for a machine
    of 16 frames, with a pager and services that do nothing, and a state with a
    folio and three of its objects in memory.  The theorems of [Revoke] apply to
    it, and it runs: some runs end where the code's assertions fail. *)

From S2P Require Import Prelude Ring KList L4Math Addr AddrTrans Cap BitArray Claim Reclaim Zalloc Folio Objects Accounts ObjectsOk Pool Revoke.

Module SmallKernel.
Import Objects ObjectsOk Revoke.

(** ** The machine *)

Definition N16 : Z := 16.

#[export] Instance acc : Accounting Claim.kstate := Accounts.accounting 60.
#[export] Instance frs : Frames zstate := Pool.frames 100.
#[export] Instance env : Environment Claim.kstate zstate := {|
  memory_total := N16;
  first_frame := 4096;
  last_frame := 4096 * N16;
  unmap_status _ _ := (false, false);
  flush_status _ _ := (false, false);
  pager_collect s _ := Ret s;
  activity_destroy s _ _ := Ret s;
  activity_create s _ _ := Ret s;
  thread_deinit s _ _ := Ret s;
  wake_waiters s _ _ _ _ := Ret s;
  uninitialized _ _ := zero_cap
|}.

Definition kok : Claim.kstate -> gset Z -> Prop := Accounts.kok 60 N16.
Definition pok : zstate -> gset Z -> Prop := Pool.pok 4096 N16.

#[export] Instance acc_laws : AccountingLaws Claim.kstate N16 kok.
Proof. now apply Accounts.accounting_laws. Qed.

#[export] Instance frs_laws : FramesLaws zstate first_frame N16 pok.
Proof. now apply Pool.pool_laws. Qed.

Abbreviation st := (ostate Claim.kstate zstate).
Abbreviation kernel_ok := (ok N16 kok pok).

Lemma env_laws : environment_laws N16 kok pok.
Proof.
  split; [done|done| |].
  - intros s A F goal H C. exists s. split; [done|]. split; [done|]. split; [done|].
    split; [|done]. now apply same_evolved.
  - intros s A F act f i rc H. exists s. done.
Qed.

(** ** The state: folio 0 with an activity and two pages of capabilities *)

Definition dead : odesc := Odesc 0 0 cap_void false false false false false false.
Definition obj (o : Z) (t : cap_type) : odesc := Odesc o 0 t false false false false false true.

Definition small_header : Folio.folio :=
  Folio.MkFolio (Folio.miscs Folio.zero_folio)
    (<[0%nat := cap_activity_control]> (<[1%nat := cap_cappage]> (<[2%nat := cap_cappage]>
      (<[3%nat := cap_page]> (<[4%nat := cap_cappage]> (Folio.types Folio.zero_folio))))))
    (Folio.discarded Folio.zero_folio) (Folio.dirty Folio.zero_folio) (Folio.referenced Folio.zero_folio).

Definition small_acct : Claim.kstate :=
  Claim.Kstate (fun _ => Claim.poor None 0 0) (fun _ => Claim.fresh) KList.cleared KList.cleared 1.

(** The frames 0 to 3 hold the folio, the activity and the pages [p2] and [p3]. *)
Definition small (p2 p3 : page) (pl : zstate) : st :=
  Ostate small_acct
    (<[0 := obj 0 cap_folio]> (<[1 := obj 1 cap_activity_control]> (<[2 := obj 2 cap_cappage]>
      (<[3 := obj 3 cap_cappage]> (fun _ => dead)))))
    (<[0 := 0]> (<[1 := 1]> (<[2 := 2]> {[3 := 3]})))
    (<[0 := Header small_header]> (<[2 := p2]> (<[3 := p3]> (fun _ => Zeroed)))) pl
    (<[0%nat := 1]> (replicate 4096 0)) 0 (Some 1).

(** A pool with three free frames: 4, 5 and 6. *)
Definition three : zstate :=
  match Zalloc.zfree 60 pool_init 0x5000 0x3000 with Ret p => p | Crash _ => pool_init end.

(** ** It satisfies the invariant *)

Lemma small_kok : kok small_acct {[1]}.
Proof.
  exists [1], (fun _ => [1]), (fun _ => []), (fun _ => []).
  split; [split|..].
  - split.
    + apply NoDup_singleton.
    + intros a ->%list_elem_of_singleton. done.
    + intros a ->%list_elem_of_singleton _. done.
    + done.
    + intros a _. apply NoDup_singleton.
  - apply KList.cleared_rep.
  - apply KList.cleared_rep.
  - done.
  - intros d h. cbn. split; [now intros ?%not_elem_of_nil|now intros [_ ?]].
  - intros d a _. cbn. split; [set_solver|now intros [_ ?]].
  - intros d h. cbn. split; [now intros ?%not_elem_of_nil|now intros [_ ?]].
  - done.
  - done.
  - intros a ->%list_elem_of_singleton. vm_compute. reflexivity.
  - intros a ->%list_elem_of_singleton. vm_compute. reflexivity.
  - intros a. now rewrite elem_of_singleton, list_elem_of_singleton.
  - done.
  - cbn. lia.
Qed.

Lemma empty_pok : pok pool_init ∅.
Proof.
  split; [|done]. apply (pool_ext _ (fun _ => False)); [|apply pool_init_ok].
  intros a. split; [done|]. now intros (d&Hd&_).
Qed.

Lemma three_pok : pok three {[4; 5; 6]}.
Proof.
  destruct (zfree_pool pool_init (fun _ => False) 0x5000 0x3000 60 pool_init_ok) as (p&E&Hp&_);
    try done; [tauto|].
  unfold three. rewrite E. split; [|set_unfold; unfold N16; lia].
  apply (pool_ext _ _ _) with (2 := Hp). intros a. unfold Pool.bytes, Pool.frame_addr. split.
  - intros [[]|Ha]. destruct (decide (a < 0x6000)); [exists 4|destruct (decide (a < 0x7000)); [exists 5|exists 6]];
      (split; [set_solver|lia]).
  - intros (d&Hd&Hr). right. set_unfold in Hd. lia.
Qed.

Lemma zero_wf : Folio.wf Folio.zero_folio.
Proof. destruct zero_folio_header as (_&?&_). done. Qed.

Lemma small_header_wf : Folio.wf small_header.
Proof.
  destruct zero_wf as [H1 H2 H3 H4 H5 H6]. split; try done.
Qed.

Definition small_header_type (i : Z) : cap_type :=
  if i =? 0 then cap_activity_control else if i =? 1 then cap_cappage else if i =? 2 then cap_cappage
  else if i =? 3 then cap_page else if i =? 4 then cap_cappage else cap_void.

Lemma small_header_slot i : 0 <= i < 128 -> Folio.slot_of small_header i =
  Folio.Slot (small_header_type i) 0 false (OBJECT_POLICY 0 OBJECT_PRIORITY_LRU) false false false.
Proof.
  intros Hi. revert i Hi. assert (E : map (Folio.slot_of small_header) (seqZ 0 128) =
    map (fun i => Folio.Slot (small_header_type i) 0 false (OBJECT_POLICY 0 OBJECT_PRIORITY_LRU) false false false)
      (seqZ 0 128)) by (vm_compute; reflexivity).
  intros i Hi. apply (ext_in_map E), list_elem_of_In, elem_of_seqZ. lia.
Qed.

Lemma small_header_header : header (Header small_header) small_header.
Proof.
  split; [done|]. split; [apply small_header_wf|]. intros i Hi. rewrite small_header_slot by done. cbn. unfold small_header_type, object_type.
  repeat (case_match; [tauto|]). tauto.
Qed.

Section small.
Context (p2 p3 : page) (pl : zstate) (F : gset Z).
Context (H2 : exists t, as_table p2 = Ret t /\ length t = 256%nat).
Context (H3 : exists t, as_table p3 = Ret t /\ length t = 256%nat).
Context (Hp : pok pl F) (HF : forall d, d ∈ F -> 3 < d).

Lemma small_live d : live (odescs (small p2 p3 pl) d) = true -> d = 0 \/ d = 1 \/ d = 2 \/ d = 3.
Proof. cbn. rewrite !fn_at. do 4 (case_decide; [tauto|]). done. Qed.

Lemma small_meta o : 0 <= o < 129 -> o <> 0 -> meta (small p2 p3 pl) o =
  Some (Folio.Slot (small_header_type (o - 1)) 0 false (OBJECT_POLICY 0 OBJECT_PRIORITY_LRU) false false false).
Proof.
  intros Ho Hn. unfold meta, foid. rewrite (Z.mod_small o) by lia. rewrite Z.sub_diag. cbn [objects small].
  rewrite lookup_insert_eq. cbn [pages small]. rewrite fn_at, decide_True by done. cbn [as_folio].
  now rewrite small_header_slot by lia.
Qed.

Lemma small_ok : kernel_ok (small p2 p3 pl) {[1]} F.
Proof.
  split.
  - apply small_kok.
  - done.
  - intros o d. cbn. split.
    + intros E. repeat (apply lookup_insert_Some in E as [[<- <-]|[_ E]]; [rewrite !fn_at; done|]).
      now apply lookup_singleton_Some in E as [<- <-].
    + intros [Hl <-]. now destruct (small_live d Hl) as [->|[->|[->| ->]]].
  - intros d Hl. now destruct (small_live d Hl) as [->|[->|[->| ->]]].
  - intros d Hl. destruct (small_live d Hl) as [->|[->|[->| ->]]]; try done.
    intros _. split; [done|]. exists small_header. apply small_header_header.
  - intros d Hl. destruct (small_live d Hl) as [->|[->|[->| ->]]]; [done|..]; intros _;
      (rewrite small_meta; [|done|done]); eexists; (split; [reflexivity|done]).
  - intros d Hl. destruct (small_live d Hl) as [->|[->|[->| ->]]]; done.
  - intros a ->%elem_of_singleton. done.
  - intros d E. discriminate E.
  - done.
  - intros d Hd. split; [now apply Hp|]. cbn. rewrite !fn_at. specialize (HF d Hd).
    rewrite !decide_False by lia. done.
  - split; [|vm_compute; reflexivity]. apply Forall_insert; [|done]. now apply Forall_replicate.
Qed.

Lemma small_calm : calm (small p2 p3 pl).
Proof. intros d [E _]. done. Qed.

End small.

Lemma zeroed_table : exists t, as_table Zeroed = Ret t /\ length t = 256%nat.
Proof. eexists. split; [reflexivity|]. apply length_replicate. Qed.

(** The state that the witnesses use. *)
Definition plain_state : st := small Zeroed Zeroed three.

Lemma plain_ok : kernel_ok plain_state {[1]} {[4; 5; 6]}.
Proof.
  apply small_ok; [apply zeroed_table..|apply three_pok|]. intros d Hd. set_unfold in Hd. lia.
Qed.

Lemma plain_calm : calm plain_state.
Proof. apply small_calm. Qed.

Lemma plain_known o : 0 <= o < 129 -> known plain_state o.
Proof.
  intros Ho. split; [lia|]. left. replace (foid o) with 0; [done|]. unfold foid. rewrite Z.mod_small; lia.
Qed.

(** ** Witnesses of the theorems of [Revoke] *)

(** A capability to the object [o] of type [t]; [discardable] is its policy. *)
Definition capto (o : Z) (t : cap_type) (discardable : bool) (a : cap_addr_trans) : cap :=
  mk_cap 0 false o 0 (if discardable then 1 else 0) 0 t a.

Definition page_cap : cap := capto 4 cap_page false CAP_ADDR_TRANS_VOID.




Theorem version_wraps_witness :
  exists s' F', alloc_times 3 (Z.to_nat (2 ^ 20)) plain_state 1 0 3 cap_page OBJECT_POLICY_DEFAULT 0 = Ret s' /\
    kernel_ok s' {[1]} F' /\ forall c, c_oid c = 0 + 1 + 3 -> valid plain_state c -> valid s' c.
Proof.
  apply (version_wraps N16 kok pok env_laws 0 plain_state {[1]} {[4; 5; 6]} 1 0 0 3 0 cap_page OBJECT_POLICY_DEFAULT 0);
    try done; [|now left].
  split; [apply plain_ok|apply plain_calm|done..|].
  unfold plain_state. rewrite small_meta by done. eexists. split; [reflexivity|done].
Defined.

(** A capability to the page of capabilities 3 that translates no bits, in the
    first slot of both pages. *)
Definition thin_cap : cap := capto 3 cap_cappage false (mk_cat 0 8 0).
Definition thin_table : page := Table (<[0%nat := thin_cap]> (replicate 256 zero_cap)).
Definition knot_state : st := small thin_table thin_table three.

Lemma table_ok i c : exists t, as_table (Table (<[i := c]> (replicate 256 zero_cap))) = Ret t /\ length t = 256%nat.
Proof. eexists. split; [reflexivity|]. rewrite length_insert. apply length_replicate. Qed.

Lemma knot_ok : kernel_ok knot_state {[1]} {[4; 5; 6]}.
Proof.
  apply small_ok; [apply table_ok..|apply three_pok|]. intros d Hd. set_unfold in Hd. lia.
Qed.

Theorem shootdown_unbounded_witness :
  cap_shootdown 1000 knot_state (Some 1) (capto 2 cap_cappage false CAP_ADDR_TRANS_VOID) = Crash out_of_fuel.
Proof.
  apply (shootdown_unbounded N16 kok pok 1000 knot_state {[1]} {[4; 5; 6]} 1
    (capto 2 cap_cappage false CAP_ADDR_TRANS_VOID) thin_cap 2 3 knot_ok); try done.
  split; [done|]. split; [done|]. exists thin_cap. done.
Defined.

(** ** Runs that go wrong *)

(** One round of the pager: it takes frames from activity 1 to be evicted or
    cleaned. *)
Definition reclaim (s : st) (goal : Z) : exec st :=
  '(k, _) ← Reclaim.reclaim_from (fun _ => true) (fun d => d <=? 3) (fun _ => false) (fun _ => true) 60
              (acct s) 1 goal [];
  Ret (set_acct s k).

(** What a run returns, without its state written out. *)
Definition after {A} (r : exec (st * A)) : st := match r with Ret (s, _) => s | Crash _ => plain_state end.
Definition left (r : exec st) : st := match r with Ret s => s | Crash _ => plain_state end.

Lemma ran {A} (r : exec (st * A)) (x : A) :
  match r with Ret (_, y) => y = x | Crash _ => False end -> r = Ret (after r, x).
Proof. destruct r as [[s y]|]; [now intros ->|done]. Qed.

Lemma ended (r : exec st) : match r with Ret _ => True | Crash _ => False end -> r = Ret (left r).
Proof. now destruct r. Qed.

Ltac run := vm_compute; reflexivity.
Ltac step := first [apply ran; run | apply ended; vm_compute; exact I].

(** [cap_shootdown] revokes the first slots of a page of capabilities whatever
    part of it the capability designates.  The capability to its second half
    (offset 128, size 128) designates, among others, slot 128, which holds a
    capability to a mapped page; the page stays mapped when that capability is
    revoked, and only revoking the whole page of capabilities unmaps it. *)
Theorem shootdown_ignores_offset :
  let table := Table (<[128%nat := page_cap]> (replicate 256 zero_cap)) in
  let half := capto 2 cap_cappage false (mk_cat 1 1 0) in
  let whole := capto 2 cap_cappage false CAP_ADDR_TRANS_VOID in
  CAP_SUBPAGE_OFFSET half = 128 /\ CAP_SUBPAGE_SIZE half = 128 /\
  exists s d s1 s2,
    cap_to_object 9 (small table Zeroed three) (Some 1) (Temp page_cap) = Ret (s, Some d) /\
    get_cap s (At 2 128) = Ret page_cap /\
    cap_shootdown 9 (upd_odesc s d (with_mapped true)) (Some 1) half = Ret s1 /\ mapped (odescs s1 d) = true /\
    cap_shootdown 9 (upd_odesc s d (with_mapped true)) (Some 1) whole = Ret s2 /\ mapped (odescs s2 d) = false.
Proof. split; [done|]. split; [done|]. do 4 eexists. split; [step|]. split; [run|]. split; [step|]. split; [run|]. split; [step|run]. Qed.

(** a folio that is used through a discardable capability and then written can
    be made available by the pager; when the allocator, out of free frames, takes
    its frame, it marks the folio as discarded in its own header, where there is
    no such mark: the assertion on the index fails. *)
Theorem discardable_folio_fails :
  exists s s', cap_to_object 9 (small Zeroed Zeroed pool_init) (Some 1)
      (Temp (capto 0 cap_folio true CAP_ADDR_TRANS_VOID)) = Ret (s, Some 0) /\
    reclaim s 1 = Ret s' /\ Claim.wkey (desc s' 0) = Some Claim.available /\
    memory_frame_allocate (object_find 9) (cap_shootdown 9) s' (Some 1) = Crash assertion_failed.
Proof. do 2 eexists. split; [step|]. split; [step|]. split; run. Qed.

(** making room for an object can bring in that very object: the allocator
    takes the frame of a page of capabilities, whose destruction looks up the
    capabilities it holds, among them one to the object wanted.  The object gets
    one frame in the deeper call and a second one in the outer call, where the
    assertion that it was not in memory fails. *)
Theorem lookup_is_reentrant :
  let wanted := capto 5 cap_cappage false CAP_ADDR_TRANS_VOID in
  let table := Table (<[0%nat := wanted]> (replicate 256 zero_cap)) in
  exists s1 s2 s3,
    cap_to_object 9 (small table Zeroed pool_init) (Some 1) (Temp (capto 2 cap_cappage true CAP_ADDR_TRANS_VOID))
      = Ret (s1, Some 2) /\
    cap_to_object 9 s1 (Some 1) (Temp (capto 3 cap_cappage true CAP_ADDR_TRANS_VOID)) = Ret (s2, Some 3) /\
    reclaim s2 2 = Ret s3 /\ objects s3 !! 5 = None /\ valid s3 wanted /\
    cap_to_object 9 s3 (Some 1) (Temp wanted) = Crash assertion_failed.
Proof.
  do 3 eexists. do 3 (split; [step|]). split; [run|]. split; [|run].
  split; [done|]. split; [|run]. right. right. eexists. split; [run|]. done.
Qed.

(** [folio_object_alloc] takes the type [cap_folio] like any other (the caller
    in the server only excludes numbers that are no type): an object of that type
    at a number that is no folio's is not refused, and looking it up fails the
    assertion in [memory_object_alloc] that the two agree. *)
Theorem folio_in_folio_fails :
  exists s c, folio_object_alloc 9 plain_state (Some 1) 0 9 cap_folio OBJECT_POLICY_DEFAULT 0 = Ret (s, c) /\
    c_type c = cap_folio /\ c_oid c = 10 /\
    cap_to_object 9 s (Some 1) (Temp c) = Crash assertion_failed.
Proof. do 2 eexists. split; [step|]. repeat split; run. Qed.

End SmallKernel.
