(* ===== verification/PtQueue.v ===== *)
(** * The thread queues of libpthread (libpthread/pthread/pt-internal.h)

    Every blocking object of libpthread keeps the threads that wait for it on
    an intrusive, doubly linked queue: a thread's TCB holds the pointer to the
    next waiter and the address [prevp] of the pointer that points to it, which
    is either the queue's head or the [next] field of the waiter before it.
    [prevp] is zero exactly when the thread is on no queue, and the code relies
    on it.

    The first half of this file is the interface [WaitQueues] with its laws
    [WaitQueueLaws]; the blocking objects of the next files are proved
    against it.  The second
    half is the implementation by pointers, which discharges the laws.

    The abstract state is a function [Q : place -> list tid]: what is on each
    queue, the most recent waiter first, and what is left of each chain that a
    broadcasting thread detached from its queue and is still walking. *)

From S2P Require Import Prelude Ring.



(** Threads and the addresses of queue heads. *)
Abbreviation tid := Z (only parsing).

(** Where a thread can be linked: the queue with its head at [q], or the chain
    that thread [c] has detached and is walking. *)
Inductive place :=
| Queue (q : Z)
| Chain (c : tid).

#[export] Instance place_eq_dec : EqDecision place.
Proof. solve_decision. Defined.

Abbreviation contents := (place -> list tid) (only parsing).

(** ** What the functions of the blocking objects share *)

(** Error numbers. *)
Inductive errno := EDEADLK | EINVAL | EBUSY | EPERM | ESRCH | ENOMEM | ETIMEDOUT.

#[export] Instance errno_eq_dec : EqDecision errno.
Proof. solve_decision. Defined.

(** How a critical section ends: the function returns [err] ([None] is 0), the
    caller has queued itself and goes to sleep, or it goes on to wake up a
    thread, after which the function returns 0. *)
Inductive ending :=
| Return (err : option errno)
| Sleep
| Wake (t : tid).

Record timespec := Timespec { tv_sec : Z; tv_nsec : Z }.

(** [abstime && (abstime->tv_nsec < 0 || abstime->tv_nsec >= 1000000000)] *)
Definition bad_abstime (abstime : option timespec) : bool :=
  match abstime with
  | Some ts => (tv_nsec ts <? 0) || (1000000000 <=? tv_nsec ts)
  | None => false
  end.

(** ** The interface *)

Class WaitQueues (M : Type) := {
  wq_head : M -> Z -> option tid;
  wq_linked : M -> tid -> bool;
  wq_enqueue : M -> Z -> tid -> exec M;
  wq_dequeue : M -> tid -> exec M;
  wq_detach : M -> Z -> M;
  wq_take : M -> tid -> M * option tid;
  wq_count : nat -> M -> option tid -> exec Z;
  wq_rep : M -> contents -> Prop
}.

Class WaitQueueLaws (M : Type) `{!WaitQueues M} := {
  wq_separated m Q : wq_rep m Q -> separated Q;
  wq_head_spec m Q q : wq_rep m Q -> wq_head m q = hd_error (Q (Queue q));
  wq_linked_spec m Q t :
    wq_rep m Q -> wq_linked m t = true <-> exists p, t ∈ Q p;
  wq_enqueue_spec m Q q t :
    wq_rep m Q -> (forall p, t ∉ Q p) ->
    exists m', wq_enqueue m q t = Ret m' /\
               wq_rep m' (<[Queue q := t :: Q (Queue q)]> Q);
  wq_dequeue_spec m Q q l1 t l2 :
    wq_rep m Q -> Q (Queue q) = l1 ++ t :: l2 ->
    exists m', wq_dequeue m t = Ret m' /\ wq_rep m' (<[Queue q := l1 ++ l2]> Q);
  wq_detach_spec m Q q c :
    wq_rep m Q -> Q (Chain c) = [] ->
    wq_rep (wq_detach m q) (<[Chain c := Q (Queue q)]> (<[Queue q := []]> Q));
  wq_take_spec m Q c t l :
    wq_rep m Q -> Q (Chain c) = t :: l ->
    exists m', wq_take m t = (m', hd_error l) /\ wq_rep m' (<[Chain c := l]> Q);
  wq_count_spec m Q q fuel :
    wq_rep m Q -> (length (Q (Queue q)) < fuel)%nat ->
    wq_count fuel m (hd_error (Q (Queue q))) = Ret (Z.of_nat (length (Q (Queue q))));
  wq_count_fuel m Q q fuel :
    wq_rep m Q -> (fuel <= length (Q (Queue q)))%nat ->
    wq_count fuel m (hd_error (Q (Queue q))) = Crash out_of_fuel
}.

(** ** The implementation by pointers *)

Module PtQueue.

(** The value of a [prevp]: the address of a queue head, or the address of a
    thread's [next] field. *)
Inductive link :=
| Lhead (q : Z)
| Lnext (t : tid).

#[export] Instance link_eq_dec : EqDecision link.
Proof. solve_decision. Defined.

Record tcb := Tcb { tnext : option tid; tprevp : option link }.

Record qmem := Qmem { heads : Z -> option tid; tcbs : tid -> tcb }.

Definition set_next (m : qmem) (t : tid) (v : option tid) : qmem :=
  Qmem (heads m) (<[t := Tcb v (tprevp (tcbs m t))]> (tcbs m)).

Definition set_prevp (m : qmem) (t : tid) (v : option link) : qmem :=
  Qmem (heads m) (<[t := Tcb (tnext (tcbs m t)) v]> (tcbs m)).

Definition set_head (m : qmem) (q : Z) (v : option tid) : qmem :=
  Qmem (<[q := v]> (heads m)) (tcbs m).

(** [*lk = v] *)
Definition store (m : qmem) (lk : link) (v : option tid) : qmem :=
  match lk with
  | Lhead q => set_head m q v
  | Lnext t => set_next m t v
  end.

(** [__pthread_enqueue (&q, thread)] *)
Definition __pthread_enqueue (m : qmem) (q : Z) (thread : tid) : exec qmem :=
  _ ← check (bool_decide (tprevp (tcbs m thread) = None)) assertion_failed;
  let m := set_next m thread (heads m q) in
  let m := set_prevp m thread (Some (Lhead q)) in
  let m := match heads m q with
           | Some h => set_prevp m h (Some (Lnext thread))
           | None => m
           end in
  Ret (set_head m q (Some thread)).

(** [__pthread_dequeue (thread)] *)
Definition __pthread_dequeue (m : qmem) (thread : tid) : exec qmem :=
  let m := match tnext (tcbs m thread) with
           | Some n => set_prevp m n (tprevp (tcbs m thread))
           | None => m
           end in
  lk ← access (tprevp (tcbs m thread));
  let m := store m lk (tnext (tcbs m thread)) in
  Ret (set_prevp m thread None).

(** [__pthread_queue_iterate (queue, element) n ++;] *)
Fixpoint __pthread_queue_iterate (fuel : nat) (m : qmem) (x : option tid)
  : exec Z :=
  match fuel with
  | O => Crash out_of_fuel
  | S fuel =>
      match x with
      | None => Ret 0
      | Some t =>
          n ← __pthread_queue_iterate fuel m (tnext (tcbs m t));
          Ret (1 + n)
      end
  end.

(** One round of [__pthread_dequeuing_iterate]: the successor is read before
    the element is marked as being on no queue. *)
Definition __pthread_dequeuing_iterate (m : qmem) (element : tid)
  : qmem * option tid :=
  let next := tnext (tcbs m element) in
  (set_prevp m element None, next).

(** ** The representation *)

(** [dseg m pv x l pv' x']: following [next] from the pointer [x], which is
    stored at [pv], visits the threads [l] and ends at the pointer [x'], which
    is stored at [pv']; every [prevp] on the way is right. *)
Fixpoint dseg (m : qmem) (pv : link) (x : option tid) (l : list tid)
    (pv' : link) (x' : option tid) : Prop :=
  match l with
  | [] => pv = pv' /\ x = x'
  | t :: l =>
      x = Some t /\ tprevp (tcbs m t) = Some pv /\
      dseg m (Lnext t) (tnext (tcbs m t)) l pv' x'
  end.

Definition seg (m : qmem) (pv : link) (x : option tid) (l : list tid) : Prop :=
  exists pv', dseg m pv x l pv' None.

Record rep (m : qmem) (Q : contents) : Prop := Rep {
  rep_sep : separated Q;
  rep_queue : forall q, seg m (Lhead q) (heads m q) (Q (Queue q));
  rep_chain : forall c, exists pv, seg m pv (hd_error (Q (Chain c))) (Q (Chain c));
  rep_linked : forall t, tprevp (tcbs m t) <> None <-> exists p, t ∈ Q p
}.

Lemma rep_unlinked m Q t :
  rep m Q -> tprevp (tcbs m t) = None <-> forall p, t ∉ Q p.
Proof.
  intros H. assert (Hl := rep_linked _ _ H t). split.
  - intros Hn p Hp. apply Hl; eauto.
  - intros Hn. destruct (tprevp (tcbs m t)); [|done].
    destruct Hl as [[p Hp] _]; [done|]. firstorder.
Qed.

Lemma qseg_app m pv x l1 l2 pv' x' :
  dseg m pv x (l1 ++ l2) pv' x' <->
  exists pv1 x1, dseg m pv x l1 pv1 x1 /\ dseg m pv1 x1 l2 pv' x'.
Proof.
  revert pv x. induction l1 as [|t l1 IH]; intros pv x; cbn.
  - split; [intros H; exists pv, x; auto|intros (?&?&[-> ->]&?); auto].
  - rewrite IH. naive_solver.
Qed.

Lemma dseg_ext m m' pv x l pv' x' :
  (forall t, t ∈ l -> tcbs m' t = tcbs m t) ->
  dseg m pv x l pv' x' -> dseg m' pv x l pv' x'.
Proof.
  revert pv x. induction l as [|t l IH]; intros pv x E; cbn; [done|].
  rewrite (E t) by (left). intros (?&?&?). split; [done|]. split; [done|].
  apply IH; [|done]. intros u Hu. apply E. now right.
Qed.

Lemma seg_ext m m' pv x l :
  (forall t, t ∈ l -> tcbs m' t = tcbs m t) -> seg m pv x l -> seg m' pv x l.
Proof. intros E [e H]. exists e. eauto using dseg_ext. Qed.

Lemma dseg_hd m pv x l pv' : dseg m pv x l pv' None -> x = hd_error l.
Proof. destruct l; cbn; naive_solver. Qed.

Lemma seg_hd m pv x l : seg m pv x l -> x = hd_error l.
Proof. intros [e H]. eauto using dseg_hd. Qed.

(** Replacing the [prevp] of the first element moves the segment. *)
Lemma dseg_move m pv x l pv' pv2 h :
  dseg m pv x l pv' None -> NoDup l -> hd_error l = Some h ->
  exists e, dseg (set_prevp m h (Some pv2)) pv2 x l e None.
Proof.
  destruct l as [|t l]; cbn; [done|]. intros (->&_&H) [Hn _]%NoDup_cons [= <-].
  exists pv'. rewrite fn_lookup_insert. cbn. split_and!; [done..|].
  eapply dseg_ext, H. intros u Hu. cbn. rewrite fn_lookup_insert_ne; [done|].
  set_solver.
Qed.

(** Storing a pointer at the end of a segment changes where it ends. *)
Lemma dseg_store m q l lk x y z :
  dseg m (Lhead q) x l lk y -> NoDup l -> x = heads m q ->
  dseg (store m lk z) (Lhead q) (heads (store m lk z) q) l lk z.
Proof.
  destruct l as [|p l _] using rev_ind; cbn.
  - intros [<- <-] _ _. cbn. now rewrite fn_lookup_insert.
  - rewrite !qseg_app. cbn. intros (pv1&x1&H1&->&H2&<-&<-) Hnd Hx. cbn.
    apply NoDup_app in Hnd as (_&Hnd&_).
    exists pv1, (Some p). rewrite fn_lookup_insert. cbn. split; [|done].
    rewrite <- Hx. eapply dseg_ext, H1. intros u Hu.
    cbn. rewrite fn_lookup_insert_ne; [done|].
    intros <-. apply (Hnd p Hu). left.
Qed.

(** A [store] at the end of a queue's prefix touches no thread elsewhere. *)
Lemma store_tcbs m q l lk x y z t :
  dseg m (Lhead q) x l lk y -> t ∉ l -> tcbs (store m lk z) t = tcbs m t.
Proof.
  destruct l as [|p l _] using rev_ind; cbn.
  - now intros [<- _].
  - rewrite qseg_app. cbn. intros (?&?&?&?&?&<-&?) Ht. cbn.
    rewrite fn_lookup_insert_ne; [done|]. set_solver.
Qed.

Lemma store_heads m q l lk x y z q' :
  dseg m (Lhead q) x l lk y -> q <> q' ->
  heads (store m lk z) q' = heads m q'.
Proof.
  destruct l as [|p l _] using rev_ind; cbn.
  - intros [<- _] Hq. cbn. now rewrite fn_lookup_insert_ne.
  - rewrite qseg_app. cbn. now intros (?&?&?&?&?&<-&?) _.
Qed.

(** ** The operations on the representation *)

Lemma qsegs_frame m m' Q :
  heads m' = heads m ->
  (forall t p, t ∈ Q p -> tcbs m' t = tcbs m t) ->
  (forall q, seg m (Lhead q) (heads m q) (Q (Queue q))) ->
  forall q, seg m' (Lhead q) (heads m' q) (Q (Queue q)).
Proof. intros Eh E H q. rewrite Eh. eapply seg_ext, H. intros t. apply E. Qed.

Lemma enqueue_rep m Q q t :
  rep m Q -> (forall p, t ∉ Q p) ->
  exists m', __pthread_enqueue m q t = Ret m' /\
             rep m' (<[Queue q := t :: Q (Queue q)]> Q).
Proof.
  intros Hrep Ht. unfold __pthread_enqueue.
  rewrite check_true by (apply bool_decide_eq_true_2, (rep_unlinked _ _ t Hrep), Ht).
  destruct Hrep as [[Hnd Hpl] Hq Hc Hu].
  set (m2 := set_prevp (set_next m t (heads m q)) t (Some (Lhead q))).
  eexists. split; [reflexivity|].
  assert (E2 : forall u p, u ∈ Q p -> tcbs m2 u = tcbs m u).
  { intros u p Hup. subst m2. cbn.
    rewrite !fn_lookup_insert_ne; [done| |]; intros <-; exact (Ht _ Hup). }
  assert (Et : tcbs m2 t = Tcb (heads m q) (Some (Lhead q))).
  { subst m2. cbn. now rewrite !fn_lookup_insert. }
  assert (Eh : heads m2 = heads m) by done.
  assert (Hhd := seg_hd _ _ _ _ (Hq q)).
  set (m3 := match heads m2 q with
             | Some h => set_prevp m2 h (Some (Lnext t)) | None => m2 end).
  assert (Eh3 : heads m3 = heads m) by (subst m3; now destruct (heads m2 q)).
  assert (E3 : forall u, hd_error (Q (Queue q)) <> Some u -> tcbs m3 u = tcbs m2 u).
  { intros u Hne. subst m3. rewrite Eh, Hhd.
    destruct (hd_error _) as [h|] eqn:Eqh; [|done]. cbn.
    rewrite fn_lookup_insert_ne; [done|congruence]. }
  assert (Hin : forall h, hd_error (Q (Queue q)) = Some h -> h ∈ Q (Queue q)).
  { intros h. destruct (Q (Queue q)); cbn; [done|]. intros [= ->]. left. }
  constructor.
  - now apply separated_push.
  - intros q'. cbn. destruct (decide (q' = q)) as [->|Hne].
    + rewrite !fn_lookup_insert.
      assert (Etn : tcbs m3 t = tcbs m2 t).
      { apply E3. intros Heq. exact (Ht _ (Hin _ Heq)). }
      unfold seg. cbn. fold m2 m3. rewrite Etn, Et. cbn.
      destruct (Hq q) as [e He].
      assert (He2 : dseg m2 (Lhead q) (heads m q) (Q (Queue q)) e None).
      { eapply dseg_ext, He. eauto. }
      subst m3. rewrite Eh. destruct (heads m q) as [h|] eqn:Ehq.
      * destruct (dseg_move _ _ _ _ _ (Lnext t) h He2 (Hnd _)) as [e' He']; [congruence|].
        exists e'. split_and!; [done..|]. eapply dseg_ext, He'. done.
      * exists (Lnext t). split_and!; [done..|].
        destruct (Q (Queue q)); cbn in Hhd |- *; [done|congruence].
    + rewrite !fn_lookup_insert_ne by congruence. fold m2 m3. rewrite Eh3.
      eapply seg_ext, Hq. intros u Hu'. cbn. fold m2 m3. rewrite E3, (E2 _ _ Hu'); [done|].
      intros Heq. assert (Hx := Hpl _ _ _ Hu' (Hin _ Heq)). congruence.
  - intros c. rewrite fn_lookup_insert_ne by done. destruct (Hc c) as [pv Hs].
    exists pv. eapply seg_ext, Hs. intros u Hu'. cbn. fold m2 m3.
    rewrite E3, (E2 _ _ Hu'); [done|].
    intros Heq. assert (Hx := Hpl _ _ _ Hu' (Hin _ Heq)). congruence.
  - intros u. cbn. fold m2 m3. rewrite linked_push.
    destruct (decide (u = t)) as [->|Hne].
    + rewrite E3, Et by (intros Heq; exact (Ht _ (Hin _ Heq))). cbn. naive_solver.
    + destruct (decide (hd_error (Q (Queue q)) = Some u)) as [Heq|Hneq].
      * subst m3. rewrite Eh, Hhd, Heq. cbn. rewrite fn_lookup_insert. cbn.
        split; [intros _|done]. eauto.
      * rewrite E3 by done. subst m2. cbn.
        rewrite !fn_lookup_insert_ne by congruence. rewrite Hu. naive_solver.
Qed.

(** The memory after the two stores of [__pthread_dequeue]. *)
Lemma dequeue_stores m q x l1 t l2 lk :
  dseg m (Lhead q) x l1 lk (Some t) -> x = heads m q ->
  tprevp (tcbs m t) = Some lk -> seg m (Lnext t) (tnext (tcbs m t)) l2 ->
  NoDup (l1 ++ t :: l2) ->
  exists m', __pthread_dequeue m t = Ret m' /\
    seg m' (Lhead q) (heads m' q) (l1 ++ l2) /\
    (forall q', q' <> q -> heads m' q' = heads m q') /\
    (forall u, u ∉ l1 ++ t :: l2 -> tcbs m' u = tcbs m u) /\
    tprevp (tcbs m' t) = None /\
    (forall u, u ∈ l1 ++ l2 -> tprevp (tcbs m' u) <> None).
Proof.
  intros H1 Hx Hp [e H2] Hnd. unfold __pthread_dequeue. rewrite Hp.
  assert (Hn := dseg_hd _ _ _ _ _ H2).
  apply NoDup_app in Hnd as (Hnd1&Hd&[Ht2 Hnd2]%NoDup_cons).
  set (m1 := match tnext (tcbs m t) with
             | Some n => set_prevp m n (Some lk) | None => m end).
  assert (Eh1 : heads m1 = heads m) by (subst m1; now destruct (tnext _)).
  assert (E1 : forall u, u ∉ l2 -> tcbs m1 u = tcbs m u).
  { intros u Hu'. subst m1. rewrite Hn. destruct l2 as [|n l2]; [done|]. cbn.
    rewrite fn_lookup_insert_ne; [done|set_solver]. }
  assert (Hseg2 : seg m1 lk (tnext (tcbs m t)) l2).
  { subst m1. destruct l2 as [|n l2]; cbn in Hn.
    - exists lk. rewrite Hn. done.
    - rewrite Hn in *. eapply dseg_move; eauto. }
  assert (Hseg1 : dseg m1 (Lhead q) x l1 lk (Some t)).
  { eapply dseg_ext, H1. intros u Hu. apply E1. intros Hu2.
    apply (Hd _ Hu). now right. }
  rewrite (E1 t Ht2), Hp. cbn.
  assert (Ht1 : t ∉ l1) by (intros Hu; apply (Hd _ Hu); left).
  set (m2 := store m1 lk (tnext (tcbs m t))).
  assert (E2 : forall u, u ∉ l1 -> tcbs m2 u = tcbs m1 u)
    by (intros; eapply store_tcbs; eauto).
  assert (E3 : forall u, u <> t -> tcbs (set_prevp m2 t None) u = tcbs m2 u)
    by (intros; cbn; now rewrite fn_lookup_insert_ne).
  assert (Hs : seg (set_prevp m2 t None) (Lhead q) (heads m2 q) (l1 ++ l2)).
  { destruct Hseg2 as [e2 Hseg2]. exists e2. apply qseg_app.
    exists lk, (tnext (tcbs m t)). split.
    - eapply dseg_ext.
      2:{ eapply dseg_store; [exact Hseg1|done|now rewrite Eh1]. }
      intros u Hu. apply E3. congruence.
    - eapply dseg_ext, Hseg2. intros u Hu.
      rewrite E3 by congruence. apply E2. intros Hu1. apply (Hd _ Hu1). now right. }
  eexists. split; [reflexivity|]. split_and!.
  - exact Hs.
  - intros q' Hq'. cbn. unfold m2. erewrite store_heads; [|exact Hseg1|congruence].
    now rewrite Eh1.
  - intros u Hu. rewrite not_elem_of_app, not_elem_of_cons in Hu. destruct_and?.
    rewrite E3, E2, E1; done.
  - cbn. now rewrite fn_lookup_insert.
  - intros u Hu. destruct Hs as [e' Hs]. revert Hs Hu. generalize (Lhead q), (heads m2 q).
    induction (l1 ++ l2) as [|v l IH]; intros pv y; cbn; [set_solver|].
    intros (_&Hv&Hl) [->|Hu]%elem_of_cons; [|eauto].
    cbn in Hv. now rewrite Hv.
Qed.

Lemma dequeue_rep m Q q l1 t l2 :
  rep m Q -> Q (Queue q) = l1 ++ t :: l2 ->
  exists m', __pthread_dequeue m t = Ret m' /\
             rep m' (<[Queue q := l1 ++ l2]> Q).
Proof.
  intros [Hsep Hq Hc Hu] E.
  destruct (Hq q) as [e He]. rewrite E in He.
  apply qseg_app in He as (lk&x1&H1&[-> [Hp H2]]).
  assert (Hnd := sep_nodup _ Hsep (Queue q)). rewrite E in Hnd.
  destruct (dequeue_stores m q _ l1 t l2 lk H1) as (m'&->&Hs&Eh&E'&Ht&Hl);
    [done|done|now exists e|done|].
  exists m'. split; [done|].
  assert (Eout : forall u p, p <> Queue q -> u ∈ Q p -> tcbs m' u = tcbs m u).
  { intros u p Hp' Hu'. apply E'. rewrite <- E. intros Hx. apply Hp'.
    eapply sep_place; eauto. }
  constructor.
  - apply separated_shrink; [done|]. rewrite E.
    apply sublist_app; [done|]. now apply sublist_cons.
  - intros q'. destruct (decide (q' = q)) as [->|Hne].
    + now rewrite fn_lookup_insert.
    + rewrite fn_lookup_insert_ne by congruence. rewrite Eh by done.
      eapply seg_ext, Hq. intros u. apply Eout. congruence.
  - intros c. rewrite fn_lookup_insert_ne by done. destruct (Hc c) as [pv Hpv].
    exists pv. eapply seg_ext, Hpv. intros u. now apply Eout.
  - intros u. setoid_rewrite elem_insert. destruct (decide (u = t)) as [->|Hne].
    { split; [done|]. intros (p&[[-> Hin]|[Hne Hin]]); exfalso.
      - apply NoDup_app in Hnd as (_&Hd&[? _]%NoDup_cons).
        apply elem_of_app in Hin as [Hin|Hin]; [|done]. apply (Hd _ Hin). left.
      - apply Hne. eapply sep_place; [done|done|]. rewrite E. set_solver. }
    destruct (decide (u ∈ l1 ++ l2)) as [Hin|Hnin].
    { split; [eauto|]. intros _. now apply Hl. }
    rewrite E' by set_solver. rewrite Hu. split.
    + intros [p Hp']. exists p. destruct (decide (p = Queue q)) as [->|]; [|auto].
      left. rewrite E in Hp'. set_solver.
    + intros [p [[-> ?]|[? ?]]]; [done|]. eauto.
Qed.

Lemma detach_rep m Q q c :
  rep m Q -> Q (Chain c) = [] ->
  rep (set_head m q None) (<[Chain c := Q (Queue q)]> (<[Queue q := []]> Q)).
Proof.
  intros [Hsep Hq Hc Hu] E.
  assert (Hrw : forall p u, u ∈ <[Chain c := Q (Queue q)]> (<[Queue q := []]> Q) p <->
            (p = Chain c /\ u ∈ Q (Queue q)) \/ (p <> Chain c /\ p <> Queue q /\ u ∈ Q p)).
  { intros p u. rewrite !elem_insert. set_solver. }
  constructor.
  - split.
    + intros p. destruct (decide (p = Chain c)) as [->|]; [rewrite fn_lookup_insert; apply Hsep|].
      rewrite fn_lookup_insert_ne by done.
      destruct (decide (p = Queue q)) as [->|];
        [rewrite fn_lookup_insert; constructor|rewrite fn_lookup_insert_ne by done; apply Hsep].
    + intros p p' u. rewrite !Hrw.
      intros [[-> H1]|(?&?&H1)] [[-> H2]|(?&?&H2)]; [done|..];
        assert (Hx := sep_place _ Hsep _ _ _ H1 H2); congruence.
  - intros q'. rewrite fn_lookup_insert_ne by done. cbn.
    destruct (decide (q' = q)) as [->|].
    + rewrite !fn_lookup_insert. exists (Lhead q). done.
    + rewrite !fn_lookup_insert_ne by congruence. eapply seg_ext, Hq. done.
  - intros c'. destruct (decide (c' = c)) as [->|].
    + rewrite fn_lookup_insert. exists (Lhead q). erewrite <- seg_hd by apply Hq.
      eapply seg_ext, Hq. done.
    + rewrite !fn_lookup_insert_ne by congruence. destruct (Hc c') as [pv H].
      exists pv. eapply seg_ext, H. done.
  - intros u. cbn. rewrite Hu. setoid_rewrite Hrw. split.
    + intros [p Hp]. destruct (decide (p = Queue q)) as [->|Hne]; [exists (Chain c); auto|].
      destruct (decide (p = Chain c)) as [->|]; [rewrite E in Hp; set_solver|].
      exists p. auto.
    + intros [p [[-> ?]|(_&_&?)]]; eauto.
Qed.

Lemma take_rep m Q c t l :
  rep m Q -> Q (Chain c) = t :: l ->
  exists m', __pthread_dequeuing_iterate m t = (m', hd_error l) /\
             rep m' (<[Chain c := l]> Q).
Proof.
  intros [Hsep Hq Hc Hu] E. unfold __pthread_dequeuing_iterate.
  destruct (Hc c) as [pv [e Hs]]. rewrite E in Hs. destruct Hs as (_&Hp&Hs).
  assert (Hnd := sep_nodup _ Hsep (Chain c)). rewrite E in Hnd.
  apply NoDup_cons in Hnd as [Htl Hnd].
  rewrite (dseg_hd _ _ _ _ _ Hs) in Hs |- *. eexists. split; [reflexivity|].
  assert (E' : forall u, u <> t -> tcbs (set_prevp m t None) u = tcbs m u).
  { intros u Hne. cbn. now rewrite fn_lookup_insert_ne. }
  assert (Hout : forall p u, p <> Chain c -> u ∈ Q p -> u <> t).
  { intros p u Hne Hup ->. apply Hne. eapply sep_place; [done|done|]. rewrite E. left. }
  constructor.
  - apply separated_shrink; [done|]. rewrite E. now apply sublist_cons.
  - intros q. rewrite fn_lookup_insert_ne by done. eapply seg_ext, Hq.
    intros u Hin. apply E'. eapply Hout, Hin. done.
  - intros c'. destruct (decide (c' = c)) as [->|].
    + rewrite fn_lookup_insert. exists (Lnext t), e. eapply dseg_ext, Hs.
      intros u Hin. apply E'. congruence.
    + rewrite fn_lookup_insert_ne by congruence. destruct (Hc c') as [pv' H].
      exists pv'. eapply seg_ext, H. intros u Hin. apply E'. eapply Hout, Hin. congruence.
  - intros u. setoid_rewrite elem_insert. destruct (decide (u = t)) as [->|Hne].
    + cbn. rewrite fn_lookup_insert. split; [done|].
      intros (p&[[-> ?]|[Hne Hin]]); [done|]. by apply (Hout p t) in Hne.
    + rewrite E', Hu by done. split.
      * intros [p Hin]. exists p. destruct (decide (p = Chain c)) as [->|]; [|auto].
        left. rewrite E in Hin. set_solver.
      * intros [p [[-> Hin]|[_ Hin]]]; [exists (Chain c); rewrite E; now right|eauto].
Qed.

Lemma iterate_counts fuel m pv x l :
  seg m pv x l -> (length l < fuel)%nat ->
  __pthread_queue_iterate fuel m x = Ret (Z.of_nat (length l)).
Proof.
  intros [e H]. revert pv x l H. induction fuel as [|fuel IH]; intros pv x l H Hl; [lia|].
  destruct l as [|t l]; cbn in *.
  - now destruct H as [_ ->].
  - destruct H as (->&_&H). erewrite IH; [|exact H|lia]. cbn. f_equal. lia.
Qed.

Lemma iterate_runs_out fuel m pv x l :
  seg m pv x l -> (fuel <= length l)%nat ->
  __pthread_queue_iterate fuel m x = Crash out_of_fuel.
Proof.
  intros [e H]. revert pv x l H. induction fuel as [|fuel IH]; intros pv x l H Hl; [done|].
  destruct l as [|t l]; cbn in *; [lia|]. destruct H as (->&_&H).
  erewrite IH; [done|exact H|lia].
Qed.

Lemma linked_rep m Q t :
  rep m Q ->
  bool_decide (tprevp (tcbs m t) <> None) = true <-> exists p, t ∈ Q p.
Proof. intros H. rewrite bool_decide_eq_true. apply H. Qed.

#[export] Instance queues : WaitQueues qmem := {|
  wq_head := heads;
  wq_linked m t := bool_decide (tprevp (tcbs m t) <> None);
  wq_enqueue := __pthread_enqueue;
  wq_dequeue := __pthread_dequeue;
  wq_detach m q := set_head m q None;
  wq_take := __pthread_dequeuing_iterate;
  wq_count := __pthread_queue_iterate;
  wq_rep := rep
|}.

#[export] Instance queues_laws : WaitQueueLaws qmem.
Proof.
  split.
  - intros m Q H. apply H.
  - intros m Q q H. cbn. eapply seg_hd, H.
  - intros m Q t H. cbn. now apply linked_rep.
  - intros. now apply enqueue_rep.
  - intros. now eapply dequeue_rep.
  - intros. now apply detach_rep.
  - intros. now eapply take_rep.
  - intros m Q q fuel H Hl. cbn. destruct H as [_ Hq _ _].
    rewrite <- (seg_hd _ _ _ _ (Hq q)). eapply iterate_counts; eauto.
  - intros m Q q fuel H Hl. cbn. destruct H as [_ Hq _ _].
    rewrite <- (seg_hd _ _ _ _ (Hq q)). eapply iterate_runs_out; eauto.
Qed.

(** The state at start: no thread is queued. *)
Definition empty_qmem : qmem := Qmem (fun _ => None) (fun _ => Tcb None None).

Lemma empty_rep : rep empty_qmem (fun _ => []).
Proof.
  constructor; cbn.
  - split; [constructor|set_solver].
  - intros q. now exists (Lhead q).
  - intros c. exists (Lhead 0). now exists (Lhead 0).
  - set_solver.
Qed.

(** C35: The pointer queues are lists with constant-time removal from the middle.
    Enqueueing a thread that is linked nowhere pushes it at the front of the
    queue (waiters leave in last come, first served order), enqueueing a linked
    thread fails the assertion, and dequeueing a thread removes it from
    wherever it is in its queue, given nothing but the thread; every other
    queue and every chain is unchanged, and [prevp] stays nonzero exactly for
    the linked threads. *)
Theorem pthread_queue_operations m Q q t :
  rep m Q ->
  ((forall p, t ∉ Q p) ->
     exists m', __pthread_enqueue m q t = Ret m' /\
                rep m' (<[Queue q := t :: Q (Queue q)]> Q)) /\
  ((exists p, t ∈ Q p) -> __pthread_enqueue m q t = Crash assertion_failed) /\
  (forall l1 l2, Q (Queue q) = l1 ++ t :: l2 ->
     exists m', __pthread_dequeue m t = Ret m' /\ rep m' (<[Queue q := l1 ++ l2]> Q)).
Proof.
  intros H. split_and!; [intros; now apply enqueue_rep| |intros; now apply dequeue_rep].
  intros Hp. unfold __pthread_enqueue.
  rewrite bool_decide_eq_false_2; [done|]. apply (rep_linked _ _ H t), Hp.
Qed.

(** Thread 1 alone on queue 0. *)
Definition sample_qmem : qmem :=
  match __pthread_enqueue empty_qmem 0 1 with Ret m => m | Crash _ => empty_qmem end.

Lemma sample_rep : rep sample_qmem (<[Queue 0 := [1]]> (fun _ => [])).
Proof.
  destruct (enqueue_rep empty_qmem _ 0 1 empty_rep) as (m'&E&H); [intros; apply not_elem_of_nil|].
  cbn in E. injection E as <-. exact H.
Qed.

Theorem pthread_queue_operations_witness :
  __pthread_enqueue sample_qmem 0 1 = Crash assertion_failed /\
  exists m', __pthread_enqueue sample_qmem 0 2 = Ret m'.
Proof.
  split.
  - apply (proj1 (proj2 (pthread_queue_operations sample_qmem _ 0 1 sample_rep))).
    exists (Queue 0). left.
  - destruct (proj1 (pthread_queue_operations sample_qmem _ 0 2 sample_rep)) as (m'&E&_).
    + intros p. rewrite elem_insert. intros [[_ H]|[_ H]];
        [apply list_elem_of_singleton in H; discriminate H|now apply not_elem_of_nil in H].
    + exists m'. exact E.
Defined.

(** A broadcast that only clears the head of the queue leaves the first
    waiter's [prevp] pointing at the head. If that waiter times out before it
    is woken up, and so dequeues itself, it links the waiters after it, which
    are already being woken up, back into the queue. *)
Theorem detached_dequeue_relinks m Q q t l :
  rep m Q -> Q (Queue q) = t :: l ->
  heads (set_head m q None) q = None /\
  exists m', __pthread_dequeue (set_head m q None) t = Ret m' /\
             heads m' q = hd_error l.
Proof.
  intros H E. split; [cbn; now rewrite fn_lookup_insert|].
  destruct (rep_queue _ _ H q) as [e He]. rewrite E in He. destruct He as (_&Hp&Hs).
  assert (Hn := dseg_hd _ _ _ _ _ Hs).
  assert (Hnd := sep_nodup _ (rep_sep _ _ H) (Queue q)). rewrite E in Hnd.
  apply NoDup_cons in Hnd as [Htl _].
  unfold __pthread_dequeue. cbn. rewrite Hn. destruct l as [|n l]; cbn.
  - rewrite Hp. cbn. eexists. split; [reflexivity|]. cbn. now rewrite fn_lookup_insert.
  - assert (Hne : t <> n) by (intros ->; apply Htl; left).
    rewrite fn_lookup_insert_ne by done. rewrite Hp. cbn.
    eexists. split; [reflexivity|]. cbn. now rewrite fn_lookup_insert.
Qed.

Theorem detached_dequeue_relinks_witness :
  exists m m', __pthread_dequeue (set_head m 0 None) 2 = Ret m' /\ heads m' 0 = Some 1.
Proof.
  destruct (proj1 (pthread_queue_operations sample_qmem _ 0 2 sample_rep)) as (m&_&H).
  - intros p. rewrite elem_insert. intros [[_ H]|[_ H]];
      [apply list_elem_of_singleton in H; discriminate H|now apply not_elem_of_nil in H].
  - destruct (detached_dequeue_relinks m _ 0 2 [1] H eq_refl) as (_&m'&E&E').
    exists m, m'. split; [exact E|exact E'].
Defined.

End PtQueue.
