(* ===== verification/PtSched.v ===== *)
(** * Threads that block and threads that wake them up (libpthread)

    The reader-writer locks, barriers and condition variables of libpthread
    block and wake threads in the same two ways: a thread takes one waiter off a
    queue under the object's spin lock and wakes it after dropping the lock
    ([__pthread_dequeue], [__pthread_wakeup]), or it detaches a whole queue
    under the lock and walks it afterwards ([__pthread_dequeuing_iterate]).

    This file holds the program counters of such threads, the steps between a
    critical section and the wakeups that follow it ([wake_step]), and the
    invariant [sched] that those objects share, with one lemma for each thing a
    critical section does to the queues.  [K] says what a thread waits for: one
    constructor per queue of the object. *)

From S2P Require Import Prelude Ring PtQueue.

Module PtSched.

(** [Walk next] is at the head of the loop of [__pthread_dequeuing_iterate];
    [WalkWake u next] is at its body, [__pthread_wakeup (u)].  [Woken] and
    [TimedOut] are after [__pthread_block] or [__pthread_timedblock]. *)
Inductive pc (K : Type) :=
| Run
| Blocked (k : K) (timed : bool)
| Waking (u : tid)
| Walk (next : option tid)
| WalkWake (u : tid) (next : option tid)
| Woken (k : K)
| TimedOut (k : K).
Arguments Run {K}. Arguments Blocked {K}. Arguments Waking {K}. Arguments Walk {K}.
Arguments WalkWake {K}. Arguments Woken {K}. Arguments TimedOut {K}.

(** A wakeup moves a thread that has blocked itself, or is about to, past the
    call that blocks it. *)
Inductive wake_step {K : Type} `{!WaitQueues M}
  : M * (tid -> pc K) -> M * (tid -> pc K) -> Prop :=
| wake_one w pcs t u k b :
    pcs t = Waking u -> pcs u = Blocked k b ->
    wake_step (w, pcs) (w, <[u := Woken k]> (<[t := Run]> pcs))
| wake_take w pcs t u w' next :
    pcs t = Walk (Some u) -> wq_take w u = (w', next) ->
    wake_step (w, pcs) (w', <[t := WalkWake u next]> pcs)
| wake_walk w pcs t u next k b :
    pcs t = WalkWake u next -> pcs u = Blocked k b ->
    wake_step (w, pcs) (w, <[u := Woken k]> (<[t := Walk next]> pcs))
| wake_done w pcs t :
    pcs t = Walk None -> wake_step (w, pcs) (w, <[t := Run]> pcs).

Definition walking {K} (p : pc K) : bool :=
  match p with Walk _ | WalkWake _ _ => true | _ => false end.

(** A program counter that is not part of waiting. *)
Definition active {K} (p : pc K) : Prop :=
  match p with Blocked _ _ | Woken _ | TimedOut _ => False | _ => True end.

(** [u] has yet to wake [t] up. *)
Definition owes {K} (pcs : tid -> pc K) (Q : contents) (u t : tid) : Prop :=
  pcs u = Waking t \/ (exists next, pcs u = WalkWake t next) \/ t ∈ Q (Chain u).

(** Objects with one queue. *)
Lemma unit_inj (f : unit -> Z) (k k' : unit) : f k = f k' -> k = k'.
Proof. now destruct k, k'. Qed.

Section sched.
Context {K : Type} `{!EqDecision K} `{!WaitQueues M, !WaitQueueLaws M}.
Variable qof : K -> Z.
Implicit Types (w : M) (pcs : tid -> pc K) (Q : place -> list tid) (G : K -> list tid).

(** What is left of each detached chain is what its walker has yet to visit. *)
Record walks pcs Q : Prop := Walks {
  s_walk : forall c x, pcs c = Walk x -> x = hd_error (Q (Chain c));
  s_walkwake : forall c u x, pcs c = WalkWake u x ->
    x = hd_error (Q (Chain c)) /\ u ∉ Q (Chain c);
  s_nowalk : forall c, walking (pcs c) = false -> Q (Chain c) = []
}.

(** [G k] are the threads that waited for [k] and have been chosen: they are
    awake but have not run yet, or somebody owes them a wakeup. *)
Record sched w pcs Q G : Prop := Sched {
  s_rep : wq_rep w Q;
  s_queue : forall q t, t ∈ Q (Queue q) ->
    exists k, q = qof k /\ pcs t = Blocked k false /\ t ∉ G k;
  s_untimed : forall t k, pcs t <> Blocked k true;
  s_in_time : forall t k, pcs t <> TimedOut k;
  s_blocked : forall t k b, pcs t = Blocked k b -> t ∈ Q (Queue (qof k)) \/ t ∈ G k;
  s_nodup : forall k, NoDup (G k);
  s_woken : forall t k, pcs t = Woken k -> t ∈ G k;
  s_grant : forall t k, t ∈ G k ->
    pcs t = Woken k \/ (pcs t = Blocked k false /\ exists u, owes pcs Q u t);
  s_owes : forall u t, owes pcs Q u t -> exists k, pcs t = Blocked k false /\ t ∈ G k;
  s_owes_one : forall u u' t, owes pcs Q u t -> owes pcs Q u' t -> u = u';
  s_inj : forall k k', qof k = qof k' -> k = k';
  s_walks : walks pcs Q
}.

Lemma sched_initial w :
  (forall k k', qof k = qof k' -> k = k') ->
  wq_rep w (fun _ => []) -> sched w (fun _ => Run) (fun _ => []) (fun _ => []).
Proof.
  intros Hi Hw. assert (Hno : forall u t, ~ owes (fun _ => @Run K) (fun _ => []) u t).
  { intros u t [H|[[x H]|H]]; [done..|]. now apply not_elem_of_nil in H. }
  constructor; try done; try setoid_rewrite elem_of_nil; try done.
  - constructor.
  - intros u t H. now apply Hno in H.
  - intros u u' t H. now apply Hno in H.
Qed.

(** A running thread is nowhere and owes nobody a wakeup. *)
Lemma run_unlinked w pcs Q G t : sched w pcs Q G -> pcs t = Run -> forall p, t ∉ Q p.
Proof.
  intros S Ht [q|c] H.
  - apply (s_queue _ _ _ _ S) in H as (k&_&H&_). congruence.
  - assert (Ho : owes pcs Q c t) by now right; right.
    apply (s_owes _ _ _ _ S) in Ho as (k&H'&_). congruence.
Qed.

Lemma run_not_granted w pcs Q G t k : sched w pcs Q G -> pcs t = Run -> t ∉ G k.
Proof. intros S Ht H. apply (s_grant _ _ _ _ S) in H as [H|[H _]]; congruence. Qed.

Lemma run_owes w pcs Q G t u : sched w pcs Q G -> pcs t = Run -> ~ owes pcs Q t u.
Proof.
  intros S Ht [H|[[x H]|H]]; [congruence..|].
  rewrite (s_nowalk _ _ (s_walks _ _ _ _ S)) in H by now rewrite Ht. now apply not_elem_of_nil in H.
Qed.

Lemma woken_owes w pcs Q G t k u : sched w pcs Q G -> pcs t = Woken k -> ~ owes pcs Q t u.
Proof.
  intros S Ht [H|[[x H]|H]]; [congruence..|].
  rewrite (s_nowalk _ _ (s_walks _ _ _ _ S)) in H by now rewrite Ht. now apply not_elem_of_nil in H.
Qed.

Lemma owes_frame pcs Q Q' t p u x :
  u <> t -> Q' (Chain u) = Q (Chain u) ->
  owes (<[t := p]> pcs) Q' u x <-> owes pcs Q u x.
Proof. intros Hu HQ. unfold owes. rewrite HQ, fn_lookup_insert_ne by congruence. done. Qed.

Lemma owes_self pcs Q t p x :
  owes (<[t := p]> pcs) Q t x <->
  p = Waking x \/ (exists next, p = WalkWake x next) \/ x ∈ Q (Chain t).
Proof. unfold owes. now rewrite fn_lookup_insert. Qed.

Lemma walks_frame pcs Q Q' t p :
  walks pcs Q -> walking (pcs t) = false -> walking p = false ->
  (forall c, Q' (Chain c) = Q (Chain c)) -> walks (<[t := p]> pcs) Q'.
Proof.
  intros [Hw Hww Hn] Ht Hp HQ.
  split; setoid_rewrite HQ; setoid_rewrite fn_at; intros c; case_decide; subst; auto.
  - now intros x ->.
  - now intros u x ->.
Qed.

(** The thread [t] queues itself for [k]. *)
Lemma sched_enqueue w pcs Q G t k :
  sched w pcs Q G -> pcs t = Run ->
  exists w', wq_enqueue w (qof k) t = Ret w' /\
    sched w' (<[t := Blocked k false]> pcs)
      (<[Queue (qof k) := t :: Q (Queue (qof k))]> Q) G.
Proof.
  intros S Ht. assert (Hun := run_unlinked _ _ _ _ _ S Ht).
  destruct (wq_enqueue_spec w Q (qof k) t) as (w'&->&Hw); [apply S|done|].
  exists w'. split; [done|].
  assert (Hng := fun k => run_not_granted _ _ _ _ _ k S Ht).
  assert (Hno := fun u => run_owes _ _ _ _ _ u S Ht).
  assert (Ho : forall u x, owes (<[t:=Blocked k false]> pcs)
    (<[Queue (qof k) := t :: Q (Queue (qof k))]> Q) u x <-> owes pcs Q u x).
  { intros u x. destruct (decide (u = t)) as [->|Hne].
    - rewrite owes_self. rewrite fn_lookup_insert_ne by done. split.
      + intros [?|[[? ?]|H]]; [done..|]. now right; right.
      + intros H. now apply Hno in H.
    - apply owes_frame; [done|]. now rewrite fn_lookup_insert_ne. }
  constructor; try setoid_rewrite Ho; try done; try apply S.
  - intros q x. rewrite elem_insert. intros [[[= ->] [->|Hx]%elem_of_cons]|[Hq Hx]].
    + exists k. rewrite fn_lookup_insert. auto.
    + destruct (s_queue _ _ _ _ S _ _ Hx) as (k'&E&Hb&Hg). exists k'.
      rewrite fn_lookup_insert_ne; [done|]. intros ->. congruence.
    + destruct (s_queue _ _ _ _ S _ _ Hx) as (k'&E&Hb&Hg). exists k'.
      rewrite fn_lookup_insert_ne; [done|]. intros ->. congruence.
  - intros x k'. rewrite fn_at. case_decide; [congruence|]. apply S.
  - intros x k'. rewrite fn_at. case_decide; [congruence|]. apply S.
  - intros x k' b. rewrite fn_at, elem_insert, elem_of_cons. case_decide as Hx.
    + intros [= <- <-]. auto.
    + intros H. destruct (s_blocked _ _ _ _ S _ _ _ H) as [Hq|?]; [left|auto].
      destruct (decide (k' = k)) as [->|Hk]; [auto|]. right. split; [|done].
      intros [= E]. apply Hk. now apply (s_inj _ _ _ _ S).
  - intros x k'. rewrite fn_at. case_decide; [done|]. apply S.
  - intros x k' Hx. rewrite fn_at. case_decide; [subst; now apply Hng in Hx|]. now apply S.
  - intros u x H. rewrite fn_at. case_decide as Hx; [|now apply S in H].
    subst. apply S in H as (k'&H&_). congruence.
  - apply (walks_frame _ Q); [apply S|now rewrite Ht|done|].
    intros c. now rewrite fn_lookup_insert_ne.
Qed.

(** The thread [t] takes the threads [L] off the queue for [k] and owes each of
    them a wakeup. *)
Lemma sched_chosen w pcs Q G w' Q' t p k L :
  sched w pcs Q G -> pcs t = Run -> active p -> wq_rep w' Q' -> NoDup L ->
  (forall x, x ∈ L -> x ∈ Q (Queue (qof k))) ->
  (forall q x, x ∈ Q' (Queue q) <-> x ∈ Q (Queue q) /\ x ∉ L) ->
  (forall x y, owes (<[t:=p]> pcs) Q' x y <-> owes pcs Q x y \/ x = t /\ y ∈ L) ->
  walks (<[t:=p]> pcs) Q' ->
  sched w' (<[t:=p]> pcs) Q' (<[k := L ++ G k]> G).
Proof.
  intros S Ht Hp Hw' Hnd HL HQ Ho Hwk.
  assert (HLb : forall x, x ∈ L -> x <> t /\ pcs x = Blocked k false /\ x ∉ G k).
  { intros x Hx. destruct (s_queue _ _ _ _ S _ _ (HL _ Hx)) as (k'&E&Hb&Hg).
    apply (s_inj _ _ _ _ S) in E as <-. split; [congruence|done]. }
  assert (Hng := fun k => run_not_granted _ _ _ _ _ k S Ht).
  assert (HG : forall x k', x ∈ <[k := L ++ G k]> G k' <-> x ∈ G k' \/ x ∈ L /\ k' = k).
  { intros x k'. rewrite fn_at. case_decide; [subst; rewrite elem_of_app|]; naive_solver. }
  assert (Hone : forall x y, owes pcs Q x y -> y ∉ L).
  { intros x y Hy HyL. apply S in Hy as (k'&Hb&Hg). destruct (HLb _ HyL) as (_&Hb'&Hg'). congruence. }
  constructor; try setoid_rewrite Ho; try setoid_rewrite HG; [done|..|done].
  - intros q x [Hx HxL]%HQ. destruct (s_queue _ _ _ _ S _ _ Hx) as (k'&E&Hb&Hg).
    exists k'. rewrite fn_lookup_insert_ne by congruence. naive_solver.
  - intros x k'. rewrite fn_at. case_decide; [now intros ->|]. apply S.
  - intros x k'. rewrite fn_at. case_decide; [now intros ->|]. apply S.
  - intros x k' b. rewrite fn_at, HQ. case_decide; [now intros ->|]. intros Hb.
    destruct (decide (x ∈ L)) as [HxL|HxL].
    + right. right. destruct (HLb _ HxL) as (_&Hb'&_). split; [done|congruence].
    + destruct (s_blocked _ _ _ _ S _ _ _ Hb); auto.
  - intros k'. rewrite fn_at. case_decide; [|apply S]. apply NoDup_app. split_and!; [done| |apply S].
    intros x. now apply HLb.
  - intros x k'. rewrite fn_at. case_decide; [now intros ->|]. intros Hx%S. auto.
  - intros x k' [Hx|[Hx ->]]; rewrite fn_at; case_decide; subst; try (now apply HLb in Hx as []).
    + now apply Hng in Hx.
    + destruct (s_grant _ _ _ _ S _ _ Hx) as [?|(?&y&?)]; eauto.
    + right. split; [now apply HLb|]. exists t. auto.
  - intros x y [Hx|[-> Hy]].
    + apply S in Hx as (k'&Hb&Hg). exists k'. rewrite fn_lookup_insert_ne by congruence. auto.
    + destruct (HLb _ Hy) as (?&?&?). exists k. rewrite fn_lookup_insert_ne by congruence. auto.
  - intros x x' y [Hx|[-> Hx]] [Hy|[-> Hy]]; [|now apply Hone in Hx|now apply Hone in Hy|done].
    eapply s_owes_one; eauto.
  - apply S.
Qed.

(** The thread [t] takes the thread [u] at the front of the queue for [k], to
    wake it up. *)
Lemma sched_handoff w pcs Q G t k u l :
  sched w pcs Q G -> pcs t = Run -> Q (Queue (qof k)) = u :: l ->
  exists w', wq_dequeue w u = Ret w' /\
    sched w' (<[t := Waking u]> pcs) (<[Queue (qof k) := l]> Q) (<[k := u :: G k]> G).
Proof.
  intros S Ht Eq.
  destruct (wq_dequeue_spec w Q (qof k) [] u l) as (w'&->&Hw); [apply S|done|].
  exists w'. split; [done|].
  assert (Hsep := wq_separated _ _ (s_rep _ _ _ _ S)).
  assert (Hnd := sep_nodup _ Hsep (Queue (qof k))). rewrite Eq in Hnd.
  apply NoDup_cons in Hnd as [Hul _].
  assert (Hno := fun u => run_owes _ _ _ _ _ u S Ht).
  apply (sched_chosen w pcs Q G w' _ t (Waking u) k [u]); try done.
  - apply NoDup_singleton.
  - intros x ->%list_elem_of_singleton. rewrite Eq. left.
  - intros q x. rewrite elem_insert, list_elem_of_singleton. split.
    + intros [[[= ->] Hx]|[Hq Hx]].
      * split; [rewrite Eq; now right|congruence].
      * split; [done|]. intros ->. apply Hq. eapply sep_place; [exact Hsep|exact Hx|].
        rewrite Eq. left.
    + intros [Hx Hne]. destruct (decide (q = qof k)) as [->|Hq].
      * left. rewrite Eq in Hx. set_solver.
      * right. split; [congruence|done].
  - intros x y. rewrite list_elem_of_singleton. destruct (decide (x = t)) as [->|Hx].
    + rewrite owes_self, fn_lookup_insert_ne by done. split.
      * intros [[= ->]|[[? ?]|H]]; [auto|done|]. left. now right; right.
      * intros [H|[_ ->]]; [now apply Hno in H|auto].
    + rewrite (owes_frame _ Q) by (done || now rewrite fn_lookup_insert_ne). naive_solver.
  - apply (walks_frame _ Q); [apply S|now rewrite Ht|done|].
    intros c. now rewrite fn_lookup_insert_ne.
Qed.

(** The thread [t] detaches the queue for [k], to wake all of it up. *)
Lemma sched_detach w pcs Q G t k :
  sched w pcs Q G -> pcs t = Run ->
  sched (wq_detach w (qof k)) (<[t := Walk (hd_error (Q (Queue (qof k))))]> pcs)
    (<[Chain t := Q (Queue (qof k))]> (<[Queue (qof k) := []]> Q))
    (<[k := Q (Queue (qof k)) ++ G k]> G).
Proof.
  intros S Ht. assert (Hun := run_unlinked _ _ _ _ _ S Ht).
  assert (Hc : Q (Chain t) = []) by (apply S; now rewrite Ht).
  assert (Hno := fun u => run_owes _ _ _ _ _ u S Ht).
  apply (sched_chosen w pcs Q G); try done.
  - apply wq_detach_spec; [apply S|done].
  - apply (sep_nodup _ (wq_separated _ _ (s_rep _ _ _ _ S))).
  - intros q x. rewrite fn_lookup_insert_ne by done. rewrite elem_insert.
    assert (Hx : x ∈ Q (Queue q) -> x ∈ Q (Queue (qof k)) -> Queue q = Queue (qof k)).
    { intros. eapply sep_place; eauto. eapply wq_separated, S. }
    destruct (decide (q = qof k)) as [->|Hq]; [set_solver|].
    assert (Queue q <> Queue (qof k)) by congruence. naive_solver.
  - intros x y. destruct (decide (x = t)) as [->|Hx].
    + rewrite owes_self, fn_lookup_insert. split; [|].
      * intros [?|[[? ?]|H]]; [done..|auto].
      * intros [H|[_ H]]; [now apply Hno in H|auto].
    + rewrite (owes_frame _ Q); [naive_solver|done|].
      rewrite !fn_lookup_insert_ne by congruence. done.
  - destruct (s_walks _ _ _ _ S) as [H1 H2 H3].
    split; intros c; rewrite fn_at; case_decide; subst;
      rewrite ?fn_lookup_insert, ?fn_lookup_insert_ne by congruence; auto; try done.
    now intros x [= <-].
Qed.

(** A chosen thread runs on. *)
Lemma sched_resume w pcs Q G t k :
  sched w pcs Q G -> pcs t = Woken k ->
  exists l1 l2, G k = l1 ++ t :: l2 /\
    sched w (<[t := Run]> pcs) Q (<[k := l1 ++ l2]> G).
Proof.
  intros S Ht. assert (Hg := s_woken _ _ _ _ S _ _ Ht).
  assert (Hnd := s_nodup _ _ _ _ S k).
  destruct (list_elem_of_split _ _ Hg) as (l1&l2&E). exists l1, l2. split; [done|].
  assert (Hno := fun u => woken_owes _ _ _ _ _ _ u S Ht).
  rewrite E in Hnd. apply NoDup_app in Hnd as (Hn1&Hd&[Hn2 Hn3]%NoDup_cons).
  assert (Hnt : t ∉ l1) by (intros H; apply (Hd _ H); left).
  assert (Ho : forall x y, owes (<[t:=Run]> pcs) Q x y <-> owes pcs Q x y).
  { intros x y. destruct (decide (x = t)) as [->|Hx]; [|now apply owes_frame].
    rewrite owes_self. split; [intros [?|[[? ?]|H]]; [done..|now right; right]|].
    intros H. now apply Hno in H. }
  assert (HG : forall x k', x ∈ <[k := l1 ++ l2]> G k' <-> x ∈ G k' /\ x <> t).
  { intros x k'. rewrite fn_at. case_decide as Hk.
    - subst k'. rewrite E. set_solver.
    - split; [|naive_solver]. intros Hx. split; [done|]. intros ->.
      apply S in Hx as [Hx|[Hx _]]; congruence. }
  constructor; try setoid_rewrite Ho; try setoid_rewrite HG; [apply S|..].
  - intros q x Hx. destruct (s_queue _ _ _ _ S _ _ Hx) as (k'&?&?&?). exists k'.
    rewrite fn_lookup_insert_ne by congruence. naive_solver.
  - intros x k'. rewrite fn_at. case_decide; [done|]. apply S.
  - intros x k'. rewrite fn_at. case_decide; [done|]. apply S.
  - intros x k' b. rewrite fn_at. case_decide; [done|].
    intros Hb. destruct (s_blocked _ _ _ _ S _ _ _ Hb); auto.
  - intros k'. rewrite fn_at. case_decide; [|apply S]. apply NoDup_app. split_and!; [done| |done].
    intros x Hx1 Hx2. apply (Hd _ Hx1). now right.
  - intros x k'. rewrite fn_at. case_decide; [done|]. intros Hx%S. split; [done|congruence].
  - intros x k' [Hx Hxt]. rewrite fn_lookup_insert_ne by done. now apply S.
  - intros x y Hx. apply S in Hx as (k'&Hb&?). exists k'.
    rewrite fn_lookup_insert_ne by congruence. split_and!; [done..|congruence].
  - apply S.
  - apply S.
  - apply (walks_frame _ Q); [apply S|now rewrite Ht|done..].
Qed.

(** ** The steps of a walk *)

(** A step of [t] that changes neither the queues nor who owes whom. *)
Lemma sched_move w pcs Q G w' Q' t p :
  sched w pcs Q G -> active (pcs t) -> active p -> wq_rep w' Q' ->
  (forall q, Q' (Queue q) = Q (Queue q)) ->
  (forall x y, owes (<[t:=p]> pcs) Q' x y <-> owes pcs Q x y) ->
  walks (<[t:=p]> pcs) Q' ->
  sched w' (<[t:=p]> pcs) Q' G.
Proof.
  intros S Ht Hp Hw HQ Ho Hwk.
  assert (Hb : forall x k b, pcs x = Blocked k b -> x <> t) by (intros x k b E ->; now rewrite E in Ht).
  assert (Hk : forall x k, pcs x = Woken k -> x <> t) by (intros x k E ->; now rewrite E in Ht).
  constructor; try setoid_rewrite Ho; try setoid_rewrite HQ; [done|..|done].
  - intros q x Hx. destruct (s_queue _ _ _ _ S _ _ Hx) as (k'&?&E&?). exists k'.
    rewrite fn_lookup_insert_ne by (intros <-; eapply Hb; eauto). done.
  - intros x k'. rewrite fn_at. case_decide; [now intros ->|]. apply S.
  - intros x k'. rewrite fn_at. case_decide; [now intros ->|]. apply S.
  - intros x k' b. rewrite fn_at. case_decide; [now intros ->|]. apply S.
  - apply S.
  - intros x k'. rewrite fn_at. case_decide; [now intros ->|]. apply S.
  - intros x k' Hx. destruct (s_grant _ _ _ _ S _ _ Hx) as [E|[E ?]].
    + rewrite fn_lookup_insert_ne by (intros <-; eapply Hk; eauto). auto.
    + rewrite fn_lookup_insert_ne by (intros <-; eapply Hb; eauto). auto.
  - intros x y Hx. apply S in Hx as (k'&E&?). exists k'.
    rewrite fn_lookup_insert_ne by (intros <-; eapply Hb; eauto). done.
  - apply S.
  - apply S.
Qed.

(** [t] wakes [u] up. *)
Lemma sched_wakes w pcs Q G t u k b p :
  sched w pcs Q G -> pcs u = Blocked k b -> u ∉ Q (Chain t) -> active (pcs t) -> active p ->
  (forall y, owes pcs Q t y <-> y = u \/ y ∈ Q (Chain t)) ->
  (forall y, owes (<[t:=p]> pcs) Q t y <-> y ∈ Q (Chain t)) ->
  walks (<[t:=p]> pcs) Q ->
  sched w (<[u := Woken k]> (<[t := p]> pcs)) Q G.
Proof.
  intros S Hu Hut Ht Hp Ho Ho' Hwk.
  assert (Hne : u <> t) by (intros ->; now rewrite Hu in Ht).
  assert (Hg : u ∈ G k).
  { destruct (s_owes _ _ _ _ S t u) as (k'&E&?); [apply Ho; auto|]. congruence. }
  assert (Hup : <[t:=p]> pcs u = Blocked k b) by (now rewrite fn_lookup_insert_ne).
  assert (Ho2 : forall x y, owes (<[u:=Woken k]> (<[t:=p]> pcs)) Q x y <-> owes pcs Q x y /\ y <> u).
  { intros x y. destruct (decide (x = u)) as [->|Hxu].
    - assert (Hcu : Q (Chain u) = []) by (apply S; now rewrite Hu).
      unfold owes. rewrite fn_lookup_insert, Hu, Hcu, elem_of_nil. naive_solver.
    - rewrite (owes_frame _ Q) by done. destruct (decide (x = t)) as [->|Hxt].
      + rewrite Ho, Ho'. naive_solver.
      + rewrite owes_frame by done. split; [|naive_solver]. intros Hx. split; [done|].
        intros ->. apply Hxt. eapply s_owes_one; eauto. apply Ho. auto. }
  constructor; try setoid_rewrite Ho2; [apply S|..].
  - intros q x Hx. destruct (s_queue _ _ _ _ S _ _ Hx) as (k'&?&E&?). exists k'.
    rewrite !fn_lookup_insert_ne; [done|intros <-; now rewrite E in Ht|congruence].
  - intros x k'. rewrite !fn_at. case_decide; [done|]. case_decide; [now intros ->|]. apply S.
  - intros x k'. rewrite !fn_at. case_decide; [done|]. case_decide; [now intros ->|]. apply S.
  - intros x k' b'. rewrite !fn_at. case_decide; [done|]. case_decide; [now intros ->|]. apply S.
  - apply S.
  - intros x k'. rewrite !fn_at. case_decide; [intros [= <-]; congruence|].
    case_decide; [now intros ->|]. apply S.
  - intros x k' Hx. rewrite !fn_at. destruct (s_grant _ _ _ _ S _ _ Hx) as [E|[E [y Hy]]].
    + case_decide; [congruence|]. case_decide; [subst; now rewrite E in Ht|auto].
    + case_decide; [left; congruence|]. case_decide; [subst; now rewrite E in Ht|]. eauto 6.
  - intros x y [Hx Hyu]. apply S in Hx as (k'&E&?). exists k'.
    rewrite !fn_lookup_insert_ne; [done|intros <-; now rewrite E in Ht|congruence].
  - intros x x' y [Hx _] [Hy _]. eapply s_owes_one; eauto.
  - apply S.
  - apply (walks_frame _ Q); [done|now rewrite Hup|done..].
Qed.

Lemma sched_wake_one w pcs Q G t u k b :
  sched w pcs Q G -> pcs t = Waking u -> pcs u = Blocked k b ->
  sched w (<[u := Woken k]> (<[t := Run]> pcs)) Q G.
Proof.
  intros S Ht Hu. assert (Hwk := s_walks _ _ _ _ S).
  assert (Hc : Q (Chain t) = []) by (apply Hwk; now rewrite Ht).
  apply (sched_wakes _ _ _ _ _ _ _ b); rewrite ?Ht, ?Hc; try done; [now apply not_elem_of_nil|..].
  - intros y. unfold owes. rewrite Ht, Hc. naive_solver.
  - intros y. rewrite owes_self, Hc. naive_solver.
  - apply (walks_frame _ Q); [done|now rewrite Ht|done..].
Qed.

Lemma sched_wake_walk w pcs Q G t u nx k b :
  sched w pcs Q G -> pcs t = WalkWake u nx -> pcs u = Blocked k b ->
  sched w (<[u := Woken k]> (<[t := Walk nx]> pcs)) Q G.
Proof.
  intros S Ht Hu. assert (Hwk := s_walks _ _ _ _ S).
  destruct (s_walkwake _ _ Hwk _ _ _ Ht) as [-> Huc].
  apply (sched_wakes _ _ _ _ _ _ _ b); rewrite ?Ht; try done.
  - intros y. unfold owes. rewrite Ht. naive_solver.
  - intros y. rewrite owes_self. naive_solver.
  - destruct Hwk as [H1 H2 H3].
    split; intros c; rewrite fn_at; case_decide; subst; auto; try done. now intros x [= <-].
Qed.

Lemma sched_take w pcs Q G t u :
  sched w pcs Q G -> pcs t = Walk (Some u) ->
  exists l w', Q (Chain t) = u :: l /\ wq_take w u = (w', hd_error l) /\
    sched w' (<[t := WalkWake u (hd_error l)]> pcs) (<[Chain t := l]> Q) G.
Proof.
  intros S Ht. assert (Hwk := s_walks _ _ _ _ S).
  assert (Hc := s_walk _ _ Hwk _ _ Ht). destruct (Q (Chain t)) as [|u' l] eqn:Eq; [done|].
  injection Hc as <-. destruct (wq_take_spec w Q t u l) as (w'&E&Hw); [apply S|done|].
  exists l, w'. split_and!; [done..|].
  assert (Hnd := sep_nodup _ (wq_separated _ _ (s_rep _ _ _ _ S)) (Chain t)).
  rewrite Eq in Hnd. apply NoDup_cons in Hnd as [Hul _].
  apply (sched_move w _ Q); rewrite ?Ht; try done.
  - intros x y. destruct (decide (x = t)) as [->|Hx].
    + rewrite owes_self, fn_lookup_insert. unfold owes. rewrite Ht, Eq, elem_of_cons. naive_solver.
    + apply owes_frame; [done|]. rewrite fn_lookup_insert_ne; congruence.
  - destruct Hwk as [H1 H2 H3].
    split; intros c; rewrite fn_at; case_decide; subst;
      rewrite ?fn_lookup_insert, ?fn_lookup_insert_ne by congruence; auto; try done.
    now intros x nx [= <- <-].
Qed.

Lemma sched_walk_done w pcs Q G t :
  sched w pcs Q G -> pcs t = Walk None -> sched w (<[t := Run]> pcs) Q G.
Proof.
  intros S Ht. assert (Hwk := s_walks _ _ _ _ S). assert (Hc := s_walk _ _ Hwk _ _ Ht).
  assert (Hn : Q (Chain t) = []) by (now destruct (Q (Chain t))).
  apply (sched_move w _ Q); rewrite ?Ht; try done; [apply S|..].
  - intros x y. destruct (decide (x = t)) as [->|Hx]; [|now apply owes_frame].
    rewrite owes_self. unfold owes. rewrite Ht. naive_solver.
  - destruct Hwk as [H1 H2 H3]. split; intros c; rewrite fn_at; case_decide; subst; auto; done.
Qed.

Lemma sched_stay w pcs Q G t :
  sched w pcs Q G -> pcs t = Run -> sched w (<[t := Run]> pcs) Q G.
Proof.
  intros S Ht. apply (sched_move w _ Q); rewrite ?Ht; try done; [apply S|..].
  - intros x y. destruct (decide (x = t)) as [->|Hx]; [|now apply owes_frame].
    rewrite owes_self. unfold owes. rewrite Ht. naive_solver.
  - apply (walks_frame _ Q); [apply S|now rewrite Ht|done..].
Qed.

Lemma sched_wake_step w pcs Q G w' pcs' :
  sched w pcs Q G -> wake_step (w, pcs) (w', pcs') ->
  exists Q', sched w' pcs' Q' G /\ forall q, Q' (Queue q) = Q (Queue q).
Proof.
  intros S Hs.
  inversion Hs as [? ? t u k b Ht Hu|? ? t u ? nx Ht Htk|? ? t u nx k b Ht Hu|? ? t Ht]; subst.
  - exists Q. split; [|done]. eapply sched_wake_one; eauto.
  - destruct (sched_take _ _ _ _ _ _ S Ht) as (l&w2&_&E&S'). rewrite E in Htk.
    injection Htk as -> <-. exists (<[Chain t := l]> Q).
    split; [done|]. intros q. now rewrite fn_lookup_insert_ne.
  - exists Q. split; [|done]. eapply sched_wake_walk; eauto.
  - exists Q. split; [|done]. now apply sched_walk_done.
Qed.

(** ** Every wakeup that is owed happens *)

(** A thread that owes wakeups can take a step, whatever the others do. *)
Lemma walker_steps w pcs Q G t :
  sched w pcs Q G ->
  (exists u, pcs t = Waking u) \/ walking (pcs t) = true ->
  exists w' pcs', wake_step (w, pcs) (w', pcs').
Proof.
  intros S Ht. destruct (pcs t) as [| |u|[u|]|u nx| |] eqn:E; cbn in Ht; try (naive_solver).
  - destruct (s_owes _ _ _ _ S t u) as (k&Hb&_); [now left|]. eauto using wake_one.
  - destruct (wq_take w u) as [w' nx] eqn:E'. eauto using wake_take.
  - eauto using wake_done.
  - destruct (s_owes _ _ _ _ S t u) as (k&Hb&_); [right; left; eauto|]. eauto using wake_walk.
Qed.

Lemma walked_is_woken l w pcs Q G u t :
  sched w pcs Q G -> Q (Chain u) = l -> pcs u = Walk (hd_error l) -> t ∈ l ->
  exists w' pcs' k, rtc wake_step (w, pcs) (w', pcs') /\ pcs' t = Woken k.
Proof.
  revert w pcs Q. induction l as [|v l IH]; intros w pcs Q S Eq Hu Ht; [set_solver|].
  destruct (sched_take _ _ _ _ _ _ S Hu) as (l'&w1&Eq'&Etk&S1).
  rewrite Eq in Eq'. injection Eq' as <-.
  set (pcs1 := <[u := WalkWake v (hd_error l)]> pcs) in *.
  assert (Hu1 : pcs1 u = WalkWake v (hd_error l)) by apply fn_lookup_insert.
  destruct (s_owes _ _ _ _ S1 u v) as (k&Hv&_); [right; left; eauto|].
  assert (S2 := sched_wake_walk _ _ _ _ _ _ _ _ _ S1 Hu1 Hv).
  set (pcs2 := <[v := Woken k]> (<[u := Walk (hd_error l)]> pcs1)) in *.
  assert (Hsteps : rtc wake_step (w, pcs) (w1, pcs2)).
  { eapply rtc_l; [exact (wake_take w pcs u v w1 _ Hu Etk)|]. eapply rtc_once, wake_walk; eauto. }
  assert (Hvu : u <> v) by (intros <-; rewrite Hu1 in Hv; discriminate).
  destruct (decide (t = v)) as [->|Htv].
  - exists w1, pcs2, k. split; [done|]. apply fn_lookup_insert.
  - destruct (IH w1 pcs2 _ S2) as (w3&pcs3&k3&Hs3&Ht3).
    + apply fn_lookup_insert.
    + subst pcs2. rewrite fn_lookup_insert_ne by done. apply fn_lookup_insert.
    + set_solver.
    + exists w3, pcs3, k3. split; [|done]. etrans; eauto.
Qed.

(** Whoever is owed a wakeup gets it: by the steps of walkers alone. *)
Lemma owed_is_woken w pcs Q G u t :
  sched w pcs Q G -> owes pcs Q u t ->
  exists w' pcs' k, rtc wake_step (w, pcs) (w', pcs') /\ pcs' t = Woken k.
Proof.
  intros S Ho. destruct (s_owes _ _ _ _ S _ _ Ho) as (k&Hb&_).
  destruct Ho as [Hu|[[nx Hu]|Hq]].
  - eexists w, _, k. split; [eapply rtc_once, wake_one; eauto|]. apply fn_lookup_insert.
  - eexists w, _, k. split; [eapply rtc_once, wake_walk; eauto|]. apply fn_lookup_insert.
  - destruct (pcs u) as [| |v|x|v nx| |] eqn:E;
      try (rewrite (s_nowalk _ _ (s_walks _ _ _ _ S) u) in Hq by (now rewrite E);
           now apply not_elem_of_nil in Hq).
    + eapply walked_is_woken; eauto. rewrite E. f_equal. now apply (s_walks _ _ _ _ S).
    + destruct (s_owes _ _ _ _ S u v) as (k'&Hv&_); [right; left; eauto|].
      destruct (s_walkwake _ _ (s_walks _ _ _ _ S) _ _ _ E) as [-> Hvq].
      assert (S' := sched_wake_walk _ _ _ _ _ _ _ _ _ S E Hv).
      destruct (walked_is_woken (Q (Chain u)) _ _ _ _ u t S') as (w3&pcs3&k3&Hs3&Ht3); [done| |done|].
      * rewrite fn_lookup_insert_ne by congruence. apply fn_lookup_insert.
      * exists w3, pcs3, k3. split; [|done]. eapply rtc_l, Hs3. eapply wake_walk; eauto.
Qed.

End sched.
End PtSched.
