(* ===== verification/PtRwlock.v ===== *)
(** * POSIX reader-writer locks (libpthread/sysdeps/generic/pt-rwlock-*.c)

    A reader-writer lock is a spin lock, the flag [__held], a reader count and
    two queues.  Ownership is handed over: an unlock that finds a queued writer
    leaves [__held] set and wakes the writer up, and one that finds only queued
    readers counts them all as readers, detaches their queue and wakes them one
    after the other.  A critical section is a function and the step relation
    interleaves them; waiting and waking is [PtSched]'s. *)

From S2P Require Import Prelude Ring PtQueue PtSched.

Module PtRwlock.

Import PtSched.

(** [struct __pthread_rwlock]; [readerqueue] and [writerqueue] are the addresses
    of the fields. *)
Record rwlock := Rw {
  rw_held : bool;
  rw_lock : bool;
  readers : Z;
  readerqueue : Z;
  writerqueue : Z
}.

Definition set_held (b : bool) (r : rwlock) : rwlock :=
  Rw b (rw_lock r) (readers r) (readerqueue r) (writerqueue r).
Definition set_lock (b : bool) (r : rwlock) : rwlock :=
  Rw (rw_held r) b (readers r) (readerqueue r) (writerqueue r).
Definition set_readers (n : Z) (r : rwlock) : rwlock :=
  Rw (rw_held r) (rw_lock r) n (readerqueue r) (writerqueue r).

(** What a thread waits for. *)
Inductive kind := Rd | Wr.

#[export] Instance kind_eq_dec : EqDecision kind.
Proof. solve_decision. Defined.

Definition queue_of (r : rwlock) (k : kind) : Z :=
  match k with Rd => readerqueue r | Wr => writerqueue r end.

(** How a critical section ends; [Broadcast x] goes on to walk the chain that
    starts with [x], after which the function returns 0. *)
Inductive rw_ending :=
| RReturn (err : option errno)
| RSleep
| RWake (t : tid)
| RBroadcast (x : option tid).

(** [_pthread_rwlock_init]; the attributes are stored and never used, so that
    what matters of them is whether they are given and whether the [malloc] for
    their copy succeeds.  The [memcmp] with the default attributes compares no
    bytes and is 0. *)
Definition _pthread_rwlock_init (rq wq : Z) (attr malloc : bool) : rwlock * option errno :=
  (Rw false false 0 rq wq, if attr && negb malloc then Some ENOMEM else None).

Section with_queues.
Context `{!WaitQueues M}.

Definition queue_empty (w : M) (q : Z) : bool := bool_decide (wq_head w q = None).

(** The assertions where [__pthread_spin_trylock (&rwlock->__held)] succeeded. *)
Definition assert_free (r : rwlock) (w : M) : exec unit :=
  _ ← check (queue_empty w (readerqueue r)) assertion_failed;
  _ ← check (queue_empty w (writerqueue r)) assertion_failed;
  check (readers r =? 0) assertion_failed.

(** [__pthread_rwlock_timedrdlock_internal] up to the point where it blocks. *)
Definition __pthread_rwlock_timedrdlock_enter (self : tid) (abstime : option timespec)
    (r : rwlock) (w : M) : exec (rwlock * M * rw_ending) :=
  let r := set_lock true r in
  if negb (rw_held r) then
    let r := set_held true r in
    _ ← assert_free r w;
    Ret (set_lock false (set_readers 1 r), w, RReturn None)
  else if 0 <? readers r then
    _ ← check (queue_empty w (readerqueue r)) assertion_failed;
    Ret (set_lock false (set_readers (i32 (readers r + 1)) r), w, RReturn None)
  else
    _ ← check (readers r =? 0) assertion_failed;
    if bad_abstime abstime then Ret (r, w, RReturn (Some EINVAL))
    else
      w ← wq_enqueue w (readerqueue r) self;
      Ret (set_lock false r, w, RSleep).

(** [__pthread_rwlock_timedwrlock_internal] up to the point where it blocks. *)
Definition __pthread_rwlock_timedwrlock_enter (self : tid) (abstime : option timespec)
    (r : rwlock) (w : M) : exec (rwlock * M * rw_ending) :=
  let r := set_lock true r in
  if negb (rw_held r) then
    let r := set_held true r in
    _ ← assert_free r w;
    Ret (set_lock false r, w, RReturn None)
  else if bad_abstime abstime then Ret (r, w, RReturn (Some EINVAL))
  else
    w ← wq_enqueue w (writerqueue r) self;
    Ret (set_lock false r, w, RSleep).

(** What follows a [__pthread_timedblock] that timed out; both functions have
    it. *)
Definition __pthread_rwlock_timeout (self : tid) (r : rwlock) (w : M)
  : exec (rwlock * M) :=
  let r := set_lock true r in
  w ← (if wq_linked w self then wq_dequeue w self else Ret w);
  Ret (set_lock false r, w).

(** The assertion after a block that was ended by a wakeup. *)
Definition __pthread_rwlock_woken (k : kind) (r : rwlock) : exec unit :=
  match k with
  | Rd => check (0 <? readers r) assertion_failed
  | Wr => check (readers r =? 0) assertion_failed
  end.

Definition pthread_rwlock_rdlock (self : tid) : rwlock -> M -> exec (rwlock * M * rw_ending) :=
  __pthread_rwlock_timedrdlock_enter self None.

Definition pthread_rwlock_wrlock (self : tid) : rwlock -> M -> exec (rwlock * M * rw_ending) :=
  __pthread_rwlock_timedwrlock_enter self None.

Definition pthread_rwlock_tryrdlock (r : rwlock) (w : M) : exec (rwlock * rw_ending) :=
  let r := set_lock true r in
  if negb (rw_held r) then
    let r := set_held true r in
    _ ← assert_free r w;
    Ret (set_lock false (set_readers 1 r), RReturn None)
  else if 0 <? readers r then
    _ ← check (queue_empty w (readerqueue r)) assertion_failed;
    Ret (set_lock false (set_readers (i32 (readers r + 1)) r), RReturn None)
  else Ret (set_lock false r, RReturn (Some EBUSY)).

Definition pthread_rwlock_trywrlock (r : rwlock) (w : M) : exec (rwlock * rw_ending) :=
  let r := set_lock true r in
  if negb (rw_held r) then
    let r := set_held true r in
    _ ← assert_free r w;
    Ret (set_lock false r, RReturn None)
  else Ret (set_lock false r, RReturn (Some EBUSY)).

(** [fuel] bounds the iteration that counts the queued readers. *)
Definition pthread_rwlock_unlock (fuel : nat) (r : rwlock) (w : M)
  : exec (rwlock * M * rw_ending) :=
  let r := set_lock true r in
  _ ← check (rw_held r) assertion_failed;
  if 1 <? readers r then
    Ret (set_lock false (set_readers (readers r - 1) r), w, RReturn None)
  else
    let r := if readers r =? 1 then set_readers 0 r else r in
    match wq_head w (writerqueue r) with
    | Some wakeup =>
        w ← wq_dequeue w wakeup;
        Ret (set_lock false r, w, RWake wakeup)
    | None =>
        match wq_head w (readerqueue r) with
        | Some x =>
            n ← wq_count fuel w (Some x);
            let r := set_readers (i32 (readers r + n)) r in
            Ret (set_lock false r, wq_detach w (readerqueue r), RBroadcast (Some x))
        | None => Ret (set_lock false (set_held false r), w, RReturn None)
        end
    end.

End with_queues.

(** ** The system: any number of threads and one lock *)

(** [rheld] lists the read locks that were acquired and not released yet, by
    their thread (a thread may hold several), [wheld] the write locks. *)
Record sys (M : Type) := Sys {
  rw : rwlock;
  wq : M;
  pcs : tid -> pc kind;
  rheld : list tid;
  wheld : list tid
}.
Arguments Sys {M}. Arguments rw {M}. Arguments wq {M}.
Arguments pcs {M}. Arguments rheld {M}. Arguments wheld {M}.

Definition next_pc (k : kind) (timed : bool) (e : rw_ending) : pc kind :=
  match e with
  | RReturn _ => Run
  | RSleep => Blocked k timed
  | RWake u => Waking u
  | RBroadcast x => Walk x
  end.

Definition is_timed (abstime : option timespec) : bool :=
  match abstime with Some _ => true | None => false end.

(** The holders after an acquisition that ended with [e]. *)
Definition got (t : tid) (e : rw_ending) (l : list tid) : list tid :=
  match e with RReturn None => t :: l | _ => l end.

(** [timed] allows time limits.  Fewer than 2^31 read locks are held at once,
    and fewer than 2^31 threads wait. *)
Inductive step `{!WaitQueues M} (timed : bool) : sys M -> sys M -> Prop :=
| step_rdlock s t abstime r w e :
    pcs s t = Run -> rw_lock (rw s) = false -> readers (rw s) < 2 ^ 31 - 1 ->
    abstime = None \/ timed = true ->
    __pthread_rwlock_timedrdlock_enter t abstime (rw s) (wq s) = Ret (r, w, e) ->
    step timed s (Sys r w (<[t := next_pc Rd (is_timed abstime) e]> (pcs s))
                    (got t e (rheld s)) (wheld s))
| step_wrlock s t abstime r w e :
    pcs s t = Run -> rw_lock (rw s) = false ->
    abstime = None \/ timed = true ->
    __pthread_rwlock_timedwrlock_enter t abstime (rw s) (wq s) = Ret (r, w, e) ->
    step timed s (Sys r w (<[t := next_pc Wr (is_timed abstime) e]> (pcs s))
                    (rheld s) (got t e (wheld s)))
| step_tryrdlock s t r e :
    pcs s t = Run -> rw_lock (rw s) = false -> readers (rw s) < 2 ^ 31 - 1 ->
    pthread_rwlock_tryrdlock (rw s) (wq s) = Ret (r, e) ->
    step timed s (Sys r (wq s) (<[t := Run]> (pcs s)) (got t e (rheld s)) (wheld s))
| step_trywrlock s t r e :
    pcs s t = Run -> rw_lock (rw s) = false ->
    pthread_rwlock_trywrlock (rw s) (wq s) = Ret (r, e) ->
    step timed s (Sys r (wq s) (<[t := Run]> (pcs s)) (rheld s) (got t e (wheld s)))
| step_rdunlock s t l1 l2 fuel r w e :
    pcs s t = Run -> rw_lock (rw s) = false -> rheld s = l1 ++ t :: l2 ->
    Z.of_nat fuel < 2 ^ 31 ->
    pthread_rwlock_unlock fuel (rw s) (wq s) = Ret (r, w, e) ->
    step timed s (Sys r w (<[t := next_pc Rd false e]> (pcs s)) (l1 ++ l2) (wheld s))
| step_wrunlock s t l1 l2 fuel r w e :
    pcs s t = Run -> rw_lock (rw s) = false -> wheld s = l1 ++ t :: l2 ->
    Z.of_nat fuel < 2 ^ 31 ->
    pthread_rwlock_unlock fuel (rw s) (wq s) = Ret (r, w, e) ->
    step timed s (Sys r w (<[t := next_pc Wr false e]> (pcs s)) (rheld s) (l1 ++ l2))
| step_wake s w p :
    wake_step (wq s, pcs s) (w, p) ->
    step timed s (Sys (rw s) w p (rheld s) (wheld s))
| step_rdwoken s t :
    pcs s t = Woken Rd -> __pthread_rwlock_woken Rd (rw s) = Ret tt ->
    step timed s (Sys (rw s) (wq s) (<[t := Run]> (pcs s)) (t :: rheld s) (wheld s))
| step_wrwoken s t :
    pcs s t = Woken Wr -> __pthread_rwlock_woken Wr (rw s) = Ret tt ->
    step timed s (Sys (rw s) (wq s) (<[t := Run]> (pcs s)) (rheld s) (t :: wheld s))
| step_timeout s t k :
    pcs s t = Blocked k true ->
    step timed s (Sys (rw s) (wq s) (<[t := TimedOut k]> (pcs s)) (rheld s) (wheld s))
| step_timedout s t k r w :
    pcs s t = TimedOut k -> rw_lock (rw s) = false ->
    __pthread_rwlock_timeout t (rw s) (wq s) = Ret (r, w) ->
    step timed s (Sys r w (<[t := Run]> (pcs s)) (rheld s) (wheld s)).

(** A lock that was just initialised. *)
Record initial `{!WaitQueues M} (s : sys M) : Prop := Initial {
  init_rw : exists q q' a m, q <> q' /\ rw s = (_pthread_rwlock_init q q' a m).1;
  init_wq : wq_rep (wq s) (fun _ => []);
  init_pcs : pcs s = fun _ => Run;
  init_held : rheld s = [] /\ wheld s = []
}.

Definition reachable `{!WaitQueues M} (timed : bool) (s : sys M) : Prop :=
  exists s0, initial s0 /\ rtc (step timed) s0 s.

(** ** The invariant of untimed use *)

Lemma held_nonzero n : n <> 0 -> true = negb (n =? 0).
Proof. intros H. symmetry. now apply negb_true_iff, Z.eqb_neq. Qed.

(** The counters: [nr] read locks and [nw] write locks are held or have been
    handed to a thread that is about to run, and [Qr] and [Qw] are queued. *)
Record counts (r : rwlock) (Qr Qw : list tid) (nr nw : Z) : Prop := Counts {
  c_lock : rw_lock r = false;
  c_ne : readerqueue r <> writerqueue r;
  c_readers : readers r = nr;
  c_nr : 0 <= nr < 2 ^ 31;
  c_nw : 0 <= nw <= 1;
  c_excl : nw = 1 -> nr = 0;
  c_held : rw_held r = negb (nr + nw =? 0);
  c_free : rw_held r = false -> Qr = [] /\ Qw = [];
  c_rq : 0 < nr -> Qr = []
}.

Section invariant.
Context `{!WaitQueues M, !WaitQueueLaws M}.
Implicit Types (s : sys M) (r : rwlock) (w : M) (Q : place -> list tid) (G : kind -> list tid).

Definition waiting s Q (k : kind) : list tid := Q (Queue (queue_of (rw s) k)).

Definition inv s Q G : Prop :=
  sched (queue_of (rw s)) (wq s) (pcs s) Q G /\
  counts (rw s) (waiting s Q Rd) (waiting s Q Wr)
    (Z.of_nat (length (rheld s) + length (G Rd)))
    (Z.of_nat (length (wheld s) + length (G Wr))).

Definition invariant s : Prop := exists Q G, inv s Q G.

Lemma queue_of_inj r : readerqueue r <> writerqueue r ->
  forall k k', queue_of r k = queue_of r k' -> k = k'.
Proof. intros Hne [|] [|]; cbn; congruence. Qed.

(** What the functions see of the queues. *)
Definition sees r w Qr Qw : Prop :=
  wq_head w (readerqueue r) = hd_error Qr /\ wq_head w (writerqueue r) = hd_error Qw.

Lemma inv_sees s Q G : inv s Q G -> sees (rw s) (wq s) (waiting s Q Rd) (waiting s Q Wr).
Proof. intros [S _]. split; apply wq_head_spec, S. Qed.

Lemma assert_free_ok r w Qr Qw :
  sees r w Qr Qw -> Qr = [] -> Qw = [] -> readers r = 0 -> assert_free r w = Ret tt.
Proof.
  intros [H1 H2] -> -> H3. unfold assert_free, queue_empty. now rewrite H1, H2, H3.
Qed.

(** An acquisition of a read lock: it is had at once unless there is a writer. *)
Lemma rdlock_ok t r w Qr Qw nr nw :
  counts r Qr Qw nr nw -> sees r w Qr Qw -> nr < 2 ^ 31 - 1 ->
  pthread_rwlock_rdlock t r w =
    if nw =? 0 then Ret (Rw true false (nr + 1) (readerqueue r) (writerqueue r), w, RReturn None)
    else w' ← wq_enqueue w (readerqueue r) t; Ret (r, w', RSleep).
Proof.
  intros C H Hb. destruct C, r as [h l n q q']; cbn in *; subst.
  unfold pthread_rwlock_rdlock, __pthread_rwlock_timedrdlock_enter. cbn.
  destruct (nr + nw =? 0) eqn:E; cbn.
  - destruct c_free0 as [-> ->]; [done|]. rewrite (assert_free_ok _ _ [] []); [|done|done..|cbn; lia].
    cbn. rewrite (proj2 (Z.eqb_eq nw 0)) by lia. now replace (nr + 1) with 1 by lia.
  - destruct (0 <? nr) eqn:En.
    + rewrite (proj2 (Z.eqb_eq nw 0)) by lia. destruct H as [H1 _]. cbn in H1. unfold queue_empty. cbn. rewrite H1.
      rewrite c_rq0 by lia. cbn. rewrite i32_small by lia. done.
    + rewrite (proj2 (Z.eqb_neq nw 0)) by lia. rewrite (proj2 (Z.eqb_eq nr 0)) by lia. done.
Qed.

Lemma wrlock_ok t r w Qr Qw nr nw :
  counts r Qr Qw nr nw -> sees r w Qr Qw ->
  pthread_rwlock_wrlock t r w =
    if nr + nw =? 0 then Ret (Rw true false nr (readerqueue r) (writerqueue r), w, RReturn None)
    else w' ← wq_enqueue w (writerqueue r) t; Ret (r, w', RSleep).
Proof.
  intros C H. destruct C, r as [h l n q q']; cbn in *; subst.
  unfold pthread_rwlock_wrlock, __pthread_rwlock_timedwrlock_enter. cbn.
  destruct (nr + nw =? 0) eqn:E; cbn; [|done].
  destruct c_free0 as [-> ->]; [done|]. rewrite (assert_free_ok _ _ [] []); [done|done|done..|cbn; lia].
Qed.

Lemma tryrdlock_ok r w Qr Qw nr nw :
  counts r Qr Qw nr nw -> sees r w Qr Qw -> nr < 2 ^ 31 - 1 ->
  pthread_rwlock_tryrdlock r w =
    if nw =? 0 then Ret (Rw true false (nr + 1) (readerqueue r) (writerqueue r), RReturn None)
    else Ret (r, RReturn (Some EBUSY)).
Proof.
  intros C H Hb. destruct C, r as [h l n q q']; cbn in *; subst.
  unfold pthread_rwlock_tryrdlock. cbn. destruct (nr + nw =? 0) eqn:E; cbn.
  - destruct c_free0 as [-> ->]; [done|]. rewrite (assert_free_ok _ _ [] []); [|done|done..|cbn; lia].
    cbn. rewrite (proj2 (Z.eqb_eq nw 0)) by lia. now replace (nr + 1) with 1 by lia.
  - destruct (0 <? nr) eqn:En.
    + rewrite (proj2 (Z.eqb_eq nw 0)) by lia. destruct H as [H1 _]. cbn in H1. unfold queue_empty. cbn. rewrite H1.
      rewrite c_rq0 by lia. cbn. rewrite i32_small by lia. done.
    + rewrite (proj2 (Z.eqb_neq nw 0)) by lia. done.
Qed.

Lemma trywrlock_ok r w Qr Qw nr nw :
  counts r Qr Qw nr nw -> sees r w Qr Qw ->
  pthread_rwlock_trywrlock r w =
    if nr + nw =? 0 then Ret (Rw true false nr (readerqueue r) (writerqueue r), RReturn None)
    else Ret (r, RReturn (Some EBUSY)).
Proof.
  intros C H. destruct C, r as [h l n q q']; cbn in *; subst.
  unfold pthread_rwlock_trywrlock. cbn. destruct (nr + nw =? 0) eqn:E; cbn; [|done].
  destruct c_free0 as [-> ->]; [done|]. rewrite (assert_free_ok _ _ [] []); [done|done|done..|cbn; lia].
Qed.

(** A release: to the other readers, to a writer, to all readers, to nobody. *)
Lemma rw_unlock_ok fuel r w Qr Qw nr nw :
  counts r Qr Qw nr nw -> sees r w Qr Qw -> 0 < nr + nw ->
  pthread_rwlock_unlock fuel r w =
    let r0 := Rw true false 0 (readerqueue r) (writerqueue r) in
    if 1 <? nr then Ret (set_readers (nr - 1) r0, w, RReturn None)
    else match Qw, Qr with
    | u :: _, _ => w' ← wq_dequeue w u; Ret (r0, w', RWake u)
    | [], u :: _ =>
        n ← wq_count fuel w (Some u);
        Ret (set_readers (i32 n) r0, wq_detach w (readerqueue r), RBroadcast (Some u))
    | [], [] => Ret (set_held false r0, w, RReturn None)
    end.
Proof.
  intros C [H1 H2] Hp. destruct C, r as [h l n q q']; cbn in *; subst.
  unfold pthread_rwlock_unlock. rewrite (proj2 (Z.eqb_neq (nr + nw) 0)) by lia. cbn.
  destruct (1 <? nr) eqn:E; cbn; [done|].
  assert (Hn : nr = 1 \/ nr = 0) by lia.
  destruct Hn as [-> | ->]; cbn; rewrite H2; (destruct Qw as [|u Qw]; cbn; [|done]);
    rewrite H1; now destruct Qr.
Qed.


(** ** Every step preserves it *)

Lemma rw_initial_inv s : initial s -> invariant s.
Proof.
  intros [(q&q'&a&m&Hne&E) Hw Hp [E1 E2]]. exists (fun _ => []), (fun _ => []). split.
  - rewrite Hp. apply sched_initial; [|done]. apply queue_of_inj. now rewrite E.
  - rewrite E1, E2, E. now constructor.
Qed.

(** What happens to the lengths of the lists of chosen threads. *)
Lemma wake_inv s Q G w p :
  inv s Q G -> wake_step (wq s, pcs s) (w, p) ->
  invariant (Sys (rw s) w p (rheld s) (wheld s)).
Proof.
  intros [S C] Hs. destruct (sched_wake_step _ _ _ _ _ _ _ S Hs) as (Q'&S'&HQ).
  exists Q', G. split; [done|]. unfold waiting in *. cbn in *. rewrite !HQ. exact C.
Qed.

Lemma resume_inv s Q G t k :
  inv s Q G -> pcs s t = Woken k ->
  invariant (Sys (rw s) (wq s) (<[t := Run]> (pcs s))
               (match k with Rd => t :: rheld s | Wr => rheld s end)
               (match k with Rd => wheld s | Wr => t :: wheld s end)).
Proof.
  intros [S C] Ht. destruct (sched_resume _ _ _ _ _ _ _ S Ht) as (l1&l2&E&S').
  exists Q, (<[k := l1 ++ l2]> G). split; [done|]. unfold waiting in *. cbn in *.
  assert (El : length (G k) = Datatypes.S (length (l1 ++ l2))) by (rewrite E, !length_app; cbn; lia).
  destruct k; rewrite fn_lookup_insert, fn_lookup_insert_ne by done; cbn [length];
    [rewrite Nat.add_succ_l, <- Nat.add_succ_r, <- El|rewrite (Nat.add_succ_l (length (wheld s))), <- Nat.add_succ_r, <- El];
    exact C.
Qed.

Lemma block_inv s Q G t k w' :
  inv s Q G -> pcs s t = Run -> wq_enqueue (wq s) (queue_of (rw s) k) t = Ret w' ->
  rw_held (rw s) = true -> (k = Rd -> readers (rw s) = 0) ->
  invariant (Sys (rw s) w' (<[t := Blocked k false]> (pcs s)) (rheld s) (wheld s)).
Proof.
  intros [S C] Ht E Hh Hk.
  destruct (sched_enqueue _ _ _ _ _ _ k S Ht) as (w2&E2&S').
  rewrite E in E2. injection E2 as <-. eexists _, G. split; [exact S'|].
  destruct C. unfold waiting in *. cbn in *.
  constructor; cbn; try done; [congruence|]. intros Hn. destruct k.
  - specialize (Hk eq_refl). lia.
  - cbn. rewrite fn_lookup_insert_ne by congruence. auto.
Qed.

(** A call that ends at once, with the counters changed. *)
Lemma return_inv s Q G t r rh wh :
  inv s Q G -> pcs s t = Run -> queue_of r = queue_of (rw s) ->
  counts r (waiting s Q Rd) (waiting s Q Wr)
    (Z.of_nat (length rh + length (G Rd))) (Z.of_nat (length wh + length (G Wr))) ->
  invariant (Sys r (wq s) (<[t := Run]> (pcs s)) rh wh).
Proof.
  intros [S C] Ht E C'. exists Q, G. split; cbn.
  - rewrite E. now apply sched_stay.
  - unfold waiting in *. cbn [rw rheld wheld]. rewrite E. exact C'.
Qed.

(** The readers handed the lock: their queue becomes part of the chosen. *)
Lemma broadcast_inv s Q G t rh wh r u :
  inv s Q G -> pcs s t = Run -> waiting s Q Wr = [] ->
  hd_error (waiting s Q Rd) = Some u ->
  r = Rw true false (Z.of_nat (length (waiting s Q Rd))) (readerqueue (rw s)) (writerqueue (rw s)) ->
  (length rh + length (G Rd) = 0)%nat -> (length wh + length (G Wr) = 0)%nat ->
  Z.of_nat (length (waiting s Q Rd)) < 2 ^ 31 ->
  invariant (Sys r (wq_detach (wq s) (readerqueue (rw s))) (<[t := Walk (Some u)]> (pcs s)) rh wh).
Proof.
  intros [S C] Ht Hw Hu -> Hr Hwr Hb. assert (Hne := c_ne _ _ _ _ _ C).
  assert (S' := sched_detach _ _ _ _ _ _ Rd S Ht). fold (waiting s Q Rd) in S'. rewrite Hu in S'.
  eexists _, _. split; [exact S'|]. unfold waiting in *. cbn in *.
  assert (Hl : (0 < length (Q (Queue (readerqueue (rw s)))))%nat)
    by (destruct (Q (Queue (readerqueue (rw s)))); cbn in *; [done|lia]).
  rewrite (fn_lookup_insert_ne G Rd Wr) by done. rewrite fn_lookup_insert, length_app.
  constructor; cbn; try done; try lia.
  - apply held_nonzero. lia.
  - intros _. rewrite fn_lookup_insert_ne, fn_lookup_insert by done. done.
Qed.

Lemma handoff_inv s Q G t rh wh u l w' :
  inv s Q G -> pcs s t = Run -> waiting s Q Wr = u :: l ->
  wq_dequeue (wq s) u = Ret w' ->
  (length rh + length (G Rd) = 0)%nat -> (length wh + length (G Wr) = 0)%nat ->
  invariant (Sys (Rw true false 0 (readerqueue (rw s)) (writerqueue (rw s))) w'
               (<[t := Waking u]> (pcs s)) rh wh).
Proof.
  intros [S C] Ht Hw E Hr Hwr. assert (Hne := c_ne _ _ _ _ _ C).
  destruct (sched_handoff _ _ _ _ _ _ Wr _ _ S Ht Hw) as (w2&E2&S').
  rewrite E in E2. injection E2 as <-.
  eexists _, _. split; [exact S'|]. unfold waiting in *. cbn in *.
  rewrite (fn_lookup_insert_ne G Wr Rd) by done. rewrite (fn_lookup_insert G Wr). cbn.
  constructor; cbn; try done; try lia.
  apply held_nonzero. lia.
Qed.

Lemma count_readers s Q u l fuel :
  wq_rep (wq s) Q -> waiting s Q Rd = u :: l ->
  wq_count fuel (wq s) (Some u) =
    if decide (fuel <= length (u :: l))%nat then Crash out_of_fuel
    else Ret (Z.of_nat (length (u :: l))).
Proof.
  intros Hw Eq. unfold waiting in Eq. assert (Hd := Eq). apply (f_equal hd_error) in Hd.
  cbn [hd_error] in Hd. rewrite <- Hd, <- Eq.
  case_decide; [now apply wq_count_fuel|apply wq_count_spec; [done|lia]].
Qed.

(** A release by a holder: [rh] and [wh] are the holders without it. *)
Lemma unlock_inv s Q G t fuel r w e rh wh k :
  inv s Q G -> pcs s t = Run -> Z.of_nat fuel < 2 ^ 31 ->
  (length rh + length wh + 1 = length (rheld s) + length (wheld s))%nat ->
  (length rh <= length (rheld s))%nat -> (length wh <= length (wheld s))%nat ->
  pthread_rwlock_unlock fuel (rw s) (wq s) = Ret (r, w, e) ->
  invariant (Sys r w (<[t := next_pc k false e]> (pcs s)) rh wh).
Proof.
  intros I Ht Hf Hl Hlr Hlw E. assert (Hs := inv_sees _ _ _ I). assert (I' := I).
  destruct I' as [S C].
  rewrite (rw_unlock_ok _ _ _ _ _ _ _ C Hs) in E by lia. cbn zeta in E.
  assert (Hnw := c_nw _ _ _ _ _ C). assert (Hx := c_excl _ _ _ _ _ C).
  case_if_in E.
  - injection E as <- <- <-. cbn [next_pc]. apply (return_inv _ Q G); try done.
    destruct C. unfold set_readers. cbn. constructor; cbn; try done; try lia.
    + apply held_nonzero. lia.
    + intros _. apply c_rq0. lia.
  - destruct (waiting s Q Wr) as [|u l] eqn:Ew.
    + destruct (waiting s Q Rd) as [|u l] eqn:Er.
      * injection E as <- <- <-. apply (return_inv _ Q G); try done.
        rewrite Ew, Er. destruct C. constructor; cbn; try done; try lia.
        symmetry. apply negb_false_iff, Z.eqb_eq. lia.
      * rewrite (count_readers s Q u l) in E by (done || apply S). case_decide; [done|]. cbn [mbind exec_bind] in E. injection E as <- <- <-.
        cbn [length] in *. rewrite i32_small by lia. cbn [next_pc].
        apply (broadcast_inv s Q G); rewrite ?Er; try done; cbn [length]; lia.
    + destruct (wq_dequeue (wq s) u) as [w'|] eqn:Ed; [|done]. cbn [mbind exec_bind] in E.
      injection E as <- <- <-. eapply handoff_inv; eauto; lia.
Qed.

Lemma counts_read r Qr Qw nr nw nr' :
  counts r Qr Qw nr nw -> nw = 0 -> nr' = nr + 1 -> nr' < 2 ^ 31 ->
  counts (Rw true false (nr + 1) (readerqueue r) (writerqueue r)) Qr Qw nr' nw.
Proof.
  intros [] ? ? ?. constructor; cbn; try done; try lia.
  intros _. destruct (decide (nr = 0)); [|apply c_rq0; lia].
  apply c_free0. rewrite c_held0. apply negb_false_iff, Z.eqb_eq. lia.
Qed.

Lemma counts_write r Qr Qw nr nw nw' :
  counts r Qr Qw nr nw -> nr + nw = 0 -> nw' = nw + 1 ->
  counts (Rw true false nr (readerqueue r) (writerqueue r)) Qr Qw nr nw'.
Proof.
  intros [] ? ?. constructor; cbn; try done; try lia.
Qed.

Lemma rw_step_invariant s s' : invariant s -> step false s s' -> invariant s'.
Proof.
  intros (Q&G&I) Hs. assert (H := inv_sees _ _ _ I). destruct (I) as [S C].
  assert (Hh := c_held _ _ _ _ _ C). assert (Hr := c_readers _ _ _ _ _ C).
  inversion Hs as [? t ab r w e Ht _ Hb Hab E|? t ab r w e Ht _ Hab E|? t r e Ht _ Hb E|? t r e Ht _ E
    |? t l1 l2 fuel r w e Ht _ El Hf E|? t l1 l2 fuel r w e Ht _ El Hf E|? w p Hw|? t Ht _|? t Ht _
    |? t k Ht|? t k r w Ht]; subst s0 s'.
  - destruct Hab as [->|]; [|done]. fold (pthread_rwlock_rdlock t) in E.
    rewrite (rdlock_ok _ _ _ _ _ _ _ C H) in E by lia. case_if_in E.
    + injection E as <- <- <-. apply (return_inv _ Q G); try done.
      eapply counts_read; eauto; cbn; lia.
    + destruct (wq_enqueue _ _ _) as [w'|] eqn:Ew; [|done]. cbn [mbind exec_bind] in E.
      injection E as <- <- <-. eapply (block_inv s Q G t Rd); eauto.
      * rewrite Hh. apply negb_true_iff, Z.eqb_neq. lia.
      * intros _. assert (Hx := c_excl _ _ _ _ _ C). assert (Hnw := c_nw _ _ _ _ _ C). lia.
  - destruct Hab as [->|]; [|done]. fold (pthread_rwlock_wrlock t) in E.
    rewrite (wrlock_ok _ _ _ _ _ _ _ C H) in E. case_if_in E.
    + injection E as <- <- <-. apply (return_inv _ Q G); try done.
      eapply counts_write; eauto; cbn; lia.
    + destruct (wq_enqueue _ _ _) as [w'|] eqn:Ew; [|done]. cbn [mbind exec_bind] in E.
      injection E as <- <- <-. apply (block_inv s Q G t Wr); try done.
  - rewrite (tryrdlock_ok _ _ _ _ _ _ C H) in E by lia.
    case_if_in E; injection E as <- <-; apply (return_inv _ Q G); try done.
    eapply counts_read; eauto; cbn; lia.
  - rewrite (trywrlock_ok _ _ _ _ _ _ C H) in E.
    case_if_in E; injection E as <- <-; apply (return_inv _ Q G); try done.
    eapply counts_write; eauto; cbn; lia.
  - eapply unlock_inv; eauto; rewrite ?El, ?length_app; cbn; lia.
  - eapply unlock_inv; eauto; rewrite ?El, ?length_app; cbn; lia.
  - eapply wake_inv; eauto.
  - now apply (resume_inv s Q G t Rd).
  - now apply (resume_inv s Q G t Wr).
  - now apply (s_untimed _ _ _ _ _ S) in Ht.
  - now apply (s_in_time _ _ _ _ _ S) in Ht.
Qed.

Lemma rw_reachable_invariant s : reachable false s -> invariant s.
Proof.
  intros (s0&H0&Hr). apply rw_initial_inv in H0.
  induction Hr as [|s1 s2 s3 Hs _ IH]; eauto using rw_step_invariant.
Qed.

(** ** Correctness of untimed use *)

(** C12: readers or one writer.  However rdlock, wrlock, tryrdlock, trywrlock and
    unlock calls without a time limit interleave (unlocks by holders, fewer than
    2^31 - 1 readers), at most one write lock
    is held, none while a read lock is, and [__held] is set while any lock is.
    The reader count is the number of read locks that are held plus the queued
    readers that an unlock has let in and that have not run yet, and none of
    these is let in while a writer holds the lock or has been handed it.  The calls
    timedrdlock and timedwrlock are left out: with them the state is broken
    ([rwlock_timeout_leaks], [rwlock_einval_wedges]). *)
Theorem rwlock_exclusion s :
  reachable false s ->
  (length (wheld s) <= 1)%nat /\
  (wheld s <> [] -> rheld s = [] /\ readers (rw s) = 0) /\
  (rheld s <> [] \/ wheld s <> [] -> rw_held (rw s) = true) /\
  exists R W, NoDup R /\ NoDup W /\
    (forall t, t ∈ R -> pcs s t = Woken Rd \/ pcs s t = Blocked Rd false) /\
    (forall t, t ∈ W -> pcs s t = Woken Wr \/ pcs s t = Blocked Wr false) /\
    (forall t, pcs s t = Woken Rd -> t ∈ R) /\ (forall t, pcs s t = Woken Wr -> t ∈ W) /\
    readers (rw s) = Z.of_nat (length (rheld s)) + Z.of_nat (length R) /\
    (length (wheld s) + length W <= 1)%nat /\
    (W <> [] -> rheld s = [] /\ R = []).
Proof.
  intros (Q&G&S&C)%rw_reachable_invariant. destruct C.
  assert (Hz : forall l : list tid, l <> [] -> (0 < length l)%nat) by (intros [|]; cbn; [done|lia]).
  assert (Hn : forall l : list tid, length l = 0%nat -> l = []) by (now intros [|]).
  split_and!.
  - lia.
  - intros H%Hz. split; [apply Hn; lia|lia].
  - intros H. rewrite c_held0. apply negb_true_iff, Z.eqb_neq.
    destruct H as [H%Hz|H%Hz]; lia.
  - exists (G Rd), (G Wr).
    split_and!; try apply S; try (intros t H%S; naive_solver); [lia..|].
    intros H%Hz. split; apply Hn; lia.
Qed.

Lemma unlock_returns s Q G :
  inv s Q G -> rheld s <> [] \/ wheld s <> [] ->
  forall fuel, (length (waiting s Q Rd) < fuel)%nat ->
  exists x, pthread_rwlock_unlock fuel (rw s) (wq s) = Ret x.
Proof.
  intros I Hh fuel Hf. assert (Hs := inv_sees _ _ _ I). destruct I as [S C].
  rewrite (rw_unlock_ok _ _ _ _ _ _ _ C Hs).
  2: { destruct Hh as [Hh|Hh]; [destruct (rheld s)|destruct (wheld s)]; cbn [length]; try done; lia. }
  cbn zeta. case_if; [eauto|]. destruct (waiting s Q Wr) as [|u l] eqn:Ew.
  - destruct (waiting s Q Rd) as [|u l] eqn:Er; [eauto|].
    rewrite (count_readers s Q u l) by (done || apply S). case_decide; [lia|]. cbn. eauto.
  - destruct (wq_dequeue_spec (wq s) Q (writerqueue (rw s)) [] u l) as (w'&->&_);
      [apply S|exact Ew|]. cbn. eauto.
Qed.

(** C30: in every state that rdlock, wrlock, tryrdlock, trywrlock and unlock calls
    without a time limit can reach (unlocks by holders, and fewer than 2^31 - 1
    readers), no assertion of these calls can fail and none gets stuck
    in its critical section: a running thread's lock
    and trylock calls return, so does the unlock of a holder (with enough fuel
    to count the queued readers), and the assertion after a wakeup holds for
    every thread that was woken up.  The calls timedrdlock and timedwrlock are left
    out: with them the state is broken ([rwlock_timeout_leaks],
    [rwlock_einval_wedges]). *)
Theorem rwlock_no_assertion_fails s t :
  reachable false s -> pcs s t = Run -> readers (rw s) < 2 ^ 31 - 1 ->
  (exists x, pthread_rwlock_rdlock t (rw s) (wq s) = Ret x) /\
  (exists x, pthread_rwlock_wrlock t (rw s) (wq s) = Ret x) /\
  (exists x, pthread_rwlock_tryrdlock (rw s) (wq s) = Ret x) /\
  (exists x, pthread_rwlock_trywrlock (rw s) (wq s) = Ret x) /\
  (rheld s <> [] \/ wheld s <> [] ->
     exists n, forall fuel, (n < fuel)%nat ->
     exists x, pthread_rwlock_unlock fuel (rw s) (wq s) = Ret x) /\
  (forall u k, pcs s u = Woken k -> __pthread_rwlock_woken k (rw s) = Ret tt).
Proof.
  intros (Q&G&I)%rw_reachable_invariant Ht Hb. assert (Hs := inv_sees _ _ _ I).
  destruct (I) as [S C].
  assert (He : forall k, exists w', wq_enqueue (wq s) (queue_of (rw s) k) t = Ret w').
  { intros k. destruct (sched_enqueue _ _ _ _ _ _ k S Ht) as (w'&E&_). eauto. }
  split_and!.
  - rewrite (rdlock_ok _ _ _ _ _ _ _ C Hs) by (rewrite <- (c_readers _ _ _ _ _ C); lia).
    case_if; [eauto|]. destruct (He Rd) as [w2 E2]. cbn in E2. rewrite E2. cbn. eauto.
  - rewrite (wrlock_ok _ _ _ _ _ _ _ C Hs).
    case_if; [eauto|]. destruct (He Wr) as [w2 E2]. cbn in E2. rewrite E2. cbn. eauto.
  - rewrite (tryrdlock_ok _ _ _ _ _ _ C Hs) by (rewrite <- (c_readers _ _ _ _ _ C); lia).
    case_if; eauto.
  - rewrite (trywrlock_ok _ _ _ _ _ _ C Hs). case_if; eauto.
  - intros Hh. exists (length (waiting s Q Rd)). eapply unlock_returns; eauto.
  - intros u k Hu%S. destruct C.
    assert (Hl : (0 < length (G k))%nat) by (destruct (G k); cbn; [now apply not_elem_of_nil in Hu|lia]).
    destruct k; cbn; rewrite c_readers0.
    + rewrite (proj2 (Z.ltb_lt _ _)); [done|lia].
    + rewrite (proj2 (Z.eqb_eq _ _)); [done|lia].
Qed.

Lemma rw_wake_steps s x y :
  rtc wake_step x y -> x = (wq s, pcs s) ->
  rtc (step false) s (Sys (rw s) y.1 y.2 (rheld s) (wheld s)).
Proof.
  intros Hr. revert s. induction Hr as [|x [w p] z Hs _ IH]; intros s ->; cbn.
  - now destruct s.
  - eapply rtc_l; [apply step_wake, Hs|]. exact (IH (Sys (rw s) w p (rheld s) (wheld s)) eq_refl).
Qed.

Lemma owed_runs s Q G u t :
  inv s Q G -> owes (pcs s) Q u t ->
  exists s' k, rtc (step false) s s' /\ pcs s' t = Woken k.
Proof.
  intros [S _] Ho. destruct (owed_is_woken _ _ _ _ _ _ _ S Ho) as (w&p&k&Hr&Hp).
  eexists _, k. split; [eapply rw_wake_steps; eauto|]. exact Hp.
Qed.


(** What an unlock does. While other read locks are held it only counts
    down. Otherwise the front of the writer queue, if any, is handed the lock
    and woken up, [__held] staying set; else all queued readers are let in at
    once: counted, their queue detached and walked; else the lock becomes free.
    So writers go before readers, and readers never wait behind readers. *)
Theorem rwlock_unlock_hands_over s fuel :
  reachable false s -> rheld s <> [] \/ wheld s <> [] -> Z.of_nat fuel < 2 ^ 31 ->
  exists Qr Qw Q, wq_rep (wq s) Q /\
    Q (Queue (readerqueue (rw s))) = Qr /\ Q (Queue (writerqueue (rw s))) = Qw /\
    ((length Qr < fuel)%nat ->
     exists r w e, pthread_rwlock_unlock fuel (rw s) (wq s) = Ret (r, w, e) /\
       rw_lock r = false /\
       if 1 <? readers (rw s) then
         e = RReturn None /\ readers r = readers (rw s) - 1 /\ rw_held r = true /\ w = wq s
       else match Qw, Qr with
       | u :: l, _ => e = RWake u /\ readers r = 0 /\ rw_held r = true /\
                      wq_rep w (<[Queue (writerqueue (rw s)) := l]> Q)
       | [], u :: _ => e = RBroadcast (Some u) /\ readers r = Z.of_nat (length Qr) /\
                       rw_held r = true /\ w = wq_detach (wq s) (readerqueue (rw s))
       | [], [] => e = RReturn None /\ readers r = 0 /\ rw_held r = false /\ w = wq s
       end).
Proof.
  intros (Q&G&I)%rw_reachable_invariant Hh Hb. assert (Hs := inv_sees _ _ _ I).
  destruct I as [S C]. exists (waiting s Q Rd), (waiting s Q Wr), Q.
  split_and!; [apply S|done..|]. intros Hf.
  rewrite (rw_unlock_ok _ _ _ _ _ _ _ C Hs).
  2: { destruct Hh as [Hh|Hh]; [destruct (rheld s)|destruct (wheld s)]; cbn [length]; try done; lia. }
  cbn zeta. rewrite <- (c_readers _ _ _ _ _ C). case_if; [eexists _, _, _; split; [reflexivity|done]|].
  destruct (waiting s Q Wr) as [|u l] eqn:Ew.
  - destruct (waiting s Q Rd) as [|u l] eqn:Er; [eexists _, _, _; split; [reflexivity|done]|].
    rewrite (count_readers s Q u l) by (done || apply S). case_decide; [lia|]. cbn [mbind exec_bind].
    rewrite i32_small by lia. eexists _, _, _. split; [reflexivity|done].
  - destruct (wq_dequeue_spec (wq s) Q (writerqueue (rw s)) [] u l) as (w'&->&Hw);
      [apply S|exact Ew|]. eexists _, _, _. split; [reflexivity|done].
Qed.

End invariant.

(** ** A time limit that is not valid *)

Lemma wedged `{!WaitQueues M} (s s' : sys M) :
  rtc (step true) s s' -> rw_lock (rw s) = true -> rw s' = rw s.
Proof.
  intros Hr. induction Hr as [|s1 s2 s3 Hs _ IH]; [done|]. intros Hl.
  assert (E : rw s2 = rw s1) by (inversion Hs; subst; try congruence; done).
  rewrite IH; congruence.
Qed.

(** A timed call with an invalid time limit on a busy lock returns EINVAL with
    the spin lock taken, and no later step of any thread changes the lock: it is
    unusable from then on. *)
Theorem rwlock_einval_wedges `{!WaitQueues M} t abstime r (w : M) :
  rw_held r = true -> readers r = 0 -> bad_abstime abstime = true ->
  __pthread_rwlock_timedrdlock_enter t abstime r w
    = Ret (set_lock true r, w, RReturn (Some EINVAL)) /\
  __pthread_rwlock_timedwrlock_enter t abstime r w
    = Ret (set_lock true r, w, RReturn (Some EINVAL)) /\
  forall pcs rh wh s', rtc (step true) (Sys (set_lock true r) w pcs rh wh) s' ->
    rw_lock (rw s') = true.
Proof.
  intros Hh Hr Hb. unfold __pthread_rwlock_timedrdlock_enter, __pthread_rwlock_timedwrlock_enter.
  cbn. rewrite Hh, Hr, Hb. split_and!; [done..|].
  intros p rh wh s' Hs. now rewrite (wedged _ _ Hs).
Qed.

(** ** A concrete run: a writer, then two queued readers and a queued writer *)

Import PtQueue.

Definition sample : sys qmem := Sys (_pthread_rwlock_init 0 1 false true).1 empty_qmem (fun _ => Run) [] [].

Definition do_wrlock (abstime : option timespec) (s : sys qmem) (t : tid) : sys qmem :=
  match __pthread_rwlock_timedwrlock_enter t abstime (rw s) (wq s) with
  | Ret (r, w, e) =>
      Sys r w (<[t := next_pc Wr (is_timed abstime) e]> (pcs s)) (rheld s) (got t e (wheld s))
  | Crash _ => s
  end.

Definition do_rdlock (s : sys qmem) (t : tid) : sys qmem :=
  match pthread_rwlock_rdlock t (rw s) (wq s) with
  | Ret (r, w, e) =>
      Sys r w (<[t := next_pc Rd false e]> (pcs s)) (got t e (rheld s)) (wheld s)
  | Crash _ => s
  end.

Definition do_wrunlock (s : sys qmem) (t : tid) : sys qmem :=
  match pthread_rwlock_unlock 10 (rw s) (wq s) with
  | Ret (r, w, e) => Sys r w (<[t := next_pc Wr false e]> (pcs s)) (rheld s) []
  | Crash _ => s
  end.

Lemma rw_sample_reachable b : reachable b sample.
Proof.
  exists sample. split; [|done]. constructor; try done; [now exists 0, 1, false, true|apply empty_rep].
Qed.

Lemma do_wrlock_reachable b s t abstime :
  reachable b s -> pcs s t = Run -> rw_lock (rw s) = false -> abstime = None \/ b = true ->
  reachable b (do_wrlock abstime s t).
Proof.
  intros (s0&H0&Hr) Ht Hl Ha. unfold do_wrlock.
  destruct (__pthread_rwlock_timedwrlock_enter _ _ _ _) as [[[r w] e]|] eqn:E; [|now exists s0].
  exists s0. split; [done|]. eapply rtc_r; [done|]. now apply step_wrlock.
Qed.

Lemma do_rdlock_reachable b s t :
  reachable b s -> pcs s t = Run -> rw_lock (rw s) = false -> readers (rw s) < 2 ^ 31 - 1 ->
  reachable b (do_rdlock s t).
Proof.
  intros (s0&H0&Hr) Ht Hl Hn. unfold do_rdlock.
  destruct (pthread_rwlock_rdlock _ _ _) as [[[r w] e]|] eqn:E; [|now exists s0].
  exists s0. split; [done|]. eapply rtc_r; [done|]. now apply (step_rdlock b s t None); auto.
Qed.

Lemma do_wrunlock_reachable b s t :
  reachable b s -> pcs s t = Run -> rw_lock (rw s) = false -> wheld s = [t] ->
  reachable b (do_wrunlock s t).
Proof.
  intros (s0&H0&Hr) Ht Hl Hw. unfold do_wrunlock.
  destruct (pthread_rwlock_unlock _ _ _) as [[[r w] e]|] eqn:E; [|now exists s0].
  exists s0. split; [done|]. eapply rtc_r; [done|].
  now apply (step_wrunlock b s t [] [] 10).
Qed.

Definition contended : sys qmem :=
  do_wrlock None (do_rdlock (do_rdlock (do_wrlock None sample 1) 2) 3) 4.

Lemma rw_contended_reachable : reachable false contended.
Proof.
  unfold contended. apply do_wrlock_reachable; [|done..|now left].
  apply do_rdlock_reachable; [|done..]. apply do_rdlock_reachable; [|done..].
  apply do_wrlock_reachable; [|done..|now left]. apply rw_sample_reachable.
Qed.

Theorem rwlock_exclusion_witness :
  (length (wheld contended) <= 1)%nat /\ rheld contended = [] /\ wheld contended = [1].
Proof.
  destruct (rwlock_exclusion contended rw_contended_reachable) as (H1&H2&_).
  split; [exact H1|]. split; [apply H2; discriminate|reflexivity].
Defined.

Theorem rwlock_no_assertion_fails_witness :
  exists x, pthread_rwlock_rdlock 5 (rw contended) (wq contended) = Ret x.
Proof.
  destruct (rwlock_no_assertion_fails contended 5 rw_contended_reachable eq_refl eq_refl) as (H&_).
  exact H.
Defined.


Theorem rwlock_unlock_hands_over_witness :
  exists Qr Qw Q, wq_rep (wq contended) Q /\
    Q (Queue 0) = Qr /\ Q (Queue 1) = Qw /\ ((length Qr < 10)%nat ->
    exists r w e, pthread_rwlock_unlock 10 (rw contended) (wq contended) = Ret (r, w, e)).
Proof.
  destruct (rwlock_unlock_hands_over contended 10 rw_contended_reachable) as (Qr&Qw&Q&Hw&E1&E2&H).
  - right. discriminate.
  - reflexivity.
  - exists Qr, Qw, Q. split; [exact Hw|]. split; [exact E1|]. split; [exact E2|].
    intros Hl. destruct (H Hl) as (r&w&e&E&_). exists r, w, e. exact E.
Defined.

Theorem rwlock_einval_wedges_witness :
  __pthread_rwlock_timedrdlock_enter 5 (Some (Timespec 0 (-1))) (rw contended) (wq contended)
    = Ret (set_lock true (rw contended), wq contended, RReturn (Some EINVAL)).
Proof.
  destruct (rwlock_einval_wedges 5 (Some (Timespec 0 (-1))) (rw contended) (wq contended)
              eq_refl eq_refl eq_refl) as (H&_).
  exact H.
Defined.

(** Thread 2 times out between the unlock that hands it the lock and the
    wakeup. *)
Definition race : sys qmem :=
  let s := do_wrlock (Some (Timespec 0 0)) (do_wrlock None sample 1) 2 in
  let s := do_wrunlock s 1 in
  let s := Sys (rw s) (wq s) (<[2 := TimedOut Wr]> (pcs s)) (rheld s) (wheld s) in
  match __pthread_rwlock_timeout 2 (rw s) (wq s) with
  | Ret (r, w) => Sys r w (<[2 := Run]> (pcs s)) (rheld s) (wheld s)
  | Crash _ => s
  end.

(** That race leaks the lock: nobody holds it or waits for it, yet [__held]
    stays set, so that every later lock call sleeps and every trylock is
    refused. *)
Theorem rwlock_timeout_leaks :
  reachable true race /\ rheld race = [] /\ wheld race = [] /\
  rw_held (rw race) = true /\ pcs race 2 = Run /\ pcs race 1 = Waking 2 /\
  pthread_rwlock_tryrdlock (rw race) (wq race) = Ret (rw race, RReturn (Some EBUSY)) /\
  pthread_rwlock_trywrlock (rw race) (wq race) = Ret (rw race, RReturn (Some EBUSY)).
Proof.
  split_and!; try reflexivity. unfold race.
  set (s := do_wrunlock _ 1).
  assert (R : reachable true s).
  { subst s. apply do_wrunlock_reachable; [|done..].
    do 2 (apply do_wrlock_reachable; [|done..|auto]). apply rw_sample_reachable. }
  destruct R as (s0&H0&Hr).
  assert (Hr2 : rtc (step true) s0 (Sys (rw s) (wq s) (<[2 := TimedOut Wr]> (pcs s)) (rheld s) (wheld s)))
    by (eapply rtc_r; [done|]; now apply step_timeout).
  exists s0. split; [done|]. cbv zeta.
  destruct (__pthread_rwlock_timeout _ _ _) as [[r w]|] eqn:E; [|done].
  eapply rtc_r; [done|].
  now apply (step_timedout true (Sys (rw s) (wq s) (<[2 := TimedOut Wr]> (pcs s)) _ _) 2 Wr).
Qed.

End PtRwlock.
