(* ===== verification/PtBarrier.v ===== *)
(** * POSIX barriers (libpthread/sysdeps/generic/pt-barrier-*.c)

    A barrier counts down how many threads are still missing.  The threads of a
    round queue themselves until the last one arrives, which resets the count,
    detaches the queue under the spin lock and wakes the others up after it has
    dropped the lock, while threads may already arrive for the next round. *)

From S2P Require Import Prelude Ring PtQueue PtSched.

Module PtBarrier.

Import PtSched.

Record barrierattr := Barrierattr { pshared : Z }.

(** [struct __pthread_barrier]; [b_queue] is the address of [queue]. *)
Record barrier := Bar {
  b_lock : bool;
  b_queue : Z;
  pending : Z;
  count : Z;
  b_attr : option barrierattr
}.

Definition set_lock (l : bool) (b : barrier) : barrier :=
  Bar l (b_queue b) (pending b) (count b) (b_attr b).
Definition set_pending (n : Z) (b : barrier) : barrier :=
  Bar (b_lock b) (b_queue b) n (count b) (b_attr b).
Definition set_attr (a : option barrierattr) (b : barrier) : barrier :=
  Bar (b_lock b) (b_queue b) (pending b) (count b) a.

(** [pthread_barrier_init]; [malloc] says whether the allocation succeeds.  The
    closing parenthesis of the [memcmp] is after the [== 0], so that it compares
    no bytes and is 0: attributes that are given are always copied. *)
Definition pthread_barrier_init (queue : Z) (attr : option barrierattr) (malloc : bool)
    (count : Z) : option barrier * option errno :=
  if count =? 0 then (None, Some EINVAL)
  else
    let b := Bar false queue count count None in
    match attr with
    | None => (Some b, None)
    | Some a => if malloc then (Some (set_attr (Some a) b), None) else (Some b, Some ENOMEM)
    end.

(** How the critical section of a wait ends: the caller goes to sleep, after
    which it returns 0, or it walks the chain that starts with [x] and returns
    PTHREAD_BARRIER_SERIAL_THREAD, or it returns that at once. *)
Inductive b_ending :=
| BSleep
| BBroadcast (x : option tid)
| BReturn.

Section with_queues.
Context `{!WaitQueues M}.

Definition pthread_barrier_wait (self : tid) (b : barrier) (w : M)
  : exec (barrier * M * b_ending) :=
  let b := set_lock true b in
  let b := set_pending (u32 (pending b - 1)) b in
  if pending b =? 0 then
    let b := set_pending (count b) b in
    if 1 <? count b then
      Ret (set_lock false b, wq_detach w (b_queue b), BBroadcast (wq_head w (b_queue b)))
    else Ret (b, w, BReturn)
  else
    w ← wq_enqueue w (b_queue b) self;
    Ret (set_lock false b, w, BSleep).

End with_queues.

(** ** The system: any number of threads and one barrier *)

(** [arrived] counts the calls of [pthread_barrier_wait] and [serial] those that
    end with PTHREAD_BARRIER_SERIAL_THREAD; [round t] is the round of the last
    call of [t], -1 before its first. *)
Record sys (M : Type) := Sys {
  bar : barrier;
  wq : M;
  pcs : tid -> pc unit;
  arrived : Z;
  serial : Z;
  round : tid -> Z
}.
Arguments Sys {M}. Arguments bar {M}. Arguments wq {M}. Arguments pcs {M}.
Arguments arrived {M}. Arguments serial {M}. Arguments round {M}.

Definition next_pc (e : b_ending) : pc unit :=
  match e with BSleep => Blocked tt false | BBroadcast x => Walk x | BReturn => Run end.

(** 1 for the serial thread. *)
Definition serial_of (e : b_ending) : Z := match e with BSleep => 0 | _ => 1 end.

Inductive step `{!WaitQueues M} : sys M -> sys M -> Prop :=
| step_wait s t b w e :
    pcs s t = Run -> b_lock (bar s) = false ->
    pthread_barrier_wait t (bar s) (wq s) = Ret (b, w, e) ->
    step s (Sys b w (<[t := next_pc e]> (pcs s)) (arrived s + 1) (serial s + serial_of e)
              (<[t := arrived s / count (bar s)]> (round s)))
| step_wake s w p :
    wake_step (wq s, pcs s) (w, p) ->
    step s (Sys (bar s) w p (arrived s) (serial s) (round s))
| step_woken s t :
    pcs s t = Woken tt ->
    step s (Sys (bar s) (wq s) (<[t := Run]> (pcs s)) (arrived s) (serial s) (round s)).

(** A barrier that was just initialised for [n] threads. *)
Record initial `{!WaitQueues M} (n : Z) (s : sys M) : Prop := Initial {
  init_bar : exists q a m, (pthread_barrier_init q a m n).1 = Some (bar s);
  init_wq : wq_rep (wq s) (fun _ => []);
  init_pcs : pcs s = fun _ => Run;
  init_counts : arrived s = 0 /\ serial s = 0 /\ forall t, round s t = -1
}.

Definition reachable `{!WaitQueues M} (n : Z) (s : sys M) : Prop :=
  exists s0, initial n s0 /\ rtc step s0 s.

(** ** The invariant, for two threads or more *)

Section invariant.
Context `{!WaitQueues M, !WaitQueueLaws M}.
Implicit Types (s : sys M) (w : M) (Q : place -> list tid) (G : unit -> list tid).

Definition queue_of (b : barrier) (_ : unit) : Z := b_queue b.

Definition waiting s Q : list tid := Q (Queue (b_queue (bar s))).

Record inv (n : Z) s Q G : Prop := Inv {
  i_sched : sched (queue_of (bar s)) (wq s) (pcs s) Q G;
  i_lock : b_lock (bar s) = false;
  i_count : count (bar s) = n;
  i_pending : pending (bar s) = n - arrived s mod n;
  i_length : Z.of_nat (length (waiting s Q)) = arrived s mod n;
  i_serial : serial s = arrived s / n;
  i_arrived : 0 <= arrived s;
  i_queued : forall t, t ∈ waiting s Q -> round s t = arrived s / n;
  i_passed : forall t, t ∉ waiting s Q -> (round s t + 1) * n <= arrived s
}.

Definition invariant n s : Prop := exists Q G, inv n s Q G.

Lemma bar_initial_inv n s : 1 < n -> initial n s -> invariant n s.
Proof.
  intros Hn [(q&a&m&E) Hw Hp (E1&E2&E3)]. exists (fun _ => []), (fun _ => []).
  unfold pthread_barrier_init in E. rewrite (proj2 (Z.eqb_neq n 0)) in E by lia.
  assert (Eb : b_lock (bar s) = false /\ count (bar s) = n /\ pending (bar s) = n).
  { destruct a; [destruct m|]; cbn in E; injection E as <-; done. }
  destruct Eb as (El&Ec&Ep). split; rewrite ?E1, ?E2; try done.
  - rewrite Hp. apply sched_initial; [apply unit_inj|done].
  - rewrite Ep, Z.mod_0_l; lia.
  - intros t H. now apply not_elem_of_nil in H.
  - intros t _. rewrite E3. lia.
Qed.

(** Counting one more arrival. *)
Lemma next_arrival n a :
  1 < n -> 0 <= a ->
  if a mod n =? n - 1 then (a + 1) mod n = 0 /\ (a + 1) / n = a / n + 1
  else (a + 1) mod n = a mod n + 1 /\ (a + 1) / n = a / n.
Proof.
  intros Hn Ha. assert (Hd := Z.div_mod a n ltac:(lia)). assert (Hm := Z.mod_pos_bound a n ltac:(lia)).
  case_if.
  - replace (a + 1) with ((a / n + 1) * n) by nia. rewrite Z.mod_mul, Z.div_mul by lia. lia.
  - replace (a + 1) with (a mod n + 1 + a / n * n) by lia.
    rewrite Z.mod_add, Z.div_add by lia. rewrite Z.mod_small, Z.div_small by lia. lia.
Qed.

(** A wait under the invariant. *)
Lemma wait_ok n s Q G t :
  1 < n < 2 ^ 32 -> inv n s Q G -> 
  pthread_barrier_wait t (bar s) (wq s) =
    if arrived s mod n =? n - 1 then
      Ret (set_pending n (bar s), wq_detach (wq s) (b_queue (bar s)),
           BBroadcast (hd_error (waiting s Q)))
    else
      w ← wq_enqueue (wq s) (b_queue (bar s)) t;
      Ret (set_pending (n - arrived s mod n - 1) (bar s), w, BSleep).
Proof.
  intros Hn I. assert (Hm := Z.mod_pos_bound (arrived s) n ltac:(lia)).
  assert (Hh := wq_head_spec _ _ (b_queue (bar s)) (s_rep _ _ _ _ _ (i_sched _ _ _ _ I))).
  fold (waiting s Q) in Hh. destruct I as [_ El Ec Ep _ _ _ _ _].
  unfold pthread_barrier_wait. cbn. rewrite Ec, Ep.
  assert (Eu : u32 (n - arrived s mod n - 1) = n - arrived s mod n - 1)
    by (apply u32_small; lia).
  rewrite Eu, Hh. destruct (arrived s mod n =? n - 1) eqn:E.
  - rewrite (proj2 (Z.eqb_eq _ _)) by lia. rewrite (proj2 (Z.ltb_lt 1 n)) by lia.
    unfold set_lock, set_pending. cbn. now rewrite El.
  - rewrite (proj2 (Z.eqb_neq _ _)) by lia.
    unfold set_lock, set_pending. cbn. now rewrite El.
Qed.

Lemma wait_inv n s Q G t b w e :
  1 < n < 2 ^ 32 -> inv n s Q G -> pcs s t = Run ->
  pthread_barrier_wait t (bar s) (wq s) = Ret (b, w, e) ->
  invariant n (Sys b w (<[t := next_pc e]> (pcs s)) (arrived s + 1) (serial s + serial_of e)
                 (<[t := arrived s / count (bar s)]> (round s))).
Proof.
  intros Hn I Ht E. rewrite (wait_ok n s Q G) in E by done. destruct I. unfold waiting in *.
  assert (Ha := next_arrival n (arrived s) ltac:(lia) i_arrived0).
  assert (Hd := Z.div_mod (arrived s) n ltac:(lia)).
  assert (Hm := Z.mod_pos_bound (arrived s) n ltac:(lia)).
  assert (Htq := run_unlinked _ _ _ _ _ _ i_sched0 Ht (Queue (b_queue (bar s)))).
  case_if_in E.
  - destruct Ha as [Ha1 Ha2].
    injection E as <- <- <-. cbn [next_pc serial_of].
    eexists _, _. split; unfold waiting; cbn; rewrite ?i_count0, ?Ha1, ?Ha2; try done; try lia.
    + exact (sched_detach _ _ _ _ _ _ tt i_sched0 Ht).
    + rewrite fn_lookup_insert_ne, fn_lookup_insert by done. done.
    + rewrite fn_lookup_insert_ne, fn_lookup_insert by done. intros x Hx. now apply not_elem_of_nil in Hx.
    + intros x _. rewrite fn_at. case_decide; [lia|].
      destruct (decide (x ∈ Q (Queue (b_queue (bar s))))) as [Hx|Hx];
        [rewrite i_queued0 by done|apply i_passed0 in Hx]; lia.
  - destruct Ha as [Ha1 Ha2].
    destruct (sched_enqueue _ _ _ _ _ _ tt i_sched0 Ht) as (w'&Ew&S'). unfold queue_of in Ew.
    rewrite Ew in E. cbn in E. injection E as <- <- <-.
    eexists _, _. split; unfold waiting; cbn; rewrite ?i_count0, ?Ha1, ?Ha2; try done; try lia.
    + unfold queue_of. rewrite fn_lookup_insert. cbn [length]. lia.
    + intros x. unfold queue_of. rewrite fn_lookup_insert, elem_of_cons, fn_at. case_decide; [done|].
      intros [->|Hx]; [done|auto].
    + intros x. unfold queue_of. rewrite fn_lookup_insert, not_elem_of_cons. intros [Hx1 Hx2].
      rewrite fn_lookup_insert_ne by done. apply i_passed0 in Hx2. lia.
Qed.

Lemma bar_step_invariant n s s' : 1 < n < 2 ^ 32 -> invariant n s -> step s s' -> invariant n s'.
Proof.
  intros Hn (Q&G&I) Hs. inversion Hs as [? t b w e Ht _ E|? w p Hw|? t Ht]; subst.
  - eapply wait_inv; eauto.
  - destruct I. destruct (sched_wake_step _ _ _ _ _ _ _ i_sched0 Hw) as (Q'&S'&HQ).
    exists Q', G. split; unfold waiting in *; cbn; try done; now rewrite HQ.
  - destruct I. destruct (sched_resume _ _ _ _ _ _ _ i_sched0 Ht) as (l1&l2&E&S').
    eexists Q, _. split; [exact S'|done..].
Qed.

Lemma bar_reachable_invariant n s : 1 < n < 2 ^ 32 -> reachable n s -> invariant n s.
Proof.
  intros Hn (s0&H0&Hr). apply bar_initial_inv in H0; [|lia].
  induction Hr as [|s1 s2 s3 Hs _ IH]; eauto using bar_step_invariant.
Qed.

(** ** Correctness *)

(** C14: A barrier lets nobody through early. In every reachable state, a thread
    that is not asleep in a wait, because its call returned, is about to return
    or is waking the others up, made its last call in a round all of whose [n]
    calls have been made; so did a sleeping thread whose wakeup is due. The
    count of missing threads is right, and the number of calls that return
    PTHREAD_BARRIER_SERIAL_THREAD is the number of complete rounds: one each. *)
Theorem barrier_rounds n s :
  1 < n < 2 ^ 32 -> reachable n s ->
  (forall t, (forall b, pcs s t <> Blocked tt b) -> (round s t + 1) * n <= arrived s) /\
  (forall t u, pcs s u = Waking t \/ (exists x, pcs s u = WalkWake t x) ->
     (round s t + 1) * n <= arrived s) /\
  pending (bar s) = n - arrived s mod n /\ serial s = arrived s / n.
Proof.
  intros Hn (Q&G&I)%bar_reachable_invariant; [|done]. assert (I' := I). destruct I' as [S ? ? ? ? ? ? ? Hp].
  split_and!; [| |done|done].
  - intros t Ht. apply Hp. intros Hx. apply (s_queue _ _ _ _ _ S) in Hx as (k&_&Hb&_).
    destruct k. now apply Ht in Hb.
  - intros t u Ho. apply Hp. intros Hx. apply (s_queue _ _ _ _ _ S) in Hx as (k&_&Hb&Hg).
    destruct (s_owes _ _ _ _ _ S u t) as (k'&_&Hg'); [unfold owes; tauto|]. now destruct k, k'.
Qed.

Lemma bar_wake_steps s x y :
  rtc wake_step x y -> x = (wq s, pcs s) ->
  rtc step s (Sys (bar s) y.1 y.2 (arrived s) (serial s) (round s)).
Proof.
  intros Hr. revert s. induction Hr as [|x [w p] z Hs _ IH]; intros s ->; cbn.
  - now destruct s.
  - eapply rtc_l; [apply step_wake, Hs|].
    exact (IH (Sys (bar s) w p (arrived s) (serial s) (round s)) eq_refl).
Qed.

(** C31: a barrier for more than one thread opens (for one thread the lock is left
    taken, [barrier_of_one_wedges]).  A thread that sleeps in a wait either belongs to
    the round that is still open, of which [n - pending] threads have arrived, all
    of them asleep, and at least one is missing; or its round is complete, and
    wakeups that are already under way wake it up without any further call.  A
    call of a running thread gets through its critical section, and the one
    that completes the round never sleeps. *)
Theorem barrier_opens n s t :
  1 < n < 2 ^ 32 -> reachable n s ->
  (pcs s t = Blocked tt false ->
     (round s t = arrived s / n /\ 0 < pending (bar s) /\
      exists l, NoDup l /\ Z.of_nat (length l) = n - pending (bar s) /\
        forall u, u ∈ l -> pcs s u = Blocked tt false) \/
     ((round s t + 1) * n <= arrived s /\
      exists s', rtc step s s' /\ pcs s' t = Woken tt /\ arrived s' = arrived s)) /\
  (pcs s t = Run -> b_lock (bar s) = false /\
     exists b w e, pthread_barrier_wait t (bar s) (wq s) = Ret (b, w, e) /\ b_lock b = false /\
       (e = BSleep <-> pending (bar s) <> 1)).
Proof.
  intros Hn (Q&G&I)%bar_reachable_invariant; [|done].
  assert (Hm := Z.mod_pos_bound (arrived s) n ltac:(lia)). split.
  - intros Ht. destruct I as [S ? ? Hp Hl ? ? Hq Hpass]. unfold waiting in *.
    destruct (decide (t ∈ Q (Queue (b_queue (bar s))))) as [Hx|Hx]; [left|right].
    + split_and!; [auto|lia|]. exists (Q (Queue (b_queue (bar s)))). split_and!; [|lia|].
      * apply (sep_nodup _ (wq_separated _ _ (s_rep _ _ _ _ _ S))).
      * intros u Hu. apply (s_queue _ _ _ _ _ S) in Hu as ([]&_&Hb&_). done.
    + split; [auto|]. destruct (s_blocked _ _ _ _ _ S _ _ _ Ht) as [Hx'|Hg]; [done|].
      destruct (s_grant _ _ _ _ _ S _ _ Hg) as [Hw|(_&u&Ho)]; [congruence|].
      destruct (owed_is_woken _ _ _ _ _ _ _ S Ho) as (w&p&[]&Hr&Hpt).
      eexists. split; [eapply bar_wake_steps; eauto|]. done.
  - intros Ht. split; [apply I|]. rewrite (wait_ok n s Q G) by done.
    destruct I as [S El ? Hp ? ? ? ? ?]. rewrite Hp. case_if.
    + eexists _, _, _. split_and!; [reflexivity|done|]. split; [done|lia].
    + destruct (sched_enqueue _ _ _ _ _ _ tt S Ht) as (w&Ew&_). unfold queue_of in Ew. rewrite Ew.
      eexists _, _, _. split_and!; [reflexivity|done|]. split; [lia|done].
Qed.

End invariant.

(** ** A barrier for one thread *)

(** The branch that unlocks is the one for more than one thread: the first wait
    at a barrier for one thread returns with the spin lock taken, and the
    barrier never changes again, so that the next wait spins for ever. *)
Theorem barrier_of_one_wedges `{!WaitQueues M} (s : sys M) t :
  initial 1 s ->
  exists b, pthread_barrier_wait t (bar s) (wq s) = Ret (b, wq s, BReturn) /\ b_lock b = true /\
    forall p a c f s', rtc step (Sys b (wq s) p a c f) s' -> b_lock (bar s') = true.
Proof.
  intros [(q&a&m&E) _ _ _]. unfold pthread_barrier_init in E. cbn in E.
  assert (Hw : forall s1 s2 : sys M, rtc step s1 s2 -> b_lock (bar s1) = true -> b_lock (bar s2) = true).
  { intros s1 s2 Hr. induction Hr as [|? ? ? Hs _ IH]; [done|]. intros Hl. apply IH.
    inversion Hs; subst; [congruence|done..]. }
  exists (set_lock true (bar s)).
  destruct a; [destruct m|]; cbn in E; injection E as <-;
    (split_and!; [reflexivity|done|]; intros p a' c f s' Hr; now apply (Hw _ _ Hr)).
Qed.

(** ** A concrete run: a barrier for three threads, and a second round *)

Import PtQueue.

Definition sample (n : Z) : sys qmem :=
  Sys (Bar false 0 n n None) empty_qmem (fun _ => Run) 0 0 (fun _ => -1).

Definition do_wait (s : sys qmem) (t : tid) : sys qmem :=
  match pthread_barrier_wait t (bar s) (wq s) with
  | Ret (b, w, e) =>
      Sys b w (<[t := next_pc e]> (pcs s)) (arrived s + 1) (serial s + serial_of e)
        (<[t := arrived s / count (bar s)]> (round s))
  | Crash _ => s
  end.

Lemma bar_do_wait_reachable n s t :
  reachable n s -> pcs s t = Run -> b_lock (bar s) = false -> reachable n (do_wait s t).
Proof.
  intros (s0&H0&Hr) Ht Hl. unfold do_wait.
  destruct (pthread_barrier_wait _ _ _) as [[[b w] e]|] eqn:E; [|now exists s0].
  exists s0. split; [done|]. eapply rtc_r; [done|]. now apply step_wait.
Qed.

Lemma sample_initial n : n <> 0 -> initial n (sample n).
Proof.
  intros Hn. constructor; try done; [|apply empty_rep].
  exists 0, None, true. unfold pthread_barrier_init. now rewrite (proj2 (Z.eqb_neq n 0)).
Qed.

(** Threads 1 and 2 sleep, thread 3 opens the barrier, and before it has woken
    anybody up thread 4 arrives for the next round. *)
Definition opened : sys qmem := do_wait (do_wait (do_wait (do_wait (sample 3) 1) 2) 3) 4.

Lemma opened_reachable : reachable 3 opened.
Proof.
  unfold opened. do 4 (apply bar_do_wait_reachable; [|done..]).
  exists (sample 3). split; [now apply sample_initial|done].
Qed.

Theorem barrier_rounds_witness : (round opened 3 + 1) * 3 <= arrived opened /\ serial opened = 1.
Proof.
  destruct (barrier_rounds 3 opened) as (H&_&_&E); [split; reflexivity|exact opened_reachable|].
  split; [apply H; intros b; discriminate|exact E].
Defined.

Theorem barrier_opens_witness :
  exists s', rtc step opened s' /\ pcs s' 1 = Woken tt /\ arrived s' = 4.
Proof.
  destruct (barrier_opens 3 opened 1) as [H _]; [split; reflexivity|exact opened_reachable|].
  destruct (H eq_refl) as [(E&_)|(_&s'&Hs)]; [discriminate E|].
  exists s'. exact Hs.
Defined.

Theorem barrier_of_one_wedges_witness :
  exists b, pthread_barrier_wait 1 (bar (sample 1)) (wq (sample 1))
              = Ret (b, wq (sample 1), BReturn) /\ b_lock b = true.
Proof.
  destruct (barrier_of_one_wedges (sample 1) 1 (sample_initial 1 ltac:(discriminate))) as (b&E&El&_).
  exists b. split; [exact E|exact El].
Defined.

End PtBarrier.
