(* ===== verification/PtCond.v ===== *)
(** * POSIX condition variables (libpthread/sysdeps/generic/pt-cond-*.c)

    A thread that waits for a condition queues itself under the condition's spin
    lock while it still holds the mutex, releases the mutex, sleeps and takes the
    mutex again.  A signal takes one waiter off the queue and wakes it up, a
    broadcast detaches the whole queue.  The mutex is the abstract one that
    [PtMutex.mutex_mutual_exclusion] justifies: it is free or has one owner. *)

From S2P Require Import Prelude Ring PtQueue PtSched.

Module PtCond.

Import PtSched.

Record condattr := Condattr { pshared : Z; clock : Z }.

(** [struct __pthread_cond]; [c_queue] is the address of [__queue]. *)
Record cond := Cond {
  c_lock : bool;
  c_queue : Z;
  c_attr : option condattr
}.

Definition set_lock (l : bool) (c : cond) : cond := Cond l (c_queue c) (c_attr c).

(** [pthread_cond_init]; [malloc] says whether the allocation succeeds.  As in
    the other initialisers the [memcmp] compares no bytes. *)
Definition pthread_cond_init (queue : Z) (attr : option condattr) (malloc : bool)
  : cond * option errno :=
  let c := Cond false queue None in
  match attr with
  | None => (c, None)
  | Some a => if malloc then (Cond false queue (Some a), None) else (c, Some ENOMEM)
  end.

Section with_queues.
Context `{!WaitQueues M}.

(** [__pthread_cond_timedwait_internal] up to the unlock of the mutex. *)
Definition __pthread_cond_timedwait_enter (self : tid) (abstime : option timespec)
    (c : cond) (w : M) : exec (cond * M * option errno) :=
  if bad_abstime abstime then Ret (c, w, Some EINVAL)
  else
    let c := set_lock true c in
    w ← wq_enqueue w (c_queue c) self;
    Ret (set_lock false c, w, None).

Definition pthread_cond_wait (self : tid) (c : cond) (w : M) : exec (cond * M * option errno) :=
  __pthread_cond_timedwait_enter self None c w.

(** [cleanup], which [pthread_cleanup_pop (1)] runs, up to the lock of the
    mutex. *)
Definition cleanup (self : tid) (c : cond) (w : M) : exec (cond * M) :=
  let c := set_lock true c in
  w ← (if wq_linked w self then wq_dequeue w self else Ret w);
  Ret (set_lock false c, w).

(** [cond_signal]: the thread to wake up. *)
Definition cond_signal (c : cond) (w : M) : exec (cond * M * option tid) :=
  let c := set_lock true c in
  match wq_head w (c_queue c) with
  | Some wakeup =>
      w ← wq_dequeue w wakeup;
      Ret (set_lock false c, w, Some wakeup)
  | None => Ret (set_lock false c, w, None)
  end.

Definition pthread_cond_signal := cond_signal.

(** [pthread_cond_broadcast]: the chain to walk. *)
Definition pthread_cond_broadcast (c : cond) (w : M) : cond * M * option tid :=
  let c := set_lock true c in
  let wakeup := wq_head w (c_queue c) in
  (set_lock false c, wq_detach w (c_queue c), wakeup).

End with_queues.

(** ** The system: threads, one mutex and one condition variable *)

(** Where a thread is in [pthread_cond_wait]: outside, queued and about to
    unlock the mutex, asleep, about to lock the mutex. *)
Inductive phase := Out | Unlocking | Asleep | Relocking.

Record sys (M : Type) := Sys {
  cv : cond;
  wq : M;
  pcs : tid -> pc unit;
  phases : tid -> phase;
  owner : option tid
}.
Arguments Sys {M}. Arguments cv {M}. Arguments wq {M}. Arguments pcs {M}.
Arguments phases {M}. Arguments owner {M}.

(** The steps of threads that use the condition variable without time limits
    and wait with the mutex held. *)
Inductive step `{!WaitQueues M} : sys M -> sys M -> Prop :=
| step_lock s t :
    phases s t = Out -> pcs s t = Run -> owner s = None ->
    step s (Sys (cv s) (wq s) (pcs s) (phases s) (Some t))
| step_unlock s t :
    phases s t = Out -> pcs s t = Run -> owner s = Some t ->
    step s (Sys (cv s) (wq s) (pcs s) (phases s) None)
| step_wait s t c w :
    phases s t = Out -> pcs s t = Run -> owner s = Some t -> c_lock (cv s) = false ->
    pthread_cond_wait t (cv s) (wq s) = Ret (c, w, None) ->
    step s (Sys c w (<[t := Blocked tt false]> (pcs s)) (<[t := Unlocking]> (phases s)) (owner s))
| step_wait_unlock s t :
    phases s t = Unlocking -> owner s = Some t ->
    step s (Sys (cv s) (wq s) (pcs s) (<[t := Asleep]> (phases s)) None)
| step_woken s t c w :
    phases s t = Asleep -> pcs s t = Woken tt -> c_lock (cv s) = false ->
    cleanup t (cv s) (wq s) = Ret (c, w) ->
    step s (Sys c w (<[t := Run]> (pcs s)) (<[t := Relocking]> (phases s)) (owner s))
| step_relock s t :
    phases s t = Relocking -> owner s = None ->
    step s (Sys (cv s) (wq s) (pcs s) (<[t := Out]> (phases s)) (Some t))
| step_signal s t c w u :
    phases s t = Out -> pcs s t = Run -> c_lock (cv s) = false ->
    pthread_cond_signal (cv s) (wq s) = Ret (c, w, u) ->
    step s (Sys c w (<[t := from_option Waking Run u]> (pcs s)) (phases s) (owner s))
| step_broadcast s t c w x :
    phases s t = Out -> pcs s t = Run -> c_lock (cv s) = false ->
    pthread_cond_broadcast (cv s) (wq s) = (c, w, x) ->
    step s (Sys c w (<[t := Walk x]> (pcs s)) (phases s) (owner s))
| step_wake s w p :
    wake_step (wq s, pcs s) (w, p) ->
    step s (Sys (cv s) w p (phases s) (owner s)).

Record initial `{!WaitQueues M} (s : sys M) : Prop := Initial {
  init_cv : exists q a m, cv s = (pthread_cond_init q a m).1;
  init_wq : wq_rep (wq s) (fun _ => []);
  init_pcs : pcs s = fun _ => Run;
  init_out : (forall t, phases s t = Out) /\ owner s = None
}.

Definition reachable `{!WaitQueues M} (s : sys M) : Prop :=
  exists s0, initial s0 /\ rtc step s0 s.

(** ** The invariant *)

Section invariant.
Context `{!WaitQueues M, !WaitQueueLaws M}.
Implicit Types (s : sys M) (w : M) (Q : place -> list tid) (G : unit -> list tid).

Definition queue_of (c : cond) (_ : unit) : Z := c_queue c.

Definition waits (p : pc unit) : bool :=
  match p with Blocked _ _ | Woken _ => true | _ => false end.

Record inv s Q G : Prop := Inv {
  i_sched : sched (queue_of (cv s)) (wq s) (pcs s) Q G;
  i_lock : c_lock (cv s) = false;
  i_phase : forall t, phases s t = Unlocking \/ phases s t = Asleep <->
    waits (pcs s t) = true;
  i_relock : forall t, phases s t = Relocking -> pcs s t = Run /\ owner s <> Some t;
  i_unlocking : forall t, phases s t = Unlocking -> owner s = Some t;
  i_asleep : forall t, phases s t = Asleep -> owner s <> Some t
}.

Definition invariant s : Prop := exists Q G, inv s Q G.

Lemma cond_initial_inv s : initial s -> invariant s.
Proof.
  intros [(q&a&m&E) Hw Hp [Ho E2]]. exists (fun _ => []), (fun _ => []).
  split; rewrite ?Hp, ?E; try setoid_rewrite Ho; try done.
  - apply sched_initial; [apply unit_inj|done].
  - now destruct a, m.
  - intros t. naive_solver.
Qed.

(** A woken thread is on no queue. *)
Lemma woken_unlinked w pcs0 Q G (qof : unit -> Z) t :
  sched qof w pcs0 Q G -> pcs0 t = Woken tt -> wq_linked w t = false.
Proof.
  intros S Ht. apply not_true_iff_false. intros H.
  apply (wq_linked_spec _ Q) in H as [[q|c] Hp]; [| |apply S].
  - apply (s_queue _ _ _ _ _ S) in Hp as (k&_&Hb&_). congruence.
  - destruct (s_owes _ _ _ _ _ S c t) as (k&Hb&_); [now right; right|]. congruence.
Qed.

Lemma signal_ok s Q G t :
  inv s Q G -> pcs s t = Run ->
  match Q (Queue (c_queue (cv s))) with
  | [] => pthread_cond_signal (cv s) (wq s) = Ret (cv s, wq s, None)
  | u :: l => exists w, pthread_cond_signal (cv s) (wq s) = Ret (cv s, w, Some u) /\
      sched (queue_of (cv s)) w (<[t := Waking u]> (pcs s))
        (<[Queue (c_queue (cv s)) := l]> Q) (<[tt := u :: G tt]> G)
  end.
Proof.
  intros [S El _ _ _ _] Ht.
  assert (Ec : set_lock false (set_lock true (cv s)) = cv s) by (destruct (cv s); cbn in *; now subst).
  assert (Hh := wq_head_spec _ _ (c_queue (cv s)) (s_rep _ _ _ _ _ S)).
  unfold pthread_cond_signal, cond_signal. cbn [c_queue set_lock]. rewrite Hh, Ec.
  destruct (Q (Queue (c_queue (cv s)))) as [|u l] eqn:Eq; [done|].
  destruct (sched_handoff _ _ _ _ _ _ tt _ _ S Ht Eq) as (w&Ew&S'). cbn. rewrite Ew. cbn. eauto.
Qed.

Lemma wake_step_waits w p w' p' t :
  wake_step (w, p) (w', p') -> waits (p' t) = waits (p t) /\ (p t = Run -> p' t = Run).
Proof.
  intros Hs. inversion Hs as [? ? x u k b H1 H2|? ? x u ? nx H1 H2|? ? x u nx k b H1 H2|? ? x H1]; subst;
    rewrite !fn_at; repeat case_decide; subst; rewrite ?H1, ?H2; done.
Qed.

(** A step of the thread [t] that leaves the owner alone. *)
Lemma inv_frame s Q G c w p ph Q' G' t :
  inv s Q G -> sched (queue_of c) w (<[t := p]> (pcs s)) Q' G' -> c_lock c = false ->
  phases s t = Out \/ phases s t = Asleep ->
  ph = Out \/ ph = Unlocking \/ ph = Relocking ->
  (ph = Unlocking -> owner s = Some t) ->
  (ph = Unlocking <-> waits p = true) -> (ph = Relocking -> p = Run /\ owner s <> Some t) ->
  inv (Sys c w (<[t := p]> (pcs s)) (<[t := ph]> (phases s)) (owner s)) Q' G'.
Proof.
  intros [S El Hp Hr Hu Ha] S' Ec Hpt Hph H1 H2 H3. split; cbn; try done; intros x; rewrite !fn_at;
    case_decide; subst; auto.
  - rewrite <- H2. split; [intros [|]; [done|]|auto]. subst. now destruct Hph as [|[|]].
  - intros ->. now destruct Hph as [|[|]].
Qed.

Lemma insert_id {A} (f : tid -> A) t p : f t = p -> forall x, (<[t := p]> f) x = f x.
Proof. intros Hf x. rewrite fn_at. case_decide; congruence. Qed.

Lemma inv_phases c w p f g o Q G :
  inv (Sys c w p f o) Q G -> (forall t, f t = g t) -> inv (Sys c w p g o) Q G.
Proof.
  intros [S El Hp Hr Hu Ha] E. cbn in *. split; cbn; try done; setoid_rewrite <- E; auto.
Qed.

(** A step of a thread outside that starts to wake others up. *)
Lemma inv_waker s Q G c w p Q' G' t :
  inv s Q G -> sched (queue_of c) w (<[t := p]> (pcs s)) Q' G' -> c_lock c = false ->
  phases s t = Out -> waits p = false ->
  inv (Sys c w (<[t := p]> (pcs s)) (phases s) (owner s)) Q' G'.
Proof.
  intros I S Ec Hph Hp. apply (inv_phases _ _ _ (<[t := Out]> (phases s))).
  - eapply inv_frame; eauto; [done|rewrite Hp; done|done].
  - now apply insert_id.
Qed.

(** The mutex is taken or released by the thread [t]. *)
Lemma inv_owner s Q G t ph o :
  inv s Q G -> owner s = Some t \/ owner s = None ->
  o = None \/ o = Some t -> ph = Out \/ ph = Asleep /\ o = None -> 
  (ph = Asleep <-> waits (pcs s t) = true) ->
  inv (Sys (cv s) (wq s) (pcs s) (<[t := ph]> (phases s)) o) Q G.
Proof.
  intros [S El Hp Hr Hu Ha] Ho Ho' Hph Hw. split; cbn; try done; intros x; rewrite fn_at;
    case_decide as Hx; subst; auto.
  - rewrite <- Hw. naive_solver.
  - naive_solver.
  - intros H. specialize (Hr _ H). naive_solver.
  - naive_solver.
  - intros H. specialize (Hu _ H). naive_solver.
  - intros ->. naive_solver.
  - intros H. specialize (Ha _ H). naive_solver.
Qed.

Lemma cond_step_invariant s s' : invariant s -> step s s' -> invariant s'.
Proof.
  intros (Q&G&I) Hs. destruct (I) as [S El Hp Hr Hu Ha].
  assert (Ec : set_lock false (set_lock true (cv s)) = cv s) by (destruct (cv s); cbn in *; now subst).
  inversion Hs as [? t Hph Ht Ho|? t Hph Ht Ho|? t c w Hph Ht Ho _ E|? t Hph Ho|? t c w Hph Ht _ E
    |? t Hph Ho|? t c w u Hph Ht _ E|? t c w x Hph Ht _ E|? w p Hw]; subst s0 s'.
  - exists Q, G. apply (inv_phases _ _ _ (<[t := Out]> (phases s))); [|cbn; now apply insert_id].
    eapply inv_owner; eauto. now rewrite Ht.
  - exists Q, G. apply (inv_phases _ _ _ (<[t := Out]> (phases s))); [|cbn; now apply insert_id].
    eapply inv_owner; eauto. now rewrite Ht.
  - destruct (sched_enqueue _ _ _ _ _ _ tt S Ht) as (w'&Ew&S').
    unfold pthread_cond_wait, __pthread_cond_timedwait_enter in E. cbn in E, Ew. unfold queue_of in Ew.
    rewrite Ew in E. cbn in E. rewrite Ec in E. injection E as <- <-.
    eexists _, G. eapply inv_frame; eauto; done.
  - exists Q, G. eapply inv_owner; eauto. rewrite <- Hp. naive_solver.
  - destruct (sched_resume _ _ _ _ _ _ _ S Ht) as (l1&l2&_&S').
    unfold cleanup in E. rewrite (woken_unlinked _ _ _ _ _ _ S Ht) in E. cbn in E.
    rewrite Ec in E. injection E as <- <-. eexists Q, _. eapply inv_frame; eauto; [done|].
    done.
  - exists Q, G. eapply inv_owner; eauto. destruct (Hr _ Hph) as [-> _]. done.
  - assert (H := signal_ok _ _ _ _ I Ht). destruct (Q _) as [|v l].
    + rewrite H in E. injection E as <- <- <-. exists Q, G. eapply inv_waker; eauto.
      cbn. now apply sched_stay.
    + destruct H as (w'&E'&S'). rewrite E' in E. injection E as <- <- <-.
      eexists _, _. eapply inv_waker; eauto.
  - unfold pthread_cond_broadcast in E. cbn in E. rewrite Ec in E. injection E as <- <- <-.
    rewrite (wq_head_spec _ Q) by apply S.
    eexists _, _. eapply inv_waker; [exact I|exact (sched_detach _ _ _ _ _ _ tt S Ht)|done..].
  - destruct (sched_wake_step _ _ _ _ _ _ _ S Hw) as (Q'&S'&_). exists Q', G.
    split; cbn; try done; intros x; destruct (wake_step_waits _ _ _ _ x Hw) as [E1 E2].
    + now rewrite E1.
    + intros H. specialize (Hr _ H). naive_solver.
Qed.

Lemma cond_reachable_invariant s : reachable s -> invariant s.
Proof.
  intros (s0&H0&Hr). apply cond_initial_inv in H0.
  induction Hr as [|s1 s2 s3 Hs _ IH]; eauto using cond_step_invariant.
Qed.

(** ** Correctness *)

Lemma cond_wake_steps s x y :
  rtc wake_step x y -> x = (wq s, pcs s) ->
  rtc step s (Sys (cv s) y.1 y.2 (phases s) (owner s)).
Proof.
  intros Hr. revert s. induction Hr as [|x [w p] z Hs _ IH]; intros s ->; cbn.
  - now destruct s.
  - eapply rtc_l; [apply step_wake, Hs|]. exact (IH (Sys (cv s) w p (phases s) (owner s)) eq_refl).
Qed.

(** [t] is awake, or steps that are already due, and no other, wake it up. *)
Definition due s (t : tid) : Prop :=
  exists s', rtc step s s' /\ pcs s' t = Woken tt /\ phases s' = phases s.

Lemma granted_due s Q G t : inv s Q G -> t ∈ G tt -> due s t.
Proof.
  intros I Hg. destruct I as [S _ _ _ _ _].
  destruct (s_grant _ _ _ _ _ S _ _ Hg) as [Hw|(_&u&Ho)]; [now exists s|].
  destruct (owed_is_woken _ _ _ _ _ _ _ S Ho) as (w&p&[]&Hr&Hpt).
  eexists. split; [eapply cond_wake_steps; eauto|]. done.
Qed.

(** C15: Releasing the mutex and waiting is atomic. While a thread that called
    [pthread_cond_wait] is not on the condition's queue, it still owns the
    mutex, or it has been chosen: it is awake or about to be woken up by steps
    that are due. So no signal sent by a thread that took the mutex after the
    waiter can find the waiter absent. The wait ends by taking the mutex again,
    and the cleanup after it finds the thread unlinked. *)
Theorem cond_wait_atomic s t :
  reachable s ->
  (phases s t = Unlocking -> owner s = Some t) /\
  (phases s t = Asleep -> owner s <> Some t) /\
  (phases s t = Unlocking \/ phases s t = Asleep ->
     (exists Q, wq_rep (wq s) Q /\ t ∈ Q (Queue (c_queue (cv s)))) \/ due s t) /\
  (pcs s t = Woken tt -> wq_linked (wq s) t = false) /\
  (pcs s t = Run -> phases s t = Out \/ phases s t = Relocking /\ owner s <> Some t).
Proof.
  intros (Q&G&I)%cond_reachable_invariant. destruct (I) as [S El Hp Hr Hu Ha].
  split_and!; [auto|auto| | |].
  - intros Hph. apply Hp in Hph. destruct (pcs s t) as [|[] b| | | |[]|] eqn:E; try done.
    + destruct (s_blocked _ _ _ _ _ S _ _ _ E) as [Hq|Hg]; [left|right].
      * exists Q. split; [apply S|exact Hq].
      * eapply granted_due; eauto.
    + right. eapply granted_due; eauto. now apply S.
  - intros Ht. eapply woken_unlinked; eauto.
  - intros Ht. destruct (phases s t) eqn:E; auto.
    + assert (H := proj1 (Hp t) (or_introl E)). now rewrite Ht in H.
    + assert (H := proj1 (Hp t) (or_intror E)). now rewrite Ht in H.
    + right. split; [done|]. now apply Hr.
Qed.


End invariant.

(** ** A wait with a time limit *)

Import PtQueue.

(** [__pthread_dequeue] cut after its first statement, which links the
    successor to what comes before the thread. *)
Definition dequeue_first (m : qmem) (thread : tid) : qmem :=
  match tnext (tcbs m thread) with
  | Some n => set_prevp m n (tprevp (tcbs m thread))
  | None => m
  end.

Definition dequeue_rest (m : qmem) (thread : tid) : exec qmem :=
  lk ← access (tprevp (tcbs m thread));
  let m := store m lk (tnext (tcbs m thread)) in
  Ret (set_prevp m thread None).

Lemma dequeue_cut m thread :
  __pthread_dequeue m thread = dequeue_rest (dequeue_first m thread) thread \/
  tnext (tcbs m thread) = Some thread.
Proof.
  unfold __pthread_dequeue, dequeue_rest, dequeue_first.
  destruct (tnext (tcbs m thread)) as [n|] eqn:E; [|left; now rewrite E].
  destruct (decide (n = thread)) as [->|Hn]; [now right|left].
  assert (Et : forall v, tcbs (set_prevp m n v) thread = tcbs m thread)
    by (intros v; cbn; now rewrite fn_lookup_insert_ne).
  now rewrite Et, E.
Qed.

(** The dequeue after a timed wait runs under the mutex's spin lock, not the
    condition's, so it can run in the middle of a signal's.  With the threads 2
    and 1 queued, a signal that has begun to dequeue 2 when 1 times out and
    dequeues itself leaves 1 on the queue although it does not wait any more and
    its [prevp] says that it is on no queue; the next signal takes it for a
    waiter and stores through its null [prevp]. *)
Theorem cond_timeout_races (m : qmem) Q (c : cond) :
  rep m Q -> Q (Queue (c_queue c)) = [2; 1] ->
  exists m1 m2, dequeue_rest (dequeue_first m 2) 2 = __pthread_dequeue m 2 /\
    __pthread_dequeue (dequeue_first m 2) 1 = Ret m1 /\
    dequeue_rest m1 2 = Ret m2 /\
    heads m2 (c_queue c) = Some 1 /\ tprevp (tcbs m2 1) = None /\
    pthread_cond_signal c m2 = Crash invalid_access.
Proof.
  intros R Eq. destruct (rep_queue _ _ R (c_queue c)) as [e He]. rewrite Eq in He.
  destruct He as (Hh&Hp2&Hn2&Hp1&He&Hn1).
  assert (E1 : dequeue_first m 2 = set_prevp m 1 (Some (Lhead (c_queue c))))
    by (unfold dequeue_first; now rewrite Hn2, Hp2).
  destruct (dequeue_cut m 2) as [Ed|Ed]; [|congruence].
  eexists _, _. split; [done|]. rewrite E1. split.
  { unfold __pthread_dequeue. cbn. rewrite fn_lookup_insert. cbn. rewrite Hn1. cbn.
    rewrite fn_lookup_insert. reflexivity. }
  split.
  { unfold dequeue_rest. cbn. rewrite !fn_lookup_insert_ne by done. rewrite Hp2, Hn2. reflexivity. }
  unfold pthread_cond_signal, cond_signal. cbn.
  rewrite !fn_lookup_insert, ?fn_lookup_insert_ne by done. cbn. rewrite ?fn_lookup_insert. cbn.
  split_and!; [done|done|].
  unfold __pthread_dequeue. cbn.
  rewrite !fn_lookup_insert_ne, !fn_lookup_insert by done. cbn. rewrite ?fn_lookup_insert. cbn.
  now rewrite Hn1.
Qed.

(** Threads 1 and 2 queued, in this order. *)
Lemma two_queued : exists m Q, rep m Q /\ Q (Queue 0) = [2; 1].
Proof.
  destruct (enqueue_rep sample_qmem _ 0 2 sample_rep) as (m&_&H).
  - intros p. rewrite elem_insert. intros [[_ H]|[_ H]];
      [apply list_elem_of_singleton in H; discriminate H|now apply not_elem_of_nil in H].
  - eexists m, _. split; [exact H|done].
Qed.

Theorem cond_timeout_races_witness :
  exists m m1 m2 : qmem, __pthread_dequeue (dequeue_first m 2) 1 = Ret m1 /\
    dequeue_rest m1 2 = Ret m2 /\
    pthread_cond_signal (Cond false 0 None) m2 = Crash invalid_access.
Proof.
  destruct two_queued as (m&Q&R&E).
  destruct (cond_timeout_races m Q (Cond false 0 None) R E) as (m1&m2&_&E1&E2&_&_&E3).
  exists m, m1, m2. split; [exact E1|]. split; [exact E2|exact E3].
Defined.

(** ** A concrete run: thread 1 takes the mutex and waits *)

Definition sample : sys qmem :=
  Sys (Cond false 0 None) empty_qmem (fun _ => Run) (fun _ => Out) None.

Definition do_wait (s : sys qmem) (t : tid) : sys qmem :=
  match pthread_cond_wait t (cv s) (wq s) with
  | Ret (c, w, _) =>
      Sys c w (<[t := Blocked tt false]> (pcs s)) (<[t := Asleep]> (<[t := Unlocking]> (phases s))) None
  | Crash _ => s
  end.

Definition waited : sys qmem :=
  do_wait (Sys (cv sample) (wq sample) (pcs sample) (phases sample) (Some 1)) 1.

Lemma waited_reachable : reachable waited.
Proof.
  exists sample. split; [constructor; try done; [now exists 0, None, true|apply empty_rep]|].
  eapply rtc_l; [now apply (step_lock sample 1)|].
  eapply rtc_l; [eapply (step_wait _ 1); reflexivity|].
  eapply rtc_l; [eapply (step_wait_unlock _ 1); reflexivity|]. done.
Qed.

Theorem cond_wait_atomic_witness :
  (exists Q, wq_rep (wq waited) Q /\ 1 ∈ Q (Queue 0)) \/ due waited 1.
Proof.
  destruct (cond_wait_atomic waited 1 waited_reachable) as (_&_&H&_).
  apply H. right. reflexivity.
Defined.


End PtCond.
