(* ===== verification/PtMutex.v ===== *)
(** * POSIX mutexes (libpthread/sysdeps/generic/pt-mutex-*.c)

    A mutex is a spin lock [__lock] that protects the other fields, a flag
    [__held], the owner, a recursion count, and the queue of the threads that
    wait.  Unlocking a contended mutex does not clear [__held]: it hands the
    mutex to the thread at the head of the queue, drops [__lock], and only then
    wakes that thread up.

    Every function is one critical section of [__lock], or the part of the
    function that follows the thread's wakeup.  The sections are functions from
    the mutex and the queue memory to an [exec]; the step relation [step]
    interleaves them for any number of threads.  The development is the build
    with assertions (no [NDEBUG]). *)

From S2P Require Import Prelude Ring PtQueue.

(** [enum __pthread_mutex_type] ([PTHREAD_MUTEX_NORMAL] is the name of
    [__PTHREAD_MUTEX_TIMED]); [other_type] is a value that the switches on it
    do not know. *)
Inductive mutex_type :=
| PTHREAD_MUTEX_NORMAL
| PTHREAD_MUTEX_ERRORCHECK
| PTHREAD_MUTEX_RECURSIVE
| other_type (n : Z).

Definition mutex_type_code (t : mutex_type) : Z :=
  match t with
  | PTHREAD_MUTEX_NORMAL => 0
  | PTHREAD_MUTEX_ERRORCHECK => 1
  | PTHREAD_MUTEX_RECURSIVE => 2
  | other_type n => n
  end.

#[export] Instance mutex_type_eq_dec : EqDecision mutex_type.
Proof. solve_decision. Defined.

(** [struct __pthread_mutexattr] *)
Record mutexattr := MutexAttr {
  prioceiling : Z;
  protocol : Z;
  pshared : Z;
  type : mutex_type
}.

Definition __pthread_default_mutexattr : mutexattr :=
  MutexAttr 0 0 0 PTHREAD_MUTEX_NORMAL.
Definition __pthread_recursive_mutexattr : mutexattr :=
  MutexAttr 0 0 0 PTHREAD_MUTEX_RECURSIVE.

(** What an attribute pointer can point to: the library's static recursive
    attributes, or memory that holds some attributes. *)
Inductive attr_ptr :=
| static_recursive
| memory (a : mutexattr).

Definition deref_attr (p : attr_ptr) : mutexattr :=
  match p with static_recursive => __pthread_recursive_mutexattr | memory a => a end.

(** [struct __pthread_mutex]: [queue_head] is the address of [__queue], whose
    contents are in the queue memory; [attr] is [None] for a null pointer. *)
Record pthread_mutex := Mutex {
  held : bool;
  lock : bool;
  queue_head : Z;
  attr : option attr_ptr;
  owner : option tid;
  locks : Z
}.

Definition set_lock (b : bool) (m : pthread_mutex) : pthread_mutex :=
  Mutex (held m) b (queue_head m) (attr m) (owner m) (locks m).
Definition set_held (b : bool) (m : pthread_mutex) : pthread_mutex :=
  Mutex b (lock m) (queue_head m) (attr m) (owner m) (locks m).
Definition set_attr (a : option attr_ptr) (m : pthread_mutex) : pthread_mutex :=
  Mutex (held m) (lock m) (queue_head m) a (owner m) (locks m).
Definition set_owner (o : option tid) (m : pthread_mutex) : pthread_mutex :=
  Mutex (held m) (lock m) (queue_head m) (attr m) o (locks m).
Definition set_locks (n : Z) (m : pthread_mutex) : pthread_mutex :=
  Mutex (held m) (lock m) (queue_head m) (attr m) (owner m) n.

(** [mutex->attr ? mutex->attr->mutex_type : <none>] *)
Definition mtype (m : pthread_mutex) : option mutex_type :=
  type ∘ deref_attr <$> attr m.

(** [__PTHREAD_MUTEX_INITIALIZER] *)
Definition mutex_initializer (head : Z) : pthread_mutex :=
  Mutex false false head None None 0.

(** The macro [LOSE]: a store to address 0. *)
Definition LOSE {A} : exec A := Crash invalid_access.

Section with_queues.
Context `{!WaitQueues M}.

(** The statements that follow a successful [__pthread_spin_trylock
    (&mutex->__held)], the same in timedlock and trylock. *)
Definition acquire (self : option tid) (m : pthread_mutex) : exec pthread_mutex :=
  m ← match self with
      | Some _ =>
          _ ← check (bool_decide (owner m = None)) assertion_failed;
          Ret (set_owner self m)
      | None => Ret m
      end;
  m ← match mtype m with
      | None | Some PTHREAD_MUTEX_NORMAL => Ret m
      | Some PTHREAD_MUTEX_RECURSIVE => Ret (set_owner self (set_locks 1 m))
      | Some PTHREAD_MUTEX_ERRORCHECK => Ret (set_owner self m)
      | Some (other_type _) => LOSE
      end;
  Ret (set_lock false m).

(** The checks of timedlock once the mutex is known to be queued for. *)
Definition timedlock_queue (self : tid) (abstime : option timespec)
    (m : pthread_mutex) (w : M) : exec (pthread_mutex * M * ending) :=
  _ ← check (bool_decide (owner m <> None)) assertion_failed;
  if bad_abstime abstime then Ret (m, w, Return (Some EINVAL)) else
  w ← wq_enqueue w (queue_head m) self;
  Ret (set_lock false m, w, Sleep).

(** [__pthread_mutex_timedlock_internal] up to the point where it blocks. *)
Definition timedlock_enter (self : option tid) (abstime : option timespec)
    (m : pthread_mutex) (w : M) : exec (pthread_mutex * M * ending) :=
  let m := set_lock true m in
  if negb (held m) then
    m ← acquire self (set_held true m);
    Ret (m, w, Return None)
  else
    self ← match self with Some t => Ret t | None => Crash assertion_failed end;
    match mtype m with
    | Some PTHREAD_MUTEX_ERRORCHECK =>
        if bool_decide (owner m = Some self) then
          Ret (set_lock false m, w, Return (Some EDEADLK))
        else timedlock_queue self abstime m w
    | Some PTHREAD_MUTEX_RECURSIVE =>
        if bool_decide (owner m = Some self) then
          Ret (set_lock false (set_locks (u32 (locks m + 1)) m), w, Return None)
        else timedlock_queue self abstime m w
    | Some (other_type _) => LOSE
    | Some PTHREAD_MUTEX_NORMAL | None =>
        _ ← check (bool_decide (owner m <> Some self)) assertion_failed;
        timedlock_queue self abstime m w
    end.

(** What follows [__pthread_block] or a [__pthread_timedblock] that did not
    time out. *)
Definition timedlock_resume (self : tid) (m : pthread_mutex) : exec pthread_mutex :=
  _ ← check (bool_decide (owner m = Some self)) assertion_failed;
  match mtype m with
  | None | Some PTHREAD_MUTEX_NORMAL => Ret m
  | Some PTHREAD_MUTEX_RECURSIVE =>
      _ ← check (locks m =? 0) assertion_failed;
      Ret (set_owner (Some self) (set_locks 1 m))
  | Some PTHREAD_MUTEX_ERRORCHECK => Ret (set_owner (Some self) m)
  | Some (other_type _) => LOSE
  end.

(** What follows a [__pthread_timedblock] that timed out. *)
Definition timedlock_timeout (self : tid) (m : pthread_mutex) (w : M)
  : exec (pthread_mutex * M) :=
  let m := set_lock true m in
  w ← (if wq_linked w self then wq_dequeue w self else Ret w);
  Ret (set_lock false m, w).

Definition __pthread_mutex_lock (self : option tid) (m : pthread_mutex) (w : M)
  : exec (pthread_mutex * M * ending) :=
  timedlock_enter self None m w.

Definition __pthread_mutex_trylock (self : option tid) (m : pthread_mutex)
  : exec (pthread_mutex * option errno) :=
  let m := set_lock true m in
  if negb (held m) then
    m ← acquire self (set_held true m);
    Ret (m, None)
  else
    match mtype m with
    | None | Some PTHREAD_MUTEX_NORMAL | Some PTHREAD_MUTEX_ERRORCHECK =>
        Ret (set_lock false m, Some EBUSY)
    | Some PTHREAD_MUTEX_RECURSIVE =>
        if bool_decide (owner m = self) then
          Ret (set_lock false (set_locks (u32 (locks m + 1)) m), None)
        else Ret (set_lock false m, Some EBUSY)
    | Some (other_type _) => LOSE
    end.

(** The release of a mutex that its owner no longer holds: it is free, or
    handed to the thread at the head of the queue. *)
Definition unlock_release (m : pthread_mutex) (w : M)
  : exec (pthread_mutex * M * ending) :=
  match wq_head w (queue_head m) with
  | None => Ret (set_lock false (set_held false m), w, Return None)
  | Some wakeup =>
      w ← wq_dequeue w wakeup;
      Ret (set_lock false (set_owner (Some wakeup) m), w, Wake wakeup)
  end.

Definition __pthread_mutex_unlock (self : option tid) (m : pthread_mutex) (w : M)
  : exec (pthread_mutex * M * ending) :=
  let m := set_lock true m in
  match mtype m with
  | None | Some PTHREAD_MUTEX_NORMAL =>
      m ← match self with
          | Some _ =>
              _ ← check (bool_decide (owner m <> None)) assertion_failed;
              _ ← check (bool_decide (owner m = self)) assertion_failed;
              Ret (set_owner None m)
          | None => Ret m
          end;
      unlock_release m w
  | Some PTHREAD_MUTEX_ERRORCHECK =>
      if bool_decide (owner m <> self) then
        Ret (set_lock false m, w, Return (Some EPERM))
      else unlock_release (set_owner None m) w
  | Some PTHREAD_MUTEX_RECURSIVE =>
      if bool_decide (owner m <> self) then
        Ret (set_lock false m, w, Return (Some EPERM))
      else
        let m := set_locks (u32 (locks m - 1)) m in
        if 0 <? locks m then Ret (set_lock false m, w, Return None)
        else unlock_release (set_owner None m) w
  | Some (other_type _) => LOSE
  end.

(** [thread] is what [__pthread_getid (tid)] found. *)
Definition __pthread_mutex_transfer_np (self : option tid) (thread : option tid)
    (m : pthread_mutex) : exec (pthread_mutex * option errno) :=
  _ ← check (bool_decide (owner m = self)) assertion_failed;
  match thread with
  | None => Ret (m, Some ESRCH)
  | Some _ =>
      if bool_decide (thread = self) then Ret (m, None) else
      if bool_decide (mtype m = Some PTHREAD_MUTEX_ERRORCHECK) &&
         bool_decide (owner m <> self) then Ret (m, Some EPERM)
      else Ret (set_owner thread m, None)
  end.

End with_queues.

(** The bytes of an attribute structure: four ints. *)
Definition int_bytes (n : Z) : list Z :=
  (fun i => Z.land (Z.shiftr n (8 * i)) 255) <$> [0; 1; 2; 3].

Definition attr_bytes (a : mutexattr) : list Z :=
  int_bytes (prioceiling a) ++ int_bytes (protocol a) ++ int_bytes (pshared a) ++
  int_bytes (mutex_type_code (type a)).

(** [memcmp]: 0 if the first [n] bytes agree. *)
Fixpoint memcmp (a b : list Z) (n : nat) : Z :=
  match n, a, b with
  | S n, x :: a, y :: b => if x =? y then memcmp a b n else x - y
  | _, _, _ => 0
  end.

Definition sizeof_mutexattr : Z := 16.

(** [_pthread_mutex_init].  The condition is the code's, with its parentheses:
    the size that [memcmp] is given is the value of [sizeof == 0]. *)
Definition _pthread_mutex_init (malloc_ok : bool) (a : option attr_ptr)
    (m : pthread_mutex) : pthread_mutex * option errno :=
  let m := mutex_initializer (queue_head m) in
  match a with
  | None => (m, None)
  | Some p =>
      if negb (memcmp (attr_bytes (deref_attr p))
                      (attr_bytes __pthread_default_mutexattr)
                      (if sizeof_mutexattr =? 0 then 1%nat else 0%nat) =? 0)
      then (m, None)
      else match p with
           | static_recursive => (set_attr (Some static_recursive) m, None)
           | memory a =>
               if negb malloc_ok then (m, Some ENOMEM)
               else (set_attr (Some (memory a)) m, None)
           end
  end.

(** [_pthread_mutex_destroy]: the attributes it frees, if any. *)
Definition _pthread_mutex_destroy (m : pthread_mutex) : option attr_ptr :=
  match attr m with
  | Some static_recursive => None
  | p => p
  end.

(** [pthread_mutexattr_settype] *)
Definition pthread_mutexattr_settype (a : mutexattr) (ty : mutex_type)
  : mutexattr * option errno :=
  match ty with
  | PTHREAD_MUTEX_NORMAL | PTHREAD_MUTEX_ERRORCHECK | PTHREAD_MUTEX_RECURSIVE =>
      (MutexAttr (prioceiling a) (protocol a) (pshared a) ty, None)
  | other_type _ => (a, Some EINVAL)
  end.

(** ** The system: any number of threads and one mutex *)

(** Where a thread is: outside of the mutex functions, asleep in
    [__pthread_block] (or, when [timed], in [__pthread_timedblock]), before the
    [__pthread_wakeup (w)] of an unlock, after its wakeup, or after a timeout. *)
Inductive pc :=
| Idle
| Blocked (timed : bool)
| Waking (w : tid)
| Woken
| TimedOut.

(** [holds t] is how many of [t]'s lock calls have returned 0 without an
    unlock of theirs: what the clients may rely on. *)
Record sys (M : Type) := Sys {
  mx : pthread_mutex;
  wq : M;
  pcs : tid -> pc;
  holds : tid -> Z
}.
Arguments Sys {M}. Arguments mx {M}. Arguments wq {M}.
Arguments pcs {M}. Arguments holds {M}.

(** The state after a critical section of [t] that ended in [e]; a call that
    succeeded changes what [t] holds by [d]. *)
Definition conclude {M} (s : sys M) (t : tid) (timed : bool) (d : Z)
    (m : pthread_mutex) (w : M) (e : ending) : sys M :=
  Sys m w
    (<[t := match e with
            | Return _ => Idle | Sleep => Blocked timed | Wake u => Waking u
            end]> (pcs s))
    (<[t := holds s t + match e with Return None | Wake _ => d | _ => 0 end]> (holds s)).

Definition is_timed (abstime : option timespec) : bool :=
  match abstime with Some _ => true | None => false end.

(** One step of one thread.  Timed calls are allowed when [timed] is true.
    [__pthread_wakeup] retries until its target is asleep, hence the condition
    of [step_wake].  A client does not nest a recursive mutex 2^32 deep. *)
Inductive step `{!WaitQueues M} (timed : bool) : sys M -> sys M -> Prop :=
| step_lock s t abstime m w e :
    pcs s t = Idle -> lock (mx s) = false -> holds s t < 2 ^ 32 - 1 ->
    abstime = None \/ timed = true ->
    timedlock_enter (Some t) abstime (mx s) (wq s) = Ret (m, w, e) ->
    step timed s (conclude s t (is_timed abstime) 1 m w e)
| step_trylock s t m e :
    pcs s t = Idle -> lock (mx s) = false -> holds s t < 2 ^ 32 - 1 ->
    __pthread_mutex_trylock (Some t) (mx s) = Ret (m, e) ->
    step timed s (conclude s t false 1 m (wq s) (Return e))
| step_unlock s t m w e :
    pcs s t = Idle -> lock (mx s) = false ->
    __pthread_mutex_unlock (Some t) (mx s) (wq s) = Ret (m, w, e) ->
    step timed s (conclude s t false (-1) m w e)
| step_wake s t u b :
    pcs s t = Waking u -> pcs s u = Blocked b ->
    step timed s (Sys (mx s) (wq s) (<[u := Woken]> (<[t := Idle]> (pcs s))) (holds s))
| step_resume s t m :
    pcs s t = Woken ->
    timedlock_resume t (mx s) = Ret m ->
    step timed s (conclude s t false 1 m (wq s) (Return None))
| step_timeout s t :
    pcs s t = Blocked true ->
    step timed s (Sys (mx s) (wq s) (<[t := TimedOut]> (pcs s)) (holds s))
| step_timedout s t m w :
    pcs s t = TimedOut -> lock (mx s) = false ->
    timedlock_timeout t (mx s) (wq s) = Ret (m, w) ->
    step timed s (conclude s t false 1 m w (Return (Some ETIMEDOUT)))
| step_transfer s t u m :
    pcs s t = Idle -> pcs s u = Idle -> t <> u ->
    __pthread_mutex_transfer_np (Some t) (Some u) (mx s) = Ret (m, None) ->
    step timed s (Sys m (wq s) (pcs s) (<[u := holds s t]> (<[t := 0]> (holds s)))).

(** A mutex that was just initialised, and no thread in its functions. *)
Record initial `{!WaitQueues M} (s : sys M) : Prop := Initial {
  init_mx : exists h a, mx s = set_attr a (mutex_initializer h) /\
            (forall n, mtype (mx s) <> Some (other_type n));
  init_wq : wq_rep (wq s) (fun _ => []);
  init_pcs : forall t, pcs s t = Idle;
  init_holds : forall t, holds s t = 0
}.

Definition reachable `{!WaitQueues M} (timed : bool) (s : sys M) : Prop :=
  exists s0, initial s0 /\ rtc (step timed) s0 s.

(** ** The invariant of untimed use *)

#[local] Arguments acquire : simpl never.
#[local] Arguments timedlock_queue : simpl never.
#[local] Arguments unlock_release : simpl never.

Section invariant.
Context `{!WaitQueues M, !WaitQueueLaws M}.
Implicit Types (s : sys M) (Q : place -> list tid).

Definition waiters s Q : list tid := Q (Queue (queue_head (mx s))).

(** [g] is the thread that is about to send a wakeup, if there is one, and the
    thread it has handed the mutex to. *)
Record inv s Q (g : option (tid * tid)) : Prop := Inv {
  i_rep : wq_rep (wq s) Q;
  i_lock : lock (mx s) = false;
  i_type : forall n, mtype (mx s) <> Some (other_type n);
  i_place : forall p t, t ∈ Q p -> p = Queue (queue_head (mx s));
  i_queued : forall t, t ∈ waiters s Q -> pcs s t = Blocked false;
  i_queued' : forall t, t ∈ waiters s Q -> owner (mx s) <> Some t;
  i_untimed : forall t, pcs s t <> Blocked true;
  i_blocked : forall t, pcs s t = Blocked false ->
    t ∈ waiters s Q \/ exists u, g = Some (u, t);
  i_waking : forall u t, pcs s u = Waking t <-> g = Some (u, t);
  i_granted : forall u t, g = Some (u, t) -> owner (mx s) = Some t;
  i_granted' : forall u t, g = Some (u, t) -> pcs s t = Blocked false;
  i_woken : forall t, pcs s t = Woken -> owner (mx s) = Some t;
  i_not_timed : forall t, pcs s t <> TimedOut;
  i_nonneg : forall t, 0 <= holds s t < 2 ^ 32;
  i_hold : forall t, 0 < holds s t -> owner (mx s) = Some t;
  i_hold' : forall t, 0 < holds s t -> pcs s t = Idle;
  i_owner : forall t, owner (mx s) = Some t ->
    0 < holds s t \/ pcs s t = Woken \/ exists u, g = Some (u, t);
  i_held : held (mx s) = true <-> owner (mx s) <> None;
  i_waiters : waiters s Q <> [] -> owner (mx s) <> None;
  i_locks : forall t, mtype (mx s) = Some PTHREAD_MUTEX_RECURSIVE ->
    owner (mx s) = Some t -> locks (mx s) = holds s t;
  i_once : forall t, mtype (mx s) <> Some PTHREAD_MUTEX_RECURSIVE -> holds s t <= 1
}.

Definition invariant s : Prop := exists Q g, inv s Q g.

(** The ends of the cases that are left. *)
Ltac finish :=
  rewrite ?elem_of_cons in *; destruct_or?;
  simplify_eq/=; try done; try lia; eauto;
  try (left; lia);
  match goal with
  | H : ?t ∈ [] |- _ => exfalso; exact (not_elem_of_nil t H)
  | Hb : forall t, _ t = Blocked false -> _ \/ _, H : _ = Blocked false |- _ \/ _ =>
      destruct (Hb _ H) as [?|[? ?]]; eauto; congruence
  | Ho : forall t, _ = Some t -> _ \/ _ \/ _, H : _ = Some ?t |- _ =>
      destruct (Ho t H) as [?|[?|[? ?]]]; eauto; congruence
  | Hb : forall t, 0 < _ t -> _, H : 0 < _ |- _ =>
      first [discriminate (Hb _ H) | rewrite (Hb _ H) in *; congruence]
  | |- _ => idtac
  end.

Lemma idle_owner s Q g t :
  inv s Q g -> pcs s t = Idle -> owner (mx s) = Some t <-> 0 < holds s t.
Proof.
  intros I Ht. split; [|apply (i_hold _ _ _ I)].
  intros [?|[?|[u Hu]]]%(i_owner _ _ _ I); [done|congruence|].
  apply (i_granted' _ _ _ I) in Hu. congruence.
Qed.

(** A thread outside of the mutex functions is on no queue, wakes no one up and
    is not being woken up. *)
Lemma idle_away s Q g t :
  inv s Q g -> pcs s t = Idle ->
  (t ∉ waiters s Q) /\ (forall u, g <> Some (t, u)) /\ (forall u, g <> Some (u, t)).
Proof.
  intros I Ht. split_and!.
  - intros H. apply (i_queued _ _ _ I) in H. congruence.
  - intros u H. apply (i_waking _ _ _ I) in H. congruence.
  - intros u H. apply (i_granted' _ _ _ I) in H. congruence.
Qed.

Lemma initial_inv s : initial s -> invariant s.
Proof.
  intros [(h&a&E&Ht) Hw Hp Hh]. exists (fun _ => []), None.
  constructor; rewrite ?E; cbn; try setoid_rewrite Hp; try setoid_rewrite Hh;
    unfold waiters; rewrite ?E in *; try (set_solver || done || lia).
Qed.

(** The steps that change one thing each.  [open_inv] exposes the fields. *)
Ltac open_inv s I :=
  destruct I; destruct s as [[h0 l0 q a o n] w0 pc hd]; unfold waiters in *;
  cbn in *; subst.

Ltac close_inv :=
  constructor; unfold waiters; cbn; try done; intros; upd;
  try done; try lia; eauto; try congruence.

(** The mutex after [acquire]. *)
Definition acquired (t : tid) (m : pthread_mutex) : pthread_mutex :=
  set_lock false (set_owner (Some t)
    (if decide (mtype m = Some PTHREAD_MUTEX_RECURSIVE) then set_locks 1 m else m)).

Lemma acquire_free t m :
  owner m = None -> (forall n, mtype m <> Some (other_type n)) ->
  acquire (Some t) m = Ret (acquired t m).
Proof.
  intros Ho Ht. unfold acquire, acquired. rewrite check_true by now rewrite Ho.
  cbn. destruct m as [h l q a o n]. unfold mtype in *. cbn in *.
  destruct a as [p|]; cbn in *; [|done].
  destruct (type (deref_attr p)); cbn; case_decide; naive_solver.
Qed.

Lemma inv_acquire s Q g t :
  inv s Q g -> pcs s t = Idle -> held (mx s) = false ->
  inv (Sys (acquired t (set_held true (set_lock true (mx s)))) (wq s) (<[t := Idle]> (pcs s))
         (<[t := holds s t + 1]> (holds s))) Q g.
Proof.
  intros I Ht Hh.
  assert (Ho : owner (mx s) = None).
  { destruct (owner (mx s)) eqn:E; [|done].
    assert (H : owner (mx s) <> None) by congruence. apply (i_held _ _ _ I) in H. congruence. }
  assert (Hz : forall u, holds s u = 0).
  { intros u. assert (Hn := i_nonneg _ _ _ I u). assert (Hp := i_hold _ _ _ I u).
    destruct (decide (holds s u = 0)); [done|]. rewrite Hp in Ho by lia. done. }
  assert (Hq : waiters s Q = []).
  { destruct (waiters s Q) eqn:E; [done|]. exfalso. now apply (i_waiters _ _ _ I); [rewrite E|]. }
  assert (Hg : g = None).
  { destruct g as [[u v]|]; [|done]. exfalso.
    assert (H := i_granted _ _ _ I u v eq_refl). congruence. }
  assert (Hwo : forall u, pcs s u <> Woken).
  { intros u H. apply (i_woken _ _ _ I) in H. congruence. }
  unfold acquired. open_inv s I. rewrite Hq in *.
  close_inv; rewrite ?Hq in *; rewrite ?Hz in *; finish.
Qed.

Lemma inv_same s Q g t :
  inv s Q g -> pcs s t = Idle ->
  inv (Sys (set_lock false (set_lock true (mx s))) (wq s) (<[t := Idle]> (pcs s))
         (<[t := holds s t + 0]> (holds s))) Q g.
Proof.
  intros I Ht. destruct (idle_away _ _ _ _ I Ht) as (?&?&?).
  assert (Ho := idle_owner _ _ _ _ I Ht).
  open_inv s I. close_inv; rewrite ?Z.add_0_r in *; finish; naive_solver.
Qed.

Lemma inv_relock s Q g t :
  inv s Q g -> pcs s t = Idle -> owner (mx s) = Some t ->
  mtype (mx s) = Some PTHREAD_MUTEX_RECURSIVE -> holds s t < 2 ^ 32 - 1 ->
  inv (Sys (set_lock false (set_locks (u32 (locks (mx s) + 1)) (set_lock true (mx s)))) (wq s)
         (<[t := Idle]> (pcs s)) (<[t := holds s t + 1]> (holds s))) Q g.
Proof.
  intros I Ht Ho Hty Hb.
  assert (Hl : locks (mx s) = holds s t) by (eapply i_locks; eauto).
  assert (Hh := i_nonneg _ _ _ I t).
  assert (Hp : 0 < holds s t) by (eapply idle_owner; eauto).
  rewrite u32_small by lia. destruct (idle_away _ _ _ _ I Ht) as (?&?&?).
  open_inv s I. close_inv; finish; naive_solver.
Qed.

Lemma inv_queue s Q g t w Q' :
  inv s Q g -> pcs s t = Idle -> owner (mx s) <> Some t -> held (mx s) = true ->
  wq_rep w Q' -> Q' (Queue (queue_head (mx s))) = t :: waiters s Q ->
  (forall p u, u ∈ Q' p -> p = Queue (queue_head (mx s))) ->
  inv (Sys (set_lock false (set_lock true (mx s))) w (<[t := Blocked false]> (pcs s))
         (<[t := holds s t + 0]> (holds s))) Q' g.
Proof.
  intros I Ht Ho Hh Hw HQ Hp. destruct (idle_away _ _ _ _ I Ht) as (?&?&?).
  assert (Hi := idle_owner _ _ _ _ I Ht).
  open_inv s I. close_inv; rewrite ?HQ, ?Z.add_0_r in *; finish.
  - split; [done|]. intros Hg. now apply H0 in Hg.
  - now apply i_held0.
Qed.

(** The state of a mutex whose owner [t] has called unlock for the last time. *)
Lemma last_unlock s Q g t :
  inv s Q g -> pcs s t = Idle -> owner (mx s) = Some t ->
  (mtype (mx s) = Some PTHREAD_MUTEX_RECURSIVE -> locks (mx s) = 1) ->
  holds s t = 1 /\ g = None /\ (forall u, pcs s u <> Woken) /\
  (forall u, u <> t -> holds s u = 0).
Proof.
  intros I Ht Ho Hl.
  assert (Hp : 0 < holds s t) by (eapply idle_owner; eauto).
  assert (Hother : forall u, owner (mx s) = Some u -> u = t) by (intros; congruence).
  split_and!.
  - destruct (decide (mtype (mx s) = Some PTHREAD_MUTEX_RECURSIVE)) as [E|E].
    + rewrite <- (i_locks _ _ _ I t E Ho). auto.
    + assert (Hx := i_once _ _ _ I t E). lia.
  - destruct g as [[u v]|]; [|done]. exfalso.
    assert (Hv := i_granted _ _ _ I _ _ eq_refl). apply Hother in Hv. subst.
    assert (Hv := i_granted' _ _ _ I _ _ eq_refl). congruence.
  - intros u Hu. assert (Hv := Hother _ (i_woken _ _ _ I _ Hu)). congruence.
  - intros u Hu. assert (Hn := i_nonneg _ _ _ I u).
    destruct (decide (holds s u = 0)) as [|Hne]; [done|].
    exfalso. apply Hu, Hother, (i_hold _ _ _ I). lia.
Qed.

Lemma inv_nested s Q g t :
  inv s Q g -> pcs s t = Idle -> owner (mx s) = Some t -> 1 < holds s t ->
  mtype (mx s) = Some PTHREAD_MUTEX_RECURSIVE ->
  inv (Sys (set_lock false (set_locks (holds s t - 1) (set_lock true (mx s)))) (wq s)
         (<[t := Idle]> (pcs s)) (<[t := holds s t + -1]> (holds s))) Q g.
Proof.
  intros I Ht Ho Hb Hty. destruct (idle_away _ _ _ _ I Ht) as (?&?&?).
  assert (Hh := i_nonneg _ _ _ I t).
  open_inv s I. close_inv; finish; naive_solver.
Qed.

Definition unlocked (m : pthread_mutex) : pthread_mutex :=
  set_owner None
    (if decide (mtype m = Some PTHREAD_MUTEX_RECURSIVE) then set_locks 0 m else m).

Lemma inv_free s Q g t :
  inv s Q g -> pcs s t = Idle -> owner (mx s) = Some t ->
  (mtype (mx s) = Some PTHREAD_MUTEX_RECURSIVE -> locks (mx s) = 1) ->
  waiters s Q = [] ->
  inv (Sys (set_lock false (set_held false (unlocked (set_lock true (mx s))))) (wq s)
         (<[t := Idle]> (pcs s)) (<[t := holds s t + -1]> (holds s))) Q g.
Proof.
  intros I Ht Ho Hl Hq. destruct (last_unlock _ _ _ _ I Ht Ho Hl) as (Hh1&->&Hw&Hz).
  destruct (idle_away _ _ _ _ I Ht) as (?&?&?).
  unfold unlocked. open_inv s I. rewrite Hq in *.
  close_inv; rewrite ?Hq, ?Hh1 in *; finish.
  rewrite Hz in * by done. lia.
Qed.

Lemma inv_handoff s Q g t u w Q' l :
  inv s Q g -> pcs s t = Idle -> owner (mx s) = Some t ->
  (mtype (mx s) = Some PTHREAD_MUTEX_RECURSIVE -> locks (mx s) = 1) ->
  waiters s Q = u :: l -> NoDup (u :: l) -> wq_rep w Q' ->
  Q' (Queue (queue_head (mx s))) = l ->
  (forall p u, u ∈ Q' p -> p = Queue (queue_head (mx s))) ->
  inv (Sys (set_lock false (set_owner (Some u) (unlocked (set_lock true (mx s))))) w
         (<[t := Waking u]> (pcs s)) (<[t := holds s t + -1]> (holds s))) Q' (Some (t, u)).
Proof.
  intros I Ht Ho Hl Hq [Hnu Hnd]%NoDup_cons Hw HQ Hp.
  destruct (last_unlock _ _ _ _ I Ht Ho Hl) as (Hh1&->&Hwo&Hz).
  assert (Hu : pcs s u = Blocked false) by (eapply i_queued; [done|]; rewrite Hq; left).
  assert (Hne : u <> t) by congruence.
  assert (Hl' : forall x, x ∈ l -> pcs s x = Blocked false /\ x <> u /\ x <> t).
  { intros x Hx. assert (Hb : pcs s x = Blocked false)
      by (eapply i_queued; [done|]; rewrite Hq; now right).
    split_and!; [done|congruence|congruence]. }
  assert (Hb : forall x, pcs s x = Blocked false -> x ∈ l \/ x = u).
  { intros x Hx. destruct (i_blocked _ _ _ I _ Hx) as [Hin|[? ?]]; [|done].
    rewrite Hq in Hin. apply elem_of_cons in Hin as [?|?]; auto. }
  unfold unlocked. open_inv s I.
  close_inv; rewrite ?Hh1 in *;
    match goal with H : ?x ∈ Q' _ |- _ => destruct (Hl' _ H) as (?&?&?) | _ => idtac end;
    try done; try congruence; try lia.
  - destruct (Hb t0) as [?| ->]; eauto.
  - destruct (Hb t0) as [?| ->]; eauto.
  - split; congruence.
  - rewrite i_waking0. split; congruence.
  - rewrite Hz in * by done. lia.
  - intuition congruence.
  - intuition congruence.
  - rewrite Hz by done. done.
Qed.

Lemma inv_wake s Q t u :
  inv s Q (Some (t, u)) ->
  inv (Sys (mx s) (wq s) (<[u := Woken]> (<[t := Idle]> (pcs s))) (holds s)) Q None.
Proof.
  intros I. assert (Ht := proj2 (i_waking _ _ _ I t u) eq_refl).
  assert (Hu := i_granted' _ _ _ I _ _ eq_refl).
  assert (Ho := i_granted _ _ _ I _ _ eq_refl).
  open_inv s I. close_inv; finish.
  - apply i_queued'0 in H. done.
  - assert (Hx := i_queued0 _ H). congruence.
  - rewrite i_waking0. split; congruence.
Qed.

Lemma woken_facts s Q g t :
  inv s Q g -> pcs s t = Woken ->
  owner (mx s) = Some t /\ g = None /\ (forall u, holds s u = 0) /\
  (forall u, pcs s u = Woken -> u = t) /\ t ∉ waiters s Q.
Proof.
  intros I Ht. assert (Ho := i_woken _ _ _ I _ Ht).
  assert (Hown : forall u, owner (mx s) = Some u -> u = t) by (intros; congruence).
  split_and!; [done|..].
  - destruct g as [[u v]|]; [|done].
    assert (Hv := Hown _ (i_granted _ _ _ I _ _ eq_refl)). subst.
    assert (Hv := i_granted' _ _ _ I _ _ eq_refl). congruence.
  - intros u. assert (Hn := i_nonneg _ _ _ I u).
    destruct (decide (holds s u = 0)) as [|Hne]; [done|].
    assert (Hu : 0 < holds s u) by lia. assert (Hi := i_hold' _ _ _ I _ Hu).
    assert (Hv := Hown _ (i_hold _ _ _ I _ Hu)). congruence.
  - intros u Hu. apply Hown. now apply (i_woken _ _ _ I).
  - intros Hin. apply (i_queued _ _ _ I) in Hin. congruence.
Qed.

(** After its wakeup a thread finds itself the owner and the count at zero. *)
Lemma resume_ok s Q g t :
  inv s Q g -> pcs s t = Woken ->
  timedlock_resume t (mx s) =
  Ret (if decide (mtype (mx s) = Some PTHREAD_MUTEX_RECURSIVE)
       then set_locks 1 (mx s) else mx s).
Proof.
  intros I Ht. destruct (woken_facts _ _ _ _ I Ht) as (Ho&_&Hh&_).
  unfold timedlock_resume. rewrite check_true by now apply bool_decide_eq_true_2.
  assert (Hl := i_locks _ _ _ I t). rewrite Hh in Hl. assert (Hty := i_type _ _ _ I).
  destruct (mtype (mx s)) as [[]|] eqn:E; try case_decide; simplify_eq; try done.
  - destruct (mx s). cbn in *. now subst.
  - rewrite Hl by done. destruct (mx s). cbn in *. now subst.
  - now destruct (Hty n).
Qed.

Lemma inv_resume s Q g t :
  inv s Q g -> pcs s t = Woken ->
  inv (Sys (if decide (mtype (mx s) = Some PTHREAD_MUTEX_RECURSIVE)
            then set_locks 1 (mx s) else mx s) (wq s)
         (<[t := Idle]> (pcs s)) (<[t := holds s t + 1]> (holds s))) Q g.
Proof.
  intros I Ht. destruct (woken_facts _ _ _ _ I Ht) as (Ho&->&Hh&Hw&Hq).
  open_inv s I. case_decide; close_inv; rewrite ?Hh in *; finish.
Qed.

Lemma inv_transfer s Q g t u :
  inv s Q g -> pcs s t = Idle -> pcs s u = Idle -> t <> u -> owner (mx s) = Some t ->
  inv (Sys (set_owner (Some u) (mx s)) (wq s) (pcs s)
         (<[u := holds s t]> (<[t := 0]> (holds s)))) Q g.
Proof.
  intros I Ht Hu Hne Ho.
  destruct (idle_away _ _ _ _ I Ht) as (?&?&?), (idle_away _ _ _ _ I Hu) as (?&?&?).
  assert (Hi := proj1 (idle_owner _ _ _ _ I Ht) Ho).
  open_inv s I. close_inv; finish.
  - assert (Hx := i_granted0 _ _ eq_refl). simplify_eq. naive_solver.
  - match goal with H : pc t0 = Woken |- _ => assert (Hx := i_woken0 _ H) end.
    simplify_eq; congruence.
  - match goal with H : 0 < hd t0 |- _ => assert (Hx := i_hold0 _ H) end.
    simplify_eq.
  - intuition congruence.
Qed.

#[local] Arguments mtype : simpl never.

(** What each critical section does to a state with the invariant. *)
Inductive queue_outcome s Q abstime t : exec (pthread_mutex * M * ending) -> Prop :=
| qo_einval :
    bad_abstime abstime = true ->
    queue_outcome s Q abstime t (Ret (set_lock true (mx s), wq s, Return (Some EINVAL)))
| qo_sleep w :
    bad_abstime abstime = false ->
    wq_rep w (<[Queue (queue_head (mx s)) := t :: waiters s Q]> Q) ->
    queue_outcome s Q abstime t (Ret (set_lock false (set_lock true (mx s)), w, Sleep)).

Inductive lock_outcome s Q abstime t : exec (pthread_mutex * M * ending) -> Prop :=
| lo_free :
    held (mx s) = false ->
    lock_outcome s Q abstime t
      (Ret (acquired t (set_held true (set_lock true (mx s))), wq s, Return None))
| lo_edeadlk :
    0 < holds s t -> mtype (mx s) = Some PTHREAD_MUTEX_ERRORCHECK ->
    lock_outcome s Q abstime t
      (Ret (set_lock false (set_lock true (mx s)), wq s, Return (Some EDEADLK)))
| lo_relock :
    0 < holds s t -> mtype (mx s) = Some PTHREAD_MUTEX_RECURSIVE ->
    lock_outcome s Q abstime t
      (Ret (set_lock false (set_locks (u32 (locks (mx s) + 1)) (set_lock true (mx s))),
            wq s, Return None))
| lo_self_deadlock :
    0 < holds s t ->
    mtype (mx s) = None \/ mtype (mx s) = Some PTHREAD_MUTEX_NORMAL ->
    lock_outcome s Q abstime t (Crash assertion_failed)
| lo_queue r :
    held (mx s) = true -> holds s t = 0 ->
    queue_outcome s Q abstime t r -> lock_outcome s Q abstime t r.

Lemma held_owner s Q g :
  inv s Q g -> held (mx s) = false -> owner (mx s) = None.
Proof.
  intros I Hh. destruct (owner (mx s)) eqn:E; [|done].
  assert (H : owner (mx s) <> None) by congruence. apply (i_held _ _ _ I) in H. congruence.
Qed.

Lemma timedlock_queue_ok s Q g t abstime :
  inv s Q g -> pcs s t = Idle -> held (mx s) = true ->
  queue_outcome s Q abstime t (timedlock_queue t abstime (set_lock true (mx s)) (wq s)).
Proof.
  intros I Ht Hh. unfold timedlock_queue.
  rewrite check_true by now apply bool_decide_eq_true_2, (i_held _ _ _ I).
  destruct (bad_abstime abstime) eqn:E; [now constructor|].
  destruct (wq_enqueue_spec (wq s) Q (queue_head (mx s)) t) as (w'&Ew&Hw).
  - apply I.
  - intros p Hp. assert (Hx := i_place _ _ _ I _ _ Hp). subst.
    now apply (idle_away _ _ _ _ I Ht) in Hp.
  - cbn. rewrite Ew. cbn. now constructor.
Qed.

Lemma timedlock_enter_ok s Q g t abstime :
  inv s Q g -> pcs s t = Idle ->
  lock_outcome s Q abstime t (timedlock_enter (Some t) abstime (mx s) (wq s)).
Proof.
  intros I Ht. assert (Hi := idle_owner _ _ _ _ I Ht). assert (Hty := i_type _ _ _ I).
  unfold timedlock_enter. destruct (held (mx s)) eqn:Hh; cbn; rewrite Hh; cbn.
  2:{ rewrite acquire_free by (exact Hty || exact (held_owner _ _ _ I Hh)). now constructor. }
  assert (Hq := timedlock_queue_ok _ _ _ _ abstime I Ht Hh).
  change (mtype (set_lock true (mx s))) with (mtype (mx s)).
  assert (Hn := i_nonneg _ _ _ I t).
  assert (Hz : owner (mx s) <> Some t -> holds s t = 0).
  { intros Hne. destruct (decide (holds s t = 0)); [done|]. exfalso. apply Hne, Hi. lia. }
  destruct (mtype (mx s)) as [[]|] eqn:E; cbn; try (now destruct (Hty n));
    (destruct (decide (owner (mx s) = Some t)) as [Hot|Hot];
     rewrite ?bool_decide_eq_true_2, ?bool_decide_eq_false_2 by tauto; cbn;
     [apply Hi in Hot; econstructor; eauto|apply lo_queue; eauto]).
Qed.

Inductive trylock_outcome s t : exec (pthread_mutex * option errno) -> Prop :=
| to_free :
    held (mx s) = false ->
    trylock_outcome s t (Ret (acquired t (set_held true (set_lock true (mx s))), None))
| to_relock :
    0 < holds s t -> mtype (mx s) = Some PTHREAD_MUTEX_RECURSIVE ->
    trylock_outcome s t
      (Ret (set_lock false (set_locks (u32 (locks (mx s) + 1)) (set_lock true (mx s))), None))
| to_busy :
    held (mx s) = true ->
    (0 < holds s t -> mtype (mx s) <> Some PTHREAD_MUTEX_RECURSIVE) ->
    trylock_outcome s t (Ret (set_lock false (set_lock true (mx s)), Some EBUSY)).

Lemma trylock_ok s Q g t :
  inv s Q g -> pcs s t = Idle ->
  trylock_outcome s t (__pthread_mutex_trylock (Some t) (mx s)).
Proof.
  intros I Ht. assert (Hi := idle_owner _ _ _ _ I Ht). assert (Hty := i_type _ _ _ I).
  unfold __pthread_mutex_trylock. destruct (held (mx s)) eqn:Hh; cbn; rewrite Hh; cbn.
  2:{ rewrite acquire_free by (exact Hty || exact (held_owner _ _ _ I Hh)). now constructor. }
  change (mtype (set_lock true (mx s))) with (mtype (mx s)).
  destruct (mtype (mx s)) as [[]|] eqn:E; cbn; try (now destruct (Hty n));
    try (constructor; [done|intros _; congruence]).
  destruct (decide (owner (mx s) = Some t)) as [Hot|Hot].
  - rewrite bool_decide_eq_true_2 by done. constructor; tauto.
  - rewrite bool_decide_eq_false_2 by done. constructor; [done|]. intros H. tauto.
Qed.

Inductive release_outcome s Q (t : tid) : exec (pthread_mutex * M * ending) -> Prop :=
| ro_free :
    waiters s Q = [] ->
    release_outcome s Q t
      (Ret (set_lock false (set_held false (unlocked (set_lock true (mx s)))), wq s, Return None))
| ro_handoff u l w Q' :
    waiters s Q = u :: l -> NoDup (u :: l) -> wq_rep w Q' ->
    Q' (Queue (queue_head (mx s))) = l ->
    (forall p x, x ∈ Q' p -> p = Queue (queue_head (mx s))) ->
    release_outcome s Q t
      (Ret (set_lock false (set_owner (Some u) (unlocked (set_lock true (mx s)))), w, Wake u)).

Lemma unlock_release_ok s Q g t :
  inv s Q g ->
  release_outcome s Q t (unlock_release (unlocked (set_lock true (mx s))) (wq s)).
Proof.
  intros I. unfold unlock_release.
  assert (Eq : queue_head (unlocked (set_lock true (mx s))) = queue_head (mx s))
    by (unfold unlocked; now case_decide).
  rewrite Eq, (wq_head_spec (wq s) Q) by apply I.
  change (Q (Queue (queue_head (mx s)))) with (waiters s Q).
  assert (Hnd := sep_nodup _ (wq_separated _ _ (i_rep _ _ _ I)) (Queue (queue_head (mx s)))).
  change (Q (Queue (queue_head (mx s)))) with (waiters s Q) in Hnd.
  destruct (waiters s Q) as [|u l] eqn:E; cbn; [now constructor|].
  destruct (wq_dequeue_spec (wq s) Q (queue_head (mx s)) [] u l) as (w'&->&Hw);
    [apply I|exact E|]. cbn.
  apply (ro_handoff _ _ _ u l w' (<[Queue (queue_head (mx s)) := l]> Q)); try done.
  - now rewrite fn_lookup_insert.
  - intros p x. rewrite elem_insert. intros [[-> _]|[_ Hx]]; [done|].
    eapply (i_place _ _ _ I); eauto.
Qed.

Inductive unlock_outcome s Q t : exec (pthread_mutex * M * ending) -> Prop :=
| uo_eperm :
    holds s t = 0 ->
    mtype (mx s) = Some PTHREAD_MUTEX_ERRORCHECK \/
    mtype (mx s) = Some PTHREAD_MUTEX_RECURSIVE ->
    unlock_outcome s Q t
      (Ret (set_lock false (set_lock true (mx s)), wq s, Return (Some EPERM)))
| uo_not_held :
    holds s t = 0 ->
    mtype (mx s) = None \/ mtype (mx s) = Some PTHREAD_MUTEX_NORMAL ->
    unlock_outcome s Q t (Crash assertion_failed)
| uo_nested :
    1 < holds s t -> mtype (mx s) = Some PTHREAD_MUTEX_RECURSIVE ->
    unlock_outcome s Q t
      (Ret (set_lock false (set_locks (holds s t - 1) (set_lock true (mx s))),
            wq s, Return None))
| uo_release r :
    holds s t = 1 -> release_outcome s Q t r -> unlock_outcome s Q t r.

(** The last unlock of the owner releases the mutex. *)
Lemma unlock_releases s Q g t :
  inv s Q g -> pcs s t = Idle -> holds s t = 1 ->
  __pthread_mutex_unlock (Some t) (mx s) (wq s) =
  unlock_release (unlocked (set_lock true (mx s))) (wq s).
Proof.
  intros I Ht H1. assert (Hty := i_type _ _ _ I). assert (Hl := i_locks _ _ _ I t).
  assert (Hot : owner (mx s) = Some t) by (apply (i_hold _ _ _ I); lia).
  unfold __pthread_mutex_unlock, unlocked.
  change (mtype (set_lock true (mx s))) with (mtype (mx s)). cbn.
  destruct (mtype (mx s)) as [[]|] eqn:E; cbn; try (now destruct (Hty n));
    rewrite ?bool_decide_eq_true_2, ?bool_decide_eq_false_2 by naive_solver; cbn;
    case_decide; try done.
  rewrite Hl, H1 by done. done.
Qed.

Lemma unlock_ok s Q g t :
  inv s Q g -> pcs s t = Idle ->
  unlock_outcome s Q t (__pthread_mutex_unlock (Some t) (mx s) (wq s)).
Proof.
  intros I Ht. destruct (decide (holds s t = 1)) as [H1|H1].
  { rewrite (unlock_releases _ _ _ _ I Ht H1). apply uo_release; [done|].
    eapply unlock_release_ok, I. }
  assert (Hi := idle_owner _ _ _ _ I Ht). assert (Hty := i_type _ _ _ I).
  assert (Hn := i_nonneg _ _ _ I t). assert (Honce := i_once _ _ _ I t).
  assert (Hl := i_locks _ _ _ I t).
  unfold __pthread_mutex_unlock.
  change (mtype (set_lock true (mx s))) with (mtype (mx s)).
  destruct (decide (owner (mx s) = Some t)) as [Hot|Hot].
  - assert (Hp := proj1 Hi Hot). cbn.
    destruct (decide (mtype (mx s) = Some PTHREAD_MUTEX_RECURSIVE)) as [E|E].
    + rewrite E. rewrite bool_decide_eq_false_2 by tauto. cbn.
      rewrite Hl, u32_small by (done || lia).
      rewrite (proj2 (Z.ltb_lt 0 _)) by lia. apply uo_nested; [lia|done].
    + specialize (Honce E). lia.
  - assert (Hz : holds s t = 0).
    { destruct (decide (holds s t = 0)); [done|]. exfalso. apply Hot, Hi. lia. }
    cbn. destruct (mtype (mx s)) as [[]|] eqn:E; cbn; try (now destruct (Hty n));
      try (rewrite bool_decide_eq_true_2 by done; constructor; auto).
    all: rewrite (bool_decide_eq_false_2 (owner (mx s) = Some t)) by done;
      destruct (bool_decide (owner (mx s) <> None)); cbn; constructor; auto.
Qed.

(** The invariant holds in every state that untimed use can reach. *)
Lemma acquire_step s Q g t :
  inv s Q g -> pcs s t = Idle -> held (mx s) = false ->
  invariant (conclude s t false 1 (acquired t (set_held true (set_lock true (mx s))))
               (wq s) (Return None)).
Proof. intros. exists Q, g. now apply inv_acquire. Qed.

Lemma lock_step s Q g t m w e :
  inv s Q g -> pcs s t = Idle -> holds s t < 2 ^ 32 - 1 ->
  timedlock_enter (Some t) None (mx s) (wq s) = Ret (m, w, e) ->
  invariant (conclude s t false 1 m w e).
Proof.
  intros I Ht Hb E. assert (H := timedlock_enter_ok s Q g t None I Ht). rewrite E in H.
  inversion H as [Hh|Hh Hty|Hh Hty|Hh Hty|r Hh Hz Hr]; subst.
  - eapply acquire_step; eauto.
  - exists Q, g. now apply inv_same.
  - exists Q, g. apply inv_relock; try done. eapply idle_owner; eauto.
  - inversion Hr as [Hbad|w' Hok Hw]; subst; [done|].
    exists (<[Queue (queue_head (mx s)) := t :: waiters s Q]> Q), g.
    eapply inv_queue; try done.
    + intros Ho. apply (idle_owner _ _ _ _ I Ht) in Ho. lia.
    + now rewrite fn_lookup_insert.
    + intros p u. rewrite elem_insert. intros [[-> _]|[_ Hu]]; [done|].
      eapply (i_place _ _ _ I); eauto.
Qed.

Lemma trylock_step s Q g t m e :
  inv s Q g -> pcs s t = Idle -> holds s t < 2 ^ 32 - 1 ->
  __pthread_mutex_trylock (Some t) (mx s) = Ret (m, e) ->
  invariant (conclude s t false 1 m (wq s) (Return e)).
Proof.
  intros I Ht Hb E. assert (H := trylock_ok s Q g t I Ht). rewrite E in H.
  inversion H as [Hh|Hh Hty|Hh Hty]; subst.
  - eapply acquire_step; eauto.
  - exists Q, g. apply inv_relock; try done. eapply idle_owner; eauto.
  - exists Q, g. now apply inv_same.
Qed.

Lemma unlock_step s Q g t m w e :
  inv s Q g -> pcs s t = Idle ->
  __pthread_mutex_unlock (Some t) (mx s) (wq s) = Ret (m, w, e) ->
  invariant (conclude s t false (-1) m w e).
Proof.
  intros I Ht E. assert (H := unlock_ok s Q g t I Ht). rewrite E in H.
  assert (Ho : 0 < holds s t -> owner (mx s) = Some t) by now apply (idle_owner _ _ _ _ I Ht).
  inversion H as [Hz Hty|Hz Hty|Hn Hty|r H1 Hr]; subst.
  - exists Q, g. now apply inv_same.
  - exists Q, g. apply inv_nested; try done. apply Ho. lia.
  - assert (Hl : mtype (mx s) = Some PTHREAD_MUTEX_RECURSIVE -> locks (mx s) = 1).
    { intros Hty. rewrite (i_locks _ _ _ I t Hty); [done|]. apply Ho. lia. }
    inversion Hr; subst.
    + exists Q, g. apply inv_free; try done. apply Ho. lia.
    + exists Q', (Some (t, u)). eapply inv_handoff; try done. apply Ho. lia.
Qed.

Lemma transfer_ok (m m' : pthread_mutex) t u :
  t <> u -> __pthread_mutex_transfer_np (Some t) (Some u) m = Ret (m', None) ->
  owner m = Some t /\ m' = set_owner (Some u) m.
Proof.
  intros Hne. unfold __pthread_mutex_transfer_np.
  destruct (decide (owner m = Some t)) as [Ho|Ho].
  - rewrite (bool_decide_eq_true_2 (owner m = Some t)) by done. cbn.
    rewrite (bool_decide_eq_false_2 (Some u = Some t)) by congruence.
    rewrite (bool_decide_eq_false_2 (owner m <> Some t)) by tauto. rewrite andb_false_r.
    naive_solver.
  - rewrite (bool_decide_eq_false_2 (owner m = Some t)) by done. done.
Qed.

Lemma step_invariant s s' : invariant s -> step false s s' -> invariant s'.
Proof.
  intros (Q&g&I) Hs. inversion Hs; subst.
  - destruct H2 as [->|]; [|done]. eapply lock_step; eauto.
  - eapply trylock_step; eauto.
  - eapply unlock_step; eauto.
  - assert (Hg := proj1 (i_waking _ _ _ I _ _) H). subst.
    exists Q, None. now apply inv_wake.
  - rewrite (resume_ok _ _ _ _ I H) in H0. simplify_eq.
    exists Q, g. now apply inv_resume.
  - now apply (i_untimed _ _ _ I) in H.
  - now apply (i_not_timed _ _ _ I) in H.
  - exists Q, g. eapply transfer_ok in H2; [|done]. destruct H2 as [Ho ->].
    now apply inv_transfer.
Qed.

Lemma reachable_invariant s : reachable false s -> invariant s.
Proof.
  intros (s0&H0&Hr). apply initial_inv in H0.
  induction Hr as [|s1 s2 s3 Hs _ IH]; eauto using step_invariant.
Qed.

(** ** Correctness of untimed use *)

(** C11: Mutual exclusion. However many threads interleave lock, trylock,
    unlock and transfer calls on a mutex of any known type, at most one thread
    holds it: if two threads have lock calls that returned 0 and that they have
    not undone, they are the same thread.  The holder is the recorded owner,
    the held flag is set, and a recursive mutex counts the owner's calls. *)
Theorem mutex_mutual_exclusion s t u :
  reachable false s -> 0 < holds s t -> 0 < holds s u ->
  t = u /\ owner (mx s) = Some t /\ held (mx s) = true /\
  (mtype (mx s) = Some PTHREAD_MUTEX_RECURSIVE -> locks (mx s) = holds s t) /\
  (mtype (mx s) <> Some PTHREAD_MUTEX_RECURSIVE -> holds s t = 1).
Proof.
  intros (Q&g&I)%reachable_invariant Ht Hu.
  assert (H1 := i_hold _ _ _ I _ Ht). assert (H2 := i_hold _ _ _ I _ Hu).
  split_and!; [congruence|done| | |].
  - apply (i_held _ _ _ I). congruence.
  - intros Hty. now apply (i_locks _ _ _ I).
  - intros Hty. assert (Hx := i_once _ _ _ I t Hty). lia.
Qed.

(** No assertion of the mutex functions fails unless a client misuses the
    mutex: a lock call crashes only when the thread already holds a mutex that
    is neither recursive nor error-checking (and then it always does: it would
    deadlock), an unlock call only when the thread does not hold such a mutex,
    trylock never; and a thread that was woken up always returns 0. *)
Theorem mutex_no_assertion_fails s t :
  reachable false s ->
  (pcs s t = Idle ->
    ((exists f, timedlock_enter (Some t) None (mx s) (wq s) = Crash f) <->
     0 < holds s t /\ (mtype (mx s) = None \/ mtype (mx s) = Some PTHREAD_MUTEX_NORMAL)) /\
    ((exists f, __pthread_mutex_unlock (Some t) (mx s) (wq s) = Crash f) <->
     holds s t = 0 /\ (mtype (mx s) = None \/ mtype (mx s) = Some PTHREAD_MUTEX_NORMAL)) /\
    (exists r, __pthread_mutex_trylock (Some t) (mx s) = Ret r)) /\
  (pcs s t = Woken -> exists m, timedlock_resume t (mx s) = Ret m).
Proof.
  intros (Q&g&I)%reachable_invariant. split.
  - intros Ht. assert (Hn := i_nonneg _ _ _ I t). split_and!.
    + destruct (timedlock_enter_ok s Q g t None I Ht) as [|? Hty|? Hty|? Hty|r ?? Hr];
        try destruct Hr; (split; [intros [f ?]|intros [? [?|?]]]); try done; try lia;
        eauto; try congruence.
      all: exfalso; destruct (i_nonneg _ _ _ I t) as [? ?];
        assert (Ho := i_hold _ _ _ I t ltac:(done)); apply held_owner in I; congruence.
    + destruct (unlock_ok s Q g t I Ht) as [? [Hty|Hty]|? Hty|? Hty|r ? Hr];
        try destruct Hr; (split; [intros [f ?]|intros [? [?|?]]]); try done; try lia;
        eauto; congruence.
    + destruct (trylock_ok s Q g t I Ht); eauto.
  - intros Ht. rewrite (resume_ok _ _ _ _ I Ht). eauto.
Qed.


(** Handoff is last come, first served: an unlock that releases a contended
    mutex gives it to the thread that queued last, which owns it from that
    moment (no third thread can take it before the wakeup), and leaves the
    earlier waiters queued in their order. *)
Theorem mutex_handoff_lifo s Q t u l :
  reachable false s -> wq_rep (wq s) Q -> pcs s t = Idle -> holds s t = 1 ->
  Q (Queue (queue_head (mx s))) = u :: l ->
  exists m w Q', __pthread_mutex_unlock (Some t) (mx s) (wq s) = Ret (m, w, Wake u) /\
    owner m = Some u /\ held m = true /\ lock m = false /\
    wq_rep w Q' /\ Q' (Queue (queue_head m)) = l.
Proof.
  intros (Q0&g&I)%reachable_invariant HQ Ht H1 Hq.
  rewrite (unlock_releases _ _ _ _ I Ht H1).
  assert (Hh : held (mx s) = true).
  { apply (i_held _ _ _ I). rewrite (i_hold _ _ _ I t); [done|lia]. }
  assert (Eq : queue_head (unlocked (set_lock true (mx s))) = queue_head (mx s))
    by (unfold unlocked; now case_decide).
  unfold unlock_release. rewrite Eq, (wq_head_spec _ _ _ HQ), Hq. cbn.
  destruct (wq_dequeue_spec _ _ _ [] _ _ HQ Hq) as (w'&->&Hw). cbn.
  eexists _, _, _. split; [reflexivity|]. cbn. split_and!; [done| |done|exact Hw|].
  - now case_decide.
  - case_decide; cbn; now rewrite fn_lookup_insert.
Qed.

(** ** Timed use *)

Lemma resume_frame t (m m' : pthread_mutex) :
  timedlock_resume t m = Ret m' -> lock m' = lock m /\ held m' = held m.
Proof.
  unfold timedlock_resume, check. case_bool_decide; [|done]. cbn.
  destruct (mtype m) as [[]|]; [naive_solver|naive_solver| |done|naive_solver].
  destruct (locks m =? 0); [|done]. cbn. naive_solver.
Qed.

(** While the spin lock is held, no critical section can begin. *)
Lemma wedged_step s s' :
  step true s s' -> lock (mx s) = true ->
  lock (mx s') = true /\ wq s' = wq s /\ held (mx s') = held (mx s).
Proof.
  intros Hs Hl. inversion Hs; subst; try congruence; try done.
  - apply resume_frame in H0 as [El Eh]. cbn. now rewrite El.
  - cbn. apply transfer_ok in H2 as [_ ->]; done.
Qed.

Lemma wedged_steps s s' :
  rtc (step true) s s' -> lock (mx s) = true ->
  lock (mx s') = true /\ wq s' = wq s /\ held (mx s') = held (mx s).
Proof.
  intros Hr. induction Hr as [|s1 s2 s3 H12 _ IH]; [done|]. intros H1.
  destruct (wedged_step _ _ H12 H1) as (H2&E2&E3).
  destruct (IH H2) as (?&->&->). auto.
Qed.

(** A timed lock call with an invalid timeout on a busy mutex returns
    EINVAL with the spin lock still taken, and from then on the mutex is
    unusable: whatever the threads do, the spin lock stays taken, so that no
    lock, trylock, unlock or timeout section ever runs again, and the queue of
    waiters never changes. *)
Theorem mutex_einval_wedges s t abstime :
  reachable false s -> pcs s t = Idle -> held (mx s) = true -> holds s t = 0 ->
  bad_abstime abstime = true ->
  exists m, timedlock_enter (Some t) abstime (mx s) (wq s)
              = Ret (m, wq s, Return (Some EINVAL)) /\
    lock m = true /\
    forall s', rtc (step true) (conclude s t true 1 m (wq s) (Return (Some EINVAL))) s' ->
      lock (mx s') = true /\ wq s' = wq s /\ held (mx s') = true.
Proof.
  intros (Q&g&I)%reachable_invariant Ht Hh Hz Hb.
  destruct (timedlock_enter_ok s Q g t abstime I Ht) as [| | | |r _ _ Hr];
    try congruence; try lia.
  destruct Hr; [|congruence]. exists (set_lock true (mx s)). split_and!; [done..|].
  intros s' Hs'.
  assert (H0 : lock (mx (conclude s t true 1 (set_lock true (mx s)) (wq s)
                         (Return (Some EINVAL)))) = true) by done.
  destruct (wedged_steps _ _ Hs' H0) as (?&->&->). auto.
Qed.

End invariant.

(** ** Runs of a concrete system *)

Import PtQueue.

Definition sample (a : option attr_ptr) : sys qmem :=
  Sys (set_attr a (mutex_initializer 0)) empty_qmem (fun _ => Idle) (fun _ => 0).

Definition do_lock (s : sys qmem) (t : tid) (abstime : option timespec) : sys qmem :=
  match timedlock_enter (Some t) abstime (mx s) (wq s) with
  | Ret (m, w, e) => conclude s t (is_timed abstime) 1 m w e
  | Crash _ => s
  end.

Definition do_unlock (s : sys qmem) (t : tid) : sys qmem :=
  match __pthread_mutex_unlock (Some t) (mx s) (wq s) with
  | Ret (m, w, e) => conclude s t false (-1) m w e
  | Crash _ => s
  end.

Lemma sample_reachable timed a :
  (forall n, type ∘ deref_attr <$> a <> Some (other_type n)) -> reachable timed (sample a).
Proof.
  intros Ha. exists (sample a). split; [|done].
  split; [exists 0, a; split; [done|exact Ha]|apply empty_rep|done|done].
Qed.

Lemma reachable_step timed (s s' : sys qmem) :
  reachable timed s -> step timed s s' -> reachable timed s'.
Proof. intros (s0&H0&Hr) Hs. exists s0. split; [done|]. eapply rtc_r; eauto. Qed.

Lemma do_lock_reachable timed s t abstime :
  reachable timed s -> pcs s t = Idle -> lock (mx s) = false ->
  holds s t < 2 ^ 32 - 1 -> abstime = None \/ timed = true ->
  (exists r, timedlock_enter (Some t) abstime (mx s) (wq s) = Ret r) ->
  reachable timed (do_lock s t abstime).
Proof.
  intros Hr Ht Hl Hb Ha [[[m w] e] E]. eapply reachable_step; [done|].
  unfold do_lock. rewrite E. eapply step_lock; eauto.
Qed.

Lemma do_unlock_reachable timed s t :
  reachable timed s -> pcs s t = Idle -> lock (mx s) = false ->
  (exists r, __pthread_mutex_unlock (Some t) (mx s) (wq s) = Ret r) ->
  reachable timed (do_unlock s t).
Proof.
  intros Hr Ht Hl [[[m w] e] E]. eapply reachable_step; [done|].
  unfold do_unlock. rewrite E. eapply step_unlock; eauto.
Qed.

(** Thread 1 holds the mutex; threads 2 and 3 wait for it. *)
Definition contended (a : option attr_ptr) : sys qmem :=
  do_lock (do_lock (do_lock (sample a) 1 None) 2 None) 3 None.

Ltac run_lock :=
  apply do_lock_reachable;
  [|reflexivity|reflexivity|reflexivity|first [now left|now right]|eexists; reflexivity].

Lemma contended_reachable : reachable false (contended (Some static_recursive)).
Proof.
  unfold contended.
  do 3 run_lock.
  apply sample_reachable. done.
Qed.

Theorem mutex_mutual_exclusion_witness :
  exists t u s, reachable false s /\ 0 < holds s t /\ 0 < holds s u /\ t = u.
Proof.
  exists 1, 1, (contended (Some static_recursive)).
  split; [exact contended_reachable|]. split; [reflexivity|]. split; [reflexivity|].
  exact (proj1 (mutex_mutual_exclusion (contended (Some static_recursive)) 1 1
           contended_reachable eq_refl eq_refl)).
Defined.

Theorem mutex_no_assertion_fails_witness :
  pcs (contended (Some static_recursive)) 1 = Idle /\
  exists r, __pthread_mutex_trylock (Some 1) (mx (contended (Some static_recursive))) = Ret r.
Proof.
  split; [reflexivity|].
  apply (mutex_no_assertion_fails (contended (Some static_recursive)) 1 contended_reachable).
  reflexivity.
Defined.


(** The contents of the queue memory of [contended]. *)
Definition contended_contents : place -> list tid :=
  <[Queue 0 := [3; 2]]> (<[Queue 0 := [2]]> (fun _ => [])).

Lemma contended_rep : wq_rep (wq (contended (Some static_recursive))) contended_contents.
Proof.
  assert (H0 : wq_rep empty_qmem (fun _ => [])) by exact empty_rep.
  assert (H2 : forall p, (2 : tid) ∉ (fun _ : place => @nil tid) p) by (intros; apply not_elem_of_nil).
  destruct (wq_enqueue_spec empty_qmem (fun _ => []) 0 2 H0 H2) as (m2&E2&R2).
  assert (H3 : forall p, (3 : tid) ∉ <[Queue 0 := [2]]> (fun _ : place => @nil tid) p).
  { intros p. rewrite elem_insert. set_solver by lia. }
  destruct (wq_enqueue_spec (M := qmem) m2 _ 0 3 R2 H3) as (m3&E3&R3).
  assert (Hm2 : m2 = wq (do_lock (do_lock (sample (Some static_recursive)) 1 None) 2 None)).
  { cbn in E2. injection E2 as <-. reflexivity. }
  assert (Hm3 : m3 = wq (contended (Some static_recursive))).
  { subst m2. cbn in E3. injection E3 as <-. reflexivity. }
  rewrite <- Hm3. exact R3.
Qed.

Theorem mutex_handoff_lifo_witness :
  exists m w, __pthread_mutex_unlock (Some 1) (mx (contended (Some static_recursive)))
                (wq (contended (Some static_recursive))) = Ret (m, w, Wake 3).
Proof.
  destruct (mutex_handoff_lifo (contended (Some static_recursive)) contended_contents 1 3 [2]
              contended_reachable contended_rep eq_refl eq_refl eq_refl)
    as (m&w&Q'&E&_).
  exists m, w. exact E.
Defined.

Theorem mutex_einval_wedges_witness :
  exists m, timedlock_enter (Some 4) (Some (Timespec 0 (-1)))
              (mx (contended (Some static_recursive))) (wq (contended (Some static_recursive)))
            = Ret (m, wq (contended (Some static_recursive)), Return (Some EINVAL)) /\
            lock m = true.
Proof.
  destruct (mutex_einval_wedges (contended (Some static_recursive)) 4
              (Some (Timespec 0 (-1))) contended_reachable eq_refl eq_refl eq_refl eq_refl)
    as (m&E&Hl&_).
  exists m. split; [exact E|exact Hl].
Defined.

(** Thread 2 times out between the unlock that hands it the mutex and the
    wakeup. *)
Definition race : sys qmem :=
  let s := do_lock (do_lock (sample None) 1 None) 2 (Some (Timespec 0 0)) in
  let s := do_unlock s 1 in
  let s := Sys (mx s) (wq s) (<[2 := TimedOut]> (pcs s)) (holds s) in
  match timedlock_timeout 2 (mx s) (wq s) with
  | Ret (m, w) => conclude s 2 false 1 m w (Return (Some ETIMEDOUT))
  | Crash _ => s
  end.

(** The race that the code's FIXME asks about leaks the mutex. There is an
    execution, of one lock, one timed lock that times out just after the
    unlock chose it, and one unlock, after which no thread holds the mutex but
    it stays held, owned by the thread whose call returned ETIMEDOUT: that
    thread's next lock call fails an assertion, trylock says EBUSY, every other
    thread's lock call goes to sleep, and the unlocking thread is still in
    its loop trying to wake up a thread that does not sleep. *)
Theorem mutex_timeout_leaks :
  reachable true race /\ (forall t, holds race t = 0) /\
  held (mx race) = true /\ owner (mx race) = Some 2 /\ pcs race 2 = Idle /\
  pcs race 1 = Waking 2 /\
  timedlock_enter (Some 2) None (mx race) (wq race) = Crash assertion_failed /\
  (exists m, __pthread_mutex_trylock (Some 2) (mx race) = Ret (m, Some EBUSY)) /\
  (forall t, t <> 2 -> tprevp (tcbs (wq race) t) = None ->
     exists m w, timedlock_enter (Some t) None (mx race) (wq race) = Ret (m, w, Sleep)).
Proof.
  split_and!; try reflexivity.
  - unfold race. eapply reachable_step.
    2:{ eapply (step_timedout true (Sys _ _ (<[2 := TimedOut]> (pcs _)) _) 2); reflexivity. }
    eapply reachable_step; [|eapply (step_timeout true _ 2); reflexivity].
    apply do_unlock_reachable; [|reflexivity..|eexists; reflexivity].
    do 2 run_lock.
    apply sample_reachable. done.
  - intros t.
    assert (E : holds race = <[2 := 0]> (<[1 := 0]> (<[2 := 0]> (<[1 := 1]> (fun _ => 0)))))
      by reflexivity.
    rewrite E, !fn_at. now repeat case_decide.
  - eexists. reflexivity.
  - intros t Ht Hl. assert (Em : mx race = Mutex true false 0 None (Some 2) 0) by reflexivity.
    rewrite Em. revert Hl. generalize (wq race). intros w Hl.
    unfold timedlock_enter. cbn.
    rewrite bool_decide_eq_true_2 by congruence. unfold timedlock_queue. cbn.
    unfold __pthread_enqueue.
    rewrite (bool_decide_eq_true_2 _ Hl). cbn. eauto.
Qed.
