(* ===== verification/PtSem.v ===== *)
(** * POSIX semaphores (libpthread/sysdeps/generic/sem-*.c)

    A semaphore is a spin lock, a value and a queue of waiters.  A post that
    finds a waiter does not increment the value: it takes the waiter off the
    queue, drops the lock and wakes it up.  As in [PtMutex], a critical section
    is a function and the step relation interleaves them. *)

From S2P Require Import Prelude Ring PtQueue.

Module PtSem.

(** [struct __semaphore]; [sem_queue] is the address of [__queue]. *)
Record semaphore := Sem {
  sem_lock : bool;
  sem_queue : Z;
  sem_pshared : Z;
  sem_value : Z
}.

Definition set_lock (b : bool) (s : semaphore) : semaphore :=
  Sem b (sem_queue s) (sem_pshared s) (sem_value s).
Definition set_value (v : Z) (s : semaphore) : semaphore :=
  Sem (sem_lock s) (sem_queue s) (sem_pshared s) v.

(** The error codes of these functions: [errno], with the result -1. *)
Inductive sem_errno := SEM_EINVAL | SEM_EAGAIN | SEM_EOPNOTSUPP | SEM_ETIMEDOUT | SEM_EBUSY.

Inductive sem_ending :=
| SReturn (err : option sem_errno)
| SSleep
| SWake (t : tid).

(** [__sem_init]: the unsigned [value] is stored in an int. *)
Definition __sem_init (queue pshared value : Z) : option semaphore * option sem_errno :=
  if negb (pshared =? 0) then (None, Some SEM_EOPNOTSUPP)
  else (Some (Sem false queue pshared (i32 value)), None).

Section with_queues.
Context `{!WaitQueues M}.

(** [__sem_timedwait_internal] up to the point where it blocks. *)
Definition __sem_timedwait_enter (self : tid) (timeout : option timespec)
    (s : semaphore) (w : M) : exec (semaphore * M * sem_ending) :=
  let s := set_lock true s in
  if 0 <? sem_value s then
    Ret (set_lock false (set_value (sem_value s - 1) s), w, SReturn None)
  else if bad_abstime timeout then Ret (s, w, SReturn (Some SEM_EINVAL))
  else
    w ← wq_enqueue w (sem_queue s) self;
    Ret (set_lock false s, w, SSleep).

(** What follows a [__pthread_timedblock] that timed out. *)
Definition __sem_timedwait_timeout (self : tid) (s : semaphore) (w : M)
  : exec (semaphore * M) :=
  let s := set_lock true s in
  w ← (if wq_linked w self then wq_dequeue w self else Ret w);
  Ret (set_lock false s, w).

Definition __sem_wait (self : tid) (s : semaphore) (w : M)
  : exec (semaphore * M * sem_ending) :=
  __sem_timedwait_enter self None s w.

Definition __sem_trywait (s : semaphore) : semaphore * option sem_errno :=
  let s := set_lock true s in
  if 0 <? sem_value s then (set_lock false (set_value (sem_value s - 1) s), None)
  else (set_lock false s, Some SEM_EAGAIN).

(** [__value ++] on an int: the store is the wrapped value. *)
Definition __sem_post (s : semaphore) (w : M) : exec (semaphore * M * sem_ending) :=
  let s := set_lock true s in
  if 0 <? sem_value s then
    _ ← check (bool_decide (wq_head w (sem_queue s) = None)) assertion_failed;
    Ret (set_lock false (set_value (i32 (sem_value s + 1)) s), w, SReturn None)
  else
    match wq_head w (sem_queue s) with
    | None => Ret (set_lock false (set_value 1 s), w, SReturn None)
    | Some wakeup =>
        w ← wq_dequeue w wakeup;
        Ret (set_lock false s, w, SWake wakeup)
    end.

Definition __sem_getvalue (s : semaphore) : Z := sem_value s.

Definition __sem_destroy (s : semaphore) (w : M) : option sem_errno :=
  match wq_head w (sem_queue s) with
  | Some _ => Some SEM_EBUSY
  | None => None
  end.

End with_queues.

(** ** The system: any number of threads and one semaphore *)

Inductive pc :=
| Idle
| Blocked (timed : bool)
| Waking (w : tid)
| Woken
| TimedOut.

(** [posted] counts the posts that have had their effect and [taken] the waits
    that have returned 0. *)
Record sys (M : Type) := Sys {
  sem : semaphore;
  wq : M;
  pcs : tid -> pc;
  posted : Z;
  taken : Z
}.
Arguments Sys {M}. Arguments sem {M}. Arguments wq {M}.
Arguments pcs {M}. Arguments posted {M}. Arguments taken {M}.

Definition next_pc (timed : bool) (e : sem_ending) : pc :=
  match e with SReturn _ => Idle | SSleep => Blocked timed | SWake u => Waking u end.

(** 1 when the call succeeded. *)
Definition success (e : sem_ending) : Z :=
  match e with SReturn None => 1 | _ => 0 end.

Definition is_timed (timeout : option timespec) : bool :=
  match timeout with Some _ => true | None => false end.

Inductive step `{!WaitQueues M} (timed : bool) : sys M -> sys M -> Prop :=
| step_wait s t timeout m w e :
    pcs s t = Idle -> sem_lock (sem s) = false ->
    timeout = None \/ timed = true ->
    __sem_timedwait_enter t timeout (sem s) (wq s) = Ret (m, w, e) ->
    step timed s (Sys m w (<[t := next_pc (is_timed timeout) e]> (pcs s))
                    (posted s) (taken s + success e))
| step_trywait s t m e :
    pcs s t = Idle -> sem_lock (sem s) = false ->
    __sem_trywait (sem s) = (m, e) ->
    step timed s (Sys m (wq s) (pcs s) (posted s) (taken s + success (SReturn e)))
| step_post s t m w e :
    pcs s t = Idle -> sem_lock (sem s) = false -> sem_value (sem s) < 2 ^ 31 - 1 ->
    __sem_post (sem s) (wq s) = Ret (m, w, e) ->
    step timed s (Sys m w (<[t := next_pc false e]> (pcs s)) (posted s + 1) (taken s))
| step_wake s t u b :
    pcs s t = Waking u -> pcs s u = Blocked b ->
    step timed s (Sys (sem s) (wq s) (<[u := Woken]> (<[t := Idle]> (pcs s)))
                    (posted s) (taken s))
| step_resume s t :
    pcs s t = Woken ->
    step timed s (Sys (sem s) (wq s) (<[t := Idle]> (pcs s)) (posted s) (taken s + 1))
| step_timeout s t :
    pcs s t = Blocked true ->
    step timed s (Sys (sem s) (wq s) (<[t := TimedOut]> (pcs s)) (posted s) (taken s))
| step_timedout s t m w :
    pcs s t = TimedOut -> sem_lock (sem s) = false ->
    __sem_timedwait_timeout t (sem s) (wq s) = Ret (m, w) ->
    step timed s (Sys m w (<[t := Idle]> (pcs s)) (posted s) (taken s)).

(** A semaphore that was just initialised to [v], below 2^31. *)
Record initial `{!WaitQueues M} (v : Z) (s : sys M) : Prop := Initial {
  init_sem : exists q, __sem_init q 0 v = (Some (sem s), None);
  init_v : 0 <= v < 2 ^ 31;
  init_wq : wq_rep (wq s) (fun _ => []);
  init_pcs : forall t, pcs s t = Idle;
  init_counts : posted s = 0 /\ taken s = 0
}.

Definition reachable `{!WaitQueues M} (timed : bool) (v : Z) (s : sys M) : Prop :=
  exists s0, initial v s0 /\ rtc (step timed) s0 s.

(** ** The invariant of untimed use *)

Section invariant.
Context `{!WaitQueues M, !WaitQueueLaws M}.
Implicit Types (s : sys M) (Q : place -> list tid).

Definition waiters s Q : list tid := Q (Queue (sem_queue (sem s))).

(** [G] is the list of the threads that a post has taken off the queue and
    whose wait has not returned yet. *)
Record inv (v : Z) s Q (G : list tid) : Prop := Inv {
  i_rep : wq_rep (wq s) Q;
  i_lock : sem_lock (sem s) = false;
  i_place : forall p t, t ∈ Q p -> p = Queue (sem_queue (sem s));
  i_queued : forall t, t ∈ waiters s Q -> pcs s t = Blocked false;
  i_disj : forall t, t ∈ waiters s Q -> t ∈ G -> False;
  i_untimed : forall t, pcs s t <> Blocked true;
  i_not_timed : forall t, pcs s t <> TimedOut;
  i_blocked : forall t, pcs s t = Blocked false -> t ∈ waiters s Q \/ t ∈ G;
  i_nodup : NoDup G;
  i_woken : forall t, pcs s t = Woken -> t ∈ G;
  i_waking : forall u t, pcs s u = Waking t -> t ∈ G /\ pcs s t = Blocked false;
  i_waking_one : forall u u' t, pcs s u = Waking t -> pcs s u' = Waking t -> u = u';
  i_granted : forall t, t ∈ G -> pcs s t = Woken \/ exists u, pcs s u = Waking t;
  i_value : 0 <= sem_value (sem s) < 2 ^ 31;
  i_idle : 0 < sem_value (sem s) -> waiters s Q = [];
  i_count : sem_value (sem s) + taken s + Z.of_nat (length G) = v + posted s
}.

Definition invariant v s : Prop := exists Q G, inv v s Q G.

Ltac open_inv s I :=
  destruct I; destruct s as [[l0 q ps n0] w0 pc po0 ta0]; unfold waiters in *; cbn in *; subst.

Ltac close_inv :=
  constructor; unfold waiters; cbn; try done; intros; upd;
  try done; try lia; eauto; try congruence.

(** The waker of a granted thread is still there after a step of a thread that
    wakes nobody up. *)
Lemma granted_stable (f : tid -> pc) t x p :
  (forall u, f t <> Waking u) ->
  f x = Woken \/ (exists u, f u = Waking x) ->
  f x = Woken \/ exists u, <[t := p]> f u = Waking x.
Proof.
  intros Ht [H|[u H]]; [now left|right]. exists u.
  rewrite fn_lookup_insert_ne; [done|]. intros ->. now apply Ht in H.
Qed.

Lemma sem_idle_away v s Q G t :
  inv v s Q G -> pcs s t = Idle -> (t ∉ waiters s Q) /\ (t ∉ G).
Proof.
  intros I Ht. split.
  - intros H. apply (i_queued _ _ _ _ I) in H. congruence.
  - intros H. apply (i_granted _ _ _ _ I) in H as [H|[u H]]; [congruence|].
    apply (i_waking _ _ _ _ I) in H as [_ H]. congruence.
Qed.

Lemma sem_initial_inv v s : initial v s -> invariant v s.
Proof.
  intros [[q E] Hv Hw Hp [Hc1 Hc2]]. exists (fun _ => []), [].
  injection E as E. rewrite i32_small in E by lia.
  constructor; unfold waiters; try setoid_rewrite Hp; rewrite <- ?E, ?Hc1, ?Hc2; cbn;
    try (done || set_solver || lia).
  constructor.
Qed.

(** The state after the calls of an idle thread that do not block. *)
Lemma sem_inv_same v s Q G t n po ta :
  inv v s Q G -> pcs s t = Idle -> 0 <= n < 2 ^ 31 ->
  (0 < n -> waiters s Q = []) -> n + ta + Z.of_nat (length G) = v + po ->
  inv v (Sys (set_lock false (set_value n (set_lock true (sem s)))) (wq s)
           (<[t := Idle]> (pcs s)) po ta) Q G.
Proof.
  intros I Ht Hn Hq Hc. destruct (sem_idle_away _ _ _ _ _ I Ht) as [Ha Hb].
  open_inv s I. close_inv.
  - match goal with H : pc u = Waking t |- _ => destruct (i_waking0 _ _ H) end. congruence.
  - apply granted_stable; auto. congruence.
Qed.

Lemma sem_inv_queue v s Q G t w Q' :
  inv v s Q G -> pcs s t = Idle -> sem_value (sem s) <= 0 ->
  wq_rep w Q' -> Q' (Queue (sem_queue (sem s))) = t :: waiters s Q ->
  (forall p u, u ∈ Q' p -> p = Queue (sem_queue (sem s))) ->
  inv v (Sys (set_lock false (set_lock true (sem s))) w
           (<[t := Blocked false]> (pcs s)) (posted s) (taken s + 0)) Q' G.
Proof.
  intros I Ht Hv Hw HQ Hp. destruct (sem_idle_away _ _ _ _ _ I Ht) as [Ha Hb].
  open_inv s I. close_inv; rewrite ?HQ, ?elem_of_cons in *; destruct_or?; subst; eauto; try done.
  - edestruct i_blocked0; eauto.
  - match goal with H : pc u = Waking t |- _ => destruct (i_waking0 _ _ H) end. done.
  - apply granted_stable; auto. congruence.
Qed.

Lemma sem_inv_handoff v s Q G t u l w Q' :
  inv v s Q G -> pcs s t = Idle -> waiters s Q = u :: l -> NoDup (u :: l) ->
  wq_rep w Q' -> Q' (Queue (sem_queue (sem s))) = l ->
  (forall p u, u ∈ Q' p -> p = Queue (sem_queue (sem s))) ->
  inv v (Sys (set_lock false (set_lock true (sem s))) w
           (<[t := Waking u]> (pcs s)) (posted s + 1) (taken s)) Q' (u :: G).
Proof.
  intros I Ht Hq [Hu Hnd]%NoDup_cons Hw HQ Hp.
  destruct (sem_idle_away _ _ _ _ _ I Ht) as [Ha Hb].
  assert (Hbu : pcs s u = Blocked false) by (eapply i_queued; [done|]; rewrite Hq; left).
  assert (Hgu : u ∉ G) by (intros H; eapply i_disj; [done| |done]; rewrite Hq; left).
  assert (Hne : t <> u) by congruence.
  assert (Hl : forall x, x ∈ l -> pcs s x = Blocked false /\ x <> u /\ x <> t /\ x ∉ G).
  { intros x Hx. assert (Hbx : pcs s x = Blocked false)
      by (eapply i_queued; [done|]; rewrite Hq; now right).
    split_and!; [done|congruence|congruence|].
    intros Hg. eapply i_disj; [done| |done]. rewrite Hq. now right. }
  open_inv s I. rewrite Hq in *. close_inv;
    try (match goal with H : ?x ∈ Q' _ |- _ => destruct (Hl _ H) as (?&?&?&?) end); try done;
    rewrite ?elem_of_cons in *.
  - destruct_or?; [congruence|eauto].
  - destruct (i_blocked0 t0) as [[->|?]%elem_of_cons|?]; auto.
  - now constructor.
  - auto.
  - auto.
  - match goal with H : pc _ = Waking t |- _ => destruct (i_waking0 _ _ H) end. done.
  - match goal with H : pc _ = Waking t0 |- _ => destruct (i_waking0 _ _ H) end. auto.
  - match goal with H : pc _ = Waking _ |- _ => destruct (i_waking0 _ _ H) end. done.
  - match goal with H : pc _ = Waking _ |- _ => destruct (i_waking0 _ _ H) end. done.
  - destruct_or?; done.
  - destruct_or?; [right; exists t; subst; now rewrite fn_lookup_insert|].
    apply granted_stable; auto. congruence.
  - now discriminate i_idle0.
Qed.

Lemma sem_inv_wake v s Q G t u :
  inv v s Q G -> pcs s t = Waking u ->
  inv v (Sys (sem s) (wq s) (<[u := Woken]> (<[t := Idle]> (pcs s))) (posted s) (taken s)) Q G.
Proof.
  intros I Ht. destruct (i_waking _ _ _ _ I _ _ Ht) as [Hg Hb].
  assert (Hne : t <> u) by congruence.
  open_inv s I. close_inv.
  - exfalso. eauto.
  - match goal with H : t ∈ Q _ |- _ => apply i_queued0 in H end. congruence.
  - match goal with H : pc ?x = Waking u |- _ => assert (x = t) by eauto end. done.
  - match goal with H : pc ?x = Waking t |- _ => destruct (i_waking0 _ _ H) end. congruence.
  - destruct (i_granted0 t) as [|[x Hx]]; [done|congruence|].
    destruct (i_waking0 _ _ Hx). congruence.
  - destruct (i_granted0 t0) as [|[x Hx]]; [done|now left|right]. exists x.
    rewrite !fn_lookup_insert_ne; [done|congruence|congruence].
Qed.

Lemma sem_inv_resume v s Q G1 G2 t :
  inv v s Q (G1 ++ t :: G2) -> pcs s t = Woken ->
  inv v (Sys (sem s) (wq s) (<[t := Idle]> (pcs s)) (posted s) (taken s + 1)) Q (G1 ++ G2).
Proof.
  intros I Ht. assert (Hnd := i_nodup _ _ _ _ I).
  apply NoDup_app in Hnd as (Hn1&Hd&[Hn2 Hn3]%NoDup_cons).
  assert (Hin : forall x, x ∈ G1 ++ t :: G2 <-> x = t \/ x ∈ G1 ++ G2) by set_solver.
  assert (Hnt : t ∉ G1 ++ G2).
  { intros [H|H]%elem_of_app; [|done]. apply (Hd _ H). left. }
  assert (Hlen : length (G1 ++ t :: G2) = S (length (G1 ++ G2)))
    by (rewrite !length_app; cbn; lia).
  open_inv s I. setoid_rewrite Hin in i_disj0. setoid_rewrite Hin in i_blocked0.
  setoid_rewrite Hin in i_woken0. setoid_rewrite Hin in i_waking0.
  setoid_rewrite Hin in i_granted0. rewrite Hlen in i_count0.
  close_inv.
  - match goal with H : t ∈ Q _ |- _ => apply i_queued0 in H end. congruence.
  - destruct (i_blocked0 t0) as [|[|]]; auto; done.
  - apply NoDup_app. split_and!; [done| |done].
    intros x Hx1 Hx2. apply (Hd _ Hx1). now right.
  - destruct (i_woken0 t0); done.
  - match goal with H : pc ?x = Waking t |- _ => destruct (i_waking0 _ _ H) end. congruence.
  - match goal with H : pc ?x = Waking t0 |- _ => destruct (i_waking0 _ _ H) as [[?|?] ?] end; done.
  - apply granted_stable; auto. congruence.
Qed.

(** A post under the invariant: its assertion holds, and it gives the unit to a
    waiter exactly when there is one. *)
Inductive post_outcome s Q : exec (semaphore * M * sem_ending) -> Prop :=
| po_up :
    waiters s Q = [] ->
    post_outcome s Q (Ret (set_lock false (set_value (sem_value (sem s) + 1)
                             (set_lock true (sem s))), wq s, SReturn None))
| po_handoff u l w :
    waiters s Q = u :: l -> wq_rep w (<[Queue (sem_queue (sem s)) := l]> Q) ->
    post_outcome s Q (Ret (set_lock false (set_lock true (sem s)), w, SWake u)).

Lemma post_ok v s Q G :
  inv v s Q G -> sem_value (sem s) < 2 ^ 31 - 1 ->
  post_outcome s Q (__sem_post (sem s) (wq s)).
Proof.
  intros I Hb. assert (Hv := i_value _ _ _ _ I). assert (Hi := i_idle _ _ _ _ I).
  assert (Hh := wq_head_spec _ _ (sem_queue (sem s)) (i_rep _ _ _ _ I)).
  fold (waiters s Q) in Hh. unfold __sem_post. cbn.
  destruct (0 <? sem_value (sem s)) eqn:E.
  - assert (Hq : waiters s Q = []) by (apply Hi; lia). rewrite Hh, Hq. cbn.
    rewrite i32_small by lia. now apply po_up.
  - rewrite Hh. destruct (waiters s Q) as [|u l] eqn:Eq; cbn.
    + replace 1 with (sem_value (sem s) + 1) by lia. now apply po_up.
    + destruct (wq_dequeue_spec _ _ _ [] _ _ (i_rep _ _ _ _ I) Eq) as (w&->&Hw).
      eapply po_handoff; eauto.
Qed.

Lemma wait_step v s Q G t timeout m w e :
  inv v s Q G -> pcs s t = Idle -> timeout = None ->
  __sem_timedwait_enter t timeout (sem s) (wq s) = Ret (m, w, e) ->
  invariant v (Sys m w (<[t := next_pc (is_timed timeout) e]> (pcs s))
                 (posted s) (taken s + success e)).
Proof.
  intros I Ht -> E. assert (Hv := i_value _ _ _ _ I). assert (Hi := i_idle _ _ _ _ I).
  assert (Hc := i_count _ _ _ _ I). unfold __sem_timedwait_enter in E. cbn in E.
  destruct (0 <? sem_value (sem s)) eqn:E0.
  - simplify_eq. exists Q, G. apply (sem_inv_same v s Q G t (sem_value (sem s) - 1));
      try done; cbn; [lia| |lia]. intros _. apply Hi. lia.
  - destruct (wq_enqueue_spec (wq s) Q (sem_queue (sem s)) t) as (w'&Ew&Hw).
    + apply I.
    + intros p Hp. assert (Hx := i_place _ _ _ _ I _ _ Hp). subst.
      now apply (sem_idle_away _ _ _ _ _ I Ht) in Hp.
    + rewrite Ew in E. cbn in E. simplify_eq.
      exists (<[Queue (sem_queue (sem s)) := t :: waiters s Q]> Q), G.
      eapply sem_inv_queue; eauto; [lia|now rewrite fn_lookup_insert|].
      intros p u. rewrite elem_insert. intros [[-> _]|[_ Hu]]; [done|].
      eapply (i_place _ _ _ _ I); eauto.
Qed.

Lemma post_step v s Q G t m w e :
  inv v s Q G -> pcs s t = Idle -> sem_value (sem s) < 2 ^ 31 - 1 ->
  __sem_post (sem s) (wq s) = Ret (m, w, e) ->
  invariant v (Sys m w (<[t := next_pc false e]> (pcs s)) (posted s + 1) (taken s)).
Proof.
  intros I Ht Hb E. assert (H := post_ok _ _ _ _ I Hb). rewrite E in H.
  assert (Hv := i_value _ _ _ _ I). assert (Hc := i_count _ _ _ _ I).
  inversion H as [Hq|u l w' Hq Hw]; subst; cbn.
  - exists Q, G. apply (sem_inv_same v s Q G t (sem_value (sem s) + 1)); try done; lia.
  - exists (<[Queue (sem_queue (sem s)) := l]> Q), (u :: G).
    eapply sem_inv_handoff; eauto.
    + rewrite <- Hq. apply (wq_separated _ _ (i_rep _ _ _ _ I)).
    + now rewrite fn_lookup_insert.
    + intros p x. rewrite elem_insert. intros [[-> _]|[_ Hu]]; [done|].
      eapply (i_place _ _ _ _ I); eauto.
Qed.

Lemma fn_insert_id (f : tid -> pc) t p : f t = p -> forall x, (<[t := p]> f) x = f x.
Proof. intros Hf x. rewrite fn_at. case_decide; congruence. Qed.

(** The invariant does not look at the per-thread functions but pointwise. *)
Lemma inv_pcs v s Q G f :
  inv v s Q G -> (forall t, f t = pcs s t) ->
  inv v (Sys (sem s) (wq s) f (posted s) (taken s)) Q G.
Proof.
  intros I E. destruct I. constructor; unfold waiters in *; cbn;
    try setoid_rewrite E; eauto.
Qed.

Lemma sem_step_invariant v s s' : invariant v s -> step false s s' -> invariant v s'.
Proof.
  intros (Q&G&I) Hs. assert (Hv := i_value _ _ _ _ I). assert (Hi := i_idle _ _ _ _ I).
  assert (Hc := i_count _ _ _ _ I). inversion Hs; subst.
  - destruct H1 as [->|]; [|done]. eapply wait_step; eauto.
  - unfold __sem_trywait in H1. cbn in H1. exists Q, G.
    assert (Hst : exists n, 0 <= n < 2 ^ 31 /\ (0 < n -> waiters s Q = []) /\
              n + (taken s + success (SReturn e)) + Z.of_nat (length G) = v + posted s /\
              m = set_lock false (set_value n (set_lock true (sem s)))).
    { destruct (0 <? sem_value (sem s)) eqn:E0; simplify_eq; cbn.
      - exists (sem_value (sem s) - 1). split_and!; [lia..| |lia|done].
        intros _. apply Hi. lia.
      - exists (sem_value (sem s)). split_and!; [lia..|done|lia|]. now destruct (sem s). }
    destruct Hst as (n&Hn1&Hn2&Hn3&->).
    assert (I' := sem_inv_same v s Q G t n _ _ I H Hn1 Hn2 Hn3).
    apply (inv_pcs _ _ _ _ (pcs s)) in I'; [exact I'|].
    intros x. cbn. symmetry. now apply fn_insert_id.
  - eapply post_step; eauto.
  - exists Q, G. now apply sem_inv_wake.
  - assert (Hg := i_woken _ _ _ _ I _ H). apply list_elem_of_split in Hg as (G1&G2&->).
    exists Q, (G1 ++ G2). now apply sem_inv_resume.
  - now apply (i_untimed _ _ _ _ I) in H.
  - now apply (i_not_timed _ _ _ _ I) in H.
Qed.

Lemma sem_reachable_invariant v s : reachable false v s -> invariant v s.
Proof.
  intros (s0&H0&Hr). apply sem_initial_inv in H0.
  induction Hr as [|s1 s2 s3 Hs _ IH]; eauto using sem_step_invariant.
Qed.

(** ** Correctness of untimed use *)


(** No wakeup is lost. A thread that sleeps in a wait either has a wakeup on
    its way, or is queued while the value is 0 and the spin lock free, and then
    the next post hands its unit to a queued thread: its assertion holds and it
    does not touch the value. *)
Theorem sem_no_lost_wakeup v s t b :
  reachable false v s -> pcs s t = Blocked b ->
  (exists u, pcs s u = Waking t) \/
  (sem_lock (sem s) = false /\ sem_value (sem s) = 0 /\
   exists m w u, __sem_post (sem s) (wq s) = Ret (m, w, SWake u) /\
     sem_value m = 0 /\ sem_lock m = false /\ exists b', pcs s u = Blocked b').
Proof.
  intros (Q&G&I)%sem_reachable_invariant Ht. assert (Hv := i_value _ _ _ _ I).
  assert (b = false) as -> by (destruct b; [now apply (i_untimed _ _ _ _ I) in Ht|done]).
  destruct (i_blocked _ _ _ _ I _ Ht) as [Hin|Hg].
  - right. assert (H0 : sem_value (sem s) = 0).
    { destruct (decide (sem_value (sem s) = 0)); [done|].
      rewrite (i_idle _ _ _ _ I) in Hin by lia. now apply not_elem_of_nil in Hin. }
    split_and!; [apply I|done|].
    destruct (post_ok _ _ _ _ I) as [Hq|u l w Hq Hw]; [lia| |].
    + rewrite Hq in Hin. now apply not_elem_of_nil in Hin.
    + eexists _, _, u. split_and!; [reflexivity|done|done|]. exists false.
      apply (i_queued _ _ _ _ I). rewrite Hq. left.
  - left. destruct (i_granted _ _ _ _ I _ Hg) as [H|H]; [congruence|done].
Qed.

End invariant.

(** ** A concrete run: two waits on an empty semaphore, then a post *)

Import PtQueue.

Definition sample : sys qmem :=
  Sys (Sem false 0 0 0) empty_qmem (fun _ => Idle) 0 0.

Definition do_wait (s : sys qmem) (t : tid) : sys qmem :=
  match __sem_wait t (sem s) (wq s) with
  | Ret (m, w, e) =>
      Sys m w (<[t := next_pc false e]> (pcs s)) (posted s) (taken s + success e)
  | Crash _ => s
  end.

Definition waiting : sys qmem := do_wait (do_wait sample 1) 2.

Lemma do_wait_reachable v s t :
  reachable false v s -> pcs s t = Idle -> sem_lock (sem s) = false ->
  (exists r, __sem_wait t (sem s) (wq s) = Ret r) -> reachable false v (do_wait s t).
Proof.
  intros (s0&H0&Hr) Ht Hl [[[m w] e] E]. exists s0. split; [done|].
  eapply rtc_r; [done|]. unfold do_wait. rewrite E.
  apply (step_wait false s t None m w e); auto.
Qed.

Lemma waiting_reachable : reachable false 0 waiting.
Proof.
  unfold waiting.
  do 2 (apply do_wait_reachable; [|reflexivity|reflexivity|eexists; reflexivity]).
  exists sample. split; [|done]. constructor; try done; [now exists 0|apply empty_rep].
Qed.


Theorem sem_no_lost_wakeup_witness :
  (exists u, pcs waiting u = Waking 1) \/
  (sem_lock (sem waiting) = false /\ sem_value (sem waiting) = 0 /\
   exists m w u, __sem_post (sem waiting) (wq waiting) = Ret (m, w, SWake u) /\
     sem_value m = 0 /\ sem_lock m = false /\ exists b', pcs waiting u = Blocked b').
Proof. exact (sem_no_lost_wakeup 0 waiting 1 false waiting_reachable eq_refl). Defined.

End PtSem.
